(* ===== verification/_CoqProject ===== *)
-Q . S2P
Prelude.v
Text.v
Disk.v
Segment.v
Wal.v
WalInv.v
WalAppend.v
WalRead.v
WalProps.v
Recovery.v
Writer.v
WalDir.v
Circuit.v
Channel.v
Drainer.v
Output.v
Delivery.v
Wire.v
Aggregator.v
Config.v
Startup.v
Lives.v
ChWriter.v
Ingest.v
F64.v
Cgroup.v
Quantity.v
Attribution.v
Delays.v
Sampler.v
Agent.v
AgentInv.v
AgentProps.v
Cache.v
Sql.v
Dashboard.v
Router.v
Lifecycle.v
System.v
Backlog.v
Kernel.v
Execs.v
EndToEnd.v
Boot.v
WalTests.v
AgentTests.v
GatewayTests.v
