(* ===== verification/Prelude.v ===== *)
(** * Statix: a verification library

    Statix measures what the workloads of a Kubernetes node use.  An eBPF program
    reports every exec through a ring buffer; the agent ([statix/src]) joins these
    events with periodic readings of the cgroup file system, aggregates them per
    cgroup over a time window and posts each window as a JSON batch; the gateway
    ([statix-gateway/src]) stores the rows in ClickHouse and serves a dashboard.
    When the gateway is away, the agent keeps batches in a bounded queue and
    spills to a write-ahead log on disk, which a drainer replays later.

    This library models the program as Rocq definitions, file by file, and proves
    what makes each part correct and what the parts guarantee together.

    ** Conventions

    An unsigned [w]-bit integer is a [Z]; [wrapping_add], [saturating_sub] and
    their like write out what the Rust operation does, and [urange w] is the range
    of the type.  Release-build arithmetic is modelled: it wraps.  Bytes are a
    [list Z], a Rust [str] is the [string] of its UTF-8 bytes, a [HashMap] is a
    [gmap] and an order of iteration the program depends on is a parameter or
    is compared up to permutation.  Code that touches files is written in a state
    and error monad ([M], with weakest preconditions [wp]); code that shares state
    between tasks is a step function over the events that interleave.  What comes
    from outside (the kernel, clocks, random bytes, HTTP answers, ClickHouse) is an
    argument of the definition that reads it.

    ** The agent: delivery

    - [Disk]: files, system calls with a script of failures, [fdatasync].
    - [Segment] ([wal/segment.rs]): segment names, headers, the frame codec.
    - [Wal] ([wal/mod.rs]): [append], [rotate], [enforce_cap], [peek_next],
      [commit_pending], [recover_active_after_error].  [WalInv] has the
      representation invariant, [WalAppend] and [WalRead] the lemmas of the two
      sides, [WalProps] the abstract queue and the refinement theorem.
    - [Recovery] ([wal/recovery.rs]) and [Writer] ([wal/writer.rs]): the start-up
      scan, the group commit, crashes and power failures.
    - [Circuit] ([wal/mod.rs]), [Channel] (the bounded queues, an interface),
      [Drainer] ([wal/drainer.rs]) and [Output] ([output.rs]): the circuit breaker,
      the replay, [enqueue_batch_json] and the retry worker.
    - [Delivery] puts these tasks together on their shared state, and [Startup] has
      [init_retry_worker], [init_wal], [Wal::open] and [init_http_client].

    The theorems: the log refines a queue that drops only its oldest frames and
    counts them, for every script of disk failures; a frame survives a torn write
    and, once committed, a power failure; every operation returns within its
    rounds; a batch handed to the delivery tasks is settled, waiting, or reported
    as lost, in every interleaving and across a restart.

    ** The agent: measurement

    - [Wire] ([statix-common], [statix-wire]): the 64-byte record and the JSON batch.
    - [Kernel] ([statix-ebpf/src/main.rs], the monitor in [loader.rs],
      [ebpf_select.rs]): the eBPF program on interleaved CPUs.
    - [Aggregator] ([aggregator.rs]): the double-buffered window.
    - [Cgroup], [Quantity], [Attribution] ([attribution/mod.rs]): kernel files and
      cgroup names, resource quantities (on the binary64 arithmetic of [F64]), and
      the cache that maps a cgroup to its pod.
    - [Sampler] ([memory_sampler.rs]): the periodic readings.
    - [Agent] ([main.rs], the rest of [output.rs]): the event loop; [AgentInv] has
      its typing invariant, [AgentProps] and [Execs] its theorems.

    The theorems: no event is lost or counted twice by the two buffers; the labels
    of every tracked cgroup are the ones its path and the known pods imply; CPU time
    is conserved from the kernel's counter to the batches, and execs from the
    tracepoint to the batches, with every loss counted; every number fits its wire
    field; and a ready gateway stores exactly the rows the agent emitted.

    ** The gateway

    - [Config] ([statix-infra/src/env.rs], the [from_env] functions): settings.
    - [ChWriter] ([clickhouse_writer.rs]): batching, bounded retries, the drain.
    - [Ingest] ([routes/ingest.rs], the probes of [main.rs]): the write path.
    - [Cache], [Sql], [Dashboard] ([routes/dashboard/], [routes/query.rs]): the
      response cache, the request cap, the query texts and the handlers.

    The theorems: a request is all or nothing and its status says which; the writer
    settles every row it receives; a cached answer is one ClickHouse gave to the
    same question and is fresh; the request cap holds over every interval; no
    environment yields unusable settings.

    ** Interfaces

    [Crc32] (the checksum, any function into 32 bits), [Channel] and
    [PermitChannel] (tokio's bounded queues: first in first out, [try_send] fails
    when full or closed), [EventRing] (the kernel's ring buffer: slots are read in
    the order of their reservation), [Attribution] (what the aggregator needs of the
    label cache), [KernelFiles] and [CgroupFs] (the answers of the cgroup file
    system), [UuidText] (how the [uuid] crate prints 16 bytes).  Each has a concrete instance
    the witnesses run on.  Two more hypotheses are named where they are used: what
    [serde_json] serializes it parses back, and the status classes of the [http]
    crate.

    ** Fuel and bounds

    [peek_next] runs at most one round per segment and [enforce_cap] one per
    segment, which is proved enough; a reader loop has one round per byte it wants
    and one per failure in the script; [walk_frames] has one round per byte of the
    file, and every frame takes at least 16; the drainer has one round per free slot
    of the retry queue; the ClickHouse writer has one round per row and one to
    stop; an insert is tried 5 times.  The
    theorems about them say that the result is reached, not only what it is.  The
    hypotheses [margin] (64-bit byte and sequence counters have room, far above
    any disk) and [payload_ok] (a batch of at most 16 MiB) bound the log.

    ** Not modelled

    Process set-up that only connects the parts: privileges and rlimits
    ([bpf_memlock.rs]), exporters, routing, spawning tasks, the gateway's shutdown
    sequence and [error.rs]; loading and attaching the eBPF program ([loader.rs],
    [verify_ebpf.rs]), which are calls into aya; the Kubernetes client's connection
    and its retry delays (the watcher is the sequence of its events); JSON text
    below the value tree, HTTP, ClickHouse and the meaning of its SQL, which are
    libraries and services; histograms and the length of random delays, on which
    nothing depends.  Interleavings are of whole turns of the tasks between their
    await points or under their locks, as the program's locks and the
    single-threaded loop impose; the relaxed memory order of the atomics is not
    modelled. *)

From Stdlib Require Export ZArith Lia.
From stdpp Require Export sorting base numbers option gmap strings tactics list.

#[global] Open Scope Z_scope.

(** ** Notations and generic tactics *)

Declare Scope statix_scope.
Delimit Scope statix_scope with statix.
#[global] Open Scope statix_scope.

(** Length of a byte buffer or of any list as an unbounded integer, the way
    the program compares [len()] with its [u64] and [usize] quantities. *)
Abbreviation zlen l := (Z.of_nat (length l)).

(** [len_lia] closes arithmetic goals that mention list lengths, after the
    length equations have been used. *)
Ltac len_simpl :=
  repeat first [ rewrite length_app in * | rewrite length_take in *
               | rewrite length_drop in * | rewrite length_cons in *
               | rewrite length_nil in * | rewrite length_replicate in *
               | rewrite length_fmap in * ].

Ltac len_lia := len_simpl; simpl in *; lia.

(** Case analysis on every [decide]/[bool_decide]/Boolean comparison of the
    goal or the hypotheses, with the contradictory branches closed. *)
Ltac bool_cases :=
  repeat match goal with
         | |- context [if ?b then _ else _] =>
             lazymatch b with
             | decide _ => case_decide
             | bool_decide _ => case_bool_decide
             | context [if _ then _ else _] => fail
             | context [match _ with _ => _ end] => fail
             | _ => let E := fresh "E" in destruct b eqn:E
             end
         | H : context [if ?b then _ else _] |- _ =>
             lazymatch b with
             | decide _ => case_decide
             | bool_decide _ => case_bool_decide
             | context [if _ then _ else _] => fail
             | context [match _ with _ => _ end] => fail
             | _ => let E := fresh "E" in destruct b eqn:E
             end
         end.

(** Case analysis on every [if] of the goal, conditions kept. *)
Ltac destruct_ifs :=
  repeat match goal with |- context [if ?b then _ else _] => destruct b end.

Ltac zb :=
  repeat match goal with
         | H : (_ <? _) = true |- _ => apply Z.ltb_lt in H
         | H : (_ <? _) = false |- _ => apply Z.ltb_ge in H
         | H : (_ <=? _) = true |- _ => apply Z.leb_le in H
         | H : (_ <=? _) = false |- _ => apply Z.leb_gt in H
         | H : (_ =? _) = true |- _ => apply Z.eqb_eq in H
         | H : (_ =? _) = false |- _ => apply Z.eqb_neq in H
         | H : (_ >? _) = true |- _ => rewrite Z.gtb_ltb in H
         | H : (_ >? _) = false |- _ => rewrite Z.gtb_ltb in H
         | H : (_ >=? _) = true |- _ => rewrite Z.geb_leb in H
         | H : (_ >=? _) = false |- _ => rewrite Z.geb_leb in H
         | H : (_ && _)%bool = true |- _ => apply andb_prop in H as [? ?]
         | H : negb _ = true |- _ => apply negb_true_iff in H
         | H : negb _ = false |- _ => apply negb_false_iff in H
         end.

(** ** Machine integers

    A [w]-bit unsigned integer is a [Z] in [0 .. 2^w - 1].  [usize] is 64 bits
    on every target the program is built for.  Plain [+] and [*] wrap, as they
    do in the release profile. *)

Definition umax (w : Z) : Z := 2 ^ w - 1.
Definition wrap (w x : Z) : Z := x mod 2 ^ w.
Definition wrapping_add (w x y : Z) : Z := wrap w (x + y).
Definition wrapping_mul (w x y : Z) : Z := wrap w (x * y).
Definition saturating_add (w x y : Z) : Z := Z.min (x + y) (umax w).
Definition saturating_mul (w x y : Z) : Z := Z.min (x * y) (umax w).
Definition saturating_sub (x y : Z) : Z := Z.max (x - y) 0.
Definition clamp (x lo hi : Z) : Z := Z.max lo (Z.min x hi).

Definition urange (w x : Z) : Prop := 0 <= x < 2 ^ w.

#[export] Instance urange_dec w x : Decision (urange w x).
Proof. unfold urange. apply _. Defined.

Create HintDb statix.
Create Rewrite HintDb statix_len.
Create Rewrite HintDb statix_metric.

Lemma wrap_small w x : urange w x -> wrap w x = x.
Proof. intros. by apply Z.mod_small. Qed.

Lemma wrapping_add_small w x y : 0 <= x + y < 2 ^ w -> wrapping_add w x y = x + y.
Proof. intros. by apply Z.mod_small. Qed.

Lemma wrap_range w x : 0 <= w -> urange w (wrap w x).
Proof. intros. apply Z.mod_pos_bound. lia. Qed.

Lemma saturating_add_small w x y : x + y <= umax w -> saturating_add w x y = x + y.
Proof. unfold saturating_add. lia. Qed.

Lemma clamp_bounds x lo hi : lo <= hi -> lo <= clamp x lo hi <= hi.
Proof. unfold clamp. lia. Qed.

#[export] Hint Resolve wrap_small wrapping_add_small wrap_range : statix.

(** ** Little-endian byte strings *)

(** [to_le_bytes] of an [n]-byte integer. *)
Fixpoint le_bytes (n : nat) (x : Z) : list Z :=
  match n with
  | O => []
  | S n => x mod 256 :: le_bytes n (x / 256)
  end.

(** [from_le_bytes] of a byte array. *)
Fixpoint from_le (bs : list Z) : Z :=
  match bs with
  | [] => 0
  | b :: bs => b + 256 * from_le bs
  end.

Lemma length_le_bytes n x : length (le_bytes n x) = n.
Proof. revert x. induction n; intros; simpl; auto. Qed.

#[export] Hint Rewrite length_le_bytes : statix_len.

Lemma from_le_bytes n x : from_le (le_bytes n x) = x mod 256 ^ Z.of_nat n.
Proof.
  revert x. induction n as [|n IH]; intros x.
  - simpl. by rewrite Z.mod_1_r.
  - cbn [le_bytes from_le]. rewrite IH.
    replace (Z.of_nat (S n)) with (1 + Z.of_nat n) by lia.
    rewrite Z.pow_add_r, Z.pow_1_r by lia.
    by rewrite Z.rem_mul_r by lia.
Qed.

Lemma from_le_bytes_small n w x :
  w = 8 * Z.of_nat n -> urange w x -> from_le (le_bytes n x) = x.
Proof.
  intros -> Hx. rewrite from_le_bytes. apply Z.mod_small.
  unfold urange in Hx. rewrite Z.pow_mul_r in Hx by lia. exact Hx.
Qed.

Definition byte_ok (b : Z) : Prop := 0 <= b < 256.

Lemma le_bytes_ok n x : Forall byte_ok (le_bytes n x).
Proof.
  revert x. induction n; intros; simpl; constructor; auto.
  apply Z.mod_pos_bound. lia.
Qed.

Lemma le_bytes_from bs : Forall byte_ok bs -> le_bytes (length bs) (from_le bs) = bs.
Proof.
  unfold byte_ok. induction 1 as [|b bs Hb _ IH]; [done|].
  cbn [length from_le le_bytes]. rewrite (Z.mul_comm 256).
  rewrite Z.mod_add, Z.div_add, Z.mod_small, Z.div_small by lia.
  by rewrite Z.add_0_l, IH.
Qed.

#[global] Arguments le_bytes : simpl never.
#[global] Arguments from_le : simpl never.

(** ** Results and the state-and-error monad

    A fallible operation on a mutable receiver keeps the receiver's new value
    whether it succeeds or fails, as [&mut self] methods returning
    [io::Result] do. *)

Inductive res (E A : Type) : Type :=
| Ok (a : A)
| Err (e : E).
Arguments Ok {E A} a.
Arguments Err {E A} e.

Definition is_ok {E A} (r : res E A) : bool :=
  match r with Ok _ => true | Err _ => false end.

Definition M (S E A : Type) : Type := S -> res E A * S.

Global Instance M_ret {S E} : MRet (M S E) := fun A a s => (Ok a, s).
Global Instance M_bind {S E} : MBind (M S E) := fun A B f m s =>
  match m s with
  | (Ok a, s') => f a s'
  | (Err e, s') => (Err e, s')
  end.

Section Monad.
Context {S E : Type}.

Definition gets {A} (f : S -> A) : M S E A := fun s => (Ok (f s), s).
Definition modify (f : S -> S) : M S E unit := fun s => (Ok tt, f s).
Definition fail {A} (e : E) : M S E A := fun s => (Err e, s).

(** [let _ = op;] and [match op { Ok(..) .. Err(..) .. }]: the result is a
    value and the error does not propagate. *)
Definition attempt {A} (m : M S E A) : M S E (res E A) :=
  fun s => let '(r, s') := m s in (Ok r, s').

Definition when (b : bool) (m : M S E unit) : M S E unit :=
  if b then m else mret tt.

(** Run an operation of a component of the state. *)
Definition zoom {T A} (get : S -> T) (set : T -> S -> S) (m : M T E A) : M S E A :=
  fun s => let '(r, t) := m (get s) in (r, set t s).

Lemma bind_ret {A B} (a : A) (k : A -> M S E B) s : (mret a ≫= k) s = k a s.
Proof. done. Qed.

Lemma bind_ok {A B} (m : M S E A) (k : A -> M S E B) s a s' :
  m s = (Ok a, s') -> (m ≫= k) s = k a s'.
Proof. intros H. unfold mbind, M_bind. by rewrite H. Qed.

Lemma bind_err {A B} (m : M S E A) (k : A -> M S E B) s e s' :
  m s = (Err e, s') -> (m ≫= k) s = (Err e, s').
Proof. intros H. unfold mbind, M_bind. by rewrite H. Qed.

Lemma attempt_eq {A} (m : M S E A) s : attempt m s = (Ok (m s).1, (m s).2).
Proof. unfold attempt. by destruct (m s). Qed.
End Monad.

(** Inversion of a sequence that succeeded. *)
Lemma bind_inv {S E A B} (m : M S E A) (k : A -> M S E B) s r s' :
  (m ≫= k) s = (r, s') ->
  (exists e, m s = (Err e, s') /\ r = Err e) \/
  (exists a s1, m s = (Ok a, s1) /\ k a s1 = (r, s')).
Proof.
  unfold mbind, M_bind. destruct (m s) as [[a|e] s1]; intros H.
  - right. eauto.
  - left. inv H. eauto.
Qed.

(** Weakest preconditions: [wp m Q s] says that [m], run in [s], ends in a
    result and a state that satisfy [Q].  The rules below step through a
    program; [wp_step] applies them. *)
Definition wp {S E A} (m : M S E A) (Q : res E A -> S -> Prop) (s : S) : Prop :=
  Q (m s).1 (m s).2.

Section WP.
Context {S E : Type}.

Lemma wp_eq {A} (m : M S E A) Q s r s' : m s = (r, s') -> wp m Q s -> Q r s'.
Proof. unfold wp. by intros ->. Qed.

Lemma wp_bind {A B} (m : M S E A) (k : A -> M S E B) Q s :
  wp m (fun r s' => match r with Ok a => wp (k a) Q s' | Err e => Q (Err e) s' end) s ->
  wp (m ≫= k) Q s.
Proof. unfold wp, mbind, M_bind. destruct (m s) as [[a|e] s']; simpl; done. Qed.

Lemma wp_ret {A} (a : A) (Q : res E A -> S -> Prop) s : Q (Ok a) s -> wp (mret a) Q s.
Proof. done. Qed.

Lemma wp_gets {A} (f : S -> A) (Q : res E A -> S -> Prop) s : Q (Ok (f s)) s -> wp (gets f) Q s.
Proof. done. Qed.

Lemma wp_modify (f : S -> S) (Q : res E unit -> S -> Prop) s :
  Q (Ok tt) (f s) -> wp (modify f) Q s.
Proof. done. Qed.

Lemma wp_fail {A} (e : E) (Q : res E A -> S -> Prop) s : Q (Err e) s -> wp (fail e) Q s.
Proof. done. Qed.

Lemma wp_attempt {A} (m : M S E A) (Q : res E (res E A) -> S -> Prop) s :
  wp m (fun r s' => Q (Ok r) s') s -> wp (attempt m) Q s.
Proof. unfold wp, attempt. by destruct (m s). Qed.

Lemma wp_zoom {T A} (get : S -> T) set (m : M T E A) (Q : res E A -> S -> Prop) s :
  wp m (fun r t => Q r (set t s)) (get s) -> wp (zoom get set m) Q s.
Proof. unfold wp, zoom. by destruct (m (get s)). Qed.

Lemma wp_when (b : bool) (m : M S E unit) Q s :
  (b = true -> wp m Q s) -> (b = false -> Q (Ok tt) s) -> wp (when b m) Q s.
Proof. destruct b; intros H1 H2; [by apply H1|by apply wp_ret, H2]. Qed.

Lemma wp_mono {A} (m : M S E A) (Q Q' : res E A -> S -> Prop) s :
  wp m Q s -> (forall r s', Q r s' -> Q' r s') -> wp m Q' s.
Proof. unfold wp. auto. Qed.
End WP.

Ltac wp_step :=
  first [ apply wp_bind | apply wp_ret | apply wp_gets | apply wp_modify | apply wp_fail
        | apply wp_attempt | apply wp_zoom ].

(** ** List lemmas *)

Section Lists.
Context {A : Type}.
Implicit Types l : list A.

(** [back_mut]: apply [f] to the last element, if there is one. *)
Fixpoint update_back (f : A -> A) (l : list A) : list A :=
  match l with
  | [] => []
  | [x] => [f x]
  | x :: l => x :: update_back f l
  end.

Lemma update_back_snoc f l x : update_back f (l ++ [x]) = l ++ [f x].
Proof.
  induction l as [|y l IH]; [done|]. simpl. rewrite IH. by destruct l.
Qed.

Lemma length_update_back f l : length (update_back f l) = length l.
Proof.
  induction l as [|x l IH]; [done|]. destruct l; [done|]. simpl in *. lia.
Qed.

Lemma take_drop_middle_app n l1 l2 l3 :
  length l1 = n -> drop n (l1 ++ l2 ++ l3) = l2 ++ l3.
Proof. intros <-. by rewrite drop_app_length. Qed.

Lemma take_app_exact n l1 l2 : length l1 = n -> take n (l1 ++ l2) = l1.
Proof. intros <-. by rewrite take_app_length. Qed.

Lemma drop_app_exact n l1 l2 : length l1 = n -> drop n (l1 ++ l2) = l2.
Proof. intros <-. by rewrite drop_app_length. Qed.
End Lists.

Lemma filter_none {A} (P : A -> Prop) `{!forall x, Decision (P x)} (l : list A) :
  Forall (fun x => ~ P x) l -> filter P l = [].
Proof. induction 1 as [|x l Hx _ IH]; [done|]. by rewrite filter_cons_False. Qed.

Definition sumZ {A} (f : A -> Z) (l : list A) : Z := foldr (fun x acc => f x + acc) 0 l.

Lemma sumZ_cons {A} (f : A -> Z) x l : sumZ f (x :: l) = f x + sumZ f l.
Proof. done. Qed.

Lemma sumZ_app {A} (f : A -> Z) l1 l2 : sumZ f (l1 ++ l2) = sumZ f l1 + sumZ f l2.
Proof. unfold sumZ. induction l1; simpl; [done|]. lia. Qed.

Lemma sumZ_nonneg {A} (f : A -> Z) l : Forall (fun x => 0 <= f x) l -> 0 <= sumZ f l.
Proof. unfold sumZ. induction 1; simpl; lia. Qed.

(** ** Metrics

    The [metrics] registry the program records into: one number per name. *)

Abbreviation metrics := (gmap string Z).

Definition metric (m : metrics) (name : string) : Z := default 0 (m !! name).
Definition counter_add (name : string) (n : Z) (m : metrics) : metrics :=
  <[name := metric m name + n]> m.
Definition gauge_set (name : string) (v : Z) (m : metrics) : metrics := <[name := v]> m.

Lemma metric_counter_add_eq name n m : metric (counter_add name n m) name = metric m name + n.
Proof. unfold metric, counter_add. by rewrite lookup_insert_eq. Qed.

Lemma metric_counter_add_ne name name' n m :
  name <> name' -> metric (counter_add name n m) name' = metric m name'.
Proof. intros. unfold metric, counter_add. by rewrite lookup_insert_ne. Qed.

Lemma metric_gauge_set_ne name name' v m :
  name <> name' -> metric (gauge_set name v m) name' = metric m name'.
Proof. intros. unfold metric, gauge_set. by rewrite lookup_insert_ne. Qed.

#[export] Hint Rewrite @metric_counter_add_eq : statix_metric.
#[export] Hint Rewrite @metric_counter_add_ne @metric_gauge_set_ne using done : statix_metric.
