(* ===== verification/Text.v ===== *)
(** * Text: the string operations of the Rust standard library the program uses

    A Rust [str] is modelled by the bytes of its UTF-8 encoding, an Rocq
    [string].  The file holds prefix and suffix stripping, splitting, trimming,
    decimal formatting with zero padding, and [str::parse] for unsigned
    integers, each with the lemmas its users need. *)

From Stdlib Require Export Ascii.
From stdpp Require Export pretty.
From S2P Require Export Prelude.

#[local] Open Scope string_scope.
#[local] Open Scope Z_scope.

(** ** Prefixes, suffixes and splitting *)

Fixpoint strip_prefix (p s : string) : option string :=
  match p, s with
  | EmptyString, _ => Some s
  | String a p, String b s => if Ascii.eqb a b then strip_prefix p s else None
  | String _ _, EmptyString => None
  end.

Fixpoint strip_suffix (suf s : string) : option string :=
  if String.eqb s suf then Some ""
  else match s with
       | EmptyString => None
       | String c s => String c <$> strip_suffix suf s
       end.

Definition starts_with (p s : string) : bool := bool_decide (is_Some (strip_prefix p s)).

(** [split_once]: around the first occurrence of [sep]. *)
Fixpoint split_once (sep s : string) : option (string * string) :=
  match strip_prefix sep s with
  | Some rest => Some ("", rest)
  | None =>
      match s with
      | EmptyString => None
      | String c s => (fun '(a, b) => (String c a, b)) <$> split_once sep s
      end
  end.

(** [rsplit(c).next()]: the segment after the last [c], or all of [s]. *)
Fixpoint rsplit_next (c : ascii) (s : string) : string :=
  match s with
  | EmptyString => ""
  | String d s' =>
      if Ascii.eqb c d then rsplit_next c s'
      else if existsb (Ascii.eqb c) (String.list_ascii_of_string s') then rsplit_next c s' else s
  end.

(** The bytes of a text. *)
Definition text_bytes (s : string) : list Z := (fun c => Z.of_nat (nat_of_ascii c)) <$> String.list_ascii_of_string s.

(** [lines()]: split at ['\n'], dropping one trailing ['\r'] of each line and
    the empty piece after a final newline. *)
Definition newline : ascii := ascii_of_nat 10.
Definition carriage_return : ascii := ascii_of_nat 13.

Definition strip_cr (s : string) : string :=
  default s (strip_suffix (String carriage_return "") s).

Fixpoint lines_acc (cur s : string) : list string :=
  match s with
  | EmptyString => match cur with EmptyString => [] | _ => [cur] end
  | String c s =>
      if Ascii.eqb c newline then strip_cr cur :: lines_acc "" s
      else lines_acc (cur ++ String c "") s
  end.
Definition str_lines (s : string) : list string := lines_acc "" s.

(** ** Trimming

    [char::is_whitespace] is the Unicode White_Space property; the list holds
    the UTF-8 encodings of its 25 characters. *)
Definition utf8 (bs : list nat) : string :=
  String.string_of_list_ascii (ascii_of_nat <$> bs).

Definition whitespace : list string :=
  ((fun n => utf8 [n]%nat) <$> [9; 10; 11; 12; 13; 32]%nat)
  ++ ((fun n => utf8 [194; n]%nat) <$> [133; 160]%nat)
  ++ [utf8 [225; 154; 128]%nat]
  ++ ((fun n => utf8 [226; 128; n]%nat)
        <$> [128; 129; 130; 131; 132; 133; 134; 135; 136; 137; 138; 168; 169; 175]%nat)
  ++ [utf8 [226; 129; 159]%nat; utf8 [227; 128; 128]%nat].

Definition strip_any (strip : string -> string -> option string) (s : string) : option string :=
  foldr (fun w acc => match strip w s with Some r => Some r | None => acc end) None whitespace.

Fixpoint trim_with (strip : string -> string -> option string) (fuel : nat) (s : string) : string :=
  match fuel with
  | O => s
  | S fuel => match strip_any strip s with
              | Some r => trim_with strip fuel r
              | None => s
              end
  end.

Definition trim_start (s : string) : string := trim_with strip_prefix (String.length s) s.
Definition trim_end (s : string) : string := trim_with strip_suffix (String.length s) s.
Definition trim (s : string) : string := trim_end (trim_start s).

(** ** ASCII case *)

Definition ascii_between (lo hi : nat) (c : ascii) : bool :=
  ((lo <=? nat_of_ascii c) && (nat_of_ascii c <=? hi))%nat.

Definition to_ascii_lower_char (c : ascii) : ascii :=
  if ascii_between 65 90 c then ascii_of_nat (nat_of_ascii c + 32) else c.

Fixpoint to_ascii_lowercase (s : string) : string :=
  match s with
  | EmptyString => ""
  | String c s => String (to_ascii_lower_char c) (to_ascii_lowercase s)
  end.

Definition is_ascii_hexdigit (c : ascii) : bool :=
  (ascii_between 48 57 c || ascii_between 65 70 c || ascii_between 97 102 c)%bool.

(** ** Decimal numbers *)

Definition digit_char (d : Z) : ascii := ascii_of_nat (Z.to_nat (48 + d)).

Definition char_digit (c : ascii) : option Z :=
  if ascii_between 48 57 c then Some (Z.of_nat (nat_of_ascii c) - 48) else None.

(** [format!("{n:0w$}")] for a number of at most [w] digits. *)
Fixpoint dec_fixed (w : nat) (n : Z) : string :=
  match w with
  | O => ""
  | S w => dec_fixed w (n / 10) ++ String (digit_char (n mod 10)) ""
  end.

(** [format!("{n}")] for a number of at most 20 digits, as [u64] has. *)
Fixpoint strip_zeros (s : string) : string :=
  match s with
  | String c (String _ _ as s') => if Ascii.eqb c "0" then strip_zeros s' else s
  | _ => s
  end.
Definition dec (n : Z) : string := strip_zeros (dec_fixed 20 n).

(** [str::parse] for a [w]-bit unsigned integer: an optional ['+'], at least
    one digit, and an error on overflow. *)
Fixpoint parse_digits (w acc : Z) (s : string) : option Z :=
  match s with
  | EmptyString => Some acc
  | String c s =>
      match char_digit c with
      | None => None
      | Some d => let acc' := acc * 10 + d in
                  if acc' <? 2 ^ w then parse_digits w acc' s else None
      end
  end.

Definition parse_uint (w : Z) (s : string) : option Z :=
  match s with
  | EmptyString => None
  | String c s' =>
      let digits := if Ascii.eqb c "+" then s' else s in
      match digits with
      | EmptyString => None
      | _ => parse_digits w 0 digits
      end
  end.

(** ** Lemmas *)

#[local] Arguments String.append !_ _ : simpl nomatch.

Lemma strip_prefix_app p s : strip_prefix p (p ++ s) = Some s.
Proof. induction p as [|c p IH]; [by destruct s|]. simpl. by rewrite Ascii.eqb_refl. Qed.

Lemma strip_prefix_Some p s r : strip_prefix p s = Some r -> s = p ++ r.
Proof.
  revert s. induction p as [|a p IH]; intros [|b s] H; simpl in *; try by simplify_eq.
  destruct (Ascii.eqb_spec a b) as [->|]; [|done]. by rewrite (IH _ H).
Qed.

Lemma string_app_nil_r (s : string) : s ++ "" = s.
Proof. induction s; simpl; congruence. Qed.

Lemma string_app_assoc (a b c : string) : a ++ (b ++ c) = (a ++ b) ++ c.
Proof. induction a; simpl; congruence. Qed.

Lemma string_length_app (a b : string) :
  String.length (a ++ b) = (String.length a + String.length b)%nat.
Proof. induction a; simpl; congruence. Qed.

Lemma strip_suffix_app s suf : strip_suffix suf (s ++ suf) = Some s.
Proof.
  induction s as [|c s IH].
  - change ("" ++ suf) with suf. destruct suf as [|c suf]; [done|].
    cbn [strip_suffix]. by rewrite String.eqb_refl.
  - change (String c s ++ suf) with (String c (s ++ suf)). cbn [strip_suffix].
    destruct (String.eqb_spec (String c (s ++ suf)) suf) as [E|E].
    + exfalso. apply (f_equal String.length) in E. simpl in E.
      rewrite string_length_app in E. lia.
    + by rewrite IH.
Qed.

Lemma strip_suffix_Some suf s r : strip_suffix suf s = Some r -> s = r ++ suf.
Proof.
  revert r. induction s as [|c s IH]; intros r; cbn [strip_suffix].
  - destruct (String.eqb_spec "" suf) as [<-|]; intros; by simplify_eq.
  - destruct (String.eqb_spec (String c s) suf) as [<-|]; [intros; by simplify_eq|].
    intros (r' & H & ->)%fmap_Some. simpl. f_equal. by apply IH.
Qed.

Lemma digit_char_digit d : 0 <= d < 10 -> char_digit (digit_char d) = Some d.
Proof.
  intros Hd. assert (d = 0 \/ d = 1 \/ d = 2 \/ d = 3 \/ d = 4 \/ d = 5 \/ d = 6
                     \/ d = 7 \/ d = 8 \/ d = 9) as H by lia.
  by repeat (destruct H as [->|H]; [reflexivity|]); subst.
Qed.

Lemma digit_char_not_plus d : 0 <= d < 10 -> Ascii.eqb (digit_char d) "+" = false.
Proof.
  intros Hd. assert (d = 0 \/ d = 1 \/ d = 2 \/ d = 3 \/ d = 4 \/ d = 5 \/ d = 6
                     \/ d = 7 \/ d = 8 \/ d = 9) as H by lia.
  by repeat (destruct H as [->|H]; [reflexivity|]); subst.
Qed.

Lemma parse_digits_app w acc s1 s2 :
  parse_digits w acc (s1 ++ s2) = (acc' ← parse_digits w acc s1; parse_digits w acc' s2).
Proof.
  revert acc. induction s1 as [|c s1 IH]; intros acc; simpl; [done|].
  destruct (char_digit c); [|done]. by case_match.
Qed.

Lemma parse_digits_dec_fixed w k n :
  0 <= n < 10 ^ Z.of_nat k -> n < 2 ^ w -> parse_digits w 0 (dec_fixed k n) = Some n.
Proof.
  revert n. induction k as [|k IH]; intros n Hn Hw.
  - simpl in *. by replace n with 0 by lia.
  - assert (0 <= n / 10 < 10 ^ Z.of_nat k).
    { rewrite Nat2Z.inj_succ, Z.pow_succ_r in Hn by lia.
      split; [apply Z.div_pos; lia|apply Z.div_lt_upper_bound; lia]. }
    cbn [dec_fixed]. rewrite parse_digits_app, IH; [|done|].
    2:{ pose proof (Z.div_le_upper_bound n 10 n). lia. }
    simpl. rewrite digit_char_digit by (apply Z.mod_pos_bound; lia).
    replace (n / 10 * 10 + n mod 10) with n by (pose proof (Z.div_mod n 10); lia).
    by rewrite (proj2 (Z.ltb_lt _ _) Hw).
Qed.

(** The first character of a padded number is a digit. *)
Lemma dec_fixed_head k n :
  exists d s, 0 <= d < 10 /\ dec_fixed (S k) n = String (digit_char d) s.
Proof.
  revert n. induction k as [|k IH]; intros n.
  - exists (n mod 10), "". split; [apply Z.mod_pos_bound; lia|done].
  - destruct (IH (n / 10)) as (d & s & Hd & E). cbn [dec_fixed] in *.
    exists d, (s ++ String (digit_char (n mod 10)) ""). split; [done|]. by rewrite E.
Qed.

Lemma parse_uint_dec_fixed w k n :
  0 <= n < 10 ^ Z.of_nat (S k) -> n < 2 ^ w -> parse_uint w (dec_fixed (S k) n) = Some n.
Proof.
  intros Hn Hw. pose proof (parse_digits_dec_fixed w (S k) n Hn Hw) as H.
  destruct (dec_fixed_head k n) as (d & s & Hd & E). rewrite E in *.
  unfold parse_uint. by rewrite digit_char_not_plus.
Qed.

Lemma length_dec_fixed k n : String.length (dec_fixed k n) = k.
Proof.
  revert n. induction k; intros n; cbn [dec_fixed]; [done|].
  rewrite string_length_app, IHk. simpl. lia.
Qed.

(** Unpadded numbers. *)
Lemma strip_zeros_nonempty s : s <> "" -> strip_zeros s <> "".
Proof.
  induction s as [|c s IH]; [done|]. intros _. cbn [strip_zeros]. destruct s as [|c' s]; [done|].
  destruct (Ascii.eqb c "0"); [by apply IH|done].
Qed.

Lemma parse_digits_strip_zeros w s : 0 <= w -> parse_digits w 0 (strip_zeros s) = parse_digits w 0 s.
Proof.
  intros Hw. induction s as [|c s IH]; [done|]. cbn [strip_zeros]. destruct s as [|c' s]; [done|].
  destruct (Ascii.eqb_spec c "0") as [->|]; [|done]. rewrite IH.
  set (t := String c' s). cbn [parse_digits]. change (char_digit "0") with (Some 0).
  cbv zeta iota. change (0 * 10 + 0) with 0. destruct (Z.ltb_spec 0 (2 ^ w)) as [|H]; [done|].
  assert (0 < 2 ^ w) by (apply Z.pow_pos_nonneg; lia). lia.
Qed.

Lemma parse_digits_dec w n :
  0 <= w -> 0 <= n < 10 ^ 20 -> n < 2 ^ w -> parse_digits w 0 (dec n) = Some n.
Proof.
  intros Hw Hn Hm. unfold dec. rewrite parse_digits_strip_zeros by done.
  by apply (parse_digits_dec_fixed w 20).
Qed.

Lemma dec_nonempty n : dec n <> "".
Proof.
  apply strip_zeros_nonempty. intros E. apply (f_equal String.length) in E.
  rewrite length_dec_fixed in E. done.
Qed.

Definition is_digit (c : ascii) : bool := ascii_between 48 57 c.

(** What parses as digits is made of digits. *)
Fixpoint all_digits (s : string) : bool :=
  match s with EmptyString => true | String c s => is_digit c && all_digits s end.

Lemma parse_digits_all w acc s v : parse_digits w acc s = Some v -> all_digits s = true.
Proof.
  revert acc. induction s as [|c s IH]; intros acc; [done|]. simpl. unfold char_digit, is_digit.
  destruct (ascii_between 48 57 c); [|done]. destruct (_ <? _); [|done]. by apply IH.
Qed.

Lemma dec_digits n : 0 <= n < 10 ^ 20 -> all_digits (dec n) = true.
Proof.
  intros Hn. apply (parse_digits_all 67 0 _ n). apply parse_digits_dec; lia.
Qed.

Lemma dec_inj n m : 0 <= n < 10 ^ 20 -> 0 <= m < 10 ^ 20 -> dec n = dec m -> n = m.
Proof.
  intros Hn Hm E. pose proof (parse_digits_dec 67 n ltac:(lia) Hn ltac:(lia)) as H.
  rewrite E, parse_digits_dec in H by lia. by inv H.
Qed.

(** Words: neither end is white space. *)
Definition is_alnum (c : ascii) : bool :=
  ascii_between 48 57 c || ascii_between 65 90 c || ascii_between 97 122 c.

Fixpoint last_char (s : string) : option ascii :=
  match s with
  | EmptyString => None
  | String c s => match s with EmptyString => Some c | _ => last_char s end
  end.

Lemma last_char_app s t : t <> "" -> last_char (s ++ t) = last_char t.
Proof.
  intros Ht. induction s as [|c s IH]; [done|]. cbn [String.append last_char].
  destruct (s ++ t) eqn:E; [|by rewrite IH]. destruct s; [done|discriminate].
Qed.

Lemma all_digits_last s c : all_digits s = true -> last_char s = Some c -> is_digit c = true.
Proof.
  induction s as [|d s IH]; [done|]. cbn [all_digits last_char]. intros [Hd Hs]%andb_prop.
  destruct s; [by intros [= <-]|by apply IH].
Qed.

Definition word_free (w : string) : bool :=
  match w with
  | EmptyString => false
  | String c _ => negb (is_alnum c) && match last_char w with Some d => negb (is_alnum d) | None => false end
  end.

Lemma whitespace_word_free : Forall (fun w => word_free w = true) whitespace.
Proof. apply (bool_decide_unpack _). vm_compute. exact I. Qed.

Lemma strip_any_none strip s :
  Forall (fun w => strip w s = None) whitespace -> strip_any strip s = None.
Proof. unfold strip_any. induction 1 as [|w l H _ IH]; [done|]. simpl. by rewrite H. Qed.

Lemma trim_with_none strip n s : strip_any strip s = None -> trim_with strip n s = s.
Proof. intros E. destruct n; [done|]. simpl. by rewrite E. Qed.

Lemma trim_word s c1 s' c2 :
  s = String c1 s' -> is_alnum c1 = true -> last_char s = Some c2 -> is_alnum c2 = true -> trim s = s.
Proof.
  intros Hs H1 Hl H2. unfold trim, trim_start. rewrite trim_with_none.
  - unfold trim_end. apply trim_with_none, strip_any_none.
    eapply Forall_impl; [apply whitespace_word_free|]. intros w Hw.
    destruct (strip_suffix w s) as [r|] eqn:E; [|done]. exfalso. apply strip_suffix_Some in E.
    destruct w as [|c w]; [done|]. rewrite E, last_char_app in Hl by done.
    cbn [word_free] in Hw. apply andb_prop in Hw as [_ Hw]. rewrite Hl, H2 in Hw. done.
  - apply strip_any_none. eapply Forall_impl; [apply whitespace_word_free|]. intros w Hw.
    destruct (strip_prefix w s) as [r|] eqn:E; [|done]. exfalso. apply strip_prefix_Some in E.
    destruct w as [|c w]; [done|]. rewrite Hs in E. simpl in E. injection E as <- _.
    cbn [word_free] in Hw. rewrite H1 in Hw. done.
Qed.

Lemma digit_alnum c : is_digit c = true -> is_alnum c = true.
Proof. unfold is_alnum, is_digit. by intros ->. Qed.

#[global] Arguments dec : simpl never.
#[global] Arguments dec_fixed : simpl never.
#[global] Arguments parse_uint : simpl never.
