(* ===== verification/Disk.v ===== *)
(** * Disk: the operating-system file interface under the write-ahead log

    The log lives in one directory, so the file system is the map from file
    names in that directory to their bytes.  Every system call takes its outcome
    from an explicit script ([w_faults]); an exhausted script means success.  A
    theorem quantified over the script covers every failure the kernel can
    report; a theorem for the empty script describes a healthy disk.
    [w_durable] holds what the last successful [fdatasync] of each file made
    durable.  The metrics registry is part of the same world. *)

From S2P Require Export Prelude Text.

(** ** Errors and outcomes *)

Inductive io_error : Type :=
| IoOs                          (* an error of the system call itself *)
| IoNotFound                    (* ErrorKind::NotFound *)
| IoInterrupted                 (* ErrorKind::Interrupted *)
| IoUnexpectedEof               (* ErrorKind::UnexpectedEof, from read_exact *)
| IoInvalidData (msg : string)  (* ErrorKind::InvalidData *)
| IoPanic                       (* an [expect] of the program failed *)
| IoFuel.                       (* the model's recursion bound was reached *)

(** What the kernel does with one call.  [OkShort k] is a short read of at most
    [k + 1] bytes, [Failed k] an error after [k] bytes of a write. *)
Inductive outcome : Type :=
| OkFull
| OkShort (k : nat)
| Intr
| Failed (k : nat).

#[export] Instance io_error_eq_dec : EqDecision io_error.
Proof. solve_decision. Defined.

#[export] Instance outcome_eq_dec : EqDecision outcome.
Proof. solve_decision. Defined.

Abbreviation bytes := (list Z).

Record world : Type := World {
  w_dir : bool;
  w_files : gmap string bytes;
  w_durable : gmap string bytes;
  w_faults : list outcome;
  w_metrics : metrics
}.

Definition IO (A : Type) : Type := M world io_error A.

Definition set_w_dir (b : bool) (w : world) : world :=
  World b (w_files w) (w_durable w) (w_faults w) (w_metrics w).
Definition set_w_files (f : gmap string bytes) (w : world) : world :=
  World (w_dir w) f (w_durable w) (w_faults w) (w_metrics w).
Definition set_w_durable (f : gmap string bytes) (w : world) : world :=
  World (w_dir w) (w_files w) f (w_faults w) (w_metrics w).
Definition set_w_faults (fs : list outcome) (w : world) : world :=
  World (w_dir w) (w_files w) (w_durable w) fs (w_metrics w).
Definition set_w_metrics (m : metrics) (w : world) : world :=
  World (w_dir w) (w_files w) (w_durable w) (w_faults w) m.

(** A healthy, empty disk. *)
Definition fresh_world : world := World false ∅ ∅ [] ∅.

(** ** System calls *)

Definition next_outcome (w : world) : outcome * world :=
  match w_faults w with
  | [] => (OkFull, w)
  | o :: fs => (o, set_w_faults fs w)
  end.

(** Calls other than [read] are retried by the standard library when
    interrupted and never short. *)
Definition syscall (f : world -> world) : IO unit := fun w =>
  let '(o, w) := next_outcome w in
  match o with
  | Failed _ => (Err IoOs, w)
  | _ => (Ok tt, f w)
  end.

Definition file_bytes (name : string) (w : world) : bytes := default [] (w_files w !! name).

(** Overwrite [bs] at [pos], zero-filling a gap before it. *)
Definition splice (pos : Z) (bs content : bytes) : bytes :=
  let p := Z.to_nat pos in
  take p content ++ replicate (p - length content) 0 ++ bs ++ drop (p + length bs) content.

Definition resize (n : Z) (content : bytes) : bytes :=
  let n := Z.to_nat n in
  take n content ++ replicate (n - length content) 0.

Definition fs_create_dir_all : IO unit := syscall (set_w_dir true).

Definition fs_read_dir : IO (list string) := fun w =>
  (syscall id;; gets (fun w => (map_to_list (w_files w)).*1)) w.

(** [File::open] for reading or writing an existing file. *)
Definition fs_open (name : string) : IO unit := fun w =>
  (syscall id;;
   found ← gets (fun w => bool_decide (is_Some (w_files w !! name)));
   if (found : bool) then mret tt else fail IoNotFound) w.

(** [OpenOptions::new().create(true).truncate(true)...open]. *)
Definition fs_create (name : string) : IO unit :=
  syscall (fun w => set_w_files (<[name := []]> (w_files w)) w).

Definition fs_seek : IO unit := syscall id.

Definition fs_set_len (name : string) (n : Z) : IO unit :=
  syscall (fun w => set_w_files (alter (resize n) name (w_files w)) w).

Definition fs_remove (name : string) : IO unit := fun w =>
  (fs_open name;;
   modify (fun w => set_w_durable (delete name (w_durable w))
                      (set_w_files (delete name (w_files w)) w))) w.

(** [write_all] of [bs] at [pos]: the number of bytes written, and whether the
    call succeeded; an error may leave a strict prefix of [bs] behind.  Nothing
    is called for an empty buffer. *)
Definition fs_write (name : string) (pos : Z) (bs : bytes) : IO (Z * bool) := fun w =>
  match bs with
  | [] => (Ok (0, true), w)
  | _ =>
      let '(o, w) := next_outcome w in
      let put bs w := set_w_files (alter (splice pos bs) name (w_files w)) w in
      match o with
      | Failed k => let part := take (k `min` pred (length bs)) bs in
                    (Ok (zlen part, false), put part w)
      | _ => (Ok (zlen bs, true), put bs w)
      end
  end.

Definition fs_write_all (name : string) (pos : Z) (bs : bytes) : IO unit :=
  '(_, ok) ← fs_write name pos bs;
  if (ok : bool) then mret tt else fail IoOs.

(** One [read] of at most [n] bytes at [pos]; no bytes only at end of file. *)
Definition fs_read (name : string) (pos : Z) (n : nat) : IO bytes := fun w =>
  let '(o, w) := next_outcome w in
  let avail := take n (drop (Z.to_nat pos) (file_bytes name w)) in
  match o with
  | OkFull => (Ok avail, w)
  | OkShort k => (Ok (take (S k) avail), w)
  | Intr => (Err IoInterrupted, w)
  | Failed _ => (Err IoOs, w)
  end.

(** [read_exact], the standard library's retrying read of exactly [n] bytes. *)
Definition fs_read_exact (name : string) (pos : Z) (n : nat) : IO bytes := fun w =>
  (syscall id;;
   bs ← gets (fun w => take n (drop (Z.to_nat pos) (file_bytes name w)));
   if (length bs =? n)%nat then mret bs else fail IoUnexpectedEof) w.

Definition fs_len (name : string) : IO Z := fun w =>
  (syscall id;; gets (fun w => zlen (file_bytes name w))) w.

Definition fdatasync (name : string) : IO unit :=
  syscall (fun w => set_w_durable (<[name := file_bytes name w]> (w_durable w)) w).

Definition counter (name : string) (n : Z) : IO unit :=
  modify (fun w => set_w_metrics (counter_add name n (w_metrics w)) w).
Definition gauge (name : string) (v : Z) : IO unit :=
  modify (fun w => set_w_metrics (gauge_set name v (w_metrics w)) w).

(** ** Laws *)

Definition healthy (w : world) : Prop := w_faults w = [].

Lemma next_outcome_healthy w : healthy w -> next_outcome w = (OkFull, w).
Proof. unfold next_outcome. by intros ->. Qed.

Lemma syscall_healthy f w : healthy w -> syscall f w = (Ok tt, f w).
Proof. intros. unfold syscall. by rewrite next_outcome_healthy. Qed.

(** A system call either performs its effect or reports an error and changes
    nothing but the rest of the script. *)
Lemma syscall_cases f w :
  exists fs, (syscall f w = (Ok tt, f (set_w_faults fs w))
              \/ syscall f w = (Err IoOs, set_w_faults fs w))
             /\ (healthy w -> fs = [] /\ syscall f w = (Ok tt, f (set_w_faults fs w))).
Proof.
  unfold syscall, next_outcome, healthy. destruct w as [d fi du fs me]; simpl.
  destruct fs as [|o fs].
  - exists []. eauto.
  - exists fs. split; [destruct o; eauto|done].
Qed.

(** *** Rules for stepping through system calls *)

(** The worlds a call may leave behind when it only advances the script: the
    same one, with a script that is still empty if it was. *)
Definition advanced (w w' : world) : Prop :=
  exists fs, w' = set_w_faults fs w /\ (healthy w -> fs = []).

Lemma advanced_refl w : advanced w w.
Proof. exists (w_faults w). destruct w. unfold healthy. auto. Qed.

Lemma next_outcome_advanced w : advanced w (next_outcome w).2.
Proof.
  unfold advanced, next_outcome, healthy. destruct w as [d f u fs m]; simpl.
  destruct fs as [|o fs]; simpl; eexists; split; done.
Qed.

Lemma wp_syscall f (Q : res io_error unit -> world -> Prop) w :
  (forall w', advanced w w' -> Q (Ok tt) (f w')) ->
  (forall w', advanced w w' -> ~ healthy w -> Q (Err IoOs) w') ->
  wp (syscall f) Q w.
Proof.
  intros Hok Herr. unfold wp, syscall. pose proof (next_outcome_advanced w) as Ha.
  destruct (next_outcome w) as [o w'] eqn:E. simpl in Ha.
  destruct o; simpl; auto. apply Herr; [done|]. intros Hw.
  rewrite next_outcome_healthy in E; done.
Qed.

Lemma wp_syscall_healthy f (Q : res io_error unit -> world -> Prop) w :
  healthy w -> Q (Ok tt) (f w) -> wp (syscall f) Q w.
Proof. intros Hw H. unfold wp. by rewrite syscall_healthy. Qed.

Lemma splice_nil pos content : 0 <= pos <= zlen content -> splice pos [] content = content.
Proof.
  intros. unfold splice. rewrite Nat.add_0_r.
  replace (Z.to_nat pos - length content)%nat with 0%nat by lia. apply take_drop.
Qed.

Lemma wp_fs_write name pos bs (Q : res io_error (Z * bool) -> world -> Prop) w c :
  w_files w !! name = Some c -> 0 <= pos <= zlen c ->
  (forall w', advanced w w' ->
     Q (Ok (zlen bs, true)) (set_w_files (<[name := splice pos bs c]> (w_files w')) w')) ->
  (forall w' k, advanced w w' -> ~ healthy w -> (k < length bs)%nat ->
     Q (Ok (zlen (take k bs), false))
       (set_w_files (<[name := splice pos (take k bs) c]> (w_files w')) w')) ->
  wp (fs_write name pos bs) Q w.
Proof.
  intros Hc Hpos Hok Herr. unfold wp, fs_write. destruct bs as [|b bs].
  { specialize (Hok w (advanced_refl w)). rewrite splice_nil, insert_id in Hok by done.
    by destruct w. }
  pose proof (next_outcome_advanced w) as Ha. destruct (next_outcome w) as [o w'] eqn:E. simpl in Ha.
  assert (Hal : forall bs, alter (splice pos bs) name (w_files w')
                           = <[name := splice pos bs c]> (w_files w')).
  { intros bs'. apply map_eq. intros i. destruct (decide (name = i)) as [<-|].
    - rewrite lookup_alter_eq, lookup_insert_eq. destruct Ha as (? & -> & _); simpl. by rewrite Hc.
    - by rewrite lookup_alter_ne, lookup_insert_ne. }
  destruct o; cbn [fst snd]; rewrite Hal; auto. apply Herr; [done| |simpl; lia]. intros Hw.
  rewrite next_outcome_healthy in E; done.
Qed.

(** Why opening a file may fail. *)
Definition open_error (name : string) (w : world) (e : io_error) : Prop :=
  (e = IoOs /\ ~ healthy w) \/ (e = IoNotFound /\ w_files w !! name = None).

Lemma wp_fs_open name (Q : res io_error unit -> world -> Prop) w :
  (forall w', advanced w w' -> is_Some (w_files w !! name) -> Q (Ok tt) w') ->
  (forall w' e, advanced w w' -> open_error name w e -> Q (Err e) w') ->
  wp (fs_open name) Q w.
Proof.
  intros Hok Herr. unfold fs_open. apply wp_bind, wp_syscall.
  - intros w' Ha. apply wp_bind, wp_gets. unfold id.
    assert (w_files w' = w_files w) as -> by (destruct Ha as (? & -> & _); done).
    case_bool_decide as Hs; [by apply wp_ret, Hok|].
    apply wp_fail, Herr; [done|]. right. split; [done|]. by apply eq_None_not_Some.
  - intros w' Ha Hn. apply Herr; [done|]. by left.
Qed.

Lemma wp_fs_remove name (Q : res io_error unit -> world -> Prop) w :
  (forall w', advanced w w' ->
     Q (Ok tt) (set_w_durable (delete name (w_durable w'))
                  (set_w_files (delete name (w_files w')) w'))) ->
  (forall w' e, advanced w w' -> open_error name w e -> Q (Err e) w') ->
  wp (fs_remove name) Q w.
Proof.
  intros Hok Herr. unfold fs_remove. apply wp_bind, wp_fs_open; [|done].
  intros w' Ha _. by apply wp_modify, Hok.
Qed.

(** *** Reading computations

    [reads m v w]: run in [w], whatever the script, [m] answers [v] or a system
    error and leaves everything but the script alone; on a healthy disk it
    answers [v]. *)
Definition reads {A} (m : IO A) (v : A) (w : world) : Prop :=
  exists fs,
    (m w = (Ok v, set_w_faults fs w) \/ m w = (Err IoOs, set_w_faults fs w))
    /\ (healthy w -> m w = (Ok v, w)).

Lemma set_w_faults_id w : set_w_faults (w_faults w) w = w.
Proof. by destruct w. Qed.

Lemma file_bytes_set_w_faults name fs w : file_bytes name (set_w_faults fs w) = file_bytes name w.
Proof. done. Qed.

Lemma reads_healthy {A} (m : IO A) v w : healthy w -> reads m v w -> m w = (Ok v, w).
Proof. intros Hw (fs & _ & H). auto. Qed.

Lemma reads_ret {A} (v : A) w : reads (mret v) v w.
Proof. exists (w_faults w). rewrite set_w_faults_id. split; [by left|done]. Qed.

Lemma reads_bind {A B} (m : IO A) (k : A -> IO B) v u w :
  reads m v w -> (forall fs, reads (k v) u (set_w_faults fs w)) -> reads (m ≫= k) u w.
Proof.
  intros (fs & H & Hh) Hk.
  assert (Hhealthy : healthy w -> (m ≫= k) w = (Ok u, w)).
  { intros Hw. rewrite (bind_ok _ _ _ _ _ (Hh Hw)). specialize (Hk (w_faults w)).
    rewrite set_w_faults_id in Hk. by apply (reads_healthy _ _ _ Hw). }
  destruct H as [E|E].
  - destruct (Hk fs) as (fs' & H & _). exists fs'. split; [|done].
    by rewrite (bind_ok _ _ _ _ _ E).
  - exists fs. split; [|done]. right. by apply bind_err.
Qed.

(** A step that only advances the script. *)
Lemma reads_step {A} (m k : IO A) v w fs :
  m w = k (set_w_faults fs w) -> (healthy w -> fs = []) ->
  reads k v (set_w_faults fs w) -> reads m v w.
Proof.
  intros E Hfs (fs' & H & Hh). exists fs'. rewrite E. split; [exact H|].
  intros Hw. rewrite (Hfs Hw) in *. rewrite <- Hw, set_w_faults_id in *. auto.
Qed.

Lemma reads_syscall w : reads (syscall id) tt w.
Proof.
  destruct (syscall_cases id w) as (fs & H & Hh). exists fs. split; [done|].
  intros Hw. destruct (Hh Hw) as [-> ->]. unfold id. by rewrite <- Hw, set_w_faults_id.
Qed.


Lemma fs_read_exact_healthy name pos n w :
  healthy w ->
  fs_read_exact name pos n w =
  (let bs := take n (drop (Z.to_nat pos) (file_bytes name w)) in
   if (length bs =? n)%nat then Ok bs else Err IoUnexpectedEof, w).
Proof.
  intros Hw. unfold fs_read_exact. rewrite (bind_ok _ _ _ _ _ (syscall_healthy id w Hw)).
  unfold mbind, M_bind, gets, id. by case_match.
Qed.

Lemma fs_len_healthy name w : healthy w -> fs_len name w = (Ok (zlen (file_bytes name w)), w).
Proof.
  intros Hw. unfold fs_len. by rewrite (bind_ok _ _ _ _ _ (syscall_healthy id w Hw)).
Qed.

Lemma splice_end content bs : splice (zlen content) bs content = content ++ bs.
Proof.
  unfold splice. rewrite Nat2Z.id, firstn_all, Nat.sub_diag, drop_ge by lia.
  simpl. by rewrite app_nil_r.
Qed.

Lemma splice_end_eq pos content bs : pos = zlen content -> splice pos bs content = content ++ bs.
Proof. intros ->. apply splice_end. Qed.

(** A partial overwrite keeps everything before its position. *)
Lemma splice_keeps pos bs good junk :
  pos = zlen good -> exists junk', splice pos bs (good ++ junk) = good ++ junk'.
Proof.
  intros ->. unfold splice. rewrite Nat2Z.id, take_app_length. by eexists.
Qed.

Lemma resize_exact n good junk : n = zlen good -> resize n (good ++ junk) = good.
Proof.
  intros ->. unfold resize. rewrite Nat2Z.id, take_app_length, length_app.
  replace (length good - (length good + length junk))%nat with 0%nat by lia.
  simpl. by rewrite app_nil_r.
Qed.
