(* ===== verification/Segment.v ===== *)
(** * Segment: the on-disk segment and frame codec

    Models [statix/src/wal/segment.rs]: segment file names, the 16-byte segment
    header, the 16-byte frame header followed by the payload, and the reader
    that classifies what it finds at an offset as a frame, the end of the data
    or corruption.  The checksum is the [crc32fast] crate's, a parameter with
    its documented range. *)

From S2P Require Export Disk.

(** ** The checksum interface *)

Class Crc32 : Type := {
  crc32_hash : bytes -> Z;
  crc32_range : forall p, urange 32 (crc32_hash p)
}.

(** A concrete checksum, for evaluating the codec on examples. *)
Definition byte_sum (p : bytes) : Z := wrap 32 (sumZ id p).

#[export] Instance byte_sum_crc32 : Crc32 | 100 :=
  {| crc32_hash := byte_sum; crc32_range p := wrap_range 32 (sumZ id p) ltac:(lia) |}.

(** ** Layout constants and file names *)

Definition SEGMENT_MAGIC : bytes := [83; 84; 65; 84; 88; 87; 65; 76].
Definition FORMAT_VERSION : Z := 1.
Definition SEGMENT_HEADER_LEN : Z := 16.
Definition FRAME_HEADER_LEN : Z := 16.
Definition MAX_FRAME_PAYLOAD : Z := 16 * 1024 * 1024.
Definition SEGMENT_PREFIX : string := "seg-".
Definition SEGMENT_SUFFIX : string := ".wal".

(** [segment_path]: the file's name inside the log directory. *)
Definition segment_path (seq : Z) : string :=
  SEGMENT_PREFIX +:+ dec_fixed 20 seq +:+ SEGMENT_SUFFIX.

Definition parse_segment_seq (name : string) : option Z :=
  rest ← strip_prefix SEGMENT_PREFIX name;
  digits ← strip_suffix SEGMENT_SUFFIX rest;
  parse_uint 64 digits.

(** ** Headers *)

Definition encode_segment_header : bytes :=
  SEGMENT_MAGIC ++ le_bytes 4 FORMAT_VERSION ++ [0; 0; 0; 0].

Definition validate_segment_header (buf : bytes) : res io_error unit :=
  if zlen buf <? SEGMENT_HEADER_LEN then Err (IoInvalidData "segment header truncated")
  else if negb (bool_decide (take 8 buf = SEGMENT_MAGIC)) then
    Err (IoInvalidData "bad segment magic")
  else
    let version := from_le (take 4 (drop 8 buf)) in
    if negb (version =? FORMAT_VERSION) then
      Err (IoInvalidData ("unsupported WAL format version " +:+ pretty version))
    else Ok tt.

Definition frame_len_on_disk (payload_len : Z) : Z := FRAME_HEADER_LEN + payload_len.

Record DecodedFrame : Type := Frame { batch_seq : Z; payload : bytes }.

Inductive FrameRead : Type :=
| FrameOk (frame : DecodedFrame) (next : Z)   (* FrameRead::Frame *)
| FrameEnd                                    (* FrameRead::End *)
| FrameCorrupt.                               (* FrameRead::Corrupt *)

Inductive ReadStatus : Type := Full | Partial | Eof.

#[export] Instance DecodedFrame_eq_dec : EqDecision DecodedFrame.
Proof. solve_decision. Defined.
#[export] Instance FrameRead_eq_dec : EqDecision FrameRead.
Proof. solve_decision. Defined.
#[export] Instance ReadStatus_eq_dec : EqDecision ReadStatus.
Proof. solve_decision. Defined.

(** ** Reading *)

(** [read_full_or_eof]: fill a buffer of [want] bytes from [pos], retrying
    interrupted reads.  Each round consumes an outcome of the script or adds a
    byte, so [want + length script + 1] rounds are enough
    ([read_full_or_eof_terminates]). *)
Fixpoint read_full_loop (fuel : nat) (name : string) (pos : Z) (want : nat) (filled : bytes)
    : IO (ReadStatus * bytes) :=
  if (want <=? length filled)%nat then mret (Full, filled)
  else match fuel with
  | O => fail IoFuel
  | S fuel => fun w =>
      match fs_read name (pos + zlen filled) (want - length filled) w with
      | (Ok [], w) => (Ok ((if decide (filled = []) then Eof else Partial), filled), w)
      | (Ok got, w) => read_full_loop fuel name pos want (filled ++ got) w
      | (Err IoInterrupted, w) => read_full_loop fuel name pos want filled w
      | (Err e, w) => (Err e, w)
      end
  end.

Definition read_full_or_eof (name : string) (pos : Z) (want : nat) : IO (ReadStatus * bytes) :=
  fun w => read_full_loop (S (want + length (w_faults w))) name pos want [] w.

Section Codec.
Context {crc : Crc32}.

Definition encode_frame_header (payload : bytes) (batch_seq : Z) : bytes :=
  le_bytes 4 (wrap 32 (zlen payload)) ++ le_bytes 4 (crc32_hash payload) ++ le_bytes 8 batch_seq.

Definition read_frame_at (name : string) (offset : Z) : IO FrameRead :=
  fs_seek;;
  '(st, header) ← read_full_or_eof name offset (Z.to_nat FRAME_HEADER_LEN);
  match st with
  | Eof | Partial => mret FrameEnd
  | Full =>
      let payload_len := from_le (take 4 header) in
      let crc_expected := from_le (take 4 (drop 4 header)) in
      let batch_seq := from_le (take 8 (drop 8 header)) in
      if (payload_len =? 0) || (MAX_FRAME_PAYLOAD <? payload_len) then mret FrameCorrupt
      else
        '(st, payload) ← read_full_or_eof name (offset + FRAME_HEADER_LEN) (Z.to_nat payload_len);
        match st with
        | Full =>
            if negb (crc32_hash payload =? crc_expected) then mret FrameCorrupt
            else mret (FrameOk (Frame batch_seq payload)
                         (wrapping_add 64 offset (frame_len_on_disk payload_len)))
        | _ => mret FrameEnd
        end
  end.

(** ** Specification: decoding a byte string

    [decode_at content offset] is what a reader of an immutable byte string
    would answer, with no buffers, short reads or retries. *)
Definition decode_at (content : bytes) (offset : Z) : FrameRead :=
  let rest := drop (Z.to_nat offset) content in
  if zlen rest <? FRAME_HEADER_LEN then FrameEnd
  else
    let len := from_le (take 4 rest) in
    if (len =? 0) || (MAX_FRAME_PAYLOAD <? len) then FrameCorrupt
    else
      let body := take (Z.to_nat len) (drop 16 rest) in
      if zlen body <? len then FrameEnd
      else if negb (crc32_hash body =? from_le (take 4 (drop 4 rest))) then FrameCorrupt
      else FrameOk (Frame (from_le (take 8 (drop 8 rest))) body)
             (wrapping_add 64 offset (frame_len_on_disk len)).

(** A frame the reader accepts: a non-empty payload within the sanity bound. *)
Definition frame_ok (f : DecodedFrame) : Prop :=
  0 < zlen (payload f) <= MAX_FRAME_PAYLOAD /\ urange 64 (batch_seq f).

#[export] Instance frame_ok_dec f : Decision (frame_ok f).
Proof. unfold frame_ok. apply _. Defined.

Definition encode_frame (f : DecodedFrame) : bytes :=
  encode_frame_header (payload f) (batch_seq f) ++ payload f.

Definition encode_frames (fs : list DecodedFrame) : bytes := concat (encode_frame <$> fs).

Definition frame_size (f : DecodedFrame) : Z := frame_len_on_disk (zlen (payload f)).

(** ** Lemmas *)

Lemma length_encode_frame_header p s : length (encode_frame_header p s) = 16%nat.
Proof. unfold encode_frame_header. by rewrite !length_app, !length_le_bytes. Qed.

Lemma length_encode_segment_header : length encode_segment_header = 16%nat.
Proof. reflexivity. Qed.

Lemma zlen_encode_frame f : zlen (encode_frame f) = frame_size f.
Proof.
  unfold encode_frame, frame_size, frame_len_on_disk, FRAME_HEADER_LEN.
  rewrite length_app, length_encode_frame_header. lia.
Qed.

Lemma encode_frames_cons f fs : encode_frames (f :: fs) = encode_frame f ++ encode_frames fs.
Proof. done. Qed.

Lemma encode_frames_app fs gs : encode_frames (fs ++ gs) = encode_frames fs ++ encode_frames gs.
Proof. unfold encode_frames. by rewrite fmap_app, concat_app. Qed.

Lemma zlen_encode_frames fs : zlen (encode_frames fs) = sumZ frame_size fs.
Proof.
  induction fs as [|f fs IH]; [done|].
  rewrite encode_frames_cons, length_app, Nat2Z.inj_add, zlen_encode_frame, IH. done.
Qed.

Lemma frame_size_pos f : 16 <= frame_size f.
Proof. unfold frame_size, frame_len_on_disk, FRAME_HEADER_LEN. lia. Qed.

Lemma sum_frame_size_nonneg fs : 0 <= sumZ frame_size fs.
Proof.
  apply sumZ_nonneg, Forall_forall. intros f _. pose proof (frame_size_pos f). lia.
Qed.

(** *** The buffered reader *)

(** What filling a buffer from a byte string gives. *)
Definition read_result (content : bytes) (pos : Z) (want : nat) : ReadStatus * bytes :=
  let got := take want (drop (Z.to_nat pos) content) in
  ((if decide (length got = want) then Full else if decide (got = []) then Eof else Partial), got).

(** One [read] of the loop: a prefix of what is left, empty only when nothing
    is left or asked for, or an error; only the script advances. *)
Definition read_step (rest : bytes) (n : nat) (w : world) (out : res io_error bytes * world)
    (fs : list outcome) : Prop :=
  (exists j, out = (Ok (take j rest), set_w_faults fs w) /\ (j <= n)%nat
             /\ (j <= length rest)%nat /\ (j = 0%nat -> n = 0%nat \/ rest = [])
             /\ (length fs <= length (w_faults w))%nat)
  \/ (out = (Err IoInterrupted, set_w_faults fs w) /\ (length fs < length (w_faults w))%nat)
  \/ out = (Err IoOs, set_w_faults fs w).

Lemma fs_read_cases name pos n w :
  exists fs,
    read_step (drop (Z.to_nat pos) (file_bytes name w)) n w (fs_read name pos n w) fs
    /\ (healthy w -> fs = [] /\ is_ok (fs_read name pos n w).1 = true).
Proof.
  unfold fs_read, next_outcome, healthy, read_step.
  set (rest := drop (Z.to_nat pos) (file_bytes name w)).
  assert (Hj0 : forall p, Nat.min (S p) (Nat.min n (length rest)) = 0%nat -> n = 0%nat \/ rest = []).
  { intros p ?. destruct (decide (n = 0%nat)); [by left|right]. apply length_zero_iff_nil. lia. }
  assert (Hmin : forall p, take (S p) (take n rest) = take (Nat.min (S p) (Nat.min n (length rest))) rest).
  { intros p. by rewrite <- !take_take, (take_ge rest (length rest)) by lia. }
  assert (Hfull : take n rest = take (S n) (take n rest)).
  { rewrite (take_ge (take n rest)); [done|]. rewrite length_take. lia. }
  destruct (w_faults w) as [|[|k| |k] fs] eqn:Ew; [exists []|exists fs..]; (split; [|done]);
    rewrite ?file_bytes_set_w_faults; fold rest; rewrite <- ?Ew, ?set_w_faults_id.
  - left. rewrite Hfull, Hmin, Ew. eexists. split_and!; [done|lia|lia|apply Hj0|done].
  - left. rewrite Hfull, Hmin, Ew. eexists. split_and!; [done|lia|lia|apply Hj0|simpl; lia].
  - left. rewrite Hmin, Ew. eexists. split_and!; [done|lia|lia|apply Hj0|simpl; lia].
  - right; left. rewrite Ew. split; [done|simpl; lia].
  - by right; right.
Qed.

(** The answer is known once the buffer is full or nothing is left. *)
Lemma read_result_full content pos want :
  (want <= length (drop (Z.to_nat pos) content))%nat ->
  read_result content pos want = (Full, take want (drop (Z.to_nat pos) content)).
Proof. intros. unfold read_result. rewrite decide_True; [done|]. rewrite length_take. lia. Qed.

Lemma read_result_short content pos want :
  let rest := drop (Z.to_nat pos) content in
  (length rest < want)%nat ->
  read_result content pos want = ((if decide (rest = []) then Eof else Partial), rest).
Proof.
  intros rest Hl. unfold read_result. fold rest. rewrite take_ge by lia.
  by rewrite decide_False by lia.
Qed.

Lemma read_full_loop_spec name pos want fuel m w :
  0 <= pos ->
  (want + length (w_faults w) < fuel + m)%nat -> (m <= want)%nat ->
  (m <= length (drop (Z.to_nat pos) (file_bytes name w)))%nat ->
  reads (read_full_loop fuel name pos want (take m (drop (Z.to_nat pos) (file_bytes name w))))
    (read_result (file_bytes name w) pos want) w.
Proof.
  intros Hpos. revert m w. induction fuel as [|fuel IH]; intros m w Hfuel Hm Hlen; [lia|].
  set (rest := drop (Z.to_nat pos) (file_bytes name w)) in *. cbn [read_full_loop].
  rewrite length_take, Nat.min_l by done.
  destruct (Nat.leb_spec want m) as [Hw|Hw].
  { assert (m = want) as -> by lia. rewrite read_result_full by done. apply reads_ret. }
  destruct (fs_read_cases name (pos + Z.of_nat m) (want - m) w) as (fs & Hcase & Hh).
  replace (drop (Z.to_nat (pos + Z.of_nat m)) (file_bytes name w)) with (drop m rest) in Hcase
    by (unfold rest; rewrite drop_drop; f_equal; lia).
  destruct Hcase as [(j & E & Hj & Hjr & Hj0 & Hfs)|[(E & Hfs)|E]];
    rewrite E in Hh; rewrite ?length_drop in *.
  - destruct (take j (drop m rest)) as [|b got] eqn:Egot.
    + assert (length rest = m) as Hall.
      { apply (f_equal length) in Egot. rewrite length_take, length_drop in Egot. simpl in Egot.
        destruct Hj0 as [?|Hd]; [lia..|]. apply (f_equal length) in Hd.
        rewrite length_drop in Hd. simpl in Hd. lia. }
      exists fs. rewrite E, read_result_short, (take_ge rest) by (fold rest; lia).
      fold rest. split; [by left|]. intros Hw'. destruct (Hh Hw') as [-> _].
      by rewrite <- Hw', set_w_faults_id.
    + assert (j <> 0%nat) by (intros ->; done).
      apply (reads_step _ (read_full_loop fuel name pos want (take (m + j) rest)) _ _ fs);
        [by rewrite E, <- Egot, take_take_drop|by apply Hh|].
      apply (IH (m + j)%nat (set_w_faults fs w));
        rewrite ?file_bytes_set_w_faults; fold rest; simpl in *; lia.
  - apply (reads_step _ (read_full_loop fuel name pos want (take m rest)) _ _ fs);
      [by rewrite E|by intros Hw'; destruct (Hh Hw')|].
    apply (IH m (set_w_faults fs w)); simpl in *; lia || done.
  - exists fs. rewrite E. split; [by right|]. intros Hw'. by destruct (Hh Hw') as [_ E'].
Qed.

Lemma read_full_or_eof_spec name pos want w :
  0 <= pos ->
  reads (read_full_or_eof name pos want) (read_result (file_bytes name w) pos want) w.
Proof.
  intros Hpos.
  pose proof (read_full_loop_spec name pos want (S (want + length (w_faults w))) 0 w Hpos) as H.
  rewrite take_0 in H. apply H; lia.
Qed.

(** *** [read_frame_at] decodes the file's bytes *)

Lemma take_take_min {A} n m (l : list A) : (n <= m)%nat -> take n (take m l) = take n l.
Proof. intros. by rewrite take_take, Nat.min_l. Qed.

Lemma take_drop_take {A} n k m (l : list A) :
  (k + n <= m)%nat -> take n (drop k (take m l)) = take n (drop k l).
Proof. intros. rewrite skipn_firstn_comm, take_take, Nat.min_l by lia. done. Qed.

Lemma read_frame_at_spec name offset w :
  0 <= offset ->
  reads (read_frame_at name offset) (decode_at (file_bytes name w) offset) w.
Proof.
  intros Hoff. unfold read_frame_at, decode_at.
  set (rest := drop (Z.to_nat offset) (file_bytes name w)).
  apply (reads_bind _ _ tt); [apply reads_syscall|]. intros fs0.
  change (Z.to_nat FRAME_HEADER_LEN) with 16%nat.
  eapply reads_bind; [by apply read_full_or_eof_spec|]. intros fs1.
  rewrite file_bytes_set_w_faults. change (set_w_faults fs1 _) with (set_w_faults fs1 w).
  destruct (Z.ltb_spec (zlen rest) FRAME_HEADER_LEN) as [Hl|Hl]; unfold FRAME_HEADER_LEN in Hl.
  { rewrite read_result_short by (fold rest; lia). case_decide; apply reads_ret. }
  rewrite read_result_full by (fold rest; lia). fold rest.
  rewrite !take_take_min, !take_drop_take by lia.
  set (len := from_le (take 4 rest)).
  destruct ((len =? 0) || (MAX_FRAME_PAYLOAD <? len)) eqn:Elen; [apply reads_ret|].
  eapply reads_bind; [apply read_full_or_eof_spec; unfold FRAME_HEADER_LEN; lia|]. intros fs2.
  rewrite file_bytes_set_w_faults.
  replace (drop 16 rest) with (drop (Z.to_nat (offset + FRAME_HEADER_LEN)) (file_bytes name w))
    by (unfold rest, FRAME_HEADER_LEN; rewrite drop_drop; f_equal; lia).
  unfold read_result. set (body := take _ _).
  assert (length body <= Z.to_nat len)%nat by (unfold body; rewrite length_take; lia).
  destruct (Z.ltb_spec (zlen body) len).
  - rewrite decide_False by lia. case_decide; apply reads_ret.
  - rewrite decide_True by lia. case_match; apply reads_ret.
Qed.

(** *** Encoding and decoding *)

Lemma crc_small p : from_le (le_bytes 4 (crc32_hash p)) = crc32_hash p.
Proof. apply (from_le_bytes_small 4 32); [done|apply crc32_range]. Qed.

Lemma frame_len_small f : frame_ok f -> wrap 32 (zlen (payload f)) = zlen (payload f).
Proof. intros [H _]. apply wrap_small. unfold urange, MAX_FRAME_PAYLOAD in *. lia. Qed.

Lemma frame_fields f rest :
  let bs := encode_frame f ++ rest in
  take 4 bs = le_bytes 4 (wrap 32 (zlen (payload f)))
  /\ take 4 (drop 4 bs) = le_bytes 4 (crc32_hash (payload f))
  /\ take 8 (drop 8 bs) = le_bytes 8 (batch_seq f)
  /\ drop 16 bs = payload f ++ rest.
Proof.
  split_and!; reflexivity.
Qed.

Lemma decode_at_app pre bs : decode_at (pre ++ bs) (zlen pre) =
  match decode_at bs 0 with
  | FrameOk f next => FrameOk f (wrapping_add 64 (zlen pre) next)
  | r => r
  end.
Proof.
  unfold decode_at. rewrite Nat2Z.id, drop_app_length. change (Z.to_nat 0) with 0%nat.
  rewrite drop_0. set (len := from_le (take 4 bs)).
  destruct (zlen bs <? FRAME_HEADER_LEN) eqn:E0; [done|].
  destruct (len =? 0) eqn:E1; [done|]. destruct (MAX_FRAME_PAYLOAD <? len) eqn:E2; [done|].
  simpl. set (body := take (Z.to_nat len) (drop 16 bs)).
  destruct (zlen body <? len) eqn:E3; [done|]. destruct (negb _); [done|].
  f_equal. unfold wrapping_add, wrap. by rewrite Z.add_0_l, Z.add_mod_idemp_r by lia.
Qed.

Lemma decode_encode_0 f rest :
  frame_ok f -> decode_at (encode_frame f ++ rest) 0 = FrameOk f (frame_size f).
Proof.
  intros Hf. unfold decode_at. change (Z.to_nat 0) with 0%nat. rewrite drop_0.
  destruct (frame_fields f rest) as (-> & -> & -> & ->).
  rewrite frame_len_small, (from_le_bytes_small 4 32), crc_small, (from_le_bytes_small 8 64)
    by (done || apply Hf || (unfold urange; destruct Hf as [Hp _]; unfold MAX_FRAME_PAYLOAD in Hp; lia)).
  destruct f as [q p]; unfold frame_ok in Hf; cbn [payload batch_seq] in *.
  destruct Hf as [Hp Hq].
  rewrite Nat2Z.id, take_app_length.
  assert ((zlen (encode_frame (Frame q p) ++ rest) <? FRAME_HEADER_LEN) = false) as ->.
  { apply Z.ltb_ge. rewrite length_app, Nat2Z.inj_add, zlen_encode_frame.
    pose proof (frame_size_pos (Frame q p)). unfold FRAME_HEADER_LEN. lia. }
  assert ((zlen p =? 0) = false) as -> by (apply Z.eqb_neq; lia).
  assert ((MAX_FRAME_PAYLOAD <? zlen p) = false) as -> by (apply Z.ltb_ge; lia).
  rewrite Z.ltb_irrefl, Z.eqb_refl. simpl. f_equal.
  unfold frame_size, frame_len_on_disk, FRAME_HEADER_LEN, MAX_FRAME_PAYLOAD in *; simpl.
  rewrite wrapping_add_small; lia.
Qed.

(** A frame written anywhere in a file is read back, with the offset past it. *)
Lemma decode_encode pre f rest :
  frame_ok f -> zlen pre + frame_size f < 2 ^ 64 ->
  decode_at (pre ++ encode_frame f ++ rest) (zlen pre) = FrameOk f (zlen pre + frame_size f).
Proof.
  intros Hf Hlen. rewrite decode_at_app, decode_encode_0 by done. f_equal.
  apply wrapping_add_small. pose proof (frame_size_pos f). lia.
Qed.

Lemma decode_nil pre : decode_at pre (zlen pre) = FrameEnd.
Proof. rewrite <- (app_nil_r pre) at 1. by rewrite decode_at_app. Qed.

(** A strict prefix of a frame reads as the end of the data. *)
Lemma decode_torn_0 f k :
  frame_ok f -> Z.of_nat k < frame_size f -> decode_at (take k (encode_frame f)) 0 = FrameEnd.
Proof.
  intros Hf Hk. unfold decode_at. change (Z.to_nat 0) with 0%nat. rewrite drop_0.
  assert (zlen (take k (encode_frame f)) = Z.of_nat k) as Hlen.
  { pose proof (zlen_encode_frame f). rewrite length_take. lia. }
  rewrite Hlen. destruct (Z.ltb_spec (Z.of_nat k) FRAME_HEADER_LEN) as [|H16]; [done|].
  unfold FRAME_HEADER_LEN in H16. pose proof (frame_fields f []) as Hff.
  rewrite app_nil_r in Hff. destruct Hff as (E4 & _ & _ & E16).
  rewrite take_take_min, E4, frame_len_small, (from_le_bytes_small 4 32)
    by (done || lia || (unfold urange; destruct Hf as [Hp _]; unfold MAX_FRAME_PAYLOAD in Hp; lia)).
  destruct Hf as [Hp _].
  assert ((zlen (payload f) =? 0) = false) as -> by (apply Z.eqb_neq; lia).
  assert ((MAX_FRAME_PAYLOAD <? zlen (payload f)) = false) as -> by (apply Z.ltb_ge; lia).
  cbn [orb]. rewrite skipn_firstn_comm, E16, app_nil_r.
  destruct (Z.ltb_spec (zlen (take (Z.to_nat (zlen (payload f))) (take (k - 16) (payload f))))
              (zlen (payload f))) as [|Hge]; [done|].
  rewrite !length_take in Hge. unfold frame_size, frame_len_on_disk, FRAME_HEADER_LEN in Hk. lia.
Qed.

Lemma decode_torn pre f k :
  frame_ok f -> Z.of_nat k < frame_size f ->
  decode_at (pre ++ take k (encode_frame f)) (zlen pre) = FrameEnd.
Proof. intros. by rewrite decode_at_app, decode_torn_0. Qed.

(** What the reader accepts is what the writer would have written. *)
Lemma decode_sound_0 bs f next :
  Forall byte_ok bs -> decode_at bs 0 = FrameOk f next ->
  frame_ok f /\ next = frame_size f /\ exists rest, bs = encode_frame f ++ rest.
Proof.
  intros Hbs. unfold decode_at. change (Z.to_nat 0) with 0%nat. rewrite drop_0.
  set (len := from_le (take 4 bs)). intros H.
  destruct (zlen bs <? FRAME_HEADER_LEN) eqn:E0; [done|]. unfold FRAME_HEADER_LEN in E0.
  destruct ((len =? 0) || (MAX_FRAME_PAYLOAD <? len)) eqn:E1; [done|].
  apply orb_false_elim in E1 as [E1 E2]. set (body := take (Z.to_nat len) (drop 16 bs)) in *.
  destruct (zlen body <? len) eqn:E3; [done|]. destruct (negb _) eqn:E4; [done|].
  zb. simplify_eq.
  assert (Hf4 : forall k n, (k + n <= 16)%nat ->
    le_bytes n (from_le (take n (drop k bs))) = take n (drop k bs)).
  { intros k n Hkn. assert (length (take n (drop k bs)) = n) as Hn
      by (rewrite length_take, length_drop; lia).
    rewrite <- Hn at 1. apply le_bytes_from, Forall_take, Forall_drop, Hbs. }
  assert (0 <= len < 2 ^ 32) as Hlen.
  { pose proof (Hf4 0%nat 4%nat ltac:(lia)) as H0. rewrite drop_0 in H0.
    unfold len. rewrite <- H0, from_le_bytes. apply Z.mod_pos_bound. lia. }
  assert (zlen body = len) as Hbody.
  { assert (length body <= Z.to_nat len)%nat by (unfold body; rewrite length_take; lia). lia. }
  split_and!.
  - split; simpl; [rewrite Hbody; lia|]. rewrite <- (Hf4 8%nat 8%nat) by lia.
    rewrite from_le_bytes. apply Z.mod_pos_bound. lia.
  - unfold frame_size; simpl. rewrite Hbody.
    unfold frame_len_on_disk, FRAME_HEADER_LEN. rewrite wrapping_add_small; lia.
  - exists (drop (Z.to_nat len) (drop 16 bs)). unfold encode_frame, encode_frame_header.
    cbn [payload batch_seq]. rewrite wrap_small, Hbody, E4 by (unfold urange; lia).
    pose proof (Hf4 0%nat 4%nat) as H0. rewrite drop_0 in H0. unfold len.
    rewrite H0, !Hf4 by lia. unfold body. fold len.
    rewrite <- !app_assoc, take_drop.
    rewrite <- (take_drop 4 bs) at 1. f_equal. rewrite <- (take_drop 4 (drop 4 bs)) at 1. f_equal.
    rewrite drop_drop. rewrite <- (take_drop 8 (drop (4 + 4) bs)) at 1. f_equal. by rewrite drop_drop.
Qed.

(** An empty payload, or one above the sanity bound, is written by the encoder
    but refused by the reader. *)
Lemma decode_unreadable pre f rest :
  zlen (payload f) = 0 \/ MAX_FRAME_PAYLOAD < zlen (payload f) < 2 ^ 32 ->
  decode_at (pre ++ encode_frame f ++ rest) (zlen pre) = FrameCorrupt.
Proof.
  intros Hp. rewrite decode_at_app. unfold decode_at.
  change (Z.to_nat 0) with 0%nat. rewrite drop_0.
  destruct (frame_fields f rest) as (-> & _ & _ & _).
  rewrite wrap_small, (from_le_bytes_small 4 32)
    by (unfold urange, MAX_FRAME_PAYLOAD in *; lia).
  rewrite length_app, Nat2Z.inj_add, zlen_encode_frame. pose proof (frame_size_pos f).
  destruct (Z.ltb_spec (frame_size f + zlen rest) FRAME_HEADER_LEN);
    unfold FRAME_HEADER_LEN in *; [lia|].
  destruct Hp as [->|Hp]; [done|]. destruct (Z.ltb_spec MAX_FRAME_PAYLOAD (zlen (payload f))); [|lia].
  by rewrite orb_true_r.
Qed.

End Codec.

(** *** File names and segment headers *)

Lemma parse_segment_path seq : urange 64 seq -> parse_segment_seq (segment_path seq) = Some seq.
Proof.
  intros [H0 H1]. unfold parse_segment_seq, segment_path.
  rewrite strip_prefix_app. cbn [mbind option_bind].
  rewrite strip_suffix_app. cbn [mbind option_bind].
  apply (parse_uint_dec_fixed 64 19); lia.
Qed.

Lemma segment_path_inj s1 s2 :
  urange 64 s1 -> urange 64 s2 -> segment_path s1 = segment_path s2 -> s1 = s2.
Proof.
  intros H1 H2 E. apply (f_equal parse_segment_seq) in E.
  rewrite !parse_segment_path in E by done. by inv E.
Qed.

Lemma validate_encoded_header rest : validate_segment_header (encode_segment_header ++ rest) = Ok tt.
Proof.
  unfold validate_segment_header.
  rewrite length_app, length_encode_segment_header.
  destruct (Z.ltb_spec (Z.of_nat (16 + length rest)) SEGMENT_HEADER_LEN);
    unfold SEGMENT_HEADER_LEN in *; [lia|reflexivity].
Qed.

(** ** Properties *)

Section Properties.
Context {crc : Crc32}.


(** [read_frame_at] computes [decode_at] of the file's bytes, however the
    kernel splits or interrupts its reads: for every script of outcomes it
    answers what the bytes say or a system error, never runs out of rounds, and
    touches nothing; on a healthy disk it answers what the bytes say. *)
Theorem read_frame_at_is_decode name offset w :
  0 <= offset ->
  exists fs,
    (read_frame_at name offset w = (Ok (decode_at (file_bytes name w) offset), set_w_faults fs w)
     \/ read_frame_at name offset w = (Err IoOs, set_w_faults fs w))
    /\ (w_faults w = [] ->
        read_frame_at name offset w = (Ok (decode_at (file_bytes name w) offset), w)).
Proof. apply read_frame_at_spec. Qed.

(** A torn write is a clean end of data.  After any number of complete
    frames, every strict prefix of one more frame, the empty one included,
    reads as [FrameEnd], so a crash in the middle of an append can be told from
    data. *)
Theorem torn_tail_reads_as_end pre f k :
  frame_ok f -> Z.of_nat k < frame_size f ->
  decode_at (pre ++ take k (encode_frame f)) (zlen pre) = FrameEnd.
Proof. apply decode_torn. Qed.

(** The writer accepts payloads the reader refuses: an empty payload, or
    one longer than [MAX_FRAME_PAYLOAD], is encoded without an error and reads
    back as corruption, whatever follows it. *)
Theorem unchecked_payload_is_unreadable pre f rest :
  zlen (payload f) = 0 \/ MAX_FRAME_PAYLOAD < zlen (payload f) < 2 ^ 32 ->
  decode_at (pre ++ encode_frame f ++ rest) (zlen pre) = FrameCorrupt.
Proof. apply decode_unreadable. Qed.

End Properties.

(** Segment file names round trip: the sequence number of every file the
    log creates is recovered from its name, and two segments never share one. *)
Theorem segment_name_roundtrip s1 s2 :
  urange 64 s1 -> urange 64 s2 ->
  parse_segment_seq (segment_path s1) = Some s1
  /\ (segment_path s1 = segment_path s2 <-> s1 = s2).
Proof.
  intros H1 H2. split; [by apply parse_segment_path|].
  split; [by apply segment_path_inj|congruence].
Qed.

(** ** Witnesses *)

Definition sample_frame : DecodedFrame := Frame 7 [123; 34; 105; 34; 125].


(** A file read in pieces of one byte, with an interruption in the middle. *)
Definition choppy_world : world :=
  set_w_faults [OkFull; OkShort 0; Intr; OkShort 3; OkFull; Intr; OkShort 1]
    (set_w_files {[ "f" := encode_frame sample_frame ]} fresh_world).

Lemma read_frame_at_is_decode_witness :
  fst (read_frame_at "f" 0 choppy_world) = Ok (FrameOk sample_frame 21).
Proof.
  destruct (read_frame_at_is_decode "f" 0 choppy_world ltac:(lia)) as (fs & [E|E] & _).
  - rewrite E. vm_compute; reflexivity.
  - exfalso. apply (f_equal fst) in E. vm_compute in E. discriminate E.
Defined.

Lemma torn_tail_reads_as_end_witness :
  decode_at ([1; 2] ++ take 18 (encode_frame sample_frame)) 2 = FrameEnd.
Proof. apply (torn_tail_reads_as_end [1; 2] sample_frame 18); vm_compute; repeat split; discriminate. Defined.

Lemma unchecked_payload_is_unreadable_witness :
  decode_at ([] ++ encode_frame (Frame 3 []) ++ encode_frame sample_frame) 0 = FrameCorrupt.
Proof. apply (unchecked_payload_is_unreadable [] (Frame 3 [])). left. reflexivity. Defined.

Lemma segment_name_roundtrip_witness :
  parse_segment_seq (segment_path 12345) = Some 12345
  /\ (segment_path 12345 = segment_path 7 <-> 12345 = 7).
Proof. apply (segment_name_roundtrip 12345 7); unfold urange; lia. Defined.
