(* ===== verification/Wal.v ===== *)
(** * Wal: the write-ahead log store

    Models [statix/src/wal/mod.rs] below the public handle: the configuration,
    the store state [WalInner] and every operation on it, in the order of the
    source, over the file system of [Disk].  An operation on [&mut self] that
    returns [io::Result] is a computation of the monad [W]: it threads the
    store together with the world and keeps both when it fails. *)

From S2P Require Export Segment.

(** ** Metric names *)

Definition M_BYTES_CURRENT : string := "statix_wal_bytes_current".
Definition M_SEGMENTS_CURRENT : string := "statix_wal_segments_current".
Definition M_FRAMES_WRITTEN : string := "statix_wal_frames_written_total".
Definition M_FRAMES_REPLAYED : string := "statix_wal_frames_replayed_total".
Definition M_DROPPED_BATCHES : string := "statix_wal_dropped_batches_total".
Definition M_DROPPED_BYTES : string := "statix_wal_dropped_bytes_total".
Definition M_CORRUPT_FRAMES : string := "statix_wal_corrupt_frames_total".
Definition M_WRITE_ERRORS : string := "statix_wal_write_errors_total".

(** ** State *)

(** [fsync_interval] is in milliseconds. *)
Record WalConfig : Type := {
  enabled : bool;
  dir : string;
  max_bytes : Z;
  segment_bytes : Z;
  fsync_frames : Z;
  fsync_interval : Z
}.

Record SegmentMeta : Type := {
  meta_seq : Z;
  meta_path : string;
  meta_bytes : Z;
  meta_frames : Z
}.

(** The open file of the active segment is its name and the position of its
    cursor; [as_offset] is the store's own idea of where the data ends. *)
Record ActiveSegment : Type := {
  as_seq : Z;
  as_file : string;
  as_pos : Z;
  as_offset : Z
}.

Record WalInner : Type := {
  cfg : WalConfig;
  segments : list SegmentMeta;
  active : option ActiveSegment;
  total_bytes : Z;
  next_seq : Z;
  next_batch_seq : Z;
  read_seq : Z;
  read_offset : Z;
  pending_advance : option Z
}.

Definition set_segments (l : list SegmentMeta) (s : WalInner) : WalInner :=
  {| cfg := cfg s; segments := l; active := active s; total_bytes := total_bytes s;
     next_seq := next_seq s; next_batch_seq := next_batch_seq s; read_seq := read_seq s;
     read_offset := read_offset s; pending_advance := pending_advance s |}.
Definition set_active (a : option ActiveSegment) (s : WalInner) : WalInner :=
  {| cfg := cfg s; segments := segments s; active := a; total_bytes := total_bytes s;
     next_seq := next_seq s; next_batch_seq := next_batch_seq s; read_seq := read_seq s;
     read_offset := read_offset s; pending_advance := pending_advance s |}.
Definition set_total_bytes (n : Z) (s : WalInner) : WalInner :=
  {| cfg := cfg s; segments := segments s; active := active s; total_bytes := n;
     next_seq := next_seq s; next_batch_seq := next_batch_seq s; read_seq := read_seq s;
     read_offset := read_offset s; pending_advance := pending_advance s |}.
Definition set_next_seq (n : Z) (s : WalInner) : WalInner :=
  {| cfg := cfg s; segments := segments s; active := active s; total_bytes := total_bytes s;
     next_seq := n; next_batch_seq := next_batch_seq s; read_seq := read_seq s;
     read_offset := read_offset s; pending_advance := pending_advance s |}.
Definition set_next_batch_seq (n : Z) (s : WalInner) : WalInner :=
  {| cfg := cfg s; segments := segments s; active := active s; total_bytes := total_bytes s;
     next_seq := next_seq s; next_batch_seq := n; read_seq := read_seq s;
     read_offset := read_offset s; pending_advance := pending_advance s |}.
Definition set_read_cursor (seq offset : Z) (s : WalInner) : WalInner :=
  {| cfg := cfg s; segments := segments s; active := active s; total_bytes := total_bytes s;
     next_seq := next_seq s; next_batch_seq := next_batch_seq s; read_seq := seq;
     read_offset := offset; pending_advance := pending_advance s |}.
Definition set_pending_advance (p : option Z) (s : WalInner) : WalInner :=
  {| cfg := cfg s; segments := segments s; active := active s; total_bytes := total_bytes s;
     next_seq := next_seq s; next_batch_seq := next_batch_seq s; read_seq := read_seq s;
     read_offset := read_offset s; pending_advance := p |}.

Definition add_frame (size : Z) (m : SegmentMeta) : SegmentMeta :=
  {| meta_seq := meta_seq m; meta_path := meta_path m;
     meta_bytes := wrapping_add 64 (meta_bytes m) size;
     meta_frames := wrapping_add 64 (meta_frames m) 1 |}.

Definition set_as_pos (p : Z) (a : ActiveSegment) : ActiveSegment :=
  {| as_seq := as_seq a; as_file := as_file a; as_pos := p; as_offset := as_offset a |}.
Definition set_as_offset (o : Z) (a : ActiveSegment) : ActiveSegment :=
  {| as_seq := as_seq a; as_file := as_file a; as_pos := as_pos a; as_offset := o |}.

(** The store and the world it runs in. *)
Record wal_state : Type := WalState { inner : WalInner; disk : world }.

Definition W (A : Type) : Type := M wal_state io_error A.

Definition get {A} (f : WalInner -> A) : W A := gets (fun s => f (inner s)).
Definition upd (f : WalInner -> WalInner) : W unit :=
  modify (fun s => WalState (f (inner s)) (disk s)).
Definition io {A} (m : IO A) : W A := zoom disk (fun w s => WalState (inner s) w) m.

(** ** Operations *)

Definition refresh_gauges_of (st : WalInner) : IO unit :=
  gauge M_BYTES_CURRENT (total_bytes st);;
  gauge M_SEGMENTS_CURRENT (zlen (segments st)).

Section Wal.
Context {crc : Crc32}.

Definition refresh_gauges : W unit :=
  st ← get id;
  io (refresh_gauges_of st).

(** The drop-oldest loop of [enforce_cap]; each round removes a segment, so
    the number of segments bounds the rounds. *)
Fixpoint enforce_cap_loop (fuel : nat) (incoming : Z) : W unit :=
  match fuel with
  | O => mret tt
  | S fuel =>
      st ← get id;
      if (max_bytes (cfg st) <? wrapping_add 64 (total_bytes st) incoming)
         && (1 <? zlen (segments st))
      then match segments st with
           | [] => mret tt
           | victim :: rest =>
               upd (set_segments rest);;
               upd (set_total_bytes (saturating_sub (total_bytes st) (meta_bytes victim)));;
               io (counter M_DROPPED_BATCHES (meta_frames victim));;
               io (counter M_DROPPED_BYTES (meta_bytes victim));;
               attempt (io (fs_remove (meta_path victim)));;
               when (read_seq st =? meta_seq victim)
                 match rest with
                 | [] => mret tt
                 | front :: _ =>
                     upd (set_read_cursor (meta_seq front) SEGMENT_HEADER_LEN);;
                     upd (set_pending_advance None)
                 end;;
               enforce_cap_loop fuel incoming
           end
      else mret tt
  end.

Definition enforce_cap (incoming : Z) : W unit :=
  segs ← get segments;
  enforce_cap_loop (length segs) incoming;;
  refresh_gauges.

(** The two halves of [rotate]: closing the old segment, opening the next. *)
Definition close_active : W unit :=
  old ← get active;
  match old with
  | Some old => upd (set_active None);; attempt (io (fdatasync (as_file old)));; mret tt
  | None => mret tt
  end.

Definition open_segment : W unit :=
  io fs_create_dir_all;;
  seq ← get next_seq;
  upd (set_next_seq (wrapping_add 64 seq 1));;
  let path := segment_path seq in
  io (fs_create path;; fs_write_all path 0 encode_segment_header);;
  st ← get id;
  upd (set_segments (segments st ++
         [{| meta_seq := seq; meta_path := path; meta_bytes := SEGMENT_HEADER_LEN;
             meta_frames := 0 |}]));;
  upd (set_total_bytes (wrapping_add 64 (total_bytes st) SEGMENT_HEADER_LEN));;
  upd (set_active (Some {| as_seq := seq; as_file := path; as_pos := SEGMENT_HEADER_LEN;
                           as_offset := SEGMENT_HEADER_LEN |})).

Definition rotate : W unit := close_active;; open_segment.

Definition ensure_active_with_room (frame_size : Z) : W unit :=
  st ← get id;
  let needs_rotate :=
    match active st with
    | None => true
    | Some a => (SEGMENT_HEADER_LEN <? as_offset a)
                && (segment_bytes (cfg st) <? wrapping_add 64 (as_offset a) frame_size)
    end in
  when needs_rotate rotate.

(** [active.file.write_all(bs)]: the cursor moves past what was written. *)
Definition write_active (bs : bytes) : W unit :=
  a ← get active;
  match a with
  | None => fail IoPanic
  | Some a =>
      '(n, ok) ← io (fs_write (as_file a) (as_pos a) bs);
      upd (set_active (Some (set_as_pos (as_pos a + n) a)));;
      if (ok : bool) then mret tt else fail IoOs
  end.

Definition append (payload : bytes) : W unit :=
  let frame_size := frame_len_on_disk (zlen payload) in
  enforce_cap frame_size;;
  ensure_active_with_room frame_size;;
  batch_seq ← get next_batch_seq;
  upd (set_next_batch_seq (wrapping_add 64 batch_seq 1));;
  let header := encode_frame_header payload batch_seq in
  write_active header;;
  write_active payload;;
  upd (fun st =>
    set_active ((fun a => set_as_offset (wrapping_add 64 (as_offset a) frame_size) a) <$> active st) st);;
  upd (fun st => set_segments (update_back (add_frame frame_size) (segments st)) st);;
  upd (fun st => set_total_bytes (wrapping_add 64 (total_bytes st) frame_size) st);;
  io (counter M_FRAMES_WRITTEN 1);;
  refresh_gauges.

Definition recover_active_after_error : W unit :=
  a ← get active;
  match a with
  | None => mret tt
  | Some a =>
      attempt (io (fs_set_len (as_file a) (as_offset a)));;
      sought ← attempt (io fs_seek);
      if is_ok sought then upd (set_active (Some (set_as_pos (as_offset a) a))) else mret tt
  end.

Definition sync_active : W unit :=
  a ← get active;
  match a with
  | None => mret tt
  | Some a => io (fdatasync (as_file a))
  end.

(** [position] and [remove]: drop the first segment with sequence number [seq]. *)
Fixpoint remove_seq (seq : Z) (l : list SegmentMeta) : list SegmentMeta :=
  match l with
  | [] => []
  | m :: l => if meta_seq m =? seq then l else m :: remove_seq seq l
  end.

Definition find_seq (seq : Z) (l : list SegmentMeta) : option SegmentMeta :=
  List.find (fun m => meta_seq m =? seq) l.

(** The two halves of [gc_front_consumed] around the segment list: giving up
    the file, and moving the reader to the new front. *)
Definition unlink_consumed (path : string) : IO unit :=
  attempt (fs_open path);;
  attempt (fs_remove path);;
  mret tt.

Definition advance_to_front : W unit :=
  segs ← get segments;
  match segs with
  | front :: _ => upd (set_read_cursor (meta_seq front) SEGMENT_HEADER_LEN)
  | [] => mret tt
  end;;
  upd (set_pending_advance None);;
  refresh_gauges.

Definition gc_front_consumed : W unit :=
  st ← get id;
  let cur := read_seq st in
  match find_seq cur (segments st) with
  | Some m =>
      upd (set_segments (remove_seq cur (segments st)));;
      upd (set_total_bytes (saturating_sub (total_bytes st) (meta_bytes m)));;
      io (unlink_consumed (meta_path m))
  | None => mret tt
  end;;
  advance_to_front.

(** The loop of [peek_next]; a round that does not return removes a segment. *)
Fixpoint peek_next_loop (fuel : nat) : W (option DecodedFrame) :=
  match fuel with
  | O => fail IoFuel
  | S fuel =>
      st ← get id;
      match segments st with
      | [] => mret None
      | front :: _ =>
          when (negb (existsb (fun m => meta_seq m =? read_seq st) (segments st)))
            (upd (set_read_cursor (meta_seq front) SEGMENT_HEADER_LEN));;
          st ← get id;
          let is_active :=
            match active st with Some a => as_seq a =? read_seq st | None => false end in
          match find_seq (read_seq st) (segments st) with
          | None => fail IoPanic
          | Some m =>
              io (fs_open (meta_path m));;
              r ← io (read_frame_at (meta_path m) (read_offset st));
              match r with
              | FrameOk frame next => upd (set_pending_advance (Some next));; mret (Some frame)
              | FrameEnd | FrameCorrupt =>
                  if is_active then mret None
                  else gc_front_consumed;; peek_next_loop fuel
              end
          end
      end
  end.

Definition peek_next : W (option DecodedFrame) :=
  segs ← get segments;
  peek_next_loop (S (length segs)).

Definition commit_pending : W unit :=
  p ← get pending_advance;
  upd (set_pending_advance None);;
  match p with
  | Some next =>
      upd (fun st => set_read_cursor (read_seq st) next st);;
      io (counter M_FRAMES_REPLAYED 1)
  | None => mret tt
  end.

Definition has_backlog (st : WalInner) : bool :=
  match active st with
  | None => false
  | Some a => negb (read_seq st =? as_seq a) || (read_offset st <? as_offset a)
  end.

End Wal.

Definition empty_inner (c : WalConfig) : WalInner :=
  {| cfg := c; segments := []; active := None; total_bytes := 0; next_seq := 0;
     next_batch_seq := 0; read_seq := 0; read_offset := SEGMENT_HEADER_LEN;
     pending_advance := None |}.

Definition inner_from_recovered (c : WalConfig) (segs : list SegmentMeta)
    (act : option ActiveSegment) (total nseq nbatch : Z) : IO WalInner :=
  let '(rseq, roff) := match segs with
                       | s :: _ => (meta_seq s, SEGMENT_HEADER_LEN)
                       | [] => (nseq, SEGMENT_HEADER_LEN)
                       end in
  let st := {| cfg := c; segments := segs; active := act; total_bytes := total;
               next_seq := nseq; next_batch_seq := nbatch; read_seq := rseq;
               read_offset := roff; pending_advance := None |} in
  refresh_gauges_of st;; mret st.

(** A store that has never been used, over a given world. *)
Definition fresh_wal (c : WalConfig) (w : world) : wal_state := WalState (empty_inner c) w.

(** *** Evaluation on a small log: two segments, then a drop. *)

Definition small_cfg : WalConfig :=
  {| enabled := true; dir := "/var/lib/statix/wal"; max_bytes := 96; segment_bytes := 64;
     fsync_frames := 1; fsync_interval := 200 |}.

Example append_twice_rotates :
  let s := (append [1; 2; 3; 4; 5; 6; 7; 8; 9; 10];; append [7; 8; 9; 10; 11; 12; 13; 14])
             (fresh_wal small_cfg fresh_world) in
  fst s = Ok tt /\ meta_bytes <$> segments (inner (snd s)) = [42; 40]
  /\ total_bytes (inner (snd s)) = 82.
Proof. vm_compute. auto. Qed.

Example append_thrice_drops :
  let s := (append [1; 2; 3; 4; 5; 6; 7; 8; 9; 10];; append [7; 8; 9; 10; 11; 12; 13; 14];;
            append [1; 2; 3; 4; 5; 6; 7; 8; 9; 10]) (fresh_wal small_cfg fresh_world) in
  fst s = Ok tt /\ meta_seq <$> segments (inner (snd s)) = [1; 2]
  /\ metric (w_metrics (disk (snd s))) M_DROPPED_BATCHES = 1.
Proof. vm_compute. auto. Qed.
