(* ===== verification/WalInv.v ===== *)
(** * WalInv: the representation invariant of the log store

    [wal_rep clean s segs k] relates a store [s] to the frames it holds:
    [segs] lists the frames of each segment, oldest segment first, and [k] of
    the front segment's frames have been committed by the reader.  The frames
    still to be replayed are [queue segs k].  The file's lemmas say what every
    operation of [Wal] does to the representation, for every script of
    system-call outcomes. *)

From S2P Require Export Wal.

Section Inv.
Context {crc : Crc32}.

(** ** The invariant *)

(** Bytes after the last frame at which the reader stops. *)
Definition dead (junk : bytes) : Prop := forall f n, decode_at junk 0 <> FrameOk f n.

Definition seg_data (fr : list DecodedFrame) : bytes := encode_segment_header ++ encode_frames fr.

Lemma seg_data_snoc fr f : seg_data (fr ++ [f]) = seg_data fr ++ encode_frame f.
Proof.
  unfold seg_data. rewrite encode_frames_app, app_assoc. f_equal.
  unfold encode_frames. cbn [fmap list_fmap concat]. by rewrite app_nil_r.
Qed.

Lemma zlen_seg_data fr : zlen (seg_data fr) = SEGMENT_HEADER_LEN + sumZ frame_size fr.
Proof.
  unfold seg_data. by rewrite length_app, length_encode_segment_header, Nat2Z.inj_add, zlen_encode_frames.
Qed.

Lemma seg_data_unfold fr : seg_data fr = encode_segment_header ++ encode_frames fr.
Proof. reflexivity. Qed.

Lemma frames_le_size fr : zlen fr <= sumZ frame_size fr.
Proof.
  induction fr as [|f fr IH]; [done|]. pose proof (frame_size_pos f).
  rewrite sumZ_cons. simpl. lia.
Qed.

Lemma seg_data_nil : seg_data [] = encode_segment_header.
Proof. unfold seg_data. apply app_nil_r. Qed.

(** A segment's metadata describes its file. *)
Definition seg_ok (files : gmap string bytes) (m : SegmentMeta) (fr : list DecodedFrame) : Prop :=
  meta_path m = segment_path (meta_seq m)
  /\ (exists junk, files !! meta_path m = Some (seg_data fr ++ junk) /\ dead junk)
  /\ meta_bytes m = SEGMENT_HEADER_LEN + sumZ frame_size fr
  /\ meta_frames m = zlen fr
  /\ Forall frame_ok fr
  /\ 0 <= meta_seq m.

(** The active segment is the newest one; [clean] says its file ends exactly
    where the store thinks it does and the cursor is there. *)
Definition active_ok (clean : bool) (files : gmap string bytes) (a : ActiveSegment)
    (m : SegmentMeta) : Prop :=
  as_seq a = meta_seq m /\ as_file a = meta_path m /\ as_offset a = meta_bytes m
  /\ (clean = true -> as_pos a = as_offset a
                      /\ exists c, files !! meta_path m = Some c /\ zlen c = as_offset a).

(** The reader is inside the front segment, or waits for the next one. *)
Definition cursor_ok (st : WalInner) (segs : list (list DecodedFrame)) (k : nat) : Prop :=
  match segments st, segs with
  | m :: _, fr :: _ =>
      (read_seq st = meta_seq m /\ (k <= length fr)%nat
       /\ read_offset st = SEGMENT_HEADER_LEN + sumZ frame_size (take k fr)
       /\ (forall next, pending_advance st = Some next ->
             exists f, fr !! k = Some f /\ next = read_offset st + frame_size f))
      \/ (Forall (fun m => read_seq st < meta_seq m) (segments st) /\ read_seq st < next_seq st
          /\ k = 0%nat /\ pending_advance st = None)
  | _, _ =>
      k = 0%nat /\ pending_advance st = None
      /\ (read_seq st < next_seq st
          \/ (read_seq st = next_seq st /\ read_offset st = SEGMENT_HEADER_LEN))
  end.

Record wal_rep (clean : bool) (s : wal_state) (segs : list (list DecodedFrame)) (k : nat)
    : Prop := {
  rep_segs : Forall2 (seg_ok (w_files (disk s))) (segments (inner s)) segs;
  rep_sorted : StronglySorted Z.lt (meta_seq <$> segments (inner s));
  rep_next : Forall (fun m => meta_seq m < next_seq (inner s)) (segments (inner s));
  rep_next_range : 0 <= next_seq (inner s) < 2 ^ 64;
  rep_batch_range : urange 64 (next_batch_seq (inner s));
  rep_active :
    match active (inner s) with
    | None => True
    | Some a => exists m, last (segments (inner s)) = Some m
                          /\ active_ok clean (w_files (disk s)) a m
    end;
  rep_total : total_bytes (inner s) = sumZ meta_bytes (segments (inner s));
  rep_cursor : cursor_ok (inner s) segs k
}.

(** The directory holds no segment file but the store's; and, when [synced], every
    segment but the active one is durable. *)
Record settled_if (synced : bool) (s : wal_state) : Prop := {
  se_durable : synced = true -> forall m, m ∈ segments (inner s) ->
    (forall a, active (inner s) = Some a -> as_file a <> meta_path m) ->
    w_durable (disk s) !! meta_path m = w_files (disk s) !! meta_path m;
  se_only : forall name, is_Some (w_files (disk s) !! name) ->
    parse_segment_seq name = None \/ exists m, m ∈ segments (inner s) /\ name = meta_path m;
  se_sub : synced = true ->
    forall name, is_Some (w_durable (disk s) !! name) -> is_Some (w_files (disk s) !! name)
}.

(** Every segment is durable. *)
Definition all_durable (s : wal_state) : Prop :=
  forall m, m ∈ segments (inner s) ->
    w_durable (disk s) !! meta_path m = w_files (disk s) !! meta_path m.

(** The frames not yet committed by the reader, oldest first. *)
Definition queue (segs : list (list DecodedFrame)) (k : nat) : list DecodedFrame :=
  drop k (concat segs).

(** ** Framing

    The invariant reads the world only through the segments' files. *)

Lemma rep_frame clean st w w' segs k :
  wal_rep clean (WalState st w) segs k ->
  (forall m, m ∈ segments st -> w_files w' !! meta_path m = w_files w !! meta_path m) ->
  wal_rep clean (WalState st w') segs k.
Proof.
  intros [R1 R2 R3 R4 R5 R6 R7 R8] Hf; simpl in *. split; simpl; try done.
  - clear -R1 Hf. induction R1 as [|m fr l segs H _ IH]; constructor.
    + destruct H as (? & (j & Hj & ?) & ?). split; [done|]. split; [|done].
      exists j. rewrite Hf; [done|by left].
    + apply IH. intros. apply Hf. by right.
  - destruct (active st) as [a|]; [|done]. destruct R6 as (m & Hl & ? & ? & ? & Hc).
    exists m. split; [done|]. split_and!; try done. intros E. destruct (Hc E) as (? & c & ? & ?).
    split; [done|]. exists c. split; [|done]. rewrite Hf; [done|].
    apply last_Some in Hl as (l' & ->). apply elem_of_app. right. by left.
Qed.

Lemma settled_world b st w w' :
  settled_if b (WalState st w) -> w_files w' = w_files w -> w_durable w' = w_durable w ->
  settled_if b (WalState st w').
Proof. intros [H1 H2 H3] Ef Ed. split; simpl in *; by rewrite ?Ef, ?Ed. Qed.

Lemma settled_tidy b s : settled_if b s -> settled_if false s.
Proof. intros [_ H _]. by split. Qed.

(** States that differ in nothing the writer looks at. *)
Definition same_writer (st st' : WalInner) : Prop :=
  cfg st' = cfg st /\ active st' = active st /\ next_seq st' = next_seq st
  /\ next_batch_seq st' = next_batch_seq st.

Lemma same_writer_trans a b c : same_writer a b -> same_writer b c -> same_writer a c.
Proof. unfold same_writer. intuition congruence. Qed.

Lemma rep_length clean s segs k :
  wal_rep clean s segs k -> length (segments (inner s)) = length segs.
Proof. intros [R _ _ _ _ _ _ _]. by eapply Forall2_length. Qed.

Lemma seg_ok_bytes files m fr : seg_ok files m fr -> SEGMENT_HEADER_LEN <= meta_bytes m.
Proof. intros (_ & _ & -> & _). pose proof (sum_frame_size_nonneg fr). lia. Qed.

Lemma seg_bytes_nonneg files l segs :
  Forall2 (seg_ok files) l segs -> 0 <= sumZ meta_bytes l.
Proof.
  intros H. apply sumZ_nonneg. clear -H. induction H as [|m fr l segs Hm _ IH]; constructor; [|done].
  pose proof (seg_ok_bytes _ _ _ Hm). unfold SEGMENT_HEADER_LEN in *. lia.
Qed.

Lemma queue_bound clean s segs k : wal_rep clean s segs k -> (k <= length (concat segs))%nat.
Proof.
  intros [R1 _ _ _ _ _ _ R8]. unfold cursor_ok in R8.
  destruct (segments (inner s)) as [|m l], segs as [|fr segs]; [lia|inv R1..|].
  simpl. rewrite length_app. destruct R8 as [(_ & ? & _)|(_ & _ & -> & _)]; lia.
Qed.

(** ** Dropping the oldest segment *)

Definition dropped (victim front : SegmentMeta) (rest : list SegmentMeta) (st : WalInner)
    : WalInner :=
  let st' := set_total_bytes (saturating_sub (total_bytes st) (meta_bytes victim))
               (set_segments (front :: rest) st) in
  if read_seq st =? meta_seq victim
  then set_pending_advance None (set_read_cursor (meta_seq front) SEGMENT_HEADER_LEN st')
  else st'.

(** Distinct sequence numbers live in distinct files. *)
Lemma rep_seg_in clean s segs k m :
  wal_rep clean s segs k -> m ∈ segments (inner s) ->
  meta_path m = segment_path (meta_seq m) /\ urange 64 (meta_seq m)
  /\ meta_seq m < next_seq (inner s).
Proof.
  intros [R1 _ R3 R4 _ _ _ _] Hm. apply list_elem_of_lookup in Hm as [i Hi].
  destruct (Forall2_lookup_l _ _ _ _ _ R1 Hi) as (fr & _ & Hp & _ & _ & _ & _ & H0).
  pose proof (proj1 (Forall_lookup _ _) R3 _ _ Hi). unfold urange. simpl in *. split_and!; auto; lia.
Qed.

Lemma rep_path_ne clean s segs k m seq :
  wal_rep clean s segs k -> m ∈ segments (inner s) -> urange 64 seq -> meta_seq m <> seq ->
  meta_path m <> segment_path seq.
Proof.
  intros R Hm Hs Hne E. destruct (rep_seg_in _ _ _ _ _ R Hm) as (Hp & Hr & _).
  rewrite Hp in E. by apply segment_path_inj in E.
Qed.

Lemma sorted_head_lt (v : SegmentMeta) (l : list SegmentMeta) :
  StronglySorted Z.lt (meta_seq <$> v :: l) -> forall m, m ∈ l -> meta_seq v < meta_seq m.
Proof.
  rewrite fmap_cons. intros [_ H]%StronglySorted_inv m Hm.
  rewrite Forall_fmap in H. by eapply Forall_forall in H.
Qed.

Lemma rep_front_frames clean s m l fr segs k :
  wal_rep clean s (fr :: segs) k -> segments (inner s) = m :: l -> (k <= length fr)%nat.
Proof.
  intros [_ _ _ _ _ _ _ R8] E. unfold cursor_ok in R8. rewrite E in R8.
  destruct R8 as [(_ & ? & _)|(_ & _ & -> & _)]; lia.
Qed.

Lemma queue_next fr segs k :
  (k <= length fr)%nat -> queue segs 0 = drop (length fr - k) (queue (fr :: segs) k).
Proof.
  intros. unfold queue. simpl. rewrite drop_0, drop_drop.
  replace (k + (length fr - k))%nat with (length fr) by lia. by rewrite drop_app_length.
Qed.

Lemma dropped_rep clean st w w' victim front rest fr segs k :
  segments st = victim :: front :: rest ->
  wal_rep clean (WalState st w) (fr :: segs) k ->
  (forall m, m ∈ front :: rest -> w_files w' !! meta_path m = w_files w !! meta_path m) ->
  wal_rep clean (WalState (dropped victim front rest st) w') segs 0.
Proof.
  intros E R Hw. apply (rep_frame _ _ w);
    [|intros m; unfold dropped; case_match; simpl; apply Hw].
  destruct R as [R1 R2 R3 R4 R5 R6 R7 R8]; simpl in *. rewrite E in *.
  inversion R1 as [|? ? ? ? Hv R1']; subst. pose proof (sorted_head_lt _ _ R2) as Hlt.
  assert (Htot : saturating_sub (total_bytes st) (meta_bytes victim)
                 = sumZ meta_bytes (front :: rest)).
  { pose proof (seg_bytes_nonneg _ _ _ R1'). rewrite R7. unfold saturating_sub, sumZ in *.
    simpl in *. lia. }
  assert (Hcur : cursor_ok (dropped victim front rest st) segs 0).
  { inversion R1' as [|? fr2 ? segs2]; subst. unfold cursor_ok, dropped in *. rewrite E in R8.
    destruct (Z.eqb_spec (read_seq st) (meta_seq victim)) as [Ec|Ec]; simpl.
    - left. split_and!; [done|lia|reflexivity|intros ? [=]].
    - right. destruct R8 as [(? & _)|(Hs & ? & _ & ?)]; [done|]. split_and!; try done.
      by inversion Hs. }
  split; try exact Hcur; unfold dropped; destruct (read_seq st =? meta_seq victim); simpl; try done.
  1, 2: rewrite fmap_cons in R2; by apply StronglySorted_inv in R2 as [? _].
  1, 2: by inversion R3.
  all: destruct (active st) as [a|]; [|done]; destruct R6 as (m & Hl & ?); by exists m.
Qed.

Lemma front_path_ne clean st w m l m0 segs k :
  wal_rep clean (WalState st w) segs k -> segments st = m :: l -> m0 ∈ l ->
  meta_path m <> meta_path m0.
Proof.
  intros R E Hin. destruct (rep_seg_in _ _ _ _ m R) as (-> & Hr & _); [simpl; rewrite E; by left|].
  intros Ep. symmetry in Ep. revert Ep.
  apply (rep_path_ne _ _ _ _ m0 _ R); [simpl; rewrite E; by right|done|].
  pose proof (rep_sorted _ _ _ _ R) as Hs. simpl in Hs. rewrite E in Hs.
  pose proof (sorted_head_lt _ _ Hs _ Hin). lia.
Qed.

Lemma settled_drop b clean st w victim front rest fr segs k :
  segments st = victim :: front :: rest -> wal_rep clean (WalState st w) (fr :: segs) k ->
  settled_if b (WalState st w) ->
  settled_if b (WalState (dropped victim front rest st)
    (set_w_durable (delete (meta_path victim) (w_durable w))
      (set_w_files (delete (meta_path victim) (w_files w)) w))).
Proof.
  intros E R [H1 H2 H3]. simpl in *.
  assert (Eact : active (dropped victim front rest st) = active st
                 /\ segments (dropped victim front rest st) = front :: rest)
    by (unfold dropped; by destruct (_ =? _)). destruct Eact as [Ea Es].
  split; simpl; rewrite ?Ea, ?Es.
  - intros Hb m Hm Hact. pose proof (front_path_ne _ _ _ _ _ _ _ _ R E Hm) as Hne.
    rewrite !lookup_delete_ne by done. apply (H1 Hb); [|done]. rewrite E. by right.
  - intros name [c Hc]. apply lookup_delete_Some in Hc as [Hne Hc].
    destruct (H2 name) as [?|(m & Hm & ->)]; [by eauto|by left|right]. exists m. split; [|done].
    rewrite E in Hm. apply elem_of_cons in Hm as [->|?]; done.
  - intros Hb name [c Hc]. apply lookup_delete_Some in Hc as [Hne Hc].
    rewrite lookup_delete_ne by done. eauto.
Qed.

(** ** Capacity enforcement *)

(** The reader's position once the segments [pre] are gone. *)
Definition restart (pre : list (list DecodedFrame)) (k : nat) : nat :=
  match pre with [] => k | _ => 0 end.

(** What dropping the segments [pre] does to the counters. *)
Definition drop_metrics (pre : list (list DecodedFrame)) (w w' : world) : Prop :=
  metric (w_metrics w') M_DROPPED_BATCHES
    = metric (w_metrics w) M_DROPPED_BATCHES + sumZ (fun fr => zlen fr) pre
  /\ metric (w_metrics w') M_DROPPED_BYTES
    = metric (w_metrics w) M_DROPPED_BYTES
      + sumZ (fun fr => SEGMENT_HEADER_LEN + sumZ frame_size fr) pre
  /\ (forall name, name <> M_DROPPED_BATCHES -> name <> M_DROPPED_BYTES ->
        name <> M_BYTES_CURRENT -> name <> M_SEGMENTS_CURRENT ->
        metric (w_metrics w') name = metric (w_metrics w) name).

(** Dropping [pre] off the front of [segs] to make room for [incoming]. *)
Record cap_enforced (clean : bool) (incoming : Z) (s s' : wal_state)
    (segs segs' pre : list (list DecodedFrame)) (k : nat) : Prop := {
  ce_split : segs = pre ++ segs';
  ce_rep : wal_rep clean s' segs' (restart pre k);
  ce_writer : same_writer (inner s) (inner s');
  ce_last : last (segments (inner s')) = last (segments (inner s));
  ce_pending : pending_advance (inner s')
               = match pre with [] => pending_advance (inner s) | _ => None end;
  ce_total : total_bytes (inner s') <= total_bytes (inner s);
  ce_exit : total_bytes (inner s') + incoming <= max_bytes (cfg (inner s)) \/ (length segs' <= 1)%nat;
  ce_keep : total_bytes (inner s) + incoming <= max_bytes (cfg (inner s)) -> pre = [];
  ce_queue : queue segs' (restart pre k) = drop (length (concat pre) - k) (queue segs k);
  ce_metrics : drop_metrics pre (disk s) (disk s');
  ce_healthy : healthy (disk s) -> healthy (disk s');
  ce_settled : forall b, healthy (disk s) -> settled_if b s -> settled_if b s'
}.

Lemma advanced_healthy w w' : advanced w w' -> healthy w -> healthy w'.
Proof. intros (fs & -> & H) Hw. by rewrite (H Hw). Qed.

Lemma advanced_files w w' : advanced w w' -> w_files w' = w_files w.
Proof. by intros (fs & -> & _). Qed.

Lemma advanced_metrics w w' : advanced w w' -> w_metrics w' = w_metrics w.
Proof. by intros (fs & -> & _). Qed.

(** One round of the loop: the state it leaves, whatever happens to the file. *)
Lemma wp_drop_round victim front rest st w (Q : res io_error unit -> wal_state -> Prop) k :
  (forall w', (w_files w' = w_files w \/ w_files w' = delete (meta_path victim) (w_files w)) ->
     w_metrics w' = counter_add M_DROPPED_BYTES (meta_bytes victim)
                      (counter_add M_DROPPED_BATCHES (meta_frames victim) (w_metrics w)) ->
     (healthy w -> healthy w') ->
     (healthy w -> is_Some (w_files w !! meta_path victim) ->
        w_files w' = delete (meta_path victim) (w_files w)
        /\ w_durable w' = delete (meta_path victim) (w_durable w)) ->
     wp k Q (WalState (dropped victim front rest st) w')) ->
  wp (upd (set_segments (front :: rest));;
      upd (set_total_bytes (saturating_sub (total_bytes st) (meta_bytes victim)));;
      io (counter M_DROPPED_BATCHES (meta_frames victim));;
      io (counter M_DROPPED_BYTES (meta_bytes victim));;
      attempt (io (fs_remove (meta_path victim)));;
      when (read_seq st =? meta_seq victim)
        (upd (set_read_cursor (meta_seq front) SEGMENT_HEADER_LEN);;
         upd (set_pending_advance None));;
      k) Q (WalState st w).
Proof.
  intros Hk. do 2 (apply wp_bind, wp_modify). do 2 (apply wp_bind, wp_zoom, wp_modify).
  apply wp_bind, wp_attempt, wp_zoom. simpl.
  assert (Hend : forall w', (w_files w' = w_files w \/ w_files w' = delete (meta_path victim) (w_files w)) ->
     w_metrics w' = counter_add M_DROPPED_BYTES (meta_bytes victim)
                      (counter_add M_DROPPED_BATCHES (meta_frames victim) (w_metrics w)) ->
     (healthy w -> healthy w') ->
     (healthy w -> is_Some (w_files w !! meta_path victim) ->
        w_files w' = delete (meta_path victim) (w_files w)
        /\ w_durable w' = delete (meta_path victim) (w_durable w)) ->
     wp (when (read_seq st =? meta_seq victim)
        (upd (set_read_cursor (meta_seq front) SEGMENT_HEADER_LEN);;
         upd (set_pending_advance None));; k) Q
       (WalState (set_total_bytes (saturating_sub (total_bytes st) (meta_bytes victim))
                    (set_segments (front :: rest) st)) w')).
  { intros w' Hf Hm Hh Hd. specialize (Hk w' Hf Hm Hh Hd). unfold dropped in Hk.
    apply wp_bind, wp_when; intros E; rewrite E in Hk; [|done].
    apply wp_bind, wp_modify, wp_modify. exact Hk. }
  apply wp_fs_remove.
  - intros w' Ha. apply Hend; simpl.
    + right. by rewrite (advanced_files _ _ Ha).
    + by rewrite (advanced_metrics _ _ Ha).
    + intros Hw. by apply (advanced_healthy _ _ Ha).
    + intros _ _. by destruct Ha as (? & -> & _).
  - intros w' e Ha He. apply Hend; simpl.
    + left. by rewrite (advanced_files _ _ Ha).
    + by rewrite (advanced_metrics _ _ Ha).
    + intros Hw. by apply (advanced_healthy _ _ Ha).
    + intros Hw [c Hc]. destruct He as [[_ ?]|[_ Hn]]; [done|]. simpl in Hn. by rewrite Hc in Hn.
Qed.

Lemma cap_done clean incoming s segs k :
  wal_rep clean s segs k ->
  total_bytes (inner s) + incoming <= max_bytes (cfg (inner s)) \/ (length segs <= 1)%nat ->
  cap_enforced clean incoming s s segs segs [] k.
Proof.
  intros R He. split; try done; unfold drop_metrics; simpl; by rewrite ?Z.add_0_r.
Qed.

Lemma concat_drop_cons (fr : list DecodedFrame) (pre : list (list DecodedFrame)) (q : list DecodedFrame) k :
  (k <= length fr)%nat ->
  drop (length (concat pre)) (drop (length fr - k) q) = drop (length (concat (fr :: pre)) - k) q.
Proof. intros. rewrite drop_drop. simpl. rewrite length_app. f_equal. lia. Qed.

Lemma cap_step clean incoming st w w' victim front rest fr segs k s' segs' pre :
  segments st = victim :: front :: rest ->
  max_bytes (cfg st) < total_bytes st + incoming ->
  wal_rep clean (WalState st w) (fr :: segs) k ->
  w_metrics w' = counter_add M_DROPPED_BYTES (meta_bytes victim)
                   (counter_add M_DROPPED_BATCHES (meta_frames victim) (w_metrics w)) ->
  (healthy w -> healthy w') ->
  (forall b, healthy w -> settled_if b (WalState st w) -> settled_if b (WalState (dropped victim front rest st) w')) ->
  cap_enforced clean incoming (WalState (dropped victim front rest st) w') s' segs segs' pre 0 ->
  cap_enforced clean incoming (WalState st w) s' (fr :: segs) segs' (fr :: pre) k.
Proof.
  intros E Hover R Hm Hh Hset [C1 C2 C3 C4 Cp C5 C6 C7 C8 C9 C10 C11]. simpl in *.
  pose proof (rep_front_frames _ _ _ _ _ _ _ R E) as Hk.
  pose proof (rep_segs _ _ _ _ R) as R1. simpl in R1. rewrite E in R1.
  inversion R1 as [|? ? ? ? (_ & _ & Hb & Hfr & _) R1']; subst.
  assert (Hinner : same_writer st (dropped victim front rest st)
                   /\ last (segments (dropped victim front rest st)) = last (segments st)
                   /\ total_bytes (dropped victim front rest st)
                      = saturating_sub (total_bytes st) (meta_bytes victim)).
  { unfold dropped. destruct (read_seq st =? meta_seq victim); simpl; rewrite E; done. }
  destruct Hinner as (Hw & Hl & Ht).
  assert (Hpend : pending_advance (dropped victim front rest st) = None).
  { pose proof (rep_cursor _ _ _ _ R) as C. unfold cursor_ok in C. simpl in C. rewrite E in C.
    unfold dropped. destruct (Z.eqb_spec (read_seq st) (meta_seq victim)); [done|].
    by destruct C as [(? & _)|(_ & _ & _ & ?)]. }
  assert (Hmb : 0 <= meta_bytes victim)
    by (rewrite Hb; pose proof (sum_frame_size_nonneg fr); unfold SEGMENT_HEADER_LEN; lia).
  assert (Htot : 0 <= total_bytes st)
    by (pose proof (rep_total _ _ _ _ R) as Ht'; simpl in Ht'; rewrite E in Ht'; rewrite Ht';
        eapply seg_bytes_nonneg; done).
  split; simpl.
  - done.
  - by destruct pre.
  - by apply (same_writer_trans _ _ _ Hw).
  - by rewrite C4.
  - rewrite Cp, Hpend. by destruct pre.
  - rewrite Ht in C5. unfold saturating_sub in C5. lia.
  - by destruct Hw as (<- & _).
  - lia.
  - assert (restart pre 0 = 0)%nat as E0 by by destruct pre. rewrite E0 in C8. rewrite C8.
    rewrite Nat.sub_0_r, (queue_next fr _ k) by exact Hk. by apply concat_drop_cons.
  - destruct C9 as (H1 & H2 & C9). unfold drop_metrics. rewrite H1, H2, Hm, Hb, Hfr.
    autorewrite with statix_metric. unfold sumZ; simpl. split_and!; [lia|lia|].
    intros name ? ? ? ?. rewrite C9, Hm, !metric_counter_add_ne by done. done.
  - auto.
  - auto.
Qed.

Lemma enforce_cap_loop_spec clean incoming fuel s segs k :
  wal_rep clean s segs k -> 0 <= incoming -> total_bytes (inner s) + incoming < 2 ^ 64 ->
  (length segs <= fuel)%nat ->
  wp (enforce_cap_loop fuel incoming)
    (fun r s' => r = Ok tt /\ exists pre segs', cap_enforced clean incoming s s' segs segs' pre k) s.
Proof.
  revert s segs k. induction fuel as [|fuel IH]; intros [st w] segs k R Hin Hroom Hfuel.
  { apply wp_ret. split; [done|]. exists [], segs. apply cap_done; [done|]. right. lia. }
  pose proof (rep_length _ _ _ _ R) as Hlen. simpl in *.
  assert (Htot : 0 <= total_bytes st)
    by (pose proof (rep_total _ _ _ _ R) as Ht; simpl in Ht; rewrite Ht;
        eapply seg_bytes_nonneg; apply (rep_segs _ _ _ _ R)).
  apply wp_bind, wp_gets. unfold id. cbn [inner disk]. rewrite wrapping_add_small by lia.
  destruct (Z.ltb_spec (max_bytes (cfg st)) (total_bytes st + incoming)) as [Ho|Ho]; simpl.
  2:{ apply wp_ret. split; [done|]. exists [], segs. apply cap_done; [done|]. left. done. }
  destruct (Z.ltb_spec 1 (zlen (segments st))) as [H1|H1].
  2:{ apply wp_ret. split; [done|]. exists [], segs. apply cap_done; [done|]. right. lia. }
  destruct (segments st) as [|victim [|front rest]] eqn:E; [simpl in *; lia..|].
  destruct segs as [|fr segs]; [simpl in *; lia|].
  apply wp_drop_round. intros w' Hf Hm Hh Hd.
  assert (R' : wal_rep clean (WalState (dropped victim front rest st) w') segs 0).
  { apply (dropped_rep _ _ w _ _ _ _ fr _ k E R). intros m Hin'.
    destruct Hf as [->| ->]; [done|]. apply lookup_delete_ne.
    destruct (rep_seg_in _ _ _ _ victim R) as (-> & Hr & _); [simpl; rewrite E; by left|].
    intros Ep. symmetry in Ep. revert Ep. apply (rep_path_ne _ _ _ _ m _ R); [simpl; rewrite E; by right|done|].
    pose proof (rep_sorted _ _ _ _ R) as Hs. simpl in Hs. rewrite E in Hs.
    pose proof (sorted_head_lt _ _ Hs _ Hin'). lia. }
  eapply wp_mono; [apply (IH _ _ _ R' Hin)|].
  - pose proof (rep_total _ _ _ _ R') as ->. pose proof (rep_total _ _ _ _ R) as Ht.
    simpl in Ht. rewrite E in Ht. pose proof (rep_segs _ _ _ _ R) as R1. simpl in R1.
    rewrite E in R1. inversion R1 as [|? ? ? ? Hv _]; subst.
    pose proof (seg_ok_bytes _ _ _ Hv). unfold SEGMENT_HEADER_LEN, sumZ in *.
    unfold dropped. destruct (_ =? _); simpl in *; lia.
  - simpl in *. lia.
  - intros r s' (-> & pre & segs' & C). split; [done|]. exists (fr :: pre), segs'.
    apply (cap_step _ _ _ _ w' victim front rest); try done. intros b Hw Hs.
    destruct Hd as [Hf' Hd']; [done| |].
    + pose proof (rep_segs _ _ _ _ R) as R1. simpl in R1. rewrite E in R1.
      inversion R1 as [|? ? ? ? (_ & (j & Hj & _) & _) _]; subst. by eexists.
    + eapply settled_world; [by apply (settled_drop b clean _ w _ _ _ fr segs k)|done..].
Qed.

End Inv.

(** The store that a power failure leaves, and the one a crash of the process does. *)
Abbreviation settled := (settled_if true).
Abbreviation tidy := (settled_if false).

(** From here on segment contents are handled through the lemmas above. *)
#[global] Opaque seg_data.
