(* ===== verification/WalAppend.v ===== *)
(** * WalAppend: the writing side of the log store

    What [rotate], [ensure_active_with_room], [append] and
    [recover_active_after_error] do to the representation of [WalInv], for every
    script of system-call outcomes. *)

From S2P Require Export WalInv.

Section Append.
Context {crc : Crc32}.

(** ** The active segment *)

(** The active segment is the last one of the store and of the model. *)
Lemma rep_active_last clean st w segs k a :
  wal_rep clean (WalState st w) segs k -> active st = Some a ->
  exists l m init fr, segments st = l ++ [m] /\ segs = init ++ [fr]
    /\ Forall2 (seg_ok (w_files w)) l init /\ seg_ok (w_files w) m fr
    /\ active_ok clean (w_files w) a m.
Proof.
  intros [R1 _ _ _ _ R6 _ _] Ha. simpl in *. rewrite Ha in R6. destruct R6 as (m & Hl & Hok).
  apply last_Some in Hl as (l & E). rewrite E in R1.
  apply Forall2_app_inv_l in R1 as (init & r2 & H1 & H2 & ->).
  inversion H2 as [|? fr ? ? Hm H3]; subst. inversion H3; subst. by exists l, m, init, fr.
Qed.

Lemma seg_ok_files files files' m fr :
  files' !! meta_path m = files !! meta_path m -> seg_ok files m fr -> seg_ok files' m fr.
Proof. intros E (? & (j & ? & ?) & ?). split; [done|]. split; [|done]. exists j. by rewrite E. Qed.

(** Appending to the model of the active segment keeps the reader's place. *)
Lemma cursor_extend st st' l m m' init fr ext k :
  segments st = l ++ [m] -> segments st' = l ++ [m'] -> meta_seq m' = meta_seq m ->
  read_seq st' = read_seq st -> read_offset st' = read_offset st ->
  pending_advance st' = pending_advance st -> next_seq st' = next_seq st ->
  length l = length init ->
  cursor_ok st (init ++ [fr]) k -> cursor_ok st' (init ++ [fr ++ ext]) k.
Proof.
  unfold cursor_ok. intros -> -> Em -> -> -> -> Hlen.
  destruct l as [|m0 l], init as [|fr0 init]; simpl; try (simpl in Hlen; lia); rewrite ?Em.
  - intros [(H1 & H2 & H3 & H4)|(H1 & H2)]; [left|right].
    + split_and!; [done|len_lia|by rewrite take_app_le by done|].
      intros next E. destruct (H4 next E) as (f & Hf & ->). exists f. split; [|done].
      by apply lookup_app_l_Some.
    + split; [|done]. inversion H1; subst. constructor; [by rewrite Em|done].
  - intros [H|(H1 & H2)]; [left; done|right]. split; [|done].
    inversion H1 as [|? ? ? H1']; subst. constructor; [done|].
    apply Forall_app in H1' as [? H1']. apply Forall_app. split; [done|].
    inversion H1'; subst. constructor; [by rewrite Em|done].
Qed.

Lemma rep_active_write clean clean' st st' w w' init fr ext k l m m' a a' :
  wal_rep clean (WalState st w) (init ++ [fr]) k ->
  segments st = l ++ [m] -> active st = Some a ->
  segments st' = l ++ [m'] -> active st' = Some a' -> meta_seq m' = meta_seq m ->
  seg_ok (w_files w') m' (fr ++ ext) -> active_ok clean' (w_files w') a' m' ->
  total_bytes st' = total_bytes st + (meta_bytes m' - meta_bytes m) ->
  read_seq st' = read_seq st -> read_offset st' = read_offset st ->
  pending_advance st' = pending_advance st -> next_seq st' = next_seq st ->
  urange 64 (next_batch_seq st') ->
  (forall m0, m0 ∈ l -> w_files w' !! meta_path m0 = w_files w !! meta_path m0) ->
  wal_rep clean' (WalState st' w') (init ++ [fr ++ ext]) k.
Proof.
  intros [R1 R2 R3 R4 R5 R6 R7 R8] E Ea E' Ea' Em Hm' Ha' Ht Hr1 Hr2 Hp Hn Hb Hf; simpl in *.
  rewrite E in R1. apply Forall2_app_inv in R1 as [R1 _].
  2:{ apply Forall2_length in R1. len_lia. }
  split; simpl.
  - rewrite E'. apply Forall2_app; [|by constructor].
    clear -R1 Hf. induction R1 as [|m0 f0 l init H _ IH]; constructor.
    + apply (seg_ok_files (w_files w)); [|done]. apply Hf. by left.
    + apply IH. intros. apply Hf. by right.
  - rewrite E', fmap_app. simpl. rewrite Em. rewrite E, fmap_app in R2. exact R2.
  - rewrite E', Hn. rewrite E in R3. apply Forall_app in R3 as [? R3]. apply Forall_app.
    split; [done|]. inversion R3; subst. constructor; [by rewrite Em|done].
  - by rewrite Hn.
  - done.
  - rewrite Ea'. exists m'. split; [|done]. rewrite E'. by rewrite last_snoc.
  - rewrite Ht, R7, E, E', !sumZ_app. unfold sumZ; simpl. lia.
  - apply (cursor_extend st st' l m m'); try done. by eapply Forall2_length.
Qed.

Lemma queue_extend init fr f k :
  (k <= length (concat (init ++ [fr])))%nat ->
  queue (init ++ [fr ++ [f]]) k = queue (init ++ [fr]) k ++ [f].
Proof.
  intros H. unfold queue. rewrite !concat_app in *. simpl in *. rewrite !app_nil_r in *.
  rewrite app_assoc. by rewrite drop_app_le by done.
Qed.

(** A new segment at the end of the log, and the junk a failed write leaves in
    the newest file, are invisible to the reader. *)
Lemma queue_snoc_nil segs k : queue (segs ++ [[]]) k = queue segs k.
Proof. unfold queue. rewrite concat_app. simpl. by rewrite app_nil_r. Qed.

Lemma rep_inactive clean clean' st w segs k :
  wal_rep clean (WalState st w) segs k -> wal_rep clean' (WalState (set_active None st) w) segs k.
Proof. intros [R1 R2 R3 R4 R5 R6 R7 R8]. by split. Qed.

Lemma advanced_trans w1 w2 w3 : advanced w1 w2 -> advanced w2 w3 -> advanced w1 w3.
Proof.
  intros (fs & -> & H1) (fs' & -> & H2). exists fs'. split; [done|]. intros Hw. by apply H2, H1.
Qed.

(** Worlds that agree on the script's exhaustion and the metrics. *)
Definition later (w w' : world) : Prop :=
  w_metrics w' = w_metrics w /\ (healthy w -> healthy w').

Lemma later_refl w : later w w.
Proof. done. Qed.

Lemma later_trans w1 w2 w3 : later w1 w2 -> later w2 w3 -> later w1 w3.
Proof. unfold later. intros [-> ?] [-> ?]. auto. Qed.

Lemma later_advanced w w' f : advanced w w' -> w_metrics (f w') = w_metrics w' ->
  w_faults (f w') = w_faults w' -> later w (f w').
Proof.
  intros (fs & -> & H) Hm Hf. split; [by rewrite Hm|]. intros Hw. unfold healthy.
  rewrite Hf. apply H, Hw.
Qed.

(** ** Rotation *)

Definition add_segment (seq : Z) (st : WalInner) : WalInner :=
  set_active (Some {| as_seq := seq; as_file := segment_path seq; as_pos := SEGMENT_HEADER_LEN;
                      as_offset := SEGMENT_HEADER_LEN |})
    (set_total_bytes (wrapping_add 64 (total_bytes st) SEGMENT_HEADER_LEN)
      (set_segments (segments st ++ [{| meta_seq := seq; meta_path := segment_path seq;
                                        meta_bytes := SEGMENT_HEADER_LEN; meta_frames := 0 |}])
        (set_next_seq (wrapping_add 64 seq 1) st))).

Lemma dead_nil : dead [].
Proof. intros f n. discriminate. Qed.

Lemma rotated_rep clean st w w' segs k :
  wal_rep clean (WalState st w) segs k ->
  total_bytes st + SEGMENT_HEADER_LEN < 2 ^ 64 -> next_seq st + 1 < 2 ^ 64 ->
  w_files w' = <[segment_path (next_seq st) := encode_segment_header]> (w_files w) ->
  wal_rep true (WalState (add_segment (next_seq st) st) w') (segs ++ [[]]) k.
Proof.
  intros R Ht Hn Hf.
  assert (Hold : forall m, m ∈ segments st -> w_files w' !! meta_path m = w_files w !! meta_path m).
  { intros m Hm. rewrite Hf. apply lookup_insert_ne. intros E. symmetry in E. revert E.
    apply (rep_path_ne _ _ _ _ m _ R Hm); [unfold urange; pose proof (rep_next_range _ _ _ _ R); simpl in *; lia|].
    pose proof (rep_seg_in _ _ _ _ m R Hm). simpl in *. lia. }
  assert (Hlen : length (segments st) = length segs) by apply (rep_length _ _ _ _ R).
  destruct R as [R1 R2 R3 R4 R5 R6 R7 R8]; simpl in *.
  assert (0 <= total_bytes st) by (rewrite R7; by eapply seg_bytes_nonneg).
  unfold SEGMENT_HEADER_LEN in Ht.
  split; cbn [inner disk add_segment segments active total_bytes next_seq set_active set_total_bytes set_segments set_next_seq next_batch_seq].
  - apply Forall2_app.
    + clear -R1 Hold. induction R1 as [|m0 f0 l init H _ IH]; constructor.
      * apply (seg_ok_files (w_files w)); [|done]. apply Hold. by left.
      * apply IH. intros. apply Hold. by right.
    + constructor; [|done]. split; [done|]. split.
      { exists []. split; [|apply dead_nil]. rewrite (app_nil_r (seg_data [])), seg_data_nil, Hf.
        apply lookup_insert_eq. }
      simpl. split_and!; [done|done|constructor|lia].
  - rewrite fmap_app. simpl. clear -R2 R3. induction (segments st) as [|m l IH]; simpl.
    + repeat constructor.
    + apply StronglySorted_inv in R2 as [? Hm]. inversion R3; subst.
      constructor; [by apply IH|]. apply Forall_app. split; [done|]. by constructor.
  - rewrite wrapping_add_small by lia. apply Forall_app. split; [|constructor; [simpl; lia|done]].
    eapply Forall_impl; [exact R3|]. simpl. intros. lia.
  - rewrite wrapping_add_small by lia. lia.
  - done.
  - eexists. rewrite last_snoc. split; [reflexivity|]. split_and!; try done. intros _.
    split; [done|]. exists encode_segment_header. split; [|done]. simpl. by rewrite Hf, lookup_insert_eq.
  - rewrite wrapping_add_small by (unfold SEGMENT_HEADER_LEN; lia).
    rewrite R7, sumZ_app. unfold sumZ; simpl. lia.
  - unfold cursor_ok in *; simpl in *. rewrite wrapping_add_small by lia.
    destruct (segments st) as [|m l], segs as [|fr segs]; simpl in *; try lia.
    + destruct R8 as (-> & Hp & [Hr|[Hr Ho]]).
      * right. split_and!; [|lia|done..]. by constructor.
      * left. split_and!; [done|lia|done|]. intros ?. by rewrite Hp.
    + destruct R8 as [?|(H1 & H2 & H3)]; [by left|right]. split_and!; try done; [|lia|apply H3..].
      constructor; [by inversion H1|]. apply Forall_app. split; [by inversion H1|].
      constructor; [simpl; lia|done].
Qed.

Lemma seg_ok_intro files m fr :
  meta_path m = segment_path (meta_seq m) -> files !! meta_path m = Some (seg_data fr) ->
  meta_bytes m = SEGMENT_HEADER_LEN + sumZ frame_size fr -> meta_frames m = zlen fr ->
  Forall frame_ok fr -> 0 <= meta_seq m -> seg_ok files m fr.
Proof.
  intros ? Hf ? ? ? ?. split; [done|]. split; [|done]. exists []. rewrite app_nil_r.
  split; [done|apply dead_nil].
Qed.

(** What a step of the writer leaves unchanged besides the representation. *)
Definition keeps (s s' : wal_state) : Prop :=
  later (disk s) (disk s') /\ next_batch_seq (inner s') = next_batch_seq (inner s)
  /\ cfg (inner s') = cfg (inner s) /\ pending_advance (inner s') = pending_advance (inner s)
  /\ (next_seq (inner s') <= next_seq (inner s) + 1)
  /\ (forall b, healthy (disk s) -> settled_if b s -> settled_if b s').

Lemma later_sys w w' f :
  advanced w w' -> (forall x, w_metrics (f x) = w_metrics x) ->
  (forall x, w_faults (f x) = w_faults x) -> later w (f w').
Proof. intros Ha Hm Hf. by apply later_advanced. Qed.

Lemma fresh_path clean st w segs k m :
  wal_rep clean (WalState st w) segs k -> m ∈ segments st ->
  meta_path m <> segment_path (next_seq st).
Proof.
  intros R Hm. apply (rep_path_ne _ _ _ _ m _ R Hm).
  - unfold urange. pose proof (rep_next_range _ _ _ _ R). simpl in *. lia.
  - pose proof (rep_seg_in _ _ _ _ m R Hm). simpl in *. lia.
Qed.

(** An attempt to create a segment that fails uses up a sequence number. *)
Lemma bump_rep clean st w w' segs k n :
  wal_rep clean (WalState st w) segs k -> active st = None -> next_seq st <= n < 2 ^ 64 ->
  (forall m, m ∈ segments st -> w_files w' !! meta_path m = w_files w !! meta_path m) ->
  wal_rep true (WalState (set_next_seq n st) w') segs k.
Proof.
  intros R Ha Hn Hf. apply (rep_frame _ _ w); [|done].
  destruct R as [R1 R2 R3 R4 R5 R6 R7 R8]; simpl in *. split; simpl; try done.
  - eapply Forall_impl; [exact R3|]. simpl. intros. lia.
  - lia.
  - by rewrite Ha.
  - unfold cursor_ok in *; simpl. destruct (segments st), segs; try done.
    all: intuition lia.
Qed.

(** Creating the file of a new segment: the world it leaves. *)
Lemma wp_create_file path (Q : res io_error unit -> world -> Prop) w :
  (forall w', later w w' -> w_files w' = <[path := encode_segment_header]> (w_files w) ->
     w_durable w' = w_durable w -> Q (Ok tt) w') ->
  (forall w', later w w' -> ~ healthy w ->
     (forall p, p <> path -> w_files w' !! p = w_files w !! p) -> Q (Err IoOs) w') ->
  wp (fs_create path;; fs_write_all path 0 encode_segment_header) Q w.
Proof.
  intros Hok Herr. apply wp_bind, wp_syscall.
  2:{ intros w1 H1 Hh. apply Herr; [by apply (later_sys _ w1 id)|done|].
      by rewrite (advanced_files _ _ H1). }
  intros w1 H1. pose proof (advanced_files _ _ H1) as Hf1.
  unfold fs_write_all. apply wp_bind. apply (wp_fs_write _ _ _ _ _ []); simpl.
  - by rewrite lookup_insert_eq.
  - lia.
  - intros w2 H2. pose proof (advanced_files _ _ H2) as Hf2. simpl in Hf2. apply wp_ret, Hok.
    + split; simpl; [by rewrite (advanced_metrics _ _ H2); simpl; rewrite (advanced_metrics _ _ H1)|].
      intros Hw. by apply (advanced_healthy _ _ H2), (advanced_healthy _ _ H1).
    + simpl. by rewrite Hf2, Hf1, insert_insert_eq.
    + simpl. destruct H2 as (? & -> & _), H1 as (? & -> & _). done.
  - intros w2 j H2 Hh _. pose proof (advanced_files _ _ H2) as Hf2. simpl in Hf2. apply wp_fail, Herr.
    + split; simpl; [by rewrite (advanced_metrics _ _ H2); simpl; rewrite (advanced_metrics _ _ H1)|].
      intros Hw. by apply (advanced_healthy _ _ H2), (advanced_healthy _ _ H1).
    + intros Hw. apply Hh. by apply (advanced_healthy _ _ H1).
    + intros p Hp. simpl. by rewrite Hf2, Hf1, insert_insert_eq, lookup_insert_ne.
Qed.

(** What [rotate] ends in: a new active segment, or none and the log as it was. *)
Definition rotated (s0 : wal_state) (segs : list (list DecodedFrame)) (k : nat)
    (r : res io_error unit) (s' : wal_state) : Prop :=
  keeps s0 s'
  /\ match r with
     | Ok _ => inner s' = add_segment (next_seq (inner s0)) (inner s0) /\ wal_rep true s' (segs ++ [[]]) k
     | Err e => e = IoOs /\ ~ healthy (disk s0) /\ active (inner s') = None
                /\ wal_rep true s' segs k /\ total_bytes (inner s') = total_bytes (inner s0)
     end.

(** A new segment is the active one; the others are durable. *)
Lemma settled_add b clean st w w' segs k :
  wal_rep clean (WalState st w) segs k -> active st = None ->
  w_files w' = <[segment_path (next_seq st) := encode_segment_header]> (w_files w) ->
  w_durable w' = w_durable w ->
  settled_if b (WalState st w) -> settled_if b (WalState (add_segment (next_seq st) st) w').
Proof.
  intros R Ha Hf Hd [H1 H2 H3]. split; simpl in *; rewrite ?Hf, ?Hd.
  - intros Hb m [Hm|Hm]%elem_of_app Hact.
    + rewrite lookup_insert_ne by (intros E; symmetry in E; by apply (fresh_path _ _ _ _ _ _ R Hm)).
      apply (H1 Hb); [done|]. by rewrite Ha.
    + apply list_elem_of_singleton in Hm as ->. by destruct (Hact _ eq_refl).
  - intros name [c [[<- _]|[_ Hc]]%lookup_insert_Some].
    + right. eexists. split; [apply elem_of_app; right; by left|done].
    + destruct (H2 name) as [?|(m & Hm & ->)]; [by eauto|by left|right]. exists m.
      split; [apply elem_of_app; by left|done].
  - intros Hb name Hn. destruct (decide (name = segment_path (next_seq st))) as [->|Hne].
    + rewrite lookup_insert_eq. eauto.
    + rewrite lookup_insert_ne by done. auto.
Qed.

Lemma open_segment_spec clean st w segs k :
  wal_rep clean (WalState st w) segs k -> active st = None ->
  total_bytes st + SEGMENT_HEADER_LEN < 2 ^ 64 -> next_seq st + 1 < 2 ^ 64 ->
  wp open_segment (rotated (WalState st w) segs k) (WalState st w).
Proof.
  intros R Ha Ht Hn. unfold open_segment.
  assert (Hr : 0 <= next_seq st) by (pose proof (rep_next_range _ _ _ _ R); simpl in *; lia).
  apply wp_bind, wp_zoom, wp_syscall; simpl.
  2:{ intros w1 H1 Hh. split.
      - split_and!; [by apply (later_sys _ w1 id)|done..|simpl; lia|done].
      - split_and!; try done. apply (rep_frame _ _ w); [|by rewrite (advanced_files _ _ H1)].
        replace st with (set_next_seq (next_seq st) st) by by destruct st.
        apply (bump_rep clean _ w); try done. pose proof (rep_next_range _ _ _ _ R); simpl in *; lia. }
  intros w1 H1. pose proof (advanced_files _ _ H1) as Hf1.
  assert (Hl1 : later w (set_w_dir true w1)) by by apply (later_sys _ w1 (set_w_dir true)).
  apply wp_bind, wp_gets. simpl. apply wp_bind, wp_modify. simpl.
  rewrite wrapping_add_small by lia.
  apply wp_bind, wp_zoom, wp_create_file; simpl.
  - intros w2 H2 Hf2 Hd2. apply wp_bind, wp_gets. simpl.
    apply wp_bind, wp_modify. simpl. apply wp_bind, wp_modify. simpl. apply wp_modify. simpl.
    assert (Hl2 : later w w2) by by apply (later_trans _ _ _ Hl1). rewrite Hf1 in Hf2.
    pose proof (rotated_rep _ _ _ w2 _ _ R Ht Hn Hf2) as R'.
    unfold add_segment in R'. rewrite (wrapping_add_small _ (next_seq st)) in R' by lia.
    split; [split_and!; [done..|simpl; lia|]|].
    { intros b _ Hs. pose proof (settled_add b _ _ _ w2 _ _ R Ha Hf2) as H. unfold add_segment in H.
      rewrite (wrapping_add_small _ (next_seq st)) in H by lia. apply H; [|done].
      rewrite Hd2. by destruct H1 as (? & -> & _). }
    split; [|exact R']. unfold add_segment. simpl. by rewrite (wrapping_add_small _ (next_seq st)) by lia.
  - intros w2 H2 Hh Hf2. assert (Hh1 : ~ healthy w) by (intros Hw; apply Hh, Hl1, Hw).
    split; [split_and!; [by apply (later_trans _ _ _ Hl1)|done..|simpl; lia|done]|].
    split_and!; try done.
    apply (bump_rep clean _ w); try done; [lia|]. intros m Hm.
    rewrite Hf2, Hf1 by by apply (fresh_path _ _ _ _ _ _ R). done.
Qed.

(** Syncing the active file makes the whole log durable. *)
Lemma settled_fsync b st st' w w' a c :
  active st = Some a -> w_files w !! as_file a = Some c -> segments st' = segments st ->
  w_files w' = w_files w -> w_durable w' = <[as_file a := c]> (w_durable w) ->
  settled_if b (WalState st w) -> (b = true -> all_durable (WalState st' w')) /\ settled_if b (WalState st' w').
Proof.
  intros Ha Hc Es Hf Hd [H1 H2 H3]. simpl in *.
  assert (Hall : b = true -> all_durable (WalState st' w')).
  { intros Hb m Hm. simpl in *. rewrite Hf, Hd. rewrite Es in Hm.
    destruct (decide (as_file a = meta_path m)) as [E|Hne].
    - by rewrite E, lookup_insert_eq, <- E.
    - rewrite lookup_insert_ne by done. apply (H1 Hb); [done|]. rewrite Ha. by intros ? [= <-]. }
  split; [done|]. split; simpl; rewrite ?Hf, ?Hd, ?Es; try done.
  - intros Hb m Hm _. rewrite <- Hd, <- Hf. apply (Hall Hb). simpl. by rewrite Es.
  - intros Hb name Hn. destruct (decide (as_file a = name)) as [<-|Hne]; [by eauto|].
    rewrite lookup_insert_ne in Hn by done. auto.
Qed.

Lemma close_active_spec clean st w segs k :
  wal_rep clean (WalState st w) segs k ->
  wp close_active (fun r s' => r = Ok tt /\ inner s' = set_active None st /\ later w (disk s')
     /\ wal_rep true s' segs k
     /\ (forall b, healthy w -> settled_if b (WalState st w) -> settled_if b s')) (WalState st w).
Proof.
  intros R. unfold close_active. apply wp_bind, wp_gets. simpl.
  assert (Hn : wal_rep true (WalState (set_active None st) w) segs k) by by apply (rep_inactive clean).
  destruct (active st) as [a|] eqn:Ea.
  - apply wp_bind, wp_modify. simpl. apply wp_bind, wp_attempt, wp_zoom. simpl.
    apply wp_syscall; intros w1 H1; [|intros Hh]; apply wp_ret; split_and!; try done; simpl.
    + by apply (later_sys _ w1 (fun w => set_w_durable (<[as_file a:=file_bytes (as_file a) w]> (w_durable w)) w)).
    + apply (rep_frame _ _ w); [done|]. simpl. by rewrite (advanced_files _ _ H1).
    + intros b Hh Hs. destruct (rep_active_last _ _ _ _ _ _ R Ea)
        as (l & m & init & fr & E & _ & _ & (_ & (j & Hj & _) & _) & _ & Ef & _).
      eapply (settled_fsync b st _ w _ a); try done; [by rewrite Ef|simpl; by rewrite (advanced_files _ _ H1)|].
      simpl. unfold file_bytes. rewrite (advanced_files _ _ H1), Ef, Hj. by destruct H1 as (? & -> & _).
    + by apply (later_sys _ w1 id).
    + apply (rep_frame _ _ w); [done|]. by rewrite (advanced_files _ _ H1).
  - assert (set_active None st = st) as E by (destruct st; simpl in *; by subst).
    rewrite E in *. by apply wp_ret.
Qed.

(** A [rotate] that fails leaves no active segment, and the log as it was. *)
Lemma rotate_spec clean st w segs k :
  wal_rep clean (WalState st w) segs k ->
  total_bytes st + SEGMENT_HEADER_LEN < 2 ^ 64 -> next_seq st + 1 < 2 ^ 64 ->
  wp rotate (rotated (WalState st w) segs k) (WalState st w).
Proof.
  intros R Ht Hn. unfold rotate. apply wp_bind.
  eapply wp_mono; [by apply (close_active_spec clean)|]. intros r [st1 w1] (-> & E & Hl & R1 & Hs1).
  simpl in *. subst st1.
  eapply wp_mono; [by eapply open_segment_spec|].
  intros r [st2 w2] [(Hl2 & Hb & Hc & Hp & Hn2 & Hs2) Hr]. simpl in *. split.
  - split_and!; try done; [by apply (later_trans _ w1)|]. intros b Hw Hs. by apply Hs2, Hs1; [apply Hl|..].
  - destruct r as [[]|e]; [done|]. simpl in *. destruct Hr as (-> & Hh & ? & ? & ?).
    split_and!; try done. intros Hw. by apply Hh, Hl.
Qed.

(** ** Making room *)

Lemma wp_refresh_gauges (Q : res io_error unit -> wal_state -> Prop) st w :
  (forall w', w_files w' = w_files w -> w_faults w' = w_faults w -> w_durable w' = w_durable w ->
     (forall n, n <> M_BYTES_CURRENT -> n <> M_SEGMENTS_CURRENT ->
        metric (w_metrics w') n = metric (w_metrics w) n) ->
     metric (w_metrics w') M_BYTES_CURRENT = total_bytes st ->
     metric (w_metrics w') M_SEGMENTS_CURRENT = zlen (segments st) ->
     Q (Ok tt) (WalState st w')) ->
  wp refresh_gauges Q (WalState st w).
Proof.
  intros H. unfold refresh_gauges. apply wp_bind, wp_gets. apply wp_zoom. simpl.
  apply wp_bind, wp_modify, wp_modify. apply H; try done.
  - intros n ? ?. simpl. by rewrite !metric_gauge_set_ne.
  - simpl. rewrite metric_gauge_set_ne by done. unfold metric, gauge_set. by rewrite lookup_insert_eq.
  - simpl. unfold metric, gauge_set. by rewrite lookup_insert_eq.
Qed.

(** The names of the gauges are not the names of the counters. *)
Definition counters_agree (w w' : world) : Prop :=
  forall n, n <> M_BYTES_CURRENT -> n <> M_SEGMENTS_CURRENT ->
    metric (w_metrics w') n = metric (w_metrics w) n.

Lemma enforce_cap_spec clean incoming s segs k :
  wal_rep clean s segs k -> 0 <= incoming -> total_bytes (inner s) + incoming < 2 ^ 64 ->
  wp (enforce_cap incoming)
    (fun r s' => r = Ok tt /\ exists pre segs', cap_enforced clean incoming s s' segs segs' pre k) s.
Proof.
  intros R Hi Ht. unfold enforce_cap. apply wp_bind, wp_gets, wp_bind.
  eapply wp_mono; [apply (enforce_cap_loop_spec clean _ _ _ segs k R Hi Ht);
                   by rewrite (rep_length _ _ _ _ R)|].
  intros r [st1 w1] (-> & pre & segs' & [C1 C2 C3 C4 Cp C5 C6 C7 C8 C9 C10 C11]). simpl.
  apply wp_refresh_gauges. intros w2 Hf Hs Hd Hm _ _. split; [done|]. exists pre, segs'.
  simpl in *. split; try done; simpl.
  - apply (rep_frame _ _ w1); [done|]. by rewrite Hf.
  - unfold drop_metrics in *. simpl in *. rewrite !Hm by done. destruct C9 as (H1 & H2 & H3).
    split_and!; [done..|]. intros n ? ? ? ?. rewrite Hm by done. by apply H3.
  - unfold healthy. rewrite Hs. done.
  - intros b Hw Hset. eapply settled_world; [by apply C11|done..].
Qed.

(** After [ensure_active_with_room] there is an active segment whose file ends
    at the cursor, or the log is as it was. *)
Definition roomy (s0 : wal_state) (segs : list (list DecodedFrame)) (k : nat)
    (r : res io_error unit) (s' : wal_state) : Prop :=
  keeps s0 s'
  /\ match r with
     | Ok _ => is_Some (active (inner s'))
               /\ total_bytes (inner s') <= total_bytes (inner s0) + SEGMENT_HEADER_LEN
               /\ (wal_rep true s' segs k \/ wal_rep true s' (segs ++ [[]]) k)
     | Err e => e = IoOs /\ ~ healthy (disk s0) /\ wal_rep true s' segs k
                /\ total_bytes (inner s') = total_bytes (inner s0)
     end.

Lemma ensure_active_with_room_spec st w segs k size :
  wal_rep true (WalState st w) segs k ->
  total_bytes st + SEGMENT_HEADER_LEN < 2 ^ 64 -> next_seq st + 1 < 2 ^ 64 ->
  wp (ensure_active_with_room size) (roomy (WalState st w) segs k) (WalState st w).
Proof.
  intros R Ht Hn. unfold ensure_active_with_room. apply wp_bind, wp_gets, wp_when; simpl.
  - intros _. eapply wp_mono; [by apply (rotate_spec true)|].
    intros [[]|e] s' [Hk Hr]; split; try done; simpl in *.
    + destruct Hr as [-> Hr]. simpl. split_and!; [done| |by right].
      unfold wrapping_add, wrap. pose proof (rep_total _ _ _ _ R) as E. simpl in E.
      pose proof (rep_segs _ _ _ _ R) as Rs. pose proof (seg_bytes_nonneg _ _ _ Rs).
      unfold SEGMENT_HEADER_LEN in *. simpl in *. rewrite Z.mod_small; lia.
    + destruct Hr as (-> & ? & _ & ? & ?). done.
  - intros E. unfold id in E. split; [split_and!; [done..|simpl; lia|done]|]. split_and!; simpl.
    + by destruct (active st).
    + unfold SEGMENT_HEADER_LEN. lia.
    + by left.
Qed.

(** ** Writing a frame *)

(** [n] bytes of [bs] went to the end of the active file. *)
Definition wrote (s0 : wal_state) (a : ActiveSegment) (c bs : bytes) (r : res io_error unit)
    (s' : wal_state) : Prop :=
  exists n : nat,
    inner s' = set_active (Some (set_as_pos (as_pos a + Z.of_nat n) a)) (inner s0)
    /\ w_files (disk s') = <[as_file a := c ++ take n bs]> (w_files (disk s0))
    /\ later (disk s0) (disk s') /\ w_durable (disk s') = w_durable (disk s0)
    /\ match r with
       | Ok _ => n = length bs
       | Err e => e = IoOs /\ ~ healthy (disk s0) /\ (n < length bs)%nat
       end.

Lemma write_active_spec st w a c bs :
  active st = Some a -> w_files w !! as_file a = Some c -> as_pos a = zlen c ->
  wp (write_active bs) (wrote (WalState st w) a c bs) (WalState st w).
Proof.
  intros Ha Hc Hpos. unfold write_active. apply wp_bind, wp_gets. simpl. rewrite Ha.
  apply wp_bind, wp_zoom. simpl. apply (wp_fs_write _ _ _ _ _ c); [done|lia|..].
  - intros w1 H1. apply wp_bind, wp_modify, wp_ret. exists (length bs). simpl.
    rewrite firstn_all, splice_end_eq, (advanced_files _ _ H1) by done.
    split_and!; try done; [by apply (later_sys _ w1 (set_w_files _))|].
    by destruct H1 as (? & -> & _).
  - intros w1 n H1 Hh Hn. apply wp_bind, wp_modify, wp_fail. exists n. simpl.
    rewrite splice_end_eq, (advanced_files _ _ H1) by done. rewrite length_take.
    replace (n `min` length bs)%nat with n by lia.
    split_and!; try done; [by apply (later_sys _ w1 (set_w_files _))|].
    by destruct H1 as (? & -> & _).
Qed.

(** Two writes in a row are one write of the concatenation. *)
Lemma write_active_app st w a c b1 b2 :
  active st = Some a -> w_files w !! as_file a = Some c -> as_pos a = zlen c -> b2 <> [] ->
  wp (write_active b1;; write_active b2) (wrote (WalState st w) a c (b1 ++ b2)) (WalState st w).
Proof.
  intros Ha Hc Hpos Hb. apply wp_bind.
  eapply wp_mono; [by apply (write_active_spec st w a c)|].
  intros [[]|e] [st1 w1] (n & E & Hf & Hl & Hd & Hn); simpl in *; subst st1.
  - subst n. rewrite firstn_all in Hf.
    eapply wp_mono; [apply (write_active_spec _ w1 (set_as_pos (as_pos a + zlen b1) a) (c ++ b1))|].
    + done.
    + simpl. by rewrite Hf, lookup_insert_eq.
    + simpl. len_lia.
    + intros r [st2 w2] (n2 & E2 & Hf2 & Hl2 & Hd2 & Hn2); simpl in *. subst st2.
      exists (length b1 + n2)%nat. simpl. split_and!.
      * by rewrite Nat2Z.inj_add, Z.add_assoc.
      * rewrite Hf2, Hf, insert_insert_eq, take_app_add. by rewrite <- app_assoc.
      * by apply (later_trans _ w1).
      * by rewrite Hd2.
      * destruct r; [rewrite Hn2; len_lia|]. destruct Hn2 as (-> & Hh & ?).
        split_and!; [done| |len_lia]. intros Hw. by apply Hh, Hl.
  - destruct Hn as (-> & Hh & Hn). exists n. simpl. rewrite take_app_le by lia.
    split_and!; try done. len_lia.
Qed.

(** ** Append *)

(** The last part of [append], once there is an active segment. *)
Definition append_frame (payload : bytes) : W unit :=
  let frame_size := frame_len_on_disk (zlen payload) in
  batch_seq ← get next_batch_seq;
  upd (set_next_batch_seq (wrapping_add 64 batch_seq 1));;
  let header := encode_frame_header payload batch_seq in
  write_active header;;
  write_active payload;;
  upd (fun st =>
    set_active ((fun a => set_as_offset (wrapping_add 64 (as_offset a) frame_size) a) <$> active st) st);;
  upd (fun st => set_segments (update_back (add_frame frame_size) (segments st)) st);;
  upd (fun st => set_total_bytes (wrapping_add 64 (total_bytes st) frame_size) st);;
  io (counter M_FRAMES_WRITTEN 1);;
  refresh_gauges.

Lemma append_unfold p : append p = (let size := frame_len_on_disk (zlen p) in
  enforce_cap size;; ensure_active_with_room size;; append_frame p).
Proof. reflexivity. Qed.

Lemma clean_file clean w m fr a :
  clean = true -> seg_ok (w_files w) m fr -> active_ok clean (w_files w) a m ->
  w_files w !! as_file a = Some (seg_data fr) /\ as_pos a = zlen (seg_data fr).
Proof.
  intros -> (_ & (j & Hj & _) & Hb & _) (_ & Hf & Ho & Hc). destruct (Hc eq_refl) as (Hp & c & Hc' & Hlen).
  assert (c = seg_data fr ++ j) as -> by congruence. rewrite Hf, Hj.
  assert (zlen (seg_data fr) = meta_bytes m) as E.
  { by rewrite zlen_seg_data, Hb. }
  assert (j = []) as ->; [|rewrite app_nil_r in *; split; [done|lia]].
  apply length_zero_iff_nil. rewrite length_app in Hlen. lia.
Qed.

Lemma seg_ok_add files m fr f c :
  seg_ok files m fr -> frame_ok f -> meta_bytes m + frame_size f < 2 ^ 64 ->
  files !! meta_path m = Some c ->
  seg_ok (<[meta_path m := seg_data fr ++ encode_frame f]> files) (add_frame (frame_size f) m)
    (fr ++ [f]).
Proof.
  intros (Hp & _ & Hb & Hn & Hfr & H0) Hf Hroom Hc. pose proof (frame_size_pos f) as Hpos.
  pose proof (sum_frame_size_nonneg fr) as Hsum. unfold SEGMENT_HEADER_LEN in Hb.
  split; [done|]. split; [|split; [|split; [|split]]]; simpl.
  - exists []. split; [|apply dead_nil]. by rewrite lookup_insert_eq, app_nil_r, seg_data_snoc.
  - rewrite wrapping_add_small by lia. rewrite Hb, sumZ_app. unfold sumZ, SEGMENT_HEADER_LEN; simpl. lia.
  - pose proof (frames_le_size fr).
    rewrite Hn, wrapping_add_small by lia. len_lia.
  - apply Forall_app. split; [done|]. by apply Forall_singleton.
  - done.
Qed.

Lemma dead_torn f n :
  frame_ok f -> (n < length (encode_frame f))%nat -> dead (take n (encode_frame f)).
Proof.
  intros Hf Hn g k. rewrite decode_torn_0; [done..|]. pose proof (zlen_encode_frame f). lia.
Qed.

(** What [append_frame] leaves: the frame at the end of the log, or the log as
    it was with torn bytes after it. *)
Definition frame_appended (s0 : wal_state) (segs : list (list DecodedFrame)) (k : nat)
    (payload : bytes) (r : res io_error unit) (s' : wal_state) : Prop :=
  let f := Frame (next_batch_seq (inner s0)) payload in
  next_batch_seq (inner s') = wrapping_add 64 (next_batch_seq (inner s0)) 1
  /\ cfg (inner s') = cfg (inner s0) /\ (healthy (disk s0) -> healthy (disk s'))
  /\ pending_advance (inner s') = pending_advance (inner s0)
  /\ next_seq (inner s') = next_seq (inner s0)
  /\ (forall b, healthy (disk s0) -> settled_if b s0 -> settled_if b s')
  /\ match r with
     | Ok _ => exists segs', is_Some (active (inner s')) /\ wal_rep true s' segs' k
         /\ queue segs' k = queue segs k ++ [f]
         /\ length segs' = length segs
         /\ total_bytes (inner s') = total_bytes (inner s0) + frame_size f
         /\ metric (w_metrics (disk s')) M_FRAMES_WRITTEN
            = metric (w_metrics (disk s0)) M_FRAMES_WRITTEN + 1
         /\ (forall n, n <> M_FRAMES_WRITTEN -> n <> M_BYTES_CURRENT -> n <> M_SEGMENTS_CURRENT ->
              metric (w_metrics (disk s')) n = metric (w_metrics (disk s0)) n)
     | Err e => e = IoOs /\ ~ healthy (disk s0) /\ wal_rep false s' segs k
         /\ total_bytes (inner s') = total_bytes (inner s0)
         /\ w_metrics (disk s') = w_metrics (disk s0)
     end.

(** The store after a frame of [size] bytes went to the active segment [a]. *)
Definition add_active_frame (size : Z) (a : ActiveSegment) (st : WalInner) : WalInner :=
  set_total_bytes (wrapping_add 64 (total_bytes st) size)
    (set_segments (update_back (add_frame size) (segments st))
      (set_active (Some (set_as_offset (wrapping_add 64 (as_offset a) size)
                           (set_as_pos (as_pos a + size) a)))
        (set_next_batch_seq (wrapping_add 64 (next_batch_seq st) 1) st))).

Lemma encode_frame_split f :
  encode_frame f = encode_frame_header (payload f) (batch_seq f) ++ payload f.
Proof. reflexivity. Qed.

Lemma older_path_ne clean st w segs k l m m0 :
  wal_rep clean (WalState st w) segs k -> segments st = l ++ [m] -> m0 ∈ l ->
  meta_path m0 <> meta_path m.
Proof.
  intros R E Hin. assert (m0 ∈ segments st /\ m ∈ segments st) as [H0 H1].
  { rewrite E. split; apply elem_of_app; [by left|right; by left]. }
  destruct (rep_seg_in _ _ _ _ m R H1) as (-> & Hr1 & _).
  apply (rep_path_ne _ _ _ _ m0 _ R H0 Hr1).
  pose proof (rep_sorted _ _ _ _ R) as Hs. simpl in Hs. rewrite E, fmap_app in Hs.
  assert (meta_seq m0 < meta_seq m); [|lia].
  apply (StronglySorted_app_1_elem_of _ _ _ _ _ Hs); [by apply list_elem_of_fmap_2|by left].
Qed.

Lemma active_bytes_le clean st w segs k l m :
  wal_rep clean (WalState st w) segs k -> segments st = l ++ [m] ->
  0 <= meta_bytes m <= total_bytes st.
Proof.
  intros R E. pose proof (rep_total _ _ _ _ R) as Ht. simpl in Ht.
  pose proof (rep_segs _ _ _ _ R) as Rs. simpl in Rs. rewrite E in *.
  apply Forall2_app_inv_l in Rs as (r1 & r2 & H1 & H2 & _).
  pose proof (seg_bytes_nonneg _ _ _ H1). pose proof (seg_bytes_nonneg _ _ _ H2).
  rewrite Ht, sumZ_app. unfold sumZ in *; simpl in *. lia.
Qed.

Lemma added_rep st w w' init fr k l m a f :
  wal_rep true (WalState st w) (init ++ [fr]) k -> segments st = l ++ [m] -> active st = Some a ->
  seg_ok (w_files w) m fr -> active_ok true (w_files w) a m ->
  frame_ok f -> total_bytes st + frame_size f < 2 ^ 64 ->
  w_files w' = <[meta_path m := seg_data fr ++ encode_frame f]> (w_files w) ->
  wal_rep true (WalState (add_active_frame (frame_size f) a st) w') (init ++ [fr ++ [f]]) k.
Proof.
  intros R E Ea Hm Ha Hf Hroom Hw. pose proof (frame_size_pos f) as Hpos.
  destruct (clean_file true w m fr a eq_refl Hm Ha) as [Hfile Hpp].
  destruct Ha as (A1 & A2 & A3 & A4). rewrite A2 in Hfile. destruct (A4 eq_refl) as (A5 & _).
  pose proof (active_bytes_le _ _ _ _ _ _ _ R E) as Hmb.
  assert (Hm' := seg_ok_add _ _ _ _ _ Hm Hf ltac:(lia) Hfile). rewrite <- Hw in Hm'.
  apply (rep_active_write true true st _ w w' init fr [f] k l m (add_frame (frame_size f) m) a
           (set_as_offset (wrapping_add 64 (as_offset a) (frame_size f))
              (set_as_pos (as_pos a + frame_size f) a))); try done.
  - simpl. by rewrite E, update_back_snoc.
  - unfold active_ok. simpl. rewrite !wrapping_add_small by lia. split_and!; try done; [lia|].
    intros _. split; [lia|]. exists (seg_data fr ++ encode_frame f).
    rewrite Hw, lookup_insert_eq. split; [done|]. pose proof (zlen_encode_frame f). len_lia.
  - simpl. rewrite !wrapping_add_small by lia. lia.
  - apply wrap_range. lia.
  - intros m0 Hin. rewrite Hw. apply lookup_insert_ne. intros Ep.
    by apply (older_path_ne _ _ _ _ _ _ _ _ R E Hin).
Qed.

(** A torn write: bytes of a frame after the data, and the cursor past them. *)
Lemma torn_rep st w w' init fr k l m a n p torn :
  wal_rep true (WalState st w) (init ++ [fr]) k -> segments st = l ++ [m] -> active st = Some a ->
  seg_ok (w_files w) m fr -> active_ok true (w_files w) a m -> dead torn -> urange 64 n ->
  w_files w' = <[meta_path m := seg_data fr ++ torn]> (w_files w) ->
  wal_rep false (WalState (set_active (Some (set_as_pos p a)) (set_next_batch_seq n st)) w')
    (init ++ [fr]) k.
Proof.
  intros R E Ea Hm Ha Hd Hn Hw.
  replace (init ++ [fr]) with (init ++ [fr ++ []]) by by rewrite app_nil_r.
  apply (rep_active_write true false st _ w w' init fr [] k l m m a (set_as_pos p a)); try done.
  - rewrite app_nil_r. destruct Hm as (H1 & _ & H2). split; [done|]. split; [|done].
    exists torn. split; [|done]. rewrite Hw. apply lookup_insert_eq.
  - by destruct Ha as (? & ? & ? & _).
  - simpl. lia.
  - intros m0 Hin. rewrite Hw. apply lookup_insert_ne. intros Ep.
    by apply (older_path_ne _ _ _ _ _ _ _ _ R E Hin).
Qed.

(** Writing to the active segment's file unsettles nothing. *)
Lemma settled_write b st st' w w' a c :
  active st = Some a -> as_file <$> active st' = Some (as_file a) ->
  meta_path <$> segments st' = meta_path <$> segments st ->
  (exists m, m ∈ segments st /\ as_file a = meta_path m) ->
  w_files w' = <[as_file a := c]> (w_files w) -> w_durable w' = w_durable w ->
  settled_if b (WalState st w) -> settled_if b (WalState st' w').
Proof.
  intros Ha Ha' Es (ma & Hma & Ea) Hf Hd [H1 H2 H3]. simpl in *.
  assert (Hseg : forall m, m ∈ segments st' -> exists m0, m0 ∈ segments st /\ meta_path m0 = meta_path m).
  { intros m Hm. apply (list_elem_of_fmap_2 meta_path) in Hm. rewrite Es in Hm.
    apply list_elem_of_fmap in Hm as (m0 & ? & ?). by exists m0. }
  assert (Hseg' : forall m, m ∈ segments st -> exists m0, m0 ∈ segments st' /\ meta_path m0 = meta_path m).
  { intros m Hm. apply (list_elem_of_fmap_2 meta_path) in Hm. rewrite <- Es in Hm.
    apply list_elem_of_fmap in Hm as (m0 & ? & ?). by exists m0. }
  destruct (active st') as [a'|] eqn:Eact; [|done]. injection Ha' as Ea'.
  split; simpl; rewrite ?Hf, ?Hd.
  - intros Hb m Hm Hact. specialize (Hact a' Eact). rewrite Ea' in Hact.
    rewrite lookup_insert_ne by done. destruct (Hseg m Hm) as (m0 & Hm0 & Em). rewrite <- Em in *.
    apply (H1 Hb); [done|].
    rewrite Ha. by intros ? [= <-].
  - intros name Hn. assert (parse_segment_seq name = None
        \/ exists m, m ∈ segments st /\ name = meta_path m) as [?|(m & Hm & ->)]; [|by left|].
    + destruct (decide (as_file a = name)) as [<-|Hne]; [right; by exists ma|].
      rewrite lookup_insert_ne in Hn by done. by apply H2.
    + right. destruct (Hseg' m Hm) as (m0 & ? & <-). by exists m0.
  - intros Hb name Hn. destruct (decide (as_file a = name)) as [<-|Hne].
    + rewrite lookup_insert_eq. eauto.
    + rewrite lookup_insert_ne by done. auto.
Qed.

Lemma append_frame_spec st w segs k p :
  wal_rep true (WalState st w) segs k -> is_Some (active st) ->
  frame_ok (Frame (next_batch_seq st) p) ->
  total_bytes st + frame_len_on_disk (zlen p) < 2 ^ 64 ->
  wp (append_frame p) (frame_appended (WalState st w) segs k p) (WalState st w).
Proof.
  intros R [a Ea] Hf Hroom. set (f := Frame (next_batch_seq st) p) in *.
  destruct (rep_active_last _ _ _ _ _ _ R Ea) as (l & m & init & fr & E & -> & _ & Hm & Ha).
  destruct (clean_file true w m fr a eq_refl Hm Ha) as [Hfile Hpos].
  destruct Ha as (A1 & A2 & A3). rewrite A2 in Hfile. unfold append_frame.
  apply wp_bind, wp_gets. simpl. apply wp_bind, wp_modify. simpl.
  assert (Hassoc : forall (m1 m2 k : W unit) Q s, wp ((m1;; m2);; k) Q s -> wp (m1;; m2;; k) Q s).
  { intros m1 m2 k' Q s. unfold wp, mbind, M_bind. by destruct (m1 s) as [[]?]. }
  apply Hassoc, wp_bind. eapply wp_mono.
  { apply (write_active_app _ _ a (seg_data fr)); [done|by rewrite A2|done|].
    destruct Hf as [Hp _]. intros ->. simpl in Hp. lia. }
  change (encode_frame_header p (next_batch_seq st) ++ p) with (encode_frame f).
  intros [[]|e] [st1 w1] (n & E1 & Hw1 & Hl1 & Hd1 & Hn); cbn [inner disk] in *; subst st1; rewrite A2 in Hw1.
  - subst n. rewrite firstn_all in Hw1. rewrite zlen_encode_frame.
    do 2 (apply wp_bind, wp_modify; simpl). apply wp_bind, wp_modify; simpl.
    apply wp_bind, wp_zoom, wp_modify; simpl. apply wp_refresh_gauges.
    intros w2 Hf2 Hs2 Hd2 Hm2 _ _. simpl in Hf2, Hd2.
    split; [done|]. split; [done|]. split; [|split; [done|split; [done|split]]].
    { intros Hh. unfold healthy. simpl. rewrite Hs2. by apply Hl1. }
    { intros b _ Hs. apply (settled_write b st _ w w2 a (seg_data fr ++ encode_frame f)); try done.
      - simpl. by rewrite E, update_back_snoc, !fmap_app.
      - exists m. rewrite E. split; [apply elem_of_app; right; by left|done].
      - by rewrite Hf2, Hw1, A2.
      - by rewrite Hd2. }
    exists (init ++ [fr ++ [f]]). split; [by eexists|]. split; [|split; [|split; [by rewrite !length_app|split; [|split]]]].
    + by apply (added_rep _ w _ _ _ _ l m); [..|by rewrite Hf2].
    + apply queue_extend. apply (queue_bound _ _ _ _ R).
    + simpl. pose proof (active_bytes_le _ _ _ _ _ _ _ R E). pose proof (frame_size_pos f).
      apply wrapping_add_small. unfold frame_size in *; simpl in *. lia.
    + simpl. rewrite Hm2 by done. simpl. destruct Hl1 as [Hl1 _]. simpl in Hl1. by rewrite metric_counter_add_eq, Hl1.
    + intros name ? ? ?. simpl. rewrite Hm2 by done. simpl. rewrite metric_counter_add_ne by done.
      by destruct Hl1 as [Hl1 _]; simpl; rewrite Hl1.
  - destruct Hn as (-> & Hh & Hn). split; [done|]. split; [done|]. split; [by apply Hl1|].
    split; [done|]. split; [done|]. split; [done|].
    split_and!; try done; [|by apply Hl1].
    apply (torn_rep st w w1 init fr k l m a _ _ (take n (encode_frame f))); try done.
    + by apply dead_torn.
    + apply wrap_range. lia.
Qed.

(** Segments [pre] were dropped off the front, and the frame went to the end of
    what is left ([Ok]) or left at most a torn prefix behind ([Err]). *)
Record append_post (s0 : wal_state) (segs : list (list DecodedFrame)) (k : nat) (payload : bytes)
    (r : res io_error unit) (s' : wal_state) (pre segs' : list (list DecodedFrame)) : Prop := {
  ap_pre : exists rest, segs = pre ++ rest;
  ap_keep : total_bytes (inner s0) + frame_len_on_disk (zlen payload) <= max_bytes (cfg (inner s0)) ->
            pre = [];
  ap_rep : wal_rep (is_ok r) s' segs' (restart pre k);
  ap_queue : queue segs' (restart pre k)
             = drop (length (concat pre) - k) (queue segs k)
               ++ (if is_ok r then [Frame (next_batch_seq (inner s0)) payload] else []);
  ap_dropped : metric (w_metrics (disk s')) M_DROPPED_BATCHES
               = metric (w_metrics (disk s0)) M_DROPPED_BATCHES + sumZ (fun fr => zlen fr) pre;
  ap_written : metric (w_metrics (disk s')) M_FRAMES_WRITTEN
               = metric (w_metrics (disk s0)) M_FRAMES_WRITTEN + (if is_ok r then 1 else 0);
  ap_result : r = Ok tt \/ (r = Err IoOs /\ ~ healthy (disk s0));
  ap_cfg : cfg (inner s') = cfg (inner s0);
  ap_pending : pending_advance (inner s')
               = match pre with [] => pending_advance (inner s0) | _ => None end;
  ap_batch : is_ok r = true ->
             next_batch_seq (inner s') = wrapping_add 64 (next_batch_seq (inner s0)) 1;
  ap_next : next_seq (inner s') <= next_seq (inner s0) + 1;
  ap_cap : total_bytes (inner s') <= max_bytes (cfg (inner s0)) + SEGMENT_HEADER_LEN
           \/ (length segs' <= 2)%nat;
  ap_healthy : healthy (disk s0) -> healthy (disk s');
  ap_total : total_bytes (inner s') <= total_bytes (inner s0) + SEGMENT_HEADER_LEN
                                       + frame_len_on_disk (zlen payload);
  ap_settled : forall b, healthy (disk s0) -> settled_if b s0 -> settled_if b s';
  ap_active : is_ok r = true -> is_Some (active (inner s'))
}.

Lemma rep_weaken clean s segs k : wal_rep clean s segs k -> wal_rep false s segs k.
Proof.
  intros [R1 R2 R3 R4 R5 R6 R7 R8]. split; try done. destruct (active _) as [a|]; [|done].
  destruct R6 as (m & Hl & ? & ? & ? & _). exists m. by split_and!.
Qed.

(** The last two steps of [append], after the cap has been enforced. *)
Lemma append_tail s segs k p st1 w1 pre segs1 :
  let size := frame_len_on_disk (zlen p) in
  cap_enforced true size s (WalState st1 w1) segs segs1 pre k ->
  frame_ok (Frame (next_batch_seq (inner s)) p) ->
  total_bytes (inner s) + 16 + size < 2 ^ 64 -> next_seq (inner s) + 1 < 2 ^ 64 ->
  wp (ensure_active_with_room size;; append_frame p)
    (fun r s' => exists pre segs', append_post s segs k p r s' pre segs') (WalState st1 w1).
Proof.
  intros size [C1 C2 (Ccfg & Cact & Cseq & Cbatch) C4 Cp C5 C6 C7 C8 (Cm & _ & Cm') C10 C11] Hf Hroom Hseq.
  assert (0 <= size) by (unfold size, frame_len_on_disk, FRAME_HEADER_LEN; lia).
  cbn [inner disk] in *. apply wp_bind. eapply wp_mono.
  { apply (ensure_active_with_room_spec _ _ _ _ size C2); unfold SEGMENT_HEADER_LEN; lia. }
  intros [[]|e] [st2 w2] [((Hm2 & Hh2) & Hb2 & Hc2 & Hp2 & Hn2 & Hs2) Hr2]; cbn [inner disk] in *.
  - destruct Hr2 as (Hact & Ht2 & Hsegs). unfold SEGMENT_HEADER_LEN in Ht2.
    assert (exists segs2, wal_rep true (WalState st2 w2) segs2 (restart pre k)
              /\ queue segs2 (restart pre k) = queue segs1 (restart pre k)
              /\ (length segs2 <= S (length segs1))%nat) as (segs2 & R2 & Q2 & L2).
    { destruct Hsegs as [H2|H2]; [exists segs1|exists (segs1 ++ [[]])];
        rewrite ?queue_snoc_nil; split_and!; try done; len_lia. }
    eapply wp_mono.
    { apply (append_frame_spec _ _ segs2 (restart pre k) p R2 Hact).
      - by rewrite Hb2, Cbatch.
      - fold size. lia. }
    intros r3 s3 (Hb3 & Hc3 & Hh3 & Hp3 & Hn3 & Hs3 & Hr3); cbn [inner disk] in *. exists pre.
    destruct r3 as [[]|e].
    + destruct Hr3 as (segs3 & Act3 & R3 & Q3 & L3 & T3 & W3 & M3). unfold frame_size in T3. simpl in T3.
      fold size in T3. exists segs3. split; try done.
      * by exists segs1.
      * by rewrite Q3, Q2, C8, Hb2, Cbatch.
      * cbn [inner disk]. by rewrite M3, Hm2, Cm.
      * cbn [inner disk is_ok]. by rewrite W3, Hm2, Cm'.
      * by left.
      * cbn [inner disk] in *. congruence.
      * cbn [inner disk] in *. by rewrite Hp3, Hp2.
      * intros _. by rewrite Hb3, Hb2, Cbatch.
      * cbn [inner disk] in *. lia.
      * unfold SEGMENT_HEADER_LEN. cbn [inner disk] in *. destruct C6; [left|right]; lia.
      * auto.
      * unfold SEGMENT_HEADER_LEN. fold size. lia.
      * intros b Hw Hs. apply Hs3, Hs2, C11; auto.
    + destruct Hr3 as (-> & Hh & R3 & T3 & M3). exists segs2. split; try done.
      * by exists segs1.
      * by rewrite app_nil_r, Q2, C8.
      * cbn [inner disk]. by rewrite M3, Hm2, Cm.
      * cbn [inner disk is_ok]. rewrite M3, Hm2, Cm' by done. lia.
      * right. split; [done|]. intros Hw. by apply Hh, Hh2, C10.
      * cbn [inner disk] in *. congruence.
      * cbn [inner disk] in *. by rewrite Hp3, Hp2.
      * cbn [inner disk] in *. lia.
      * unfold SEGMENT_HEADER_LEN. cbn [inner disk] in *. destruct C6; [left|right]; lia.
      * auto.
      * unfold SEGMENT_HEADER_LEN. fold size. lia.
      * intros b Hw Hs. apply Hs3, Hs2, C11; auto.
  - destruct Hr2 as (-> & Hh & R2 & T2). exists pre, segs1. split; try done.
    + by exists segs1.
    + by apply rep_weaken in R2.
    + by rewrite app_nil_r, C8.
    + cbn [inner disk]. by rewrite Hm2, Cm.
    + cbn [inner disk is_ok]. rewrite Hm2, Cm' by done. lia.
    + right. split; [done|]. intros Hw. by apply Hh, C10.
    + cbn [inner disk] in *. congruence.
    + cbn [inner disk] in *. by rewrite Hp2.
    + cbn [inner disk] in *. lia.
    + unfold SEGMENT_HEADER_LEN. cbn [inner disk] in *. destruct C6; [left|right]; lia.
    + auto.
    + unfold SEGMENT_HEADER_LEN. fold size. cbn [inner disk] in *. lia.
    + intros b Hw Hs. apply Hs2, C11; auto.
Qed.

Lemma append_spec s segs k p :
  wal_rep true s segs k -> frame_ok (Frame (next_batch_seq (inner s)) p) ->
  total_bytes (inner s) + SEGMENT_HEADER_LEN + frame_len_on_disk (zlen p) < 2 ^ 64 ->
  next_seq (inner s) + 1 < 2 ^ 64 ->
  wp (append p) (fun r s' => exists pre segs', append_post s segs k p r s' pre segs') s.
Proof.
  intros R Hf Hroom Hseq. rewrite append_unfold. cbn zeta.
  assert (0 <= frame_len_on_disk (zlen p)) by (unfold frame_len_on_disk, FRAME_HEADER_LEN; lia).
  unfold SEGMENT_HEADER_LEN in Hroom.
  apply wp_bind. eapply wp_mono; [apply (enforce_cap_spec true _ _ segs k R); lia|].
  intros r1 [st1 w1] (-> & pre & segs1 & C). by apply (append_tail s segs k p st1 w1 pre segs1).
Qed.

(** ** Recovery from a failed append *)

(** On a disk that works again, [recover_active_after_error] cuts off whatever a
    failed [append] left behind. *)
Lemma recover_active_spec clean s segs k :
  wal_rep clean s segs k -> healthy (disk s) ->
  wp recover_active_after_error
    (fun r s' => r = Ok tt /\ (exists a, inner s' = set_active a (inner s))
                 /\ wal_rep true s' segs k /\ healthy (disk s')
                 /\ w_metrics (disk s') = w_metrics (disk s)) s.
Proof.
  destruct s as [st w]. intros R Hh. unfold recover_active_after_error.
  apply wp_bind, wp_gets. simpl. destruct (active st) as [a|] eqn:Ea.
  2:{ apply wp_ret. assert (st = set_active None st) as Est by (destruct st; simpl in *; by subst).
      split_and!; try done; [by exists None|]. rewrite Est. by apply (rep_inactive clean). }
  destruct (rep_active_last _ _ _ _ _ _ R Ea) as (l & m & init & fr & E & -> & _ & Hm & Ha).
  apply wp_bind, wp_attempt, wp_zoom, wp_syscall_healthy; [done|]. cbn [inner disk].
  set (w1 := set_w_files (alter (resize (as_offset a)) (as_file a) (w_files w)) w).
  apply wp_bind, wp_attempt, wp_zoom, wp_syscall_healthy; [done|]. cbn [inner disk is_ok].
  apply wp_modify. split; [done|]. split; [by eexists|]. split; [|done].
  replace (init ++ [fr]) with (init ++ [fr ++ []]) by by rewrite app_nil_r. simpl.
  destruct Ha as (A1 & A2 & A3 & _). destruct Hm as (M1 & (j & Hj & Hd) & M3 & M4).
  assert (Hw1 : w_files w1 !! meta_path m = Some (seg_data fr)).
  { subst w1. simpl. rewrite A2, lookup_alter_eq, Hj. simpl. f_equal. apply resize_exact.
    by rewrite A3, zlen_seg_data. }
  apply (rep_active_write clean true st _ w w1 init fr [] k l m m a (set_as_pos (as_offset a) a));
    try done.
  - rewrite app_nil_r. split; [done|]. split; [|done]. exists []. rewrite app_nil_r.
    split; [done|apply dead_nil].
  - split_and!; try done. intros _. split; [done|]. exists (seg_data fr). split; [done|].
    simpl. by rewrite A3, zlen_seg_data.
  - simpl. lia.
  - by destruct R.
  - intros m0 Hin. subst w1. simpl. rewrite A2. apply lookup_alter_ne. intros Ep. symmetry in Ep.
    by apply (older_path_ne _ _ _ _ _ _ _ _ R E Hin).
Qed.

End Append.
