(* ===== verification/WalRead.v ===== *)
(** * WalRead: the reading side of the log store

    What [peek_next], [gc_front_consumed], [commit_pending] and [has_backlog] do
    to the representation of [WalInv], for every script of system-call
    outcomes. *)

From S2P Require Export WalAppend.

Section Read.
Context {crc : Crc32}.

(** ** Reading the front segment *)

Lemma take_encode_split fr f k :
  fr !! k = Some f ->
  seg_data fr = seg_data (take k fr) ++ encode_frame f ++ encode_frames (drop (S k) fr).
Proof.
  intros Hf. rewrite <- (take_drop_middle _ _ _ Hf) at 1.
  rewrite (app_assoc _ (encode_frame f)), <- seg_data_snoc.
  replace (take k fr ++ f :: drop (S k) fr) with ((take k fr ++ [f]) ++ drop (S k) fr)
    by by rewrite <- app_assoc.
  generalize (take k fr ++ [f]) (drop (S k) fr). intros l1 l2. revert l1.
  induction l2 as [|g l2 IH]; intros l1.
  - by rewrite !app_nil_r.
  - replace (l1 ++ g :: l2) with ((l1 ++ [g]) ++ l2) by by rewrite <- app_assoc.
    rewrite IH, seg_data_snoc, encode_frames_cons. by rewrite app_assoc.
Qed.

(** What the reader finds at the cursor of a segment file. *)
Lemma decode_front files m fr k content :
  seg_ok files m fr -> files !! meta_path m = Some content -> meta_bytes m < 2 ^ 64 ->
  (k <= length fr)%nat ->
  let off := SEGMENT_HEADER_LEN + sumZ frame_size (take k fr) in
  match fr !! k with
  | Some f => decode_at content off = FrameOk f (off + frame_size f)
  | None => decode_at content off = FrameEnd \/ decode_at content off = FrameCorrupt
  end.
Proof.
  intros (_ & (junk & Hj & Hdead) & Hb & _ & Hfr & _) Hc Hroom Hk off.
  assert (content = seg_data fr ++ junk) as -> by congruence.
  unfold off. rewrite <- zlen_seg_data. destruct (fr !! k) as [f|] eqn:Ef.
  - rewrite (take_encode_split _ _ _ Ef), <- !app_assoc. apply decode_encode.
    + by apply (proj1 (Forall_lookup _ _) Hfr k).
    + rewrite zlen_seg_data. rewrite <- (take_drop_middle _ _ _ Ef), sumZ_app in Hb.
      pose proof (sum_frame_size_nonneg (drop (S k) fr)). unfold sumZ in *; simpl in *. lia.
  - apply lookup_ge_None in Ef. rewrite take_ge by lia. rewrite decode_at_app.
    unfold dead in Hdead. destruct (decode_at junk 0) as [f n| |] eqn:E; [|by left|by right].
    by destruct (Hdead f n).
Qed.

(** ** Collecting a consumed segment *)

Definition collected (m : SegmentMeta) (l : list SegmentMeta) (st : WalInner) : WalInner :=
  let st := set_total_bytes (saturating_sub (total_bytes st) (meta_bytes m)) (set_segments l st) in
  set_pending_advance None
    match l with front :: _ => set_read_cursor (meta_seq front) SEGMENT_HEADER_LEN st | [] => st end.

Lemma collected_rep clean st w w' m l fr segs :
  segments st = m :: l -> read_seq st = meta_seq m ->
  (forall a, active st = Some a -> as_seq a <> meta_seq m) ->
  wal_rep clean (WalState st w) (fr :: segs) (length fr) ->
  (forall m0, m0 ∈ l -> w_files w' !! meta_path m0 = w_files w !! meta_path m0) ->
  wal_rep clean (WalState (collected m l st) w') segs 0.
Proof.
  intros E Er Hact R Hf. apply (rep_frame _ _ w);
    [|intros m0; unfold collected; destruct l; simpl; apply Hf].
  destruct R as [R1 R2 R3 R4 R5 R6 R7 R8]; simpl in *. rewrite E in *.
  inversion R1 as [|? ? ? ? Hm R1']; subst. inversion R3; subst.
  assert (Htot : saturating_sub (total_bytes st) (meta_bytes m) = sumZ meta_bytes l).
  { pose proof (seg_bytes_nonneg _ _ _ R1'). rewrite R7. unfold saturating_sub, sumZ in *.
    simpl in *. lia. }
  assert (Hlast : forall a, active st = Some a -> exists m', last l = Some m'
                                          /\ active_ok clean (w_files w) a m').
  { intros a Ea. rewrite Ea in R6. destruct R6 as (m' & Hl & Hok). destruct l as [|m2 l]; [|eauto].
    injection Hl as <-. destruct Hok as (Hs & _). by destruct (Hact a Ea). }
  unfold collected.
  assert (Hact' : match active st with
                  | None => True
                  | Some a => exists m', last l = Some m' /\ active_ok clean (w_files w) a m'
                  end) by (destruct (active st) as [a|]; [by apply Hlast|done]).
  destruct l as [|front l], segs as [|fr2 segs]; try (by inversion R1'); split; simpl; try done.
  - constructor.
  - unfold cursor_ok; simpl. split_and!; try done. left. by rewrite Er.
  - apply StronglySorted_inv in R2 as [? _]. done.
  - unfold cursor_ok; simpl. left. split_and!; try done. lia.
Qed.

(** The consumed file is gone, or, on a failing disk, left behind. *)
Definition unlinked (path : string) (w w' : world) : Prop :=
  (w_files w' = w_files w \/ w_files w' = delete path (w_files w))
  /\ (healthy w -> w_files w' = delete path (w_files w)).

Lemma tidy_collected st w w' m l :
  segments st = m :: l -> w_files w' = delete (meta_path m) (w_files w) -> tidy (WalState st w) ->
  tidy (WalState (collected m l st) w').
Proof.
  intros E Hf [_ H _]. split; [done| |done]. simpl in *. intros name Hn. rewrite Hf in Hn.
  destruct Hn as [c Hc]. apply lookup_delete_Some in Hc as [Hne Hc].
  destruct (H name) as [?|(m' & Hm & ->)]; [by eauto|by left|]. right. exists m'. split; [|done].
  rewrite E in Hm. apply elem_of_cons in Hm as [->|Hm]; [done|]. unfold collected. by destruct l.
Qed.

Lemma fresh_tidy c w : w_files w = ∅ -> tidy (fresh_wal c w).
Proof. intros E. split; [done| |done]. intros name [? Hn]. simpl in Hn. by rewrite E in Hn. Qed.

Lemma tidy_files st st' w w' :
  segments st' = segments st -> w_files w' = w_files w -> tidy (WalState st w) -> tidy (WalState st' w').
Proof. intros Es Ef [_ H _]. split; [done| |done]. simpl in *. by rewrite Es, Ef. Qed.

Lemma wp_unlink_consumed path (Q : res io_error unit -> world -> Prop) w :
  (forall w', unlinked path w w' -> later w w' -> Q (Ok tt) w') ->
  wp (unlink_consumed path) Q w.
Proof.
  intros HQ. unfold unlink_consumed. apply wp_bind, wp_attempt.
  assert (Hrm : forall w1, advanced w w1 -> wp (attempt (fs_remove path);; mret tt) Q w1).
  { intros w1 H1. pose proof (advanced_files _ _ H1) as Hf1.
    apply wp_bind, wp_attempt, wp_fs_remove.
    - intros w2 H2. apply wp_ret, HQ.
      + assert (w_files (set_w_durable (delete path (w_durable w2)) (set_w_files (delete path (w_files w2)) w2))
                = delete path (w_files w)) as E by (simpl; by rewrite (advanced_files _ _ H2), Hf1).
        split; [by right|done].
      + pose proof (advanced_trans _ _ _ H1 H2) as H12.
        by apply (later_sys _ w2 (fun w => set_w_durable (delete path (w_durable w)) (set_w_files (delete path (w_files w)) w))).
    - intros w2 e H2 He. pose proof (advanced_trans _ _ _ H1 H2) as H12. apply wp_ret, HQ.
      + pose proof (advanced_files _ _ H12) as Ef. split; [by left|]. intros Hh.
        destruct He as [[_ []]|[_ Hn]]; [by apply (advanced_healthy _ _ H1)|].
        rewrite Hf1 in Hn. by rewrite Ef, delete_id.
      + by apply (later_sys _ w2 id). }
  apply wp_fs_open; auto.
Qed.

Lemma wp_advance_to_front st w (Q : res io_error unit -> wal_state -> Prop) :
  (forall w', w_files w' = w_files w -> w_faults w' = w_faults w -> counters_agree w w' ->
     Q (Ok tt) (WalState (set_pending_advance None
       match segments st with
       | front :: _ => set_read_cursor (meta_seq front) SEGMENT_HEADER_LEN st
       | [] => st
       end) w')) ->
  wp advance_to_front Q (WalState st w).
Proof.
  intros HQ. unfold advance_to_front. apply wp_bind, wp_gets. simpl.
  destruct (segments st); apply wp_bind; [apply wp_ret|apply wp_modify]; simpl;
    apply wp_bind, wp_modify; simpl; apply wp_refresh_gauges; auto.
Qed.

(** The garbage collection of the front segment, whatever happens to its file. *)
Lemma wp_gc_front_consumed st w m l (Q : res io_error unit -> wal_state -> Prop) :
  segments st = m :: l -> read_seq st = meta_seq m ->
  (forall w', unlinked (meta_path m) w w' -> counters_agree w w' -> (healthy w -> healthy w') ->
     Q (Ok tt) (WalState (collected m l st) w')) ->
  wp gc_front_consumed Q (WalState st w).
Proof.
  intros E Er HQ. unfold gc_front_consumed. apply wp_bind, wp_gets. unfold id; simpl.
  rewrite E, Er. simpl. rewrite Z.eqb_refl. apply wp_bind.
  apply wp_bind, wp_modify. simpl. apply wp_bind, wp_modify. simpl.
  apply wp_zoom, wp_unlink_consumed. simpl. intros w1 Hf1 [Hm1 Hh1].
  apply wp_advance_to_front. simpl. intros w2 Hf2 Hs2 Hm2. apply (HQ w2).
  - unfold unlinked. by rewrite Hf2.
  - intros n ? ?. by rewrite Hm2, Hm1.
  - unfold healthy in *. by rewrite Hs2.
Qed.

(** ** Peeking *)

(** The log after a peek: consumed segments [gone] were collected, nothing that
    was still to be read is lost, and the answer is the head of the queue. *)
Record peek_post (clean : bool) (s0 : wal_state) (segs : list (list DecodedFrame)) (k : nat)
    (r : res io_error (option DecodedFrame)) (s' : wal_state)
    (segs' : list (list DecodedFrame)) (k' : nat) : Prop := {
  pp_rep : wal_rep clean s' segs' k';
  pp_queue : queue segs' k' = queue segs k;
  pp_writer : same_writer (inner s0) (inner s');
  pp_counters : counters_agree (disk s0) (disk s');
  pp_total : total_bytes (inner s') <= total_bytes (inner s0);
  pp_healthy : healthy (disk s0) -> healthy (disk s');
  pp_tidy : healthy (disk s0) -> tidy s0 -> tidy s';
  pp_pending :
    match r with
    | Ok (Some _) => True
    | _ => pending_advance (inner s') = pending_advance (inner s0) \/ pending_advance (inner s') = None
    end;
  pp_answer :
    match r with
    | Ok (Some f) => head (queue segs k) = Some f /\ is_Some (pending_advance (inner s'))
    | Ok None => queue segs k = []
    | Err e => e = IoOs /\ ~ healthy (disk s0)
    end
}.

Lemma queue_front fr segs k f :
  fr !! k = Some f -> head (queue (fr :: segs) k) = Some f.
Proof.
  intros Hf. unfold queue. simpl. rewrite head_lookup, lookup_drop, Nat.add_0_r.
  by apply lookup_app_l_Some.
Qed.

Lemma tail_drop {A} n (l : list A) : tail (drop n l) = drop (S n) l.
Proof. revert l. induction n as [|n IH]; intros [|x l]; simpl; done || apply IH. Qed.

Lemma queue_done fr segs : queue (fr :: segs) (length fr) = queue segs 0.
Proof. unfold queue. simpl. by rewrite drop_app_length, drop_0. Qed.

(** The reader, resynchronised with the front segment. *)
Definition resynced (st : WalInner) (m : SegmentMeta) : WalInner :=
  if existsb (fun m => meta_seq m =? read_seq st) (segments st) then st
  else set_read_cursor (meta_seq m) SEGMENT_HEADER_LEN st.

Lemma resynced_rep clean st w m l fr segs k :
  segments st = m :: l -> wal_rep clean (WalState st w) (fr :: segs) k ->
  wal_rep clean (WalState (resynced st m) w) (fr :: segs) k
  /\ read_seq (resynced st m) = meta_seq m.
Proof.
  intros E R. pose proof (rep_cursor _ _ _ _ R) as C. unfold cursor_ok in C. simpl in C. rewrite E in C.
  unfold resynced. rewrite E. destruct C as [(C1 & _)|(C1 & C2 & -> & C4)].
  - simpl. rewrite <- C1, Z.eqb_refl. done.
  - assert (existsb (fun m => meta_seq m =? read_seq st) (m :: l) = false) as ->.
    { apply not_true_iff_false. rewrite existsb_exists. intros (m' & Hin & Heq). zb.
      apply list_elem_of_In in Hin. rewrite Forall_forall in C1. specialize (C1 _ Hin). simpl in C1. lia. }
    split; [|done]. destruct R as [R1 R2 R3 R4 R5 R6 R7 R8]. split; try done.
    unfold cursor_ok. simpl. rewrite E. left. split_and!; [done|lia|done|]. simpl. by rewrite C4.
Qed.

Lemma wp_reads {A} (m : IO A) v (Q : res io_error A -> world -> Prop) w :
  reads m v w ->
  (forall w', advanced w w' -> Q (Ok v) w') ->
  (forall w', advanced w w' -> ~ healthy w -> Q (Err IoOs) w') ->
  wp m Q w.
Proof.
  intros (fs & H & Hh) Hok Herr. unfold wp.
  destruct (decide (w_faults w = [])) as [Hw|Hw].
  - rewrite (Hh Hw). apply Hok, advanced_refl.
  - assert (advanced w (set_w_faults fs w)) by by (exists fs; split; [|intros Hw']).
    destruct H as [-> | ->]; [by apply Hok|by apply Herr].
Qed.

Lemma later_world w w' : advanced w w' -> later w w'.
Proof. intros H. by apply (later_sys _ w' id). Qed.

Lemma counters_agree_trans w1 w2 w3 :
  counters_agree w1 w2 -> counters_agree w2 w3 -> counters_agree w1 w3.
Proof. intros H1 H2 n ? ?. by rewrite H2, H1. Qed.

Lemma later_counters w w' : later w w' -> counters_agree w w'.
Proof. intros [E _] n _ _. by rewrite E. Qed.

(** One round of the loop on a resynchronised reader: it answers, or collects
    the front segment and goes on. *)
Lemma peek_round clean st w m l fr segs k (Q : res io_error (option DecodedFrame) -> wal_state -> Prop)
    (again : W (option DecodedFrame)) :
  let is_active := match active st with Some a => as_seq a =? read_seq st | None => false end in
  wal_rep clean (WalState st w) (fr :: segs) k -> segments st = m :: l -> read_seq st = meta_seq m ->
  total_bytes st < 2 ^ 64 ->
  (forall w' f, advanced w w' -> fr !! k = Some f ->
     Q (Ok (Some f)) (WalState (set_pending_advance (Some (read_offset st + frame_size f)) st) w')) ->
  (forall w', advanced w w' -> k = length fr -> is_active = true -> Q (Ok None) (WalState st w')) ->
  (forall w', advanced w w' -> ~ healthy w -> Q (Err IoOs) (WalState st w')) ->
  (forall w', k = length fr -> is_active = false -> unlinked (meta_path m) w w' ->
     counters_agree w w' -> (healthy w -> healthy w') -> wp again Q (WalState (collected m l st) w')) ->
  wp (io (fs_open (meta_path m));;
      r ← io (read_frame_at (meta_path m) (read_offset st));
      match r with
      | FrameOk frame next => upd (set_pending_advance (Some next));; mret (Some frame)
      | FrameEnd | FrameCorrupt => if is_active then mret None else gc_front_consumed;; again
      end) Q (WalState st w).
Proof.
  intros is_active R E Er Hroom Hframe Hnone Herr Hagain.
  pose proof (rep_cursor _ _ _ _ R) as C. unfold cursor_ok in C. simpl in C. rewrite E in C.
  assert ((k <= length fr)%nat /\ read_offset st = SEGMENT_HEADER_LEN + sumZ frame_size (take k fr))
    as [Hk Hoff].
  { destruct C as [(_ & ? & ? & _)|(C1 & _)]; [done|]. inversion C1; subst. lia. }
  pose proof (rep_segs _ _ _ _ R) as Rs. simpl in Rs. rewrite E in Rs.
  inversion Rs as [|? ? ? ? Hm Rs']; subst.
  assert (Hmb : meta_bytes m < 2 ^ 64).
  { pose proof (rep_total _ _ _ _ R) as Ht. simpl in Ht. rewrite E in Ht.
    pose proof (seg_bytes_nonneg _ _ _ Rs'). unfold sumZ in *; simpl in *. lia. }
  destruct Hm as (Hp & (j & Hj & Hd) & Hm).
  assert (Hm0 : seg_ok (w_files w) m fr) by (split; [done|]; split; [by exists j|done]).
  pose proof (decode_front _ _ _ _ _ Hm0 Hj Hmb Hk) as Hdec. cbn zeta in Hdec. rewrite <- Hoff in Hdec.
  apply wp_bind, wp_zoom, wp_fs_open; simpl.
  2:{ intros w1 e H1 [[-> Hh]|[_ Hn]]; [by apply Herr|]. by rewrite Hj in Hn. }
  intros w1 H1 _. apply wp_bind, wp_zoom. simpl.
  assert (Hfb : file_bytes (meta_path m) w1 = seg_data fr ++ j)
    by (unfold file_bytes; by rewrite (advanced_files _ _ H1), Hj).
  eapply wp_reads; [apply read_frame_at_spec; rewrite Hoff; pose proof (sum_frame_size_nonneg (take k fr));
                    unfold SEGMENT_HEADER_LEN; lia| |].
  - intros w2 H2. rewrite Hfb. pose proof (advanced_trans _ _ _ H1 H2) as H12.
    destruct (fr !! k) as [f|] eqn:Ef.
    + rewrite Hdec. apply wp_bind, wp_modify, wp_ret. simpl. by apply Hframe.
    + apply lookup_ge_None in Ef. assert (k = length fr) as Ek by lia.
      assert (Hgc : wp (if is_active then mret None else gc_front_consumed;; again) Q (WalState st w2)).
      { destruct is_active eqn:Ea; [by apply wp_ret, Hnone|]. apply wp_bind.
        apply (wp_gc_front_consumed _ _ m l); [done|done|]. intros w3 Hf3 Hc3 Hh3.
        apply Hagain; [done|done| | |].
        - unfold unlinked in *. rewrite (advanced_files _ _ H12) in Hf3. destruct Hf3 as [H3 H3'].
          split; [done|]. intros Hw. by apply H3', (advanced_healthy _ _ H12).
        - eapply counters_agree_trans; [|done]. by apply later_counters, later_world.
        - intros Hw. by apply Hh3, (advanced_healthy _ _ H12). }
      by destruct Hdec as [-> | ->].
  - intros w2 H2 Hh. apply Herr; [by apply (advanced_trans _ w1)|].
    intros Hw. by apply Hh, (advanced_healthy _ _ H1).
Qed.

Lemma resynced_eq st m :
  active (resynced st m) = active st /\ pending_advance (resynced st m) = pending_advance st /\ segments (resynced st m) = segments st
  /\ total_bytes (resynced st m) = total_bytes st /\ same_writer st (resynced st m).
Proof. unfold resynced. by destruct (existsb _ _). Qed.

Lemma wp_resync {A} st w m (k : unit -> W A) (Q : res io_error A -> wal_state -> Prop) :
  wp (k tt) Q (WalState (resynced st m) w) ->
  wp (when (negb (existsb (fun m => meta_seq m =? read_seq st) (segments st)))
        (upd (set_read_cursor (meta_seq m) SEGMENT_HEADER_LEN)) ≫= k) Q (WalState st w).
Proof.
  unfold resynced. intros H. apply wp_bind, wp_when; intros E.
  - apply negb_true_iff in E. rewrite E in H. by apply wp_modify.
  - apply negb_false_iff in E. by rewrite E in H.
Qed.

Lemma active_front_last clean st w m l fr segs k a :
  wal_rep clean (WalState st w) (fr :: segs) k -> segments st = m :: l -> active st = Some a ->
  as_seq a = meta_seq m -> segs = [].
Proof.
  intros [R1 R2 _ _ _ R6 _ _] E Ea Eq. simpl in *. rewrite E, Ea in *.
  destruct R6 as (m' & Hl & Hs & _). destruct l as [|m2 l].
  - inversion R1 as [|? ? ? ? _ R1']; subst. by inversion R1'.
  - assert (m' ∈ m2 :: l) as Hin by (apply last_Some_elem_of; done).
    pose proof (sorted_head_lt _ _ R2 _ Hin). lia.
Qed.

Lemma collected_total clean st w m l segs k :
  wal_rep clean (WalState st w) segs k -> segments st = m :: l ->
  total_bytes (collected m l st) <= total_bytes st.
Proof.
  intros R E.
  pose proof (rep_total _ _ _ _ R) as Ht. pose proof (rep_segs _ _ _ _ R) as Rs. simpl in Ht, Rs.
  rewrite E in Ht, Rs. pose proof (seg_bytes_nonneg _ _ _ Rs).
  inversion Rs as [|? ? ? ? Hm _]; subst. pose proof (seg_ok_bytes _ _ _ Hm).
  unfold collected, saturating_sub, SEGMENT_HEADER_LEN in *. destruct l; simpl in *; lia.
Qed.

(** A post-condition of the rest of the loop is one of the whole loop. *)
Lemma peek_post_mono clean s0 s1 segs segs1 k k1 r s' segs' k' :
  queue segs1 k1 = queue segs k -> same_writer (inner s0) (inner s1) ->
  counters_agree (disk s0) (disk s1) -> total_bytes (inner s1) <= total_bytes (inner s0) ->
  pending_advance (inner s1) = pending_advance (inner s0) \/ pending_advance (inner s1) = None ->
  (healthy (disk s0) -> healthy (disk s1)) -> (healthy (disk s0) -> tidy s0 -> tidy s1) ->
  peek_post clean s1 segs1 k1 r s' segs' k' -> peek_post clean s0 segs k r s' segs' k'.
Proof.
  intros Hq Hw Hc Ht Hp Hh Hti [P1 P2 P3 P4 P5 P6 P8 Pp P7]. rewrite Hq in *. split; try done.
  - by eapply same_writer_trans.
  - by eapply counters_agree_trans.
  - lia.
  - auto.
  - auto.
  - destruct r as [[f|]|e]; try done; destruct Pp as [->| ->]; auto.
  - destruct r as [[f|]|e]; try done. destruct P7 as [-> ?]. auto.
Qed.

Lemma peek_next_loop_spec clean fuel s segs k :
  wal_rep clean s segs k -> total_bytes (inner s) < 2 ^ 64 -> (length segs < fuel)%nat ->
  wp (peek_next_loop fuel) (fun r s' => exists segs' k', peek_post clean s segs k r s' segs' k') s.
Proof.
  revert s segs k. induction fuel as [|fuel IH]; intros [st w] segs k R Hroom Hfuel; [lia|].
  pose proof (rep_length _ _ _ _ R) as Hlen. cbn [peek_next_loop inner] in *.
  apply wp_bind, wp_gets. unfold id; cbn [inner].
  destruct (segments st) as [|m l] eqn:E; destruct segs as [|fr segs]; try (by simpl in Hlen).
  { apply wp_ret. exists [], k. split; try done; [by left|]. unfold queue. simpl. by rewrite drop_nil. }
  rewrite <- E. apply wp_resync, wp_bind, wp_gets. cbn [inner].
  destruct (resynced_rep _ _ _ _ _ _ _ _ E R) as [R1 Er].
  destruct (resynced_eq st m) as (Ea1 & Ep1 & E1 & Et1 & Hw1). rewrite E in E1.
  set (st1 := resynced st m) in *.
  assert (Htidy : forall st2 w2, segments st2 = segments st1 -> advanced w w2 ->
    tidy (WalState st w) -> tidy (WalState st2 w2)).
  { intros st2 w2 E2 Hw. apply tidy_files; [by rewrite E2, E1|by apply advanced_files]. }
  assert (find_seq (read_seq st1) (segments st1) = Some m) as ->
    by (rewrite E1, Er; simpl; by rewrite Z.eqb_refl).
  pose proof (rep_front_frames _ _ _ _ _ _ _ R1 E1) as Hk.
  eapply (peek_round clean st1 w m l fr segs k); try done; [by rewrite Et1|..].
  - intros w' f Hw Hf. exists (fr :: segs), k. split; cbn [inner disk]; try done.
    + apply (rep_frame _ _ w); [|by rewrite (advanced_files _ _ Hw)].
      destruct R1 as [Q1 Q2 Q3 Q4 Q5 Q6 Q7 Q8]. split; try done.
      unfold cursor_ok in *. simpl in *. rewrite E1 in *. left.
      destruct Q8 as [(H1 & H2 & H3 & _)|(H1 & _)].
      * split_and!; try done. intros next [= <-]. by exists f.
      * inversion H1; subst. lia.
    + by apply later_counters, later_world.
    + simpl. lia.
    + by apply (advanced_healthy _ _ Hw).
    + intros _. by apply Htidy.
    + split; [by apply queue_front|done].
  - intros w' Hw -> Ha. exists (fr :: segs), (length fr). split; cbn [inner disk]; try done.
    + by apply (rep_frame _ _ w); [|by rewrite (advanced_files _ _ Hw)].
    + by apply later_counters, later_world.
    + lia.
    + by apply (advanced_healthy _ _ Hw).
    + intros _. by apply Htidy.
    + by left.
    + destruct (active st1) as [a|] eqn:Ea; [|done]. zb.
      by rewrite queue_done, (active_front_last _ _ _ _ _ _ _ _ a R1 E1 Ea) by congruence.
  - intros w' Hw Hh. exists (fr :: segs), k. split; cbn [inner disk]; try done.
    + by apply (rep_frame _ _ w); [|by rewrite (advanced_files _ _ Hw)].
    + by apply later_counters, later_world.
    + lia.
    + by left.
  - intros w' -> Ha [Hf Hfd] Hc Hh. eapply wp_mono; [apply (IH _ segs 0%nat)|].
    + apply (collected_rep _ _ w _ _ _ fr); try done.
      * intros a Ea. rewrite Ea in Ha. zb. congruence.
      * intros m0 Hin. destruct Hf as [->| ->]; [done|]. apply lookup_delete_ne. intros Ep.
        by apply (front_path_ne _ _ _ _ _ _ _ _ R1 E1 Hin).
    + pose proof (collected_total _ _ _ _ _ _ _ R1 E1). cbn [inner]. lia.
    + simpl in *. lia.
    + intros r s' (segs' & k' & P). exists segs', k'.
      eapply (peek_post_mono _ _ (WalState (collected m l st1) w')); [| | | | | | |exact P]; cbn [inner disk].
      * by rewrite queue_done.
      * eapply same_writer_trans; [done|]. unfold collected. by destruct l.
      * done.
      * rewrite <- Et1. by apply (collected_total _ _ _ _ _ _ _ R1).
      * by right.
      * done.
      * intros Hw. specialize (Hfd Hw). intros Ht. apply (tidy_collected st1 w); [done..|].
        apply Htidy; [done|apply advanced_refl|done].
Qed.

Lemma peek_next_spec clean s segs k :
  wal_rep clean s segs k -> total_bytes (inner s) < 2 ^ 64 ->
  wp peek_next (fun r s' => exists segs' k', peek_post clean s segs k r s' segs' k') s.
Proof.
  intros R Hroom. unfold peek_next. apply wp_bind, wp_gets. apply peek_next_loop_spec; [done..|].
  rewrite (rep_length _ _ _ _ R). lia.
Qed.

(** ** Committing *)

(** Committing after a peek moves the reader past exactly the frame it
    answered; without a peek it does nothing. *)
Lemma commit_pending_spec clean s segs k :
  wal_rep clean s segs k ->
  wp commit_pending (fun r s' => r = Ok tt /\ cfg (inner s') = cfg (inner s)
    /\ next_seq (inner s') = next_seq (inner s) /\ total_bytes (inner s') = total_bytes (inner s)
    /\ next_batch_seq (inner s') = next_batch_seq (inner s)
    /\ (healthy (disk s) -> healthy (disk s'))
    /\ (tidy s -> tidy s')
    /\ pending_advance (inner s') = None
    /\ match pending_advance (inner s) with
       | Some _ => exists k', wal_rep clean s' segs k'
                     /\ queue segs k' = tail (queue segs k) /\ queue segs k <> []
                     /\ metric (w_metrics (disk s')) M_FRAMES_REPLAYED
                        = metric (w_metrics (disk s)) M_FRAMES_REPLAYED + 1
       | None => wal_rep clean s' segs k /\ disk s' = disk s
       end) s.
Proof.
  destruct s as [st w]. intros R. unfold commit_pending. apply wp_bind, wp_gets. cbn [inner].
  apply wp_bind, wp_modify. cbn [inner disk].
  pose proof (rep_cursor _ _ _ _ R) as C. unfold cursor_ok in C. cbn [inner] in C.
  destruct (pending_advance st) as [next|] eqn:Ep.
  - destruct (segments st) as [|m l] eqn:E; [by destruct C as (_ & ? & _)|].
    destruct segs as [|fr segs]; [by destruct C as (_ & ? & _)|].
    destruct C as [(C1 & C2 & C3 & C4)|(_ & _ & _ & ?)]; [|done].
    destruct (C4 next eq_refl) as (f & Hf & ->). pose proof (lookup_lt_Some _ _ _ Hf).
    apply wp_bind, wp_modify, wp_zoom, wp_modify. cbn [inner disk]. split_and!; try done; [by apply tidy_files|].
    exists (S k). split_and!.
    + apply (rep_frame _ _ w); [|done]. destruct R as [Q1 Q2 Q3 Q4 Q5 Q6 Q7 Q8]. split; try done.
      unfold cursor_ok. simpl. rewrite E. left. split_and!; [done|lia| |done].
      rewrite C3, (take_S_r _ _ _ Hf), sumZ_app. unfold sumZ; simpl. lia.
    + unfold queue. by rewrite <- tail_drop.
    + intros Hq. pose proof (queue_front fr segs k f Hf) as Hh. by rewrite Hq in Hh.
    + simpl. by rewrite metric_counter_add_eq.
  - apply wp_ret. split_and!; try done; [by apply tidy_files|]. simpl.
    by replace (set_pending_advance None st) with st by (destruct st; simpl in *; by subst).
Qed.

End Read.
