(* ===== verification/WalProps.v ===== *)
(** * WalProps: the log is a bounded queue

    The abstract specification of the log store, a queue that may drop its
    oldest entries, and the theorems that the operations of [Wal] implement it
    on every script of system-call outcomes: what an append adds, what it may
    drop, what a peek answers, what a commit removes, and what survives a failed
    append. *)

From S2P Require Export WalRead.

(** ** The abstract queue *)

(** The frames to be replayed, oldest first, and the one handed to the reader
    and not yet committed. *)
Record spec_state : Type := Spec { sq : list DecodedFrame; handed : option DecodedFrame }.

Inductive wal_op : Type :=
| OpAppend (payload : bytes)
| OpPeek
| OpCommit.

Inductive wal_answer : Type :=
| AnsDone
| AnsFailed
| AnsFrame (f : DecodedFrame)
| AnsEmpty.

Inductive spec_step : spec_state -> wal_op -> wal_answer -> spec_state -> Prop :=
| step_append q h n p f h' :
    payload f = p -> h' = None \/ (n = 0%nat /\ h' = h) ->
    spec_step (Spec q h) (OpAppend p) AnsDone (Spec (drop n q ++ [f]) h')
| step_append_failed q h n p h' :
    h' = None \/ (n = 0%nat /\ h' = h) ->
    spec_step (Spec q h) (OpAppend p) AnsFailed (Spec (drop n q) h')
| step_peek f q h : spec_step (Spec (f :: q) h) OpPeek (AnsFrame f) (Spec (f :: q) (Some f))
| step_peek_empty h : spec_step (Spec [] h) OpPeek AnsEmpty (Spec [] None)
| step_peek_failed q h h' :
    h' = None \/ h' = h -> spec_step (Spec q h) OpPeek AnsFailed (Spec q h')
| step_commit f q : spec_step (Spec (f :: q) (Some f)) OpCommit AnsDone (Spec q None)
| step_commit_none q : spec_step (Spec q None) OpCommit AnsDone (Spec q None).

Inductive spec_run : spec_state -> list wal_op -> list wal_answer -> spec_state -> Prop :=
| run_nil a : spec_run a [] [] a
| run_cons a op ans b ops anss c :
    spec_step a op ans b -> spec_run b ops anss c -> spec_run a (op :: ops) (ans :: anss) c.

Section Run.
Context {crc : Crc32}.

(** ** Running the store *)

Definition with_faults (fs : list outcome) (s : wal_state) : wal_state :=
  WalState (inner s) (set_w_faults fs (disk s)).

(** One operation under a script of outcomes.  As in the writer thread, a failed
    append is followed by [recover_active_after_error], whose own calls
    succeed. *)
Definition exec (fs : list outcome) (op : wal_op) (s : wal_state) : wal_answer * wal_state :=
  match op with
  | OpAppend p =>
      match append p (with_faults fs s) with
      | (Ok _, s) => (AnsDone, s)
      | (Err _, s) => (AnsFailed, snd (recover_active_after_error (with_faults [] s)))
      end
  | OpPeek =>
      match peek_next (with_faults fs s) with
      | (Ok (Some f), s) => (AnsFrame f, s)
      | (Ok None, s) => (AnsEmpty, s)
      | (Err _, s) => (AnsFailed, s)
      end
  | OpCommit => (AnsDone, snd (commit_pending (with_faults fs s)))
  end.

Fixpoint exec_all (cmds : list (list outcome * wal_op)) (s : wal_state)
    : list wal_answer * wal_state :=
  match cmds with
  | [] => ([], s)
  | (fs, op) :: cmds =>
      let '(ans, s) := exec fs op s in
      let '(anss, s) := exec_all cmds s in
      (ans :: anss, s)
  end.

(** Replaying with an upload that always succeeds: peek, commit, until the log
    answers that there is nothing left. *)
Fixpoint drain_all (fuel : nat) : W (list DecodedFrame) :=
  match fuel with
  | O => fail IoFuel
  | S fuel =>
      r ← peek_next;
      match r with
      | None => mret []
      | Some f => commit_pending;; rest ← drain_all fuel; mret (f :: rest)
      end
  end.

Fixpoint append_all (ps : list bytes) : W unit :=
  match ps with
  | [] => mret tt
  | p :: ps => append p;; append_all ps
  end.

(** ** The refinement relation *)

(** The frame handed to the reader is the head of the queue while an advance is
    pending. *)
Definition guard_head (pending : option Z) (q : list DecodedFrame) : option DecodedFrame :=
  match pending with Some _ => head q | None => None end.

Definition refines (s : wal_state) (a : spec_state) : Prop :=
  exists segs k, wal_rep true s segs k /\ queue segs k = sq a
    /\ handed a = guard_head (pending_advance (inner s)) (sq a).

(** The 64-bit counters have room for [n] more operations. *)
Definition margin (n : nat) (s : wal_state) : Prop :=
  total_bytes (inner s) + Z.of_nat n * 2 ^ 25 < 2 ^ 64
  /\ next_seq (inner s) + Z.of_nat n < 2 ^ 64.

Definition payload_ok (p : bytes) : Prop := 0 < zlen p <= MAX_FRAME_PAYLOAD.

Definition op_ok (op : wal_op) : Prop :=
  match op with OpAppend p => payload_ok p | _ => True end.

Lemma rep_with_faults clean s segs k fs :
  wal_rep clean s segs k -> wal_rep clean (with_faults fs s) segs k.
Proof. destruct s as [st w]. intros R. by apply (rep_frame _ _ w). Qed.

Lemma queue_pending s segs k :
  wal_rep true s segs k -> is_Some (pending_advance (inner s)) -> queue segs k <> [].
Proof.
  intros R [next Hp]. pose proof (rep_cursor _ _ _ _ R) as C. unfold cursor_ok in C.
  destruct (segments (inner s)), segs as [|fr segs]; try by destruct C as (_ & C & _); congruence.
  destruct C as [(_ & _ & _ & C)|(_ & _ & _ & C)]; [|congruence].
  destruct (C _ Hp) as (f & Hf & _). pose proof (queue_front fr segs k f Hf) as H.
  intros E. by rewrite E in H.
Qed.

(** Dropping segments while a frame is handed out takes it back. *)
Lemma handed_after pend q (pre : list (list DecodedFrame)) n q' :
  (pre = [] -> n = 0%nat) -> (n = 0%nat -> is_Some pend -> head q' = head q) ->
  let pend' := match pre with [] => pend | _ => None end in
  guard_head pend' q' = None \/ (n = 0%nat /\ guard_head pend' q' = guard_head pend q).
Proof.
  intros Hn Hq. destruct pre as [|fr pre]; [|by left]. simpl.
  destruct pend as [x|]; [|by left]. right. simpl. rewrite Hq by eauto. eauto.
Qed.

Lemma head_app_ne (q q' : list DecodedFrame) : q <> [] -> head (q ++ q') = head q.
Proof. by destruct q. Qed.

Lemma frame_size_bound p : payload_ok p -> frame_len_on_disk (zlen p) <= 16 + 2 ^ 24.
Proof. unfold payload_ok, frame_len_on_disk, FRAME_HEADER_LEN, MAX_FRAME_PAYLOAD. lia. Qed.

(** [append_spec] in the form the properties use. *)
Lemma append_outcome s segs k p :
  wal_rep true s segs k -> payload_ok p -> margin 1 s ->
  exists pre segs', append_post s segs k p (fst (append p s)) (snd (append p s)) pre segs'.
Proof.
  intros R Hp [Hm1 Hm2]. pose proof (frame_size_bound p Hp) as Hsz. unfold payload_ok in Hp.
  apply (append_spec s segs k p); [done| |unfold SEGMENT_HEADER_LEN; lia|lia].
  split; [done|]. apply (rep_batch_range _ _ _ _ R).
Qed.

Lemma append_refines fs s a p n :
  refines s a -> payload_ok p -> margin (S n) s ->
  exists b, spec_step a (OpAppend p) (fst (exec fs (OpAppend p) s)) b
            /\ refines (snd (exec fs (OpAppend p) s)) b
            /\ margin n (snd (exec fs (OpAppend p) s)).
Proof.
  intros (segs & k & R & Hq & Hh) Hp [Hm1 Hm2]. destruct a as [q h]; simpl in Hq, Hh; subst q h.
  pose proof (frame_size_bound p Hp) as Hsz.
  assert (H := append_outcome (with_faults fs s) segs k p (rep_with_faults _ _ _ _ fs R) Hp
                 ltac:(unfold margin; simpl; lia)).
  unfold exec. destruct (append p (with_faults fs s)) as [r s1]; cbn [fst snd] in *.
  destruct H as (pre & segs' & [_ _ R1 Q1 _ _ _ _ P1 _ N1 _ _ T1]). simpl in P1, N1, T1.
  set (d := (length (concat pre) - k)%nat) in *. unfold SEGMENT_HEADER_LEN in T1.
  assert (Hd : pre = [] -> d = 0%nat) by (subst d; intros ->; simpl; lia).
  assert (Hne : d = 0%nat -> is_Some (pending_advance (inner s)) ->
                head (queue segs' (restart pre k)) = head (queue segs k)).
  { intros -> Hs. rewrite Q1, drop_0. apply head_app_ne. by eapply queue_pending. }
  pose proof (handed_after (pending_advance (inner s)) _ pre d _ Hd Hne) as Hg. cbn zeta in Hg.
  rewrite <- P1 in Hg. destruct r as [[]|e]; cbn [is_ok] in *.
  - eexists. split; [by apply (step_append (queue segs k) _ d p (Frame (next_batch_seq (inner s)) p) _ eq_refl Hg)|]. split.
    + exists segs', (restart pre k). split_and!; [done|by rewrite Q1|]. simpl. by rewrite Q1.
    + unfold margin. cbn [fst snd]. lia.
  - pose proof (recover_active_spec false (with_faults [] s1) segs' (restart pre k)) as H.
    specialize (H (rep_with_faults _ _ _ _ _ R1) eq_refl). unfold wp in H.
    destruct (recover_active_after_error _) as [r2 s2]; cbn [fst snd] in *.
    destruct H as (_ & (act & E2) & R2 & _). rewrite app_nil_r in Q1.
    eexists. split; [by apply (step_append_failed (queue segs k) _ d p _ Hg)|]. split.
    + exists segs', (restart pre k). split_and!; [done|done|]. rewrite E2. simpl. by rewrite Q1.
    + unfold margin. rewrite E2. simpl. lia.
Qed.

Lemma peek_refines fs s a n :
  refines s a -> margin (S n) s ->
  exists b, spec_step a OpPeek (fst (exec fs OpPeek s)) b
            /\ refines (snd (exec fs OpPeek s)) b /\ margin n (snd (exec fs OpPeek s)).
Proof.
  intros (segs & k & R & Hq & Hh) [Hm1 Hm2]. destruct a as [q h]; simpl in Hq, Hh; subst q h.
  assert (H : wp peek_next (fun r s' => exists segs' k',
    peek_post true (with_faults fs s) segs k r s' segs' k') (with_faults fs s)).
  { apply peek_next_spec; [by apply rep_with_faults|simpl; lia]. }
  unfold wp in H. unfold exec. destruct (peek_next (with_faults fs s)) as [r s1]; cbn [fst snd] in *.
  destruct H as (segs' & k' & [R1 Q1 (_ & _ & N1 & _) _ T1 _ _ P1 A1]). simpl in N1, T1.
  assert (Hm : margin n s1) by (unfold margin; lia).
  destruct r as [[f|]|e]; cbn [fst snd].
  - destruct A1 as [Hf [nx Hnx]]. destruct (queue segs k) as [|f' q] eqn:Eq; [done|].
    injection Hf as ->. eexists. split; [apply step_peek|]. split; [|done].
    exists segs', k'. split_and!; [done|done|]. simpl. by rewrite Hnx.
  - rewrite A1. eexists. split; [apply step_peek_empty|]. split; [|done].
    exists segs', k'. split_and!; [done|by rewrite Q1, A1|]. simpl. by destruct (pending_advance _).
  - exists (Spec (queue segs k) (guard_head (pending_advance (inner s1)) (queue segs k))).
    split; [|split; [|done]].
    + apply step_peek_failed. simpl in P1. destruct P1 as [-> | ->]; [by right|by left].
    + exists segs', k'. split_and!; [done|done|]. done.
Qed.

Lemma commit_refines fs s a n :
  refines s a -> margin (S n) s ->
  exists b, spec_step a OpCommit (fst (exec fs OpCommit s)) b
            /\ refines (snd (exec fs OpCommit s)) b /\ margin n (snd (exec fs OpCommit s)).
Proof.
  intros (segs & k & R & Hq & Hh) [Hm1 Hm2]. destruct a as [q h]; simpl in Hq, Hh; subst q h.
  pose proof (commit_pending_spec true (with_faults fs s) segs k (rep_with_faults _ _ _ _ _ R)) as H.
  unfold wp in H. unfold exec. destruct (commit_pending _) as [r s1]; cbn [fst snd] in *.
  destruct H as (_ & _ & N1 & T1 & _ & _ & _ & P1 & H). simpl in N1, T1, H.
  assert (Hm : margin n s1) by (unfold margin; lia).
  destruct (pending_advance (inner s)) as [nx|].
  - destruct H as (k' & R' & Q' & Hne & _). destruct (queue segs k) as [|f q] eqn:Eq; [done|].
    eexists. split; [apply step_commit|]. split; [|done]. exists segs, k'. by rewrite P1.
  - destruct H as (R' & _). eexists. split; [apply step_commit_none|]. split; [|done].
    exists segs, k. by rewrite P1.
Qed.

Lemma exec_refines fs op s a n :
  refines s a -> op_ok op -> margin (S n) s ->
  exists b, spec_step a op (fst (exec fs op s)) b
            /\ refines (snd (exec fs op s)) b /\ margin n (snd (exec fs op s)).
Proof. destruct op; intros; [by apply append_refines|by apply peek_refines|by apply commit_refines]. Qed.

Lemma fresh_rep c w : wal_rep true (fresh_wal c w) [] 0.
Proof.
  split; simpl; try done; [constructor|]. unfold cursor_ok. simpl. split_and!; try done. right. done.
Qed.

Lemma fresh_refines c w : refines (fresh_wal c w) (Spec [] None).
Proof. exists [], 0%nat. split; [apply fresh_rep|done]. Qed.

(** *** Draining *)

Lemma drain_all_spec clean s segs k fuel :
  wal_rep clean s segs k -> healthy (disk s) -> total_bytes (inner s) < 2 ^ 64 ->
  (length (queue segs k) < fuel)%nat ->
  wp (drain_all fuel) (fun r s' => r = Ok (queue segs k)
    /\ exists segs' k', wal_rep clean s' segs' k' /\ queue segs' k' = []) s.
Proof.
  revert s segs k. induction fuel as [|fuel IH]; intros s segs k R Hh Ht Hf; [lia|].
  cbn [drain_all]. apply wp_bind. eapply wp_mono; [by apply (peek_next_spec clean _ segs k)|].
  intros r s1 (segs1 & k1 & [R1 Q1 (_ & _ & _ & _) _ T1 H1 _ P1 A1]).
  destruct r as [[f|]|e]; [|apply wp_ret|by destruct A1 as [_ []]].
  - destruct A1 as [Hhead [nx Hnx]]. rewrite <- Q1 in *. apply wp_bind.
    eapply wp_mono; [by apply (commit_pending_spec clean _ segs1 k1)|].
    intros r s2 (-> & _ & _ & T2 & _ & H2 & _ & _ & C2). rewrite Hnx in C2.
    destruct C2 as (k2 & R2 & Q2 & Hne & _). apply wp_bind.
    destruct (queue segs1 k1) as [|f' q]; [done|]. injection Hhead as ->. simpl in Q2, Hf.
    eapply wp_mono; [apply (IH s2 segs1 k2); [done|by apply H2, H1|lia|rewrite Q2; lia]|].
    intros r s3 (-> & segs3 & k3 & R3 & Q3). apply wp_ret. rewrite Q2. split; [done|]. by exists segs3, k3.
  - rewrite A1. split; [done|]. exists segs1, k1. by rewrite Q1, A1.
Qed.

(** The frames of a run of appends, numbered from [n]. *)
Fixpoint numbered (n : Z) (ps : list bytes) : list DecodedFrame :=
  match ps with
  | [] => []
  | p :: ps => Frame n p :: numbered (wrapping_add 64 n 1) ps
  end.

Lemma length_numbered n ps : length (numbered n ps) = length ps.
Proof. revert n. induction ps; intros; simpl; auto. Qed.

Definition room_needed (p : bytes) : Z := SEGMENT_HEADER_LEN + frame_len_on_disk (zlen p).

Lemma room_needed_pos p : 0 <= room_needed p.
Proof. unfold room_needed, frame_len_on_disk, FRAME_HEADER_LEN, SEGMENT_HEADER_LEN. lia. Qed.

Lemma append_all_spec ps s segs k :
  wal_rep true s segs k -> healthy (disk s) -> Forall payload_ok ps -> margin (length ps) s ->
  total_bytes (inner s) + sumZ room_needed ps <= max_bytes (cfg (inner s)) ->
  wp (append_all ps) (fun r s' => r = Ok tt /\ healthy (disk s') /\ total_bytes (inner s') < 2 ^ 64
    /\ exists segs', wal_rep true s' segs' k
        /\ queue segs' k = queue segs k ++ numbered (next_batch_seq (inner s)) ps) s.
Proof.
  revert s segs. induction ps as [|p ps IH]; intros s segs R Hh Hok Hm Hroom.
  { apply wp_ret. split_and!; try done; [destruct Hm; simpl in *; lia|].
    exists segs. by rewrite app_nil_r. }
  inversion Hok as [|? ? Hp Hok']; subst. cbn [append_all]. apply wp_bind.
  assert (H1 : margin 1 s) by (unfold margin in *; simpl in *; lia).
  apply (wp_mono _ (fun r s' => exists pre segs', append_post s segs k p r s' pre segs'));
    [by apply append_outcome|].
  intros r s1 (pre & segs1 & A). destruct A as [_ A2 A3 A4 _ _ A7 A8 _ Ab A10 _ A12 A13].
  destruct A7 as [-> | [_ []]]; [|done]. cbn [is_ok] in *.
  pose proof (frame_size_bound p Hp). rewrite sumZ_cons in Hroom. unfold room_needed at 1 in Hroom.
  assert (0 <= sumZ room_needed ps).
  { apply sumZ_nonneg, Forall_forall. intros. apply room_needed_pos. }
  unfold SEGMENT_HEADER_LEN in Hroom, A13.
  assert (pre = []) as -> by (apply A2; lia). cbn [restart concat length] in *. rewrite Nat.sub_0_l, drop_0 in A4.
  eapply wp_mono; [apply (IH s1 segs1); [done|by apply A12|done| |rewrite A8; lia]|].
  - unfold margin in *. simpl in *. lia.
  - intros r' s' (-> & Hh' & Ht' & segs' & R' & Q'). split_and!; try done. exists segs'.
    split; [done|]. rewrite Q', A4, Ab by done. simpl. by rewrite <- app_assoc.
Qed.

(** The reader has nothing left when it stands at the end of the active segment. *)
Lemma no_backlog_empty s segs k :
  wal_rep true s segs k -> is_Some (active (inner s)) -> has_backlog (inner s) = false ->
  queue segs k = [].
Proof.
  destruct s as [st w]. intros R [a Ea]. cbn [inner] in *. unfold has_backlog. rewrite Ea. intros E.
  apply orb_false_elim in E as [E1 E2]. zb. destruct (rep_active_last _ _ _ _ _ _ R Ea)
    as (l & m & init & fr & E & -> & _ & Hm & Ha1 & Ha2 & Ha3 & _).
  pose proof (rep_cursor _ _ _ _ R) as C. pose proof (rep_length _ _ _ _ R) as Hl. cbn [inner] in *.
  destruct (segments st) as [|m0 l0] eqn:El; [by destruct l|]. unfold cursor_ok in C. rewrite El in C.
  destruct (init ++ [fr]) as [|fr0 segs] eqn:Es; [by destruct init|].
  destruct C as [(C1 & C2 & C3 & _)|(C1 & _)].
  - assert (segs = []) as -> by (eapply (active_front_last true st w m0 l0 fr0); [done|done|done|congruence]).
    apply (app_inj_2 init [] [fr] [fr0]) in Es as [-> Es]; [|done]. injection Es as ->.
    assert (l0 = []) as -> by (destruct l0; [done|simpl in Hl; lia]).
    apply (app_inj_2 [] l [m0] [m]) in E as [<- E]; [|done]. injection E as ->.
    unfold queue. simpl. rewrite app_nil_r. apply drop_ge.
    destruct Hm as (_ & _ & Hb & _). rewrite Ha3, Hb, C3 in E2.
    destruct (decide (length fr0 <= k)%nat) as [|Hlt]; [done|].
    destruct (lookup_lt_is_Some_2 fr0 k) as [f Hf]; [lia|].
    assert (Esum : sumZ frame_size fr0 = sumZ frame_size (take k fr0)
                     + (frame_size f + sumZ frame_size (drop (S k) fr0)))
      by (rewrite <- (take_drop_middle _ _ _ Hf) at 1; by rewrite sumZ_app).
    pose proof (sum_frame_size_nonneg (drop (S k) fr0)). pose proof (frame_size_pos f). lia.
  - assert (m ∈ m0 :: l0) as Hin by (rewrite E; apply elem_of_app; right; by left).
    rewrite Forall_forall in C1. specialize (C1 _ Hin). simpl in C1. lia.
Qed.

End Run.

(** ** Properties *)

Section Properties.
Context {crc : Crc32}.


(** C8: what one append does, for every script of outcomes.  It ends in [Ok] or
    in an operating-system error that the disk reported, never in a panic; on
    [Ok] the frame, with the next batch number, is at the back of the queue, on
    an error no frame is added; the only frames lost are those of whole segments
    taken off the front because the cap was reached, each counted in
    [statix_wal_dropped_batches_total]; and nothing is dropped when the log has
    room for the frame. *)
Theorem append_enqueues_or_reports s segs k p :
  wal_rep true s segs k -> payload_ok p -> margin 1 s ->
  let '(r, s') := append p s in
  exists pre segs',
    wal_rep (is_ok r) s' segs' (restart pre k)
    /\ queue segs' (restart pre k)
       = drop (length (concat pre) - k) (queue segs k)
         ++ (if is_ok r then [Frame (next_batch_seq (inner s)) p] else [])
    /\ (exists rest, segs = pre ++ rest)
    /\ metric (w_metrics (disk s')) M_DROPPED_BATCHES
       = metric (w_metrics (disk s)) M_DROPPED_BATCHES + zlen (concat pre)
    /\ (total_bytes (inner s) + frame_len_on_disk (zlen p) <= max_bytes (cfg (inner s)) -> pre = [])
    /\ (r = Ok tt \/ r = Err IoOs /\ w_faults (disk s) <> []).
Proof.
  intros R Hp Hm. pose proof (append_outcome s segs k p R Hp Hm) as H. destruct (append p s) as [r s']; cbn [fst snd] in H.
  destruct H as (pre & segs' & [A1 A2 A3 A4 A5 A6 A7 A8 A9 Ab A10 A11 A12 A13]).
  exists pre, segs'. split_and!; try done. rewrite A5. f_equal. clear. induction pre as [|fr pre IH]; [done|].
  unfold sumZ in *. simpl. rewrite IH. len_lia.
Qed.

(** The size of the log after an append.  Unless at most two segments are
    left, the log is at most one segment header larger than the configured cap;
    so is it after an append that fails. *)
Theorem append_respects_cap s segs k p :
  wal_rep true s segs k -> payload_ok p -> margin 1 s ->
  let s' := snd (append p s) in
  total_bytes (inner s') <= max_bytes (cfg (inner s)) + SEGMENT_HEADER_LEN
  \/ zlen (segments (inner s')) <= 2.
Proof.
  intros R Hp Hm. pose proof (append_outcome s segs k p R Hp Hm) as H. destruct (append p s) as [r s']; cbn [fst snd] in *.
  destruct H as (pre & segs' & H). destruct (ap_cap _ _ _ _ _ _ _ _ H) as [?|Hl]; [by left|right].
  rewrite (rep_length _ _ _ _ (ap_rep _ _ _ _ _ _ _ _ H)). lia.
Qed.

(** A peek answers the oldest frame not yet committed, or that there is
    none exactly when there is none, and loses nothing; it fails only with an
    error the disk reported, never by running out of rounds or by the
    [expect]s of its code. *)
Theorem peek_answers_the_oldest clean s segs k :
  wal_rep clean s segs k -> total_bytes (inner s) < 2 ^ 64 ->
  let '(r, s') := peek_next s in
  (exists segs' k', wal_rep clean s' segs' k' /\ queue segs' k' = queue segs k)
  /\ (r = Ok (head (queue segs k)) \/ r = Err IoOs /\ w_faults (disk s) <> []).
Proof.
  intros R Ht. pose proof (peek_next_spec _ _ _ _ R Ht) as H. unfold wp in H.
  destruct (peek_next s) as [r s']; cbn [fst snd] in H.
  destruct H as (segs' & k' & [P1 P2 _ _ _ _ _ _ P7]). split; [by exists segs', k'|].
  destruct r as [[f|]|e].
  - left. by destruct P7 as [-> _].
  - left. by rewrite P7.
  - right. by destruct P7 as [-> P7].
Qed.

(** On a disk without errors, draining a log that represents a queue
    returns the whole queue, in order, and leaves it empty. *)
Theorem drain_returns_the_queue s segs k fuel :
  wal_rep true s segs k -> w_faults (disk s) = [] -> total_bytes (inner s) < 2 ^ 64 ->
  (length (queue segs k) < fuel)%nat ->
  let '(r, s') := drain_all fuel s in
  r = Ok (queue segs k) /\ exists segs' k', wal_rep true s' segs' k' /\ queue segs' k' = [].
Proof.
  intros R Hh Ht Hf. pose proof (drain_all_spec _ _ _ _ _ R Hh Ht Hf) as H. unfold wp in H.
  by destruct (drain_all fuel s).
Qed.


(** The round trip.  Payloads appended to a healthy log whose cap has room for
    them are all replayed: draining returns what was still queued and then every
    appended payload, in order, with consecutive batch numbers, and nothing
    else. *)
Theorem append_then_drain s segs k ps fuel :
  wal_rep true s segs k -> w_faults (disk s) = [] -> Forall payload_ok ps ->
  margin (length ps) s ->
  total_bytes (inner s) + sumZ room_needed ps <= max_bytes (cfg (inner s)) ->
  (length (queue segs k) + length ps < fuel)%nat ->
  fst ((append_all ps;; drain_all fuel) s)
  = Ok (queue segs k ++ numbered (next_batch_seq (inner s)) ps).
Proof.
  intros R Hh Hok Hm Hroom Hf.
  assert (H : wp (append_all ps;; drain_all fuel)
    (fun r _ => r = Ok (queue segs k ++ numbered (next_batch_seq (inner s)) ps)) s); [|exact H].
  apply wp_bind. eapply wp_mono; [by apply (append_all_spec ps s segs k)|].
  intros r s' (-> & Hh' & Ht' & segs' & R' & Q').
  eapply wp_mono; [apply (drain_all_spec true s' segs' k fuel); try done|].
  - rewrite Q', length_app, length_numbered. lia.
  - intros r' s2 [-> _]. by rewrite Q'.
Qed.

(** A failed rotation hides the backlog.  A store without an active segment,
    the state [rotate] leaves when it cannot create the next file, answers that
    there is no backlog however many frames are queued. *)
Theorem failed_rotation_hides_backlog s segs k p fs :
  wal_rep true s segs k -> payload_ok p -> margin 1 s ->
  total_bytes (inner s) + frame_len_on_disk (zlen p) <= max_bytes (cfg (inner s)) ->
  let s' := snd (append p (with_faults fs s)) in
  is_ok (fst (append p (with_faults fs s))) = false -> active (inner s') = None ->
  has_backlog (inner s') = false
  /\ exists segs' k', wal_rep false s' segs' k' /\ queue segs' k' = queue segs k.
Proof.
  intros R Hp Hm Hroom s' Hr Hact. split; [unfold has_backlog; by rewrite Hact|].
  destruct (append_outcome (with_faults fs s) segs k p (rep_with_faults _ _ _ _ fs R) Hp Hm)
    as (pre & segs' & A). fold s' in A. pose proof (ap_queue _ _ _ _ _ _ _ _ A) as Q.
  pose proof (ap_rep _ _ _ _ _ _ _ _ A) as R'. rewrite (ap_keep _ _ _ _ _ _ _ _ A Hroom) in *.
  exists segs', k. split; [by eapply rep_weaken|]. simpl in Q. by rewrite Q, Hr, app_nil_r.
Qed.

(** The drainer's backlog test never misses work while there is an active
    segment: when [has_backlog] is false the queue is empty. *)
Theorem no_backlog_means_drained s segs k :
  wal_rep true s segs k -> is_Some (active (inner s)) ->
  has_backlog (inner s) = false -> queue segs k = [].
Proof. apply no_backlog_empty. Qed.

End Properties.

(** ** Witnesses *)

Definition sample_payload (n : Z) : bytes := [123; n; 125].

Definition sample_cfg : WalConfig :=
  {| enabled := true; dir := "/wal"; max_bytes := 4096; segment_bytes := 54;
     fsync_frames := 1; fsync_interval := 200 |}.

(** Three frames in two segments, the first of them already committed. *)
Definition sample_wal : wal_state := Eval vm_compute in
  snd ((append_all (sample_payload <$> [1; 2; 3]);; peek_next;; commit_pending)
         (fresh_wal sample_cfg fresh_world)).

Definition sample_segs : list (list DecodedFrame) :=
  [[Frame 0 (sample_payload 1); Frame 1 (sample_payload 2)]; [Frame 2 (sample_payload 3)]].

Lemma sample_rep : wal_rep true sample_wal sample_segs 1.
Proof.
  split.
  - let l := eval vm_compute in (segments (inner sample_wal)) in
      change (segments (inner sample_wal)) with l.
    unfold sample_segs. repeat apply Forall2_cons_2; [..|apply Forall2_nil_2].
    all: apply seg_ok_intro; [vm_compute; reflexivity|vm_compute; reflexivity|vm_compute; reflexivity
      |vm_compute; reflexivity|repeat constructor; vm_compute; discriminate|vm_compute; discriminate].
  - vm_compute. repeat constructor.
  - vm_compute. repeat constructor.
  - vm_compute. split; [discriminate|reflexivity].
  - vm_compute. split; [discriminate|reflexivity].
  - let x := eval vm_compute in (active (inner sample_wal)) in
      change (active (inner sample_wal)) with x.
    let l := eval vm_compute in (segments (inner sample_wal)) in
      change (segments (inner sample_wal)) with l.
    eexists. split; [reflexivity|]. split_and!; try reflexivity. intros _. split; [reflexivity|].
    eexists. split; [vm_compute; reflexivity|reflexivity].
  - vm_compute. reflexivity.
  - left. split_and!; [reflexivity|simpl; lia|reflexivity|discriminate].
Qed.

Lemma sample_margin n : (n <= 1000)%nat -> margin n sample_wal.
Proof. intros. unfold margin. simpl. lia. Qed.

Lemma sample_payload_ok n : payload_ok (sample_payload n).
Proof. unfold payload_ok, MAX_FRAME_PAYLOAD. simpl. lia. Qed.

Lemma sample_refines : refines sample_wal (Spec [Frame 1 (sample_payload 2); Frame 2 (sample_payload 3)] None).
Proof. exists sample_segs, 1%nat. split; [apply sample_rep|done]. Qed.


Lemma append_enqueues_or_reports_witness :
  fst (append (sample_payload 4) sample_wal) = Ok tt
  /\ let '(r, s') := append (sample_payload 4) sample_wal in
     exists pre segs', wal_rep (is_ok r) s' segs' (restart pre 1).
Proof.
  split; [vm_compute; reflexivity|].
  pose proof (append_enqueues_or_reports sample_wal sample_segs 1 (sample_payload 4) sample_rep
    (sample_payload_ok 4) (sample_margin 1 ltac:(lia))) as H.
  destruct (append (sample_payload 4) sample_wal) as [r s'].
  destruct H as (pre & segs' & H & _). exists pre, segs'. exact H.
Defined.

Lemma append_respects_cap_witness :
  let s' := snd (append (sample_payload 4) sample_wal) in
  total_bytes (inner s') <= 4096 + SEGMENT_HEADER_LEN \/ zlen (segments (inner s')) <= 2.
Proof.
  exact (append_respects_cap sample_wal sample_segs 1 (sample_payload 4) sample_rep
           (sample_payload_ok 4) (sample_margin 1 ltac:(lia))).
Defined.

Lemma peek_answers_the_oldest_witness :
  fst (peek_next sample_wal) = Ok (Some (Frame 1 (sample_payload 2))).
Proof.
  pose proof (peek_answers_the_oldest true sample_wal sample_segs 1 sample_rep eq_refl) as H.
  destruct (peek_next sample_wal) as [r s']. destruct H as [_ [H|[_ H]]]; [exact H|].
  destruct (H eq_refl).
Defined.

Lemma drain_returns_the_queue_witness :
  fst (drain_all 5 sample_wal) = Ok [Frame 1 (sample_payload 2); Frame 2 (sample_payload 3)].
Proof.
  pose proof (drain_returns_the_queue sample_wal sample_segs 1 5 sample_rep eq_refl eq_refl
                ltac:(simpl; lia)) as H.
  destruct (drain_all 5 sample_wal) as [r s']. exact (proj1 H).
Defined.


Lemma append_then_drain_witness :
  fst ((append_all [sample_payload 7; sample_payload 8];; drain_all 9) sample_wal)
  = Ok [Frame 1 (sample_payload 2); Frame 2 (sample_payload 3);
        Frame 3 (sample_payload 7); Frame 4 (sample_payload 8)].
Proof.
  apply (append_then_drain sample_wal sample_segs 1 [sample_payload 7; sample_payload 8] 9 sample_rep).
  - reflexivity.
  - repeat constructor; apply sample_payload_ok.
  - apply sample_margin. simpl. lia.
  - vm_compute. discriminate.
  - simpl. lia.
Defined.

(** The store after everything has been committed. *)
Definition drained_wal : wal_state := Eval vm_compute in snd (drain_all 5 sample_wal).

Lemma drained_rep : exists segs k, wal_rep true drained_wal segs k.
Proof.
  destruct (drain_all_spec true sample_wal sample_segs 1 5 sample_rep eq_refl eq_refl
              ltac:(simpl; lia)) as (_ & segs & k & R & _).
  exists segs, k. exact R.
Qed.

Lemma no_backlog_means_drained_witness :
  exists segs k, wal_rep true drained_wal segs k /\ queue segs k = [].
Proof.
  destruct drained_rep as (segs & k & R). exists segs, k. split; [exact R|].
  apply (no_backlog_means_drained drained_wal segs k R); [eexists; reflexivity|reflexivity].
Defined.

(** A payload that needs a new segment, whose file cannot be created: two frames
    stay queued and the backlog test says there is nothing to do. *)
Lemma failed_rotation_hides_backlog_witness :
  let s' := snd (append (sample_payload 4 ++ sample_payload 5) (with_faults [OkFull; OkFull; Failed 0] sample_wal)) in
  has_backlog (inner s') = false
  /\ exists segs' k', wal_rep false s' segs' k'
                      /\ queue segs' k' = [Frame 1 (sample_payload 2); Frame 2 (sample_payload 3)].
Proof.
  apply (failed_rotation_hides_backlog sample_wal sample_segs 1 (sample_payload 4 ++ sample_payload 5)
           [OkFull; OkFull; Failed 0] sample_rep).
  - unfold payload_ok, MAX_FRAME_PAYLOAD. simpl. lia.
  - apply sample_margin. lia.
  - vm_compute. discriminate.
  - vm_compute. reflexivity.
  - vm_compute. reflexivity.
Defined.

(** The cap is soft: the header of a new segment and the frame itself are not
    what [enforce_cap] makes room for. *)
Definition soft_cfg : WalConfig :=
  {| enabled := true; dir := "/wal"; max_bytes := 90; segment_bytes := 40;
     fsync_frames := 1; fsync_interval := 200 |}.

Lemma cap_can_be_exceeded :
  let s := snd (append_all (sample_payload <$> [1; 2; 3]) (fresh_wal soft_cfg fresh_world)) in
  max_bytes soft_cfg < total_bytes (inner s) /\ zlen (segments (inner s)) = 3.
Proof. vm_compute. split; reflexivity. Qed.
