(* ===== verification/Recovery.v ===== *)
(** * Recovery: rebuilding the store from the directory

    Models [statix/src/wal/recovery.rs] and [open_active_for_append] of
    [statix/src/wal/mod.rs]: the directory scan, the header check, the frame
    walk, the truncation of a torn or corrupt tail, and the cursors rebuilt from
    the surviving segments. *)

From S2P Require Export WalProps.

Section Recovery.
Context {crc : Crc32}.

(** ** Operations *)

Definition open_active_for_append (path : string) (offset : Z) : IO Z :=
  fs_open path;; fs_seek;; mret offset.

(** The frame walk: the offset past the last valid frame, the number of frames
    and the next batch number.  A frame is at least 17 bytes long, so the length
    of the file bounds the rounds. *)
Fixpoint walk_frames (fuel : nat) (path : string) (offset frames next_batch : Z)
    : IO (Z * Z * Z) :=
  match fuel with
  | O => fail IoFuel
  | S fuel =>
      r ← read_frame_at path offset;
      match r with
      | FrameOk frame next =>
          walk_frames fuel path next (wrapping_add 64 frames 1)
            (Z.max next_batch (wrapping_add 64 (batch_seq frame) 1))
      | FrameEnd => mret (offset, frames, next_batch)
      | FrameCorrupt => counter M_CORRUPT_FRAMES 1;; mret (offset, frames, next_batch)
      end
  end.

(** What the loop over the segment files accumulates. *)
Record scan : Type := Scan {
  sc_segments : list SegmentMeta;
  sc_total : Z;
  sc_next_batch : Z;
  sc_max_seq : Z
}.

Definition header_check (path : string) : IO unit :=
  header ← fs_read_exact path 0 (Z.to_nat SEGMENT_HEADER_LEN);
  match validate_segment_header header with
  | Ok _ => mret tt
  | Err e => fail e
  end.

Definition truncate_tail (path : string) (offset : Z) : IO unit :=
  len ← attempt (fs_len path);
  let actual_len := match len with Ok n => n | Err _ => offset end in
  when (offset <? actual_len)
    (opened ← attempt (fs_open path);
     when (is_ok opened) (attempt (fs_set_len path offset);; mret tt)).

Definition recover_segment (seq : Z) (sc : scan) : IO scan :=
  let sc := Scan (sc_segments sc) (sc_total sc) (sc_next_batch sc) (Z.max (sc_max_seq sc) seq) in
  let path := segment_path seq in
  opened ← attempt (fs_open path);
  if negb (is_ok opened) then mret sc
  else
    header ← attempt (header_check path);
    if negb (is_ok header) then
      counter M_CORRUPT_FRAMES 1;;
      attempt (fs_remove path);;
      mret sc
    else
      fuel ← gets (fun w => S (length (file_bytes path w)));
      '(offset, frames, next_batch) ← walk_frames fuel path SEGMENT_HEADER_LEN 0 (sc_next_batch sc);
      truncate_tail path offset;;
      mret (Scan (sc_segments sc ++
                    [{| meta_seq := seq; meta_path := path; meta_bytes := offset;
                        meta_frames := frames |}])
                 (wrapping_add 64 (sc_total sc) offset) next_batch (sc_max_seq sc)).

Fixpoint recover_all (found : list Z) (sc : scan) : IO scan :=
  match found with
  | [] => mret sc
  | seq :: found => sc ← recover_segment seq sc; recover_all found sc
  end.

Definition sort_seqs (found : list Z) : list Z := merge_sort Z.le found.

Definition recover (c : WalConfig) : IO WalInner :=
  exists_ ← gets w_dir;
  if negb exists_ then mret (empty_inner c)
  else
    names ← fs_read_dir;
    let found := omap parse_segment_seq names in
    match found with
    | [] => mret (empty_inner c)
    | _ =>
        sc ← recover_all (sort_seqs found) (Scan [] 0 0 0);
        let next_seq := wrapping_add 64 (sc_max_seq sc) 1 in
        act ← match last (sc_segments sc) with
              | Some m =>
                  pos ← open_active_for_append (meta_path m) (meta_bytes m);
                  mret (Some {| as_seq := meta_seq m; as_file := meta_path m; as_pos := pos;
                                as_offset := meta_bytes m |})
              | None => mret None
              end;
        inner_from_recovered c (sc_segments sc) act (sc_total sc) next_seq (sc_next_batch sc)
    end.

(** ** Directory images *)

(** A segment file as a crash may leave it: a valid header, complete frames and
    a tail that is not a frame, or a file without a valid header. *)
Inductive entry : Type :=
| Good (frames : list DecodedFrame) (tail : bytes)
| Bad (content : bytes).

Definition entry_bytes (e : entry) : bytes :=
  match e with Good fr tail => seg_data fr ++ tail | Bad c => c end.

Definition entry_ok (e : entry) : Prop :=
  match e with
  | Good fr tail => Forall frame_ok fr /\ dead tail /\ zlen (seg_data fr ++ tail) < 2 ^ 64
  | Bad c => is_ok (validate_segment_header (take 16 c)) = false
  end.

(** The directory holds exactly the entries, oldest first, and files whose names
    are not segment names. *)
Record image (files : gmap string bytes) (l : list (Z * entry)) : Prop := {
  im_sorted : StronglySorted Z.lt l.*1;
  im_range : Forall (fun x => urange 64 (fst x) /\ fst x + 1 < 2 ^ 64) l;
  im_files : Forall (fun x => files !! segment_path (fst x) = Some (entry_bytes (snd x))) l;
  im_ok : Forall (fun x => entry_ok (snd x)) l;
  im_only : forall name, is_Some (files !! name) ->
              parse_segment_seq name = None \/ exists x, x ∈ l /\ name = segment_path (fst x)
}.

(** The directory once the damage is repaired. *)
Fixpoint repaired (l : list (Z * entry)) : list (Z * entry) :=
  match l with
  | [] => []
  | (seq, Good fr _) :: l => (seq, Good fr []) :: repaired l
  | (_, Bad _) :: l => repaired l
  end.

(** The frames that survive. *)
Fixpoint survivors (l : list (Z * entry)) : list (list DecodedFrame) :=
  match l with
  | [] => []
  | (_, Good fr _) :: l => fr :: survivors l
  | (_, Bad _) :: l => survivors l
  end.

(** The segments that survive, as metadata. *)
Fixpoint survivor_metas (l : list (Z * entry)) : list SegmentMeta :=
  match l with
  | [] => []
  | (seq, Good fr _) :: l =>
      {| meta_seq := seq; meta_path := segment_path seq;
         meta_bytes := SEGMENT_HEADER_LEN + sumZ frame_size fr; meta_frames := zlen fr |}
      :: survivor_metas l
  | (_, Bad _) :: l => survivor_metas l
  end.

(** ** The frame walk *)

(** Files, health and durability as they were: only metrics changed. *)
Definition same_disk (w w' : world) : Prop :=
  w_files w' = w_files w /\ w_dir w' = w_dir w /\ w_faults w' = w_faults w
  /\ w_durable w' = w_durable w.

Lemma wp_fs_open_healthy name (Q : res io_error unit -> world -> Prop) w :
  healthy w -> is_Some (w_files w !! name) -> Q (Ok tt) w -> wp (fs_open name) Q w.
Proof.
  intros Hw Hs HQ. apply wp_bind, wp_syscall_healthy; [done|]. apply wp_bind, wp_gets.
  unfold id. rewrite bool_decide_true by done. by apply wp_ret.
Qed.

Lemma wp_reads_healthy {A} (m : IO A) v (Q : res io_error A -> world -> Prop) w :
  healthy w -> reads m v w -> Q (Ok v) w -> wp m Q w.
Proof. intros Hw Hr HQ. unfold wp. by rewrite (reads_healthy _ _ _ Hw Hr). Qed.

(** The next batch number is above every batch number seen, short of wrapping. *)
Definition above (nb : Z) (fr : list DecodedFrame) : Prop :=
  Forall (fun f => wrapping_add 64 (batch_seq f) 1 <= nb) fr.

Lemma walk_frames_spec path fr tail fuel pre frames nb w :
  healthy w -> file_bytes path w = pre ++ encode_frames fr ++ tail -> dead tail ->
  Forall frame_ok fr -> zlen (file_bytes path w) < 2 ^ 64 -> 0 <= frames ->
  frames + zlen fr < 2 ^ 64 -> urange 64 nb -> (length fr < fuel)%nat ->
  wp (walk_frames fuel path (zlen pre) frames nb)
    (fun r w' => same_disk w w' /\ exists nb', urange 64 nb' /\ nb <= nb' /\ above nb' fr
       /\ r = Ok (zlen pre + sumZ frame_size fr, frames + zlen fr, nb')) w.
Proof.
  revert fuel pre frames nb. induction fr as [|f fr IH]; intros fuel pre frames nb Hh Hb Hd Hok Hlen H0 Hf Hnb Hfuel;
    (destruct fuel as [|fuel]; [simpl in *; lia|]); cbn [walk_frames]; apply wp_bind;
    (eapply wp_reads_healthy; [done|apply read_frame_at_spec; lia|]); rewrite Hb, decode_at_app.
  - unfold encode_frames. simpl. rewrite !Z.add_0_r.
    assert (Hend : wp (mret (zlen pre, frames, nb) : IO (Z * Z * Z)) (fun r w' => same_disk w w' /\ exists nb',
      urange 64 nb' /\ nb <= nb' /\ above nb' [] /\ r = Ok (zlen pre, frames, nb')) w).
    { apply wp_ret. split; [done|]. exists nb. split_and!; try done. constructor. }
    destruct (decode_at tail 0) as [g n| |] eqn:E; [by destruct (Hd g n)|done|].
    apply wp_bind, wp_modify, wp_ret. split; [done|]. exists nb. split_and!; try done. constructor.
  - inversion Hok as [|? ? Hf1 Hok']; subst.
    rewrite encode_frames_cons, <- app_assoc, (decode_encode_0 f) by done.
    assert (Hb' : file_bytes path w = (pre ++ encode_frame f) ++ encode_frames fr ++ tail)
      by (rewrite Hb, encode_frames_cons, <- !app_assoc; done).
    assert (Hz : zlen pre + frame_size f = zlen (pre ++ encode_frame f))
      by (pose proof (zlen_encode_frame f); len_lia).
    assert (zlen (pre ++ encode_frame f) <= zlen (file_bytes path w)) by (rewrite Hb'; len_lia).
    pose proof (frame_size_pos f). rewrite wrapping_add_small by lia.
    rewrite (wrapping_add_small _ frames) by (simpl in Hf; lia). rewrite Hz.
    pose proof (wrap_range 64 (batch_seq f + 1) ltac:(lia)) as Hw.
    eapply wp_mono.
    + apply (IH fuel (pre ++ encode_frame f)); try done; [lia|simpl in *; lia| |simpl in *; lia].
      unfold urange, wrapping_add in *. lia.
    + intros r w' (Hd' & nb' & Hr' & Hle & Ha & ->). split; [done|]. exists nb'.
      split_and!; [done|lia| |].
      * constructor; [lia|done].
      * rewrite <- Hz, sumZ_cons. simpl. do 3 f_equal; lia.
Qed.

(** ** One segment *)

Lemma file_bytes_some path w c : w_files w !! path = Some c -> file_bytes path w = c.
Proof. unfold file_bytes. by intros ->. Qed.

Lemma header_check_healthy path w :
  healthy w ->
  exists r, header_check path w = (r, w)
            /\ is_ok r = is_ok (validate_segment_header (take 16 (file_bytes path w))).
Proof.
  intros Hh. unfold header_check. change (Z.to_nat SEGMENT_HEADER_LEN) with 16%nat.
  pose proof (fs_read_exact_healthy path 0 16 w Hh) as E. cbn zeta in E.
  change (Z.to_nat 0) with 0%nat in E. rewrite drop_0 in E. set (hd := take 16 _) in *.
  destruct (length hd =? 16)%nat eqn:El.
  - rewrite (bind_ok _ _ _ _ _ E). destruct (validate_segment_header hd) eqn:Ev;
      eexists; split; reflexivity.
  - rewrite (bind_err _ _ _ _ _ E). eexists. split; [reflexivity|]. simpl.
    assert (length hd <= 16)%nat by (unfold hd; rewrite length_take; lia).
    apply Nat.eqb_neq in El. unfold validate_segment_header, SEGMENT_HEADER_LEN.
    by destruct (Z.ltb_spec (zlen hd) 16); [|lia].
Qed.

Lemma seg_data_header fr tail :
  is_ok (validate_segment_header (take 16 (seg_data fr ++ tail))) = true.
Proof.
  assert (take 16 (seg_data fr ++ tail) = encode_segment_header) as ->; [|reflexivity].
  rewrite seg_data_unfold, <- app_assoc. apply take_app_exact, length_encode_segment_header.
Qed.

Lemma truncate_tail_spec path good junk w :
  healthy w -> w_files w !! path = Some (good ++ junk) ->
  wp (truncate_tail path (zlen good))
    (fun r w' => r = Ok tt /\ healthy w' /\ w_dir w' = w_dir w
                 /\ w_files w' = <[path := good]> (w_files w)) w.
Proof.
  intros Hh Hf. unfold truncate_tail. apply wp_bind, wp_attempt. unfold wp at 1.
  rewrite fs_len_healthy, (file_bytes_some _ _ _ Hf) by done. cbn [fst snd].
  apply wp_when; intros E; zb.
  - apply wp_bind, wp_attempt, wp_fs_open_healthy; [done|by rewrite Hf|]. cbn [is_ok when].
    apply wp_bind, wp_attempt, wp_syscall_healthy; [done|]. apply wp_ret. split_and!; try done.
    simpl. apply map_eq. intros i. destruct (decide (path = i)) as [<-|].
    + rewrite lookup_alter_eq, lookup_insert_eq, Hf. simpl. f_equal. by apply resize_exact.
    + by rewrite lookup_alter_ne, lookup_insert_ne.
  - assert (junk = []) as -> by (apply length_zero_iff_nil; len_lia).
    rewrite app_nil_r in Hf. split_and!; try done. by rewrite insert_id.
Qed.

(** What the scan adds for one entry. *)
Definition scanned (seq : Z) (e : entry) (sc sc' : scan) : Prop :=
  sc_max_seq sc' = Z.max (sc_max_seq sc) seq
  /\ sc_segments sc' = sc_segments sc ++ survivor_metas [(seq, e)]
  /\ sc_total sc' = wrapping_add 64 (sc_total sc) (sumZ meta_bytes (survivor_metas [(seq, e)]))
  /\ urange 64 (sc_next_batch sc') /\ sc_next_batch sc <= sc_next_batch sc'
  /\ Forall (above (sc_next_batch sc')) (survivors [(seq, e)]).

Definition kept_bytes (e : entry) : option bytes :=
  match e with Good fr _ => Some (seg_data fr) | Bad _ => None end.

Lemma recover_segment_spec seq e sc w :
  healthy w -> w_files w !! segment_path seq = Some (entry_bytes e) -> entry_ok e ->
  urange 64 (sc_next_batch sc) -> urange 64 (sc_total sc) ->
  wp (recover_segment seq sc)
    (fun r w' => healthy w' /\ w_dir w' = w_dir w
       /\ w_files w' = partial_alter (fun _ => kept_bytes e) (segment_path seq) (w_files w)
       /\ exists sc', r = Ok sc' /\ scanned seq e sc sc') w.
Proof.
  intros Hh Hf Hok Hnb Ht. unfold recover_segment. cbn [sc_segments sc_total sc_next_batch sc_max_seq].
  apply wp_bind, wp_attempt, wp_fs_open_healthy; [done|by rewrite Hf|]. cbn [is_ok negb].
  apply wp_bind, wp_attempt. destruct (header_check_healthy (segment_path seq) w Hh) as (r & E & Er).
  rewrite (file_bytes_some _ _ _ Hf) in Er. unfold wp at 1. rewrite E. cbn [fst snd]. rewrite Er.
  destruct e as [fr tail|c]; cbn [entry_bytes entry_ok] in *.
  - rewrite seg_data_header. cbn [negb]. destruct Hok as (Hfr & Hd & Hlen).
    apply wp_bind, wp_gets. rewrite (file_bytes_some _ _ _ Hf). apply wp_bind.
    assert (Hsz : zlen fr <= zlen (seg_data fr ++ tail)).
    { pose proof (zlen_seg_data fr). pose proof (frames_le_size fr).
      unfold SEGMENT_HEADER_LEN in *. len_lia. }
    change SEGMENT_HEADER_LEN with (zlen encode_segment_header).
    eapply wp_mono; [apply (walk_frames_spec _ fr tail); try done|].
    + by rewrite (file_bytes_some _ _ _ Hf), seg_data_unfold, <- app_assoc.
    + by rewrite (file_bytes_some _ _ _ Hf).
    + lia.
    + lia.
    + intros r1 w1 ((Hf1 & Hd1 & Hs1 & Hu1) & nb' & Hnb' & Hle & Hab & ->).
      change (zlen encode_segment_header) with SEGMENT_HEADER_LEN. rewrite <- zlen_seg_data.
      apply wp_bind. eapply wp_mono.
      { apply (truncate_tail_spec _ (seg_data fr) tail); [by unfold healthy; rewrite Hs1|by rewrite Hf1]. }
      intros r2 w2 (-> & Hh2 & Hd2 & Hf2). apply wp_ret. split; [done|]. split; [congruence|].
      split; [rewrite Hf2, Hf1; done|]. eexists. split; [reflexivity|].
      split_and!; try done; cbn [sc_segments sc_total].
      * by rewrite zlen_seg_data.
      * unfold sumZ. simpl. by rewrite zlen_seg_data, Z.add_0_r.
      * by repeat constructor.
  - rewrite Hok. cbn [negb]. apply wp_bind, wp_modify, wp_bind, wp_attempt, wp_fs_remove.
    + intros w1 H1. apply wp_ret. split_and!; simpl.
      * by apply (advanced_healthy _ _ H1).
      * by destruct H1 as (? & -> & _).
      * by rewrite (advanced_files _ _ H1).
      * eexists. split; [reflexivity|]. split_and!; simpl; try done.
        -- by rewrite app_nil_r.
        -- unfold sumZ; simpl. rewrite wrapping_add_small by (unfold urange in Ht; lia). lia.
    + intros w1 err H1 [[_ Hn]|[_ Hn]]; [done|]. simpl in Hn. by rewrite Hf in Hn.
Qed.

(** ** All segments *)

Lemma survivor_metas_cons x l : survivor_metas (x :: l) = survivor_metas [x] ++ survivor_metas l.
Proof. by destruct x as [seq [fr tail|c]]. Qed.

Lemma survivors_cons x l : survivors (x :: l) = survivors [x] ++ survivors l.
Proof. by destruct x as [seq [fr tail|c]]. Qed.

Lemma survivor_bytes_nonneg l : 0 <= sumZ meta_bytes (survivor_metas l).
Proof.
  apply sumZ_nonneg. induction l as [|[seq [fr tail|c]] l IH]; simpl; [done| |done].
  constructor; [|done]. simpl. pose proof (sum_frame_size_nonneg fr). unfold SEGMENT_HEADER_LEN. lia.
Qed.

Lemma above_mono nb nb' fr : nb <= nb' -> above nb fr -> above nb' fr.
Proof. intros H Ha. eapply Forall_impl; [exact Ha|]. simpl. intros. lia. Qed.

Definition entries_in (files : gmap string bytes) (l : list (Z * entry)) : Prop :=
  Forall (fun x => files !! segment_path (fst x) = Some (entry_bytes (snd x))) l.

Lemma entries_in_alter files l seq g :
  Forall (fun x => urange 64 (fst x)) l -> urange 64 seq -> Forall (fun x => seq < fst x) l ->
  entries_in files l -> entries_in (partial_alter g (segment_path seq) files) l.
Proof.
  intros Hr Hs Hlt H. unfold entries_in in *. rewrite Forall_forall in *. intros x Hx.
  rewrite lookup_partial_alter_ne; [auto|]. intros E. apply segment_path_inj in E; [|done|auto].
  specialize (Hlt x Hx). simpl in Hlt. lia.
Qed.

(** The outcome of the loop over [l]. *)
Definition all_scanned (l : list (Z * entry)) (sc sc' : scan) : Prop :=
  sc_segments sc' = sc_segments sc ++ survivor_metas l
  /\ sc_total sc' = sc_total sc + sumZ meta_bytes (survivor_metas l)
  /\ urange 64 (sc_next_batch sc') /\ sc_next_batch sc <= sc_next_batch sc'
  /\ Forall (above (sc_next_batch sc')) (survivors l)
  /\ sc_max_seq sc' = foldl Z.max (sc_max_seq sc) l.*1.

Lemma recover_all_spec l sc w :
  StronglySorted Z.lt l.*1 -> Forall (fun x => urange 64 (fst x)) l -> entries_in (w_files w) l ->
  Forall (fun x => entry_ok (snd x)) l -> healthy w -> urange 64 (sc_next_batch sc) ->
  0 <= sc_total sc -> sc_total sc + sumZ meta_bytes (survivor_metas l) < 2 ^ 64 ->
  wp (recover_all l.*1 sc)
    (fun r w' => healthy w' /\ w_dir w' = w_dir w
       /\ (forall p, (forall x, x ∈ l -> p <> segment_path (fst x)) -> w_files w' !! p = w_files w !! p)
       /\ Forall (fun x => w_files w' !! segment_path (fst x) = kept_bytes (snd x)) l
       /\ exists sc', r = Ok sc' /\ all_scanned l sc sc') w.
Proof.
  revert sc w. induction l as [|[seq e] l IH]; intros sc w Hsort Hr He Hok Hh Hnb Ht Hroom.
  { apply wp_ret. split_and!; try done. exists sc. split; [done|]. unfold all_scanned.
    rewrite app_nil_r, Z.add_0_r. by split_and!. }
  rewrite fmap_cons in *. apply StronglySorted_inv in Hsort as [Hsort Hlt].
  rewrite Forall_fmap in Hlt. inversion Hr as [|? ? Hr1 Hr']; subst.
  inversion He as [|? ? He1 He']; subst. inversion Hok as [|? ? Hok1 Hok']; subst. cbn [fst snd] in *.
  rewrite survivor_metas_cons, sumZ_app in Hroom.
  pose proof (survivor_bytes_nonneg [(seq, e)]). pose proof (survivor_bytes_nonneg l).
  apply wp_bind. eapply wp_mono; [apply (recover_segment_spec seq e sc w); try done; unfold urange; lia|].
  intros r w1 (Hh1 & Hd1 & Hf1 & sc1 & -> & S1 & S2 & S3 & S4 & S5 & S6).
  rewrite wrapping_add_small in S3 by lia.
  eapply wp_mono; [apply (IH sc1 w1); try done; [|lia|lia]|].
  { rewrite Hf1. by apply entries_in_alter. }
  intros r w2 (Hh2 & Hd2 & Hf2 & Hk2 & sc2 & -> & A1 & A2 & A3 & A4 & A5 & A6).
  split; [done|]. split; [congruence|]. split; [|split].
  - intros p Hp. rewrite Hf2 by (intros x Hx; apply Hp; by right). rewrite Hf1.
    apply lookup_partial_alter_ne. intros E. symmetry in E. revert E. apply (Hp (seq, e)). by left.
  - constructor; [|done]. simpl. rewrite Hf2, Hf1; [by rewrite lookup_partial_alter_eq|].
    intros x Hx E. rewrite Forall_forall in Hlt, Hr'. apply segment_path_inj in E; [|done|by apply Hr'].
    specialize (Hlt x Hx). simpl in Hlt. lia.
  - exists sc2. split; [done|]. unfold all_scanned. rewrite A1, S2, A2, S3, A6, S1.
    rewrite (survivor_metas_cons (seq, e) l), (survivors_cons (seq, e) l), sumZ_app, app_assoc.
    split_and!; [done|lia|done|lia| |done]. apply Forall_app. split; [|done].
    eapply Forall_impl; [exact S6|]. intros fr. by apply above_mono.
Qed.

(** ** The directory scan *)

Lemma NoDup_omap_inj {A B} (f : A -> option B) (l : list A) :
  (forall x y b, x ∈ l -> y ∈ l -> f x = Some b -> f y = Some b -> x = y) ->
  NoDup l -> NoDup (omap f l).
Proof.
  intros Hinj. induction 1 as [|x l Hx Hl IH]; simpl; [constructor|].
  assert (IH' : NoDup (omap f l)) by (apply IH; intros ? ? ? ? ?; apply Hinj; by right).
  destruct (f x) as [b|] eqn:E; [|done]. constructor; [|done].
  rewrite list_elem_of_omap. intros (y & Hy & Ey). apply Hx.
  by rewrite (Hinj x y b); [..|done|done]; [|left|right].
Qed.

Lemma image_NoDup files l : image files l -> NoDup l.*1.
Proof.
  intros [Hs _ _ _ _]. induction l as [|x l IH]; [constructor|]. rewrite fmap_cons in *.
  apply StronglySorted_inv in Hs as [Hs Hlt]. constructor; [|by apply IH].
  intros Hin. rewrite Forall_forall in Hlt. specialize (Hlt _ Hin). lia.
Qed.

Lemma elem_of_names (files : gmap string bytes) name :
  name ∈ (map_to_list files).*1 <-> is_Some (files !! name).
Proof.
  rewrite list_elem_of_fmap. split.
  - intros ([n c] & -> & H). apply elem_of_map_to_list in H. by exists c.
  - intros [c H]. exists (name, c). split; [done|]. by apply elem_of_map_to_list.
Qed.

(** The scan finds the sequence numbers of the image, each of them once. *)
Lemma omap_parse_image files l :
  image files l -> omap parse_segment_seq (map_to_list files).*1 ≡ₚ l.*1.
Proof.
  intros Him. pose proof (image_NoDup _ _ Him) as Hnd. destruct Him as [Hs Hr Hf _ Ho].
  rewrite Forall_forall in Hr, Hf.
  assert (Hname : forall name seq, is_Some (files !! name) -> parse_segment_seq name = Some seq ->
    name = segment_path seq /\ seq ∈ l.*1).
  { intros name seq Hn Hp. destruct (Ho name Hn) as [E|(x & Hx & ->)]; [congruence|].
    destruct (Hr x Hx) as [Hx1 _]. rewrite parse_segment_path in Hp by done. injection Hp as <-.
    split; [done|]. by apply list_elem_of_fmap_2. }
  apply NoDup_Permutation; [|done|].
  - apply NoDup_omap_inj; [|apply NoDup_fst_map_to_list]. intros n1 n2 seq H1 H2 E1 E2.
    rewrite elem_of_names in H1, H2.
    destruct (Hname _ _ H1 E1) as [-> _], (Hname _ _ H2 E2) as [-> _]. done.
  - intros seq. rewrite list_elem_of_omap. split.
    + intros (name & Hn & Hp). rewrite elem_of_names in Hn. by apply (Hname name).
    + intros ([s e] & -> & Hx)%list_elem_of_fmap. exists (segment_path s).
      rewrite elem_of_names. split; [specialize (Hf _ Hx); simpl in Hf; rewrite Hf; eauto|].
      by apply parse_segment_path, (Hr _ Hx).
Qed.

Lemma StronglySorted_lt_le l : StronglySorted Z.lt l -> StronglySorted Z.le l.
Proof.
  induction 1 as [|x l _ IH Hx]; constructor; [done|].
  eapply Forall_impl; [exact Hx|]. simpl. lia.
Qed.

Lemma sort_image files l :
  image files l -> sort_seqs (omap parse_segment_seq (map_to_list files).*1) = l.*1.
Proof.
  intros Him. apply (StronglySorted_unique Z.le).
  - apply StronglySorted_merge_sort; apply _.
  - apply StronglySorted_lt_le, Him.
  - unfold sort_seqs. rewrite merge_sort_Permutation. by apply omap_parse_image.
Qed.

(** ** The recovered store *)

Lemma survivor_metas_elem l m :
  m ∈ survivor_metas l -> exists x, x ∈ l /\ meta_seq m = fst x.
Proof.
  induction l as [|[seq [fr tail|c]] l IH]; simpl; [by intros ?%elem_of_nil| |].
  - intros [->|Hm]%elem_of_cons; [by exists (seq, Good fr tail); split; [left|]|].
    destruct (IH Hm) as (x & ? & ?). exists x. split; [by right|done].
  - intros Hm. destruct (IH Hm) as (x & ? & ?). exists x. split; [by right|done].
Qed.

Lemma survivor_metas_sorted l :
  StronglySorted Z.lt l.*1 -> StronglySorted Z.lt (meta_seq <$> survivor_metas l).
Proof.
  induction l as [|[seq [fr tail|c]] l IH]; rewrite ?fmap_cons; simpl; [constructor| |].
  - intros [Hs Hlt]%StronglySorted_inv. constructor; [by apply IH|].
    rewrite Forall_fmap, Forall_forall. intros m Hm. simpl.
    destruct (survivor_metas_elem l m Hm) as (x & Hx & ->). rewrite Forall_forall in Hlt.
    apply Hlt. by apply list_elem_of_fmap_2.
  - intros [Hs Hlt]%StronglySorted_inv. by apply IH.
Qed.

Definition exact_seg (files : gmap string bytes) (m : SegmentMeta) (fr : list DecodedFrame) : Prop :=
  seg_ok files m fr /\ files !! meta_path m = Some (seg_data fr) /\ meta_bytes m = zlen (seg_data fr).

Lemma survivors_ok files l :
  Forall (fun x => urange 64 (fst x)) l -> Forall (fun x => entry_ok (snd x)) l ->
  Forall (fun x => files !! segment_path (fst x) = kept_bytes (snd x)) l ->
  Forall2 (exact_seg files) (survivor_metas l) (survivors l).
Proof.
  induction l as [|[seq [fr tail|c]] l IH]; intros H1 H2 H3; simpl; [constructor| |];
    apply Forall_cons in H1 as [H1 ?], H2 as [H2 ?], H3 as [H3 ?]; [|by apply IH].
  constructor; [|by apply IH]. simpl in *. split; [|split; [done|by rewrite zlen_seg_data]].
  apply seg_ok_intro; try done; simpl; [by destruct H2|unfold urange in H1; lia].
Qed.

Lemma max_seq_bound l acc x : x ∈ l -> x <= foldl Z.max acc l.
Proof.
  revert acc. induction l as [|y l IH]; intros acc; [by intros ?%elem_of_nil|].
  assert (Hacc : forall l a, a <= foldl Z.max a l).
  { clear. intros l. induction l as [|z l IH]; intros a; simpl; [lia|].
    specialize (IH (Z.max a z)). lia. }
  intros [->|Hx]%elem_of_cons; simpl; [|by apply IH]. specialize (Hacc l (Z.max acc y)). lia.
Qed.

Lemma max_seq_range l acc n : 0 <= acc < n -> Forall (fun x => 0 <= x < n) l -> 0 <= foldl Z.max acc l < n.
Proof.
  revert acc. induction l as [|y l IH]; intros acc Ha Hl; simpl; [done|].
  inversion Hl; subst. apply IH; [lia|done].
Qed.

(** The store [recover] builds from the scan of an image. *)
Definition recovered_inner (c : WalConfig) (l : list (Z * entry)) (sc : scan) : WalInner :=
  let metas := survivor_metas l in
  let nseq := wrapping_add 64 (sc_max_seq sc) 1 in
  {| cfg := c; segments := metas;
     active := (fun m => {| as_seq := meta_seq m; as_file := meta_path m; as_pos := meta_bytes m;
                            as_offset := meta_bytes m |}) <$> last metas;
     total_bytes := sc_total sc; next_seq := nseq; next_batch_seq := sc_next_batch sc;
     read_seq := match metas with m :: _ => meta_seq m | [] => nseq end;
     read_offset := SEGMENT_HEADER_LEN; pending_advance := None |}.

Lemma recovered_rep c l sc w :
  StronglySorted Z.lt l.*1 -> Forall (fun x => urange 64 (fst x) /\ fst x + 1 < 2 ^ 64) l ->
  Forall (fun x => entry_ok (snd x)) l ->
  Forall (fun x => w_files w !! segment_path (fst x) = kept_bytes (snd x)) l ->
  all_scanned l (Scan [] 0 0 0) sc ->
  wal_rep true (WalState (recovered_inner c l sc) w) (survivors l) 0.
Proof.
  intros Hs Hr Hok Hk (A1 & A2 & A3 & A4 & A5 & A6). simpl in *.
  assert (Hr1 : Forall (fun x => urange 64 (fst x)) l)
    by (eapply Forall_impl; [exact Hr|]; simpl; tauto).
  pose proof (survivors_ok _ _ Hr1 Hok Hk) as Hsegs.
  assert (Hsegs1 : Forall2 (seg_ok (w_files w)) (survivor_metas l) (survivors l))
    by (eapply Forall2_impl; [exact Hsegs|]; by intros ? ? [? _]).
  assert (Hmax : 0 <= sc_max_seq sc < 2 ^ 64 - 1).
  { rewrite A6. apply max_seq_range; [lia|]. rewrite Forall_fmap. eapply Forall_impl; [exact Hr|].
    unfold urange. simpl. lia. }
  assert (Hnext : Forall (fun m => meta_seq m < sc_max_seq sc + 1) (survivor_metas l)).
  { rewrite Forall_forall. intros m Hm. destruct (survivor_metas_elem l m Hm) as (x & Hx & ->).
    pose proof (max_seq_bound l.*1 0 (fst x) ltac:(by apply list_elem_of_fmap_2)). simpl. lia. }
  split; simpl; rewrite ?(wrapping_add_small _ (sc_max_seq sc)) by lia; try done.
  - by apply survivor_metas_sorted.
  - lia.
  - destruct (last (survivor_metas l)) as [m|] eqn:El; simpl; [|done]. exists m. split; [done|].
    split_and!; try done. intros _. split; [done|].
    apply last_Some in El as (l1 & El). rewrite El in Hsegs.
    apply Forall2_app_inv_l in Hsegs as (r1 & r2 & _ & H2 & _).
    inversion H2 as [|? fr ? ? (_ & Hf & Hb) _]; subst. simpl. exists (seg_data fr). by rewrite Hb.
  - unfold cursor_ok. simpl. destruct (survivor_metas l), (survivors l); try by inversion Hsegs.
    + split_and!; try done. right. split; [|done]. by rewrite (wrapping_add_small _ (sc_max_seq sc)) by lia.
    + left. split_and!; try done. lia.
Qed.

(** After the scan, the segment files are those of the surviving entries. *)
Lemma recovered_tidy (files : gmap string bytes) w l :
  (forall name, is_Some (files !! name) ->
     parse_segment_seq name = None \/ exists x, x ∈ l /\ name = segment_path (fst x)) ->
  (forall p, (forall x, x ∈ l -> p <> segment_path (fst x)) -> w_files w !! p = files !! p) ->
  Forall (fun x => w_files w !! segment_path (fst x) = kept_bytes (snd x)) l ->
  forall name, is_Some (w_files w !! name) ->
    parse_segment_seq name = None \/ exists m, m ∈ survivor_metas l /\ name = meta_path m.
Proof.
  intros Hon Hother Hk name Hn. destruct (decide (name ∈ (fun x => segment_path (fst x)) <$> l)) as [Hin|Hin].
  - apply list_elem_of_fmap in Hin as ([seq e] & -> & Hx). right.
    rewrite Forall_forall in Hk. pose proof (Hk _ Hx) as E. cbn [fst snd] in *. rewrite E in Hn.
    destruct e as [fr tail|c]; [|by destruct Hn]. clear -Hx. induction l as [|[seq' e'] l IH]; [by apply elem_of_nil in Hx|].
    rewrite survivor_metas_cons. apply elem_of_cons in Hx as [E|Hx].
    + injection E as <- <-. eexists. split; [by apply elem_of_app; left; left|done].
    + destruct (IH Hx) as (m & Hm & E). exists m. split; [by apply elem_of_app; right|done].
  - assert (Hp : forall x, x ∈ l -> name <> segment_path (fst x))
      by (intros x Hx ->; apply Hin, list_elem_of_fmap; by exists x).
    rewrite (Hother name Hp) in Hn. destruct (Hon name Hn) as [?|(x & Hx & ->)]; [by left|]. by destruct (Hp x Hx).
Qed.

Lemma repaired_elem l x :
  x ∈ repaired l -> exists fr tail, (x.1, Good fr tail) ∈ l /\ x = (x.1, Good fr []).
Proof.
  induction l as [|[seq [fr tail|c]] l IH]; cbn [repaired]; [by intros ?%elem_of_nil| |].
  - intros [->|Hx]%elem_of_cons; [exists fr, tail; split; [by left|done]|].
    destruct (IH Hx) as (fr' & tail' & ? & ?). exists fr', tail'. split; [by right|done].
  - intros Hx. destruct (IH Hx) as (fr' & tail' & ? & ?). exists fr', tail'. split; [by right|done].
Qed.

Lemma repaired_survivors l : survivors (repaired l) = survivors l /\ survivor_metas (repaired l) = survivor_metas l.
Proof.
  induction l as [|[seq [fr tail|c]] l [IH1 IH2]]; [done| |done]. cbn [repaired survivors survivor_metas].
  by rewrite IH1, IH2.
Qed.

Lemma repaired_sorted l : StronglySorted Z.lt l.*1 -> StronglySorted Z.lt (repaired l).*1.
Proof.
  induction l as [|[seq [fr tail|c]] l IH]; rewrite ?fmap_cons; cbn [repaired]; [done| |].
  - intros [Hs Hlt]%StronglySorted_inv. rewrite fmap_cons. constructor; [by apply IH|].
    rewrite Forall_forall in *. intros y Hy. apply list_elem_of_fmap in Hy as (x & -> & Hx).
    destruct (repaired_elem l x Hx) as (fr' & tail' & Hx' & _). apply Hlt.
    by apply (list_elem_of_fmap_2 fst) in Hx'.
  - intros [Hs Hlt]%StronglySorted_inv. by apply IH.
Qed.

(** The repaired directory is an image with the same survivors. *)
Lemma recovered_image files w l :
  image files l ->
  (forall p, (forall x, x ∈ l -> p <> segment_path (fst x)) -> w_files w !! p = files !! p) ->
  Forall (fun x => w_files w !! segment_path (fst x) = kept_bytes (snd x)) l ->
  image (w_files w) (repaired l).
Proof.
  intros [Hs Hr Hf Hok Hon] Hother Hk. rewrite Forall_forall in Hr, Hok. assert (Hk' := Hk).
  rewrite Forall_forall in Hk'.
  split; rewrite ?Forall_forall.
  - by apply repaired_sorted.
  - intros x Hx. destruct (repaired_elem l x Hx) as (fr & tail & Hl & _). apply (Hr _ Hl).
  - intros x Hx. destruct (repaired_elem l x Hx) as (fr & tail & Hl & ->). cbn [fst snd entry_bytes].
    rewrite app_nil_r. apply (Hk' _ Hl).
  - intros x Hx. destruct (repaired_elem l x Hx) as (fr & tail & Hl & ->). destruct (Hok _ Hl) as (H1 & _ & H3).
    split; [done|]. split; [apply dead_nil|]. rewrite app_nil_r. len_lia.
  - intros name Hn. destruct (recovered_tidy files w l Hon Hother Hk name Hn) as [?|(m & Hm & ->)]; [by left|right].
    clear -Hm. induction l as [|[seq [fr tail|c]] l IH]; cbn [survivor_metas repaired] in *; [by apply elem_of_nil in Hm| |by apply IH].
    apply elem_of_cons in Hm as [->|Hm]; [eexists; split; [by left|done]|].
    destruct (IH Hm) as (x & ? & ?). exists x. split; [by right|done].
Qed.

(** On a healthy disk, [recover] restores every complete frame of an image, in
    order, in a store that satisfies the invariant, with a batch number above
    every batch number restored. *)
Lemma recover_spec c l w :
  healthy w -> w_dir w = true -> image (w_files w) l ->
  sumZ meta_bytes (survivor_metas l) < 2 ^ 64 ->
  wp (recover c) (fun r w' => healthy w' /\ exists st, r = Ok st
    /\ wal_rep true (WalState st w') (survivors l) 0
    /\ Forall (above (next_batch_seq st)) (survivors l)
    /\ cfg st = c /\ (survivors l = [] \/ is_Some (active st))
    /\ tidy (WalState st w') /\ image (w_files w') (repaired l)) w.
Proof.
  intros Hh Hdir Him Hroom. unfold recover. apply wp_bind, wp_gets. rewrite Hdir. cbn [negb].
  apply wp_bind. unfold fs_read_dir. apply wp_bind, wp_syscall_healthy; [done|]. apply wp_gets. unfold id.
  pose proof (omap_parse_image _ _ Him) as Hperm. pose proof (sort_image _ _ Him) as Hsort. assert (Him0 := Him).
  set (found := omap parse_segment_seq (map_to_list (w_files w)).*1) in *.
  destruct Him as [Hs Hr Hf Hok Hon].
  destruct found as [|x0 found0] eqn:Efound.
  { apply Permutation_nil_l in Hperm. destruct l as [|x l]; [|done]. apply wp_ret. split; [done|].
    exists (empty_inner c). split; [done|]. split; [apply fresh_rep|]. split; [done|]. split; [done|].
    split; [by left|]. split; [|exact Him0]. split; [done| |done]. intros name Hn. left.
    destruct (Hon name Hn) as [?|(x & Hx & _)]; [done|by apply elem_of_nil in Hx]. }
  rewrite <- Efound in Hsort |- *. rewrite Hsort. clear Efound. apply wp_bind.
  assert (Hr1 : Forall (fun x => urange 64 (fst x)) l)
    by (eapply Forall_impl; [exact Hr|]; simpl; tauto).
  eapply wp_mono; [apply (recover_all_spec l (Scan [] 0 0 0) w); simpl; done || lia|].
  intros r w1 (Hh1 & _ & Hother & Hk & sc & -> & A). cbn zeta. apply wp_bind.
  pose proof (recovered_rep c l sc w1 Hs Hr Hok Hk A) as R.
  pose proof (recovered_tidy _ _ _ Hon Hother Hk) as Hti. pose proof (recovered_image _ _ _ Him0 Hother Hk) as Him1.
  pose proof A as (A1 & A2 & A3 & _ & A5 & _). simpl in A1. rewrite A1.
  assert (Hend : wp (inner_from_recovered c (survivor_metas l)
      ((fun m => {| as_seq := meta_seq m; as_file := meta_path m; as_pos := meta_bytes m;
                    as_offset := meta_bytes m |}) <$> last (survivor_metas l))
      (sc_total sc) (wrapping_add 64 (sc_max_seq sc) 1) (sc_next_batch sc))
    (fun r w' => healthy w' /\ exists st, r = Ok st
      /\ wal_rep true (WalState st w') (survivors l) 0
      /\ Forall (above (next_batch_seq st)) (survivors l) /\ cfg st = c
      /\ (survivors l = [] \/ is_Some (active st))
      /\ tidy (WalState st w') /\ image (w_files w') (repaired l)) w1).
  { unfold inner_from_recovered. pose proof (rep_length _ _ _ _ R) as Hlen. unfold recovered_inner in R, Hlen.
    cbn [inner segments] in Hlen.
    assert (Hact : survivors l = [] \/ is_Some ((fun m => {| as_seq := meta_seq m; as_file := meta_path m;
      as_pos := meta_bytes m; as_offset := meta_bytes m |}) <$> last (survivor_metas l))).
    { destruct (last (survivor_metas l)) eqn:El; [right; by eexists|left]. apply last_None in El.
      rewrite El in Hlen. by destruct (survivors l). }
    destruct (survivor_metas l) as [|m metas]; simpl;
      apply wp_bind, wp_bind, wp_modify, wp_modify, wp_ret; (split; [done|]); eexists;
      (split; [reflexivity|split; [|by split_and!]]); by apply (rep_frame _ _ w1). }
  destruct (last (survivor_metas l)) as [m|] eqn:El; simpl in Hend; [|by apply wp_ret].
  unfold open_active_for_append. apply wp_bind, wp_bind, wp_fs_open_healthy; [done| |].
  - pose proof (rep_segs _ _ _ _ R) as Rs. simpl in Rs. apply last_Some_elem_of in El.
    apply list_elem_of_lookup in El as [i Hi]. destruct (Forall2_lookup_l _ _ _ _ _ Rs Hi) as (fr & _ & Hm).
    destruct Hm as (_ & (j & -> & _) & _). eauto.
  - apply wp_bind, wp_syscall_healthy; [done|]. unfold id. by do 2 apply wp_ret.
Qed.

End Recovery.
