(* ===== verification/Writer.v ===== *)
(** * Writer: the group-committing writer thread

    Models [statix/src/wal/writer.rs].  A burst is the payload the thread blocked
    on and the ones it then finds queued, each with the answer of the clock test
    [last_sync.elapsed() >= fsync_interval].  The theorems show that after a
    burst everything in the log is durable, so that a power failure followed by
    [recover] loses none of it. *)

From S2P Require Export Recovery.

Section Writer.
Context {crc : Crc32}.

(** ** Operations *)

Definition append_one (payload : bytes) : W unit :=
  r ← attempt (append payload);
  match r with
  | Ok _ => mret tt
  | Err _ => io (counter M_WRITE_ERRORS 1);; recover_active_after_error
  end.

Definition sync : W unit :=
  r ← attempt sync_active;
  match r with
  | Ok _ => mret tt
  | Err _ => io (counter M_WRITE_ERRORS 1)
  end.

(** The inner loop: the payloads found queued; answers [since_sync]. *)
Fixpoint drain_burst (rest : list (bytes * bool)) (fsync_frames since_sync : Z) : W Z :=
  match rest with
  | [] => mret since_sync
  | (b, elapsed) :: rest =>
      append_one b;;
      let since_sync := wrapping_add 64 since_sync 1 in
      if (fsync_frames <=? since_sync) || elapsed
      then sync;; drain_burst rest fsync_frames 0
      else drain_burst rest fsync_frames since_sync
  end.

Definition group_commit (first : bytes) (rest : list (bytes * bool)) : W unit :=
  st ← get id;
  append_one first;;
  since_sync ← drain_burst rest (fsync_frames (cfg st)) 1;
  when (0 <? since_sync) sync.

Fixpoint writer_loop (bursts : list (bytes * list (bytes * bool))) : W unit :=
  match bursts with
  | [] => mret tt
  | (first, rest) :: bursts => group_commit first rest;; writer_loop bursts
  end.

(** ** A burst on a healthy disk *)

(** The store between two system calls of the writer. *)
Record burst_inv (s : wal_state) (q : list DecodedFrame) : Prop := {
  bi_rep : exists segs k, wal_rep true s segs k /\ queue segs k = q;
  bi_healthy : healthy (disk s);
  bi_settled : settled s
}.

Lemma append_one_spec s q p n :
  burst_inv s q -> payload_ok p -> margin (S n) s ->
  wp (append_one p) (fun r s' => r = Ok tt /\ margin n s' /\ cfg (inner s') = cfg (inner s)
    /\ next_batch_seq (inner s') = wrapping_add 64 (next_batch_seq (inner s)) 1
    /\ exists d, burst_inv s' (drop d q ++ [Frame (next_batch_seq (inner s)) p])) s.
Proof.
  intros [(segs & k & R & <-) Hh Hs] Hp Hm. pose proof (frame_size_bound p Hp) as Hsz.
  apply wp_bind, wp_attempt.
  apply (wp_mono _ (fun r s' => exists pre segs', append_post s segs k p r s' pre segs')).
  { apply append_outcome; [done..|]. unfold margin in *. lia. }
  intros r s' (pre & segs' & [_ _ A3 A4 _ _ A7 A8 _ Ab A10 _ A12 A13 A14]).
  destruct A7 as [->|[_ []]]; [|done]. apply wp_ret. split; [done|]. split.
  { unfold margin, SEGMENT_HEADER_LEN in *. lia. }
  split; [done|]. split; [by apply Ab|]. exists (length (concat pre) - k)%nat.
  split; [|by apply A12|by apply A14]. exists segs', (restart pre k). split; [exact A3|exact A4].
Qed.

Lemma sync_spec s q :
  burst_inv s q ->
  wp sync (fun r s' => r = Ok tt /\ burst_inv s' q /\ all_durable s' /\ inner s' = inner s) s.
Proof.
  destruct s as [st w]. intros [(segs & k & R & Hq) Hh Hs]. unfold sync, sync_active.
  apply wp_bind, wp_attempt, wp_bind, wp_gets. cbn [inner].
  destruct (active st) as [a|] eqn:Ea.
  - apply wp_zoom, wp_syscall; cbn [inner disk]; [|by intros w1 _ []].
    intros w1 H1. apply wp_ret. pose proof (advanced_files _ _ H1) as Hf.
    destruct (rep_active_last _ _ _ _ _ _ R Ea)
      as (l & m & init & fr & _ & _ & _ & (_ & (j & Hj & _) & _) & _ & Ef & _).
    set (w2 := set_w_durable _ w1).
    destruct (settled_fsync true st st w w2 a (file_bytes (as_file a) w)) as [Hall Hset]; try done.
    + unfold file_bytes. by rewrite Ef, Hj.
    + unfold w2, file_bytes. simpl. rewrite Hf. by destruct H1 as (? & -> & _).
    + split; [done|]. split; [|split; [by apply Hall|done]]. split; [|by apply (advanced_healthy _ _ H1)|done].
      exists segs, k. split; [|done]. by apply (rep_frame _ _ w); [|unfold w2; simpl; rewrite Hf].
  - apply wp_ret, wp_ret. split; [done|]. split; [|split; [|done]].
    + split; [|done..]. by exists segs, k.
    + intros m Hm. apply (se_durable _ _ Hs); [done..|]. simpl. by rewrite Ea.
Qed.

(** Two rounds of drops are one. *)
Lemma drop_drop_suffix (d n : nat) (q l : list DecodedFrame) :
  exists n', drop n (drop d q ++ l) = drop n' (q ++ l).
Proof.
  destruct (decide (d <= length q)%nat) as [Hd|Hd].
  - exists (d + n)%nat. rewrite <- drop_drop. rewrite (drop_app_le q) by done. done.
  - exists (length q + n)%nat. by rewrite (drop_ge q), <- drop_drop, drop_app_length by lia.
Qed.

Lemma drain_burst_spec rest ff since s q :
  burst_inv s q -> Forall payload_ok rest.*1 -> margin (length rest) s ->
  0 <= since -> since + zlen rest < 2 ^ 64 -> (since = 0 -> all_durable s) ->
  wp (drain_burst rest ff since) (fun r s' => exists since' n,
    r = Ok since' /\ (since' = 0 -> all_durable s') /\ 0 <= since' /\ margin 0 s'
    /\ burst_inv s' (drop n (q ++ numbered (next_batch_seq (inner s)) rest.*1))
    /\ next_batch_seq (inner s') = foldl (fun b _ => wrapping_add 64 b 1) (next_batch_seq (inner s)) rest) s.
Proof.
  revert since s q. induction rest as [|[p el] rest IH]; intros since s q Hi Hp Hm H0 Hs Hd.
  { apply wp_ret. exists since, 0%nat. simpl. rewrite app_nil_r, drop_0. by split_and!. }
  rewrite fmap_cons in Hp. apply Forall_cons in Hp as [Hp Hp']. cbn [drain_burst]. apply wp_bind.
  eapply wp_mono; [by apply (append_one_spec s q p (length rest))|].
  intros r s1 (-> & Hm1 & _ & Hb1 & d & Hi1). cbn zeta. simpl in Hs.
  rewrite wrapping_add_small by lia.
  assert (Hgo : forall since1 s2, burst_inv s2 (drop d q ++ [Frame (next_batch_seq (inner s)) p]) ->
    inner s2 = inner s1 -> 0 <= since1 <= since + 1 -> (since1 = 0 -> all_durable s2) ->
    wp (drain_burst rest ff since1) (fun r s' => exists since' n,
      r = Ok since' /\ (since' = 0 -> all_durable s') /\ 0 <= since' /\ margin 0 s'
      /\ burst_inv s' (drop n (q ++ numbered (next_batch_seq (inner s)) ((p, el) :: rest).*1))
      /\ next_batch_seq (inner s')
         = foldl (fun b _ => wrapping_add 64 b 1) (next_batch_seq (inner s)) ((p, el) :: rest)) s2).
  { intros since1 s2 Hi2 E2 Hs1 Hd2.
    eapply wp_mono; [apply (IH since1 s2); try done; [unfold margin in *; rewrite E2; lia|lia|lia]|].
    intros r s' (since' & n & -> & Hd' & H0' & Hm' & Hi' & Hb'). rewrite E2, Hb1 in Hi', Hb'.
    destruct (drop_drop_suffix d n q (Frame (next_batch_seq (inner s)) p
      :: numbered (wrapping_add 64 (next_batch_seq (inner s)) 1) rest.*1)) as (n' & En).
    exists since', n'. split_and!; try done. rewrite <- app_assoc in Hi'. simpl in Hi'.
    by rewrite En in Hi'. }
  destruct ((ff <=? since + 1) || el).
  - apply wp_bind. eapply wp_mono; [by apply (sync_spec s1)|].
    intros r s2 (-> & Hi2 & Hd2 & E2). apply Hgo; [done|done|lia|done].
  - apply Hgo; [done|done|lia|lia].
Qed.

Lemma group_commit_spec first rest s q :
  burst_inv s q -> Forall payload_ok (first :: rest.*1) -> margin (S (length rest)) s ->
  zlen rest + 1 < 2 ^ 64 ->
  wp (group_commit first rest) (fun r s' => r = Ok tt /\ all_durable s' /\ margin 0 s'
    /\ exists n, burst_inv s' (drop n (q ++ numbered (next_batch_seq (inner s)) (first :: rest.*1)))) s.
Proof.
  intros Hi Hp Hm Hl. apply Forall_cons in Hp as [Hp Hp']. unfold group_commit.
  apply wp_bind, wp_gets, wp_bind. eapply wp_mono; [by apply (append_one_spec s q first (length rest))|].
  intros r s1 (-> & Hm1 & _ & Hb1 & d & Hi1). apply wp_bind.
  eapply wp_mono; [apply (drain_burst_spec rest _ 1 s1 _ Hi1 Hp' Hm1); lia|].
  intros r s2 (since & n & -> & Hd2 & H0 & Hm2 & Hi2 & _). rewrite Hb1, <- app_assoc in Hi2. simpl in Hi2.
  destruct (drop_drop_suffix d n q (Frame (next_batch_seq (inner s)) first
    :: numbered (wrapping_add 64 (next_batch_seq (inner s)) 1) rest.*1)) as (n' & En).
  rewrite En in Hi2. apply wp_when; intros E; zb.
  - eapply wp_mono; [by apply (sync_spec s2)|]. intros r s3 (-> & Hi3 & Hd3 & E3).
    split; [done|]. split; [done|]. split; [unfold margin in *; by rewrite E3|]. by exists n'.
  - split; [done|]. split; [apply Hd2; lia|]. split; [done|]. by exists n'.
Qed.

(** ** Crashes *)

Definition bounded_files (files : gmap string bytes) : Prop :=
  map_Forall (fun _ c => zlen c < 2 ^ 64) files.

(** The log as a directory image: what [recover] finds when the files of a store
    are all there is. *)
Lemma rep_image clean st w files segs k :
  wal_rep clean (WalState st w) segs k -> bounded_files files ->
  (forall m, m ∈ segments st -> files !! meta_path m = w_files w !! meta_path m) ->
  (forall name, is_Some (files !! name) ->
     parse_segment_seq name = None \/ exists m, m ∈ segments st /\ name = meta_path m) ->
  exists l, image files l /\ survivors l = segs
            /\ sumZ meta_bytes (survivor_metas l) = total_bytes st.
Proof.
  intros [R1 R2 R3 R4 _ _ R7 _] Hb Hf Ho. simpl in *.
  assert (H : exists l, l.*1 = meta_seq <$> segments st /\ survivors l = segs
    /\ sumZ meta_bytes (survivor_metas l) = sumZ meta_bytes (segments st)
    /\ Forall (fun x => files !! segment_path (fst x) = Some (entry_bytes (snd x))) l
    /\ Forall (fun x => entry_ok (snd x)) l).
  { clear R2 R3 R7 Ho. induction R1 as [|m fr ms segs Hm _ IH]; [by exists []|].
    destruct IH as (l & L1 & L2 & L3 & L4 & L5); [intros m' Hm'; apply Hf; by right|].
    destruct Hm as (M1 & (j & Hj & Hd) & M3 & M4 & M5 & M6).
    rewrite <- Hf in Hj by by left. exists ((meta_seq m, Good fr j) :: l).
    split; [by rewrite !fmap_cons, L1|]. split; [by rewrite survivors_cons, L2|].
    split; [cbn [survivor_metas]; rewrite !sumZ_cons, L3, M3; simpl; lia|].
    split; constructor; simpl; try done; [by rewrite <- M1|].
    split_and!; [done..|]. by apply (Hb _ _ Hj). }
  destruct H as (l & L1 & L2 & L3 & L4 & L5). exists l. split; [|split; [done|by rewrite R7]].
  assert (Hseq : forall x, x ∈ l -> exists m, m ∈ segments st /\ meta_seq m = fst x
                                           /\ meta_path m = segment_path (fst x)).
  { intros x Hx. apply (list_elem_of_fmap_2 fst) in Hx. rewrite L1 in Hx.
    apply list_elem_of_fmap in Hx as (m & E & Hm). exists m. split; [done|]. split; [done|].
    apply list_elem_of_lookup in Hm as [i Hi]. destruct (Forall2_lookup_l _ _ _ _ _ R1 Hi) as (fr & _ & Hp & _).
    by rewrite Hp, E. }
  split; try done; [by rewrite L1| |].
  - rewrite Forall_forall. intros x Hx. destruct (Hseq x Hx) as (m & Hm & <- & _).
    apply list_elem_of_lookup in Hm as [i Hi]. destruct (Forall2_lookup_l _ _ _ _ _ R1 Hi) as (fr & _ & Hm').
    destruct Hm' as (_ & _ & _ & _ & _ & M6). pose proof (proj1 (Forall_lookup _ _) R3 _ _ Hi) as Hlt.
    unfold urange. simpl in *. lia.
  - intros name Hn. destruct (Ho name Hn) as [?|(m & Hm & ->)]; [by left|right].
    pose proof Hm as Hm'. apply (list_elem_of_fmap_2 meta_seq) in Hm'. rewrite <- L1 in Hm'.
    apply list_elem_of_fmap in Hm' as (x & Ex & Hx). exists x. split; [done|].
    apply list_elem_of_lookup in Hm as [i Hi]. destruct (Forall2_lookup_l _ _ _ _ _ R1 Hi) as (fr & _ & Hp & _).
    by rewrite Hp, Ex.
Qed.

(** A torn write at the end of the newest segment keeps the image. *)
Lemma survivors_app l1 l2 : survivors (l1 ++ l2) = survivors l1 ++ survivors l2.
Proof. induction l1 as [|[s [fr t|c]] l1 IH]; simpl; [done| |done]. by rewrite IH. Qed.

Lemma survivor_metas_app l1 l2 : survivor_metas (l1 ++ l2) = survivor_metas l1 ++ survivor_metas l2.
Proof. induction l1 as [|[s [fr t|c]] l1 IH]; simpl; [done| |done]. by rewrite IH. Qed.

Lemma image_torn files l seq fr f j :
  image files (l ++ [(seq, Good fr [])]) -> frame_ok f -> Z.of_nat j < frame_size f ->
  SEGMENT_HEADER_LEN + sumZ frame_size (fr ++ [f]) < 2 ^ 64 ->
  image (<[segment_path seq := seg_data fr ++ take j (encode_frame f)]> files)
    (l ++ [(seq, Good fr (take j (encode_frame f)))]).
Proof.
  intros [H1 H2 H3 H4 H5] Hf Hj Hsz. rewrite fmap_app in H1.
  apply Forall_app in H2 as [H2 H2'], H3 as [H3 H3'], H4 as [H4 H4'].
  pose proof (zlen_encode_frame f) as Hz.
  split.
  - by rewrite fmap_app.
  - apply Forall_app. split; [done|]. apply Forall_singleton. rewrite Forall_singleton in H2'. exact H2'.
  - apply Forall_app. split; [|apply Forall_singleton; apply lookup_insert_eq].
    rewrite Forall_singleton in H2'. rewrite Forall_forall in *. intros x Hx.
    rewrite lookup_insert_ne; [by apply H3|]. intros E.
    apply segment_path_inj in E; [|apply H2'|by apply H2].
    pose proof (StronglySorted_app_1_elem_of _ _ _ (fst x) seq H1) as Hlt. simpl in E.
    assert (fst x < seq); [|lia]. apply Hlt; [by apply list_elem_of_fmap_2|by left].
  - apply Forall_app. split; [done|]. apply Forall_singleton. rewrite Forall_singleton in H4'.
    destruct H4' as (Hok & _ & _). split_and!; [done|apply dead_torn; [done|lia]|].
    rewrite sumZ_app in Hsz. unfold sumZ in Hsz at 2. simpl in Hsz.
    pose proof (zlen_seg_data fr). len_lia.
  - intros name [c [[<- _]|[_ Hc]]%lookup_insert_Some].
    + right. exists (seq, Good fr (take j (encode_frame f))). split; [|done].
      apply elem_of_app. right. by left.
    + destruct (H5 name) as [?|(x & Hx & ->)]; [by eauto|by left|right].
      apply elem_of_app in Hx as [Hx|Hx].
      * exists x. split; [apply elem_of_app; by left|done].
      * apply list_elem_of_singleton in Hx as ->. eexists. split; [apply elem_of_app; right; by left|done].
Qed.

(** The world after a power failure: every file as [fdatasync] last left it. *)
Definition power_loss (w : world) : world := set_w_files (w_durable w) w.

End Writer.

(** ** Properties *)

Section Properties.
Context {crc : Crc32}.


(** A torn append is recovered from.  If the process dies after writing any
    strict prefix of a frame, the empty one included, to the end of the newest
    segment, recovery restores every frame before it and nothing of it. *)
Theorem torn_append_is_recovered c l seq fr f j w :
  w_faults w = [] -> w_dir w = true -> image (w_files w) (l ++ [(seq, Good fr [])]) ->
  frame_ok f -> Z.of_nat j < frame_size f ->
  SEGMENT_HEADER_LEN + sumZ frame_size (fr ++ [f]) < 2 ^ 64 ->
  sumZ meta_bytes (survivor_metas (l ++ [(seq, Good fr [])])) < 2 ^ 64 ->
  let torn := seg_data fr ++ take j (encode_frame f) in
  exists st w', recover c (set_w_files (<[segment_path seq := torn]> (w_files w)) w) = (Ok st, w')
                /\ wal_rep true (WalState st w') (survivors l ++ [fr]) 0.
Proof.
  intros Hh Hd Him Hf Hj Hsz Hroom torn. pose proof (image_torn _ _ _ _ f j Him Hf Hj Hsz) as Him'.
  fold torn in Him'. set (w1 := set_w_files _ w). set (l' := l ++ [(seq, Good fr (take j (encode_frame f)))]) in *.
  assert (Hroom' : sumZ meta_bytes (survivor_metas l') < 2 ^ 64).
  { unfold l'. by rewrite survivor_metas_app in *. }
  pose proof (recover_spec c l' w1 Hh Hd Him' Hroom') as H. unfold wp in H.
  destruct (recover c w1) as [r w']; cbn [fst snd] in H. destruct H as (_ & st & -> & R & _).
  exists st, w'. split; [done|]. unfold l' in R. by rewrite survivors_app in R.
Qed.

(** Delivery across a crash of the process is at least once.  When the files
    of a store are all the segment files there are, restarting from them yields
    a store whose queue is the old queue preceded by the frames of the front
    segment that had already been replayed. *)
Theorem crash_replays_at_least_once c s segs k :
  wal_rep true s segs k -> w_faults (disk s) = [] -> w_dir (disk s) = true ->
  tidy s -> bounded_files (w_files (disk s)) -> total_bytes (inner s) < 2 ^ 64 ->
  exists st w', recover c (disk s) = (Ok st, w') /\ wal_rep true (WalState st w') segs 0
    /\ exists replayed, queue segs 0 = replayed ++ queue segs k.
Proof.
  destruct s as [st w]. intros R Hh Hd Hs Hb Hroom.
  destruct (rep_image true st w (w_files w) segs k R Hb) as (l & Him & <- & Et); [done|apply (se_only _ _ Hs)|].
  assert (H : sumZ meta_bytes (survivor_metas l) < 2 ^ 64) by (rewrite Et; exact Hroom).
  pose proof (recover_spec c l w Hh Hd Him H) as H1. unfold wp in H1. cbn [disk].
  destruct (recover c w) as [r w']; cbn [fst snd] in H1. destruct H1 as (_ & st' & -> & R' & _).
  exists st', w'. split; [done|]. split; [done|].
  exists (take k (concat (survivors l))). unfold queue. by rewrite drop_0, take_drop.
Qed.


End Properties.

(** ** Witnesses *)

Lemma only_intro (files : gmap string bytes) (l : list (Z * entry)) :
  bool_decide (map_Forall (fun name _ =>
    parse_segment_seq name = None \/ name ∈ (segment_path ∘ fst <$> l)) files) = true ->
  forall name, is_Some (files !! name) ->
    parse_segment_seq name = None \/ exists x, x ∈ l /\ name = segment_path (fst x).
Proof.
  intros H name [c Hc]. apply bool_decide_eq_true in H. destruct (H name c Hc) as [?|Hin]; [by left|right].
  apply list_elem_of_fmap in Hin as (x & -> & Hx). by exists x.
Qed.

(** Two segments, one with a torn tail, a file that is not a segment although it
    has the name of one, and a file of another program. *)
Definition crash_entries : list (Z * entry) :=
  [(4, Good [Frame 8 (sample_payload 1); Frame 9 (sample_payload 2)]
         (take 18 (encode_frame (Frame 10 (sample_payload 3)))));
   (5, Bad [78; 79; 84]);
   (7, Good [Frame 10 (sample_payload 3)] [])].

Definition crash_files : gmap string bytes := Eval vm_compute in
  <["notes.txt" := [1; 2; 3]]>
    (list_to_map ((fun x => (segment_path (fst x), entry_bytes (snd x))) <$> crash_entries)).

Definition crash_world : world := World true crash_files ∅ [] ∅.

Lemma crash_image : image crash_files crash_entries.
Proof.
  split.
  - repeat constructor.
  - repeat constructor; vm_compute; discriminate.
  - repeat constructor.
  - repeat constructor; simpl; try (vm_compute; discriminate).
  - apply only_intro. vm_compute. reflexivity.
Qed.


Definition clean_entries : list (Z * entry) :=
  [(4, Bad [78]); (7, Good [Frame 10 (sample_payload 3)] [])].

Definition clean_files : gmap string bytes := Eval vm_compute in
  list_to_map ((fun x => (segment_path (fst x), entry_bytes (snd x))) <$> clean_entries).

Lemma clean_image : image clean_files clean_entries.
Proof.
  split.
  - repeat constructor.
  - repeat constructor; vm_compute; discriminate.
  - repeat constructor.
  - repeat constructor; simpl; try (vm_compute; discriminate).
  - apply only_intro. vm_compute. reflexivity.
Qed.

Lemma torn_append_is_recovered_witness :
  let torn := seg_data [Frame 10 (sample_payload 3)] ++ take 17 (encode_frame (Frame 11 (sample_payload 4))) in
  let w := World true clean_files ∅ [] ∅ in
  exists st w', recover sample_cfg (set_w_files (<[segment_path 7 := torn]> clean_files) w) = (Ok st, w')
                /\ wal_rep true (WalState st w') [[Frame 10 (sample_payload 3)]] 0.
Proof.
  apply (torn_append_is_recovered sample_cfg [(4, Bad [78])] 7 [Frame 10 (sample_payload 3)]
           (Frame 11 (sample_payload 4)) 17 (World true clean_files ∅ [] ∅) eq_refl eq_refl clean_image).
  - vm_compute. repeat split; discriminate.
  - vm_compute. reflexivity.
  - vm_compute. reflexivity.
  - vm_compute. reflexivity.
Defined.

Lemma fresh_burst c w :
  healthy w -> w_files w = ∅ -> w_durable w = ∅ -> burst_inv (fresh_wal c w) [].
Proof.
  intros Hh Hf Hd. split; [|done|].
  - exists [], 0%nat. split; [apply fresh_rep|done].
  - split; simpl; rewrite ?Hf, ?Hd; [by intros _ m ?%elem_of_nil|by intros ? [? ?]|by intros _ ? [? ?]].
Qed.

(** Three payloads in one burst, the clock ticking at the second. *)
Definition sample_burst : list (bytes * bool) := [(sample_payload 2, true); (sample_payload 3, false)].

Definition committed_wal : wal_state :=
  snd (group_commit (sample_payload 1) sample_burst (fresh_wal sample_cfg fresh_world)).

Lemma fresh_margin n : (n <= 1000)%nat -> margin n (fresh_wal sample_cfg fresh_world).
Proof. intros. unfold margin. simpl. lia. Qed.

Lemma sample_burst_ok : Forall payload_ok (sample_payload 1 :: sample_burst.*1).
Proof. repeat constructor; apply sample_payload_ok. Qed.


Lemma committed_inv : exists q, burst_inv committed_wal q.
Proof.
  destruct (group_commit_spec (sample_payload 1) sample_burst (fresh_wal sample_cfg fresh_world) []
    (fresh_burst sample_cfg fresh_world eq_refl eq_refl eq_refl)
    sample_burst_ok (fresh_margin 3 ltac:(lia)) eq_refl) as (_ & _ & _ & n & H).
  eexists. exact H.
Qed.

Lemma crash_replays_at_least_once_witness :
  exists st w' segs, recover sample_cfg (disk committed_wal) = (Ok st, w')
                     /\ wal_rep true (WalState st w') segs 0.
Proof.
  destruct committed_inv as (q & [(segs & k & R & _) Hh Hs]).
  destruct (crash_replays_at_least_once sample_cfg committed_wal segs k R) as (st & w' & H & R' & _).
  - vm_compute. reflexivity.
  - vm_compute. reflexivity.
  - by apply settled_tidy in Hs.
  - unfold bounded_files. apply (bool_decide_unpack _). vm_compute. exact I.
  - vm_compute. reflexivity.
  - exists st, w', segs. split; [exact H|exact R'].
Defined.
