(* ===== verification/WalDir.v ===== *)
(** * WalDir: no operation takes the log's directory away

    Once the directory of the log exists it stays.  A small closure argument over
    the monad of [Disk]: an operation that is built from operations that leave a
    flag of the state set leaves it set, so the tactic [sets_auto] follows the code
    of every operation of [Wal], [Recovery] and [Writer]. *)

From S2P Require Export Writer.

#[local] Open Scope Z_scope.

(** ** Operations that keep a flag set *)

(** Whatever [m] answers, it leaves the flag [d] set. *)
Definition sets {S E A} (d : S -> bool) (m : M S E A) : Prop := forall s, d s = true -> d (m s).2 = true.

Section Sets.
Context {S E : Type} (d : S -> bool).
Implicit Types s : S.

Lemma sets_ret {A} (a : A) : sets d (mret a : M S E A).
Proof. by intros s. Qed.

Lemma sets_fail {A} (e : E) : sets d (fail e : M S E A).
Proof. by intros s. Qed.

Lemma sets_gets {A} (f : S -> A) : sets d (gets f : M S E A).
Proof. by intros s. Qed.

Lemma sets_modify (f : S -> S) : (forall s, d s = true -> d (f s) = true) -> sets d (modify f : M S E unit).
Proof. intros H s. apply H. Qed.

Lemma sets_bind {A B} (m : M S E A) (k : A -> M S E B) :
  sets d m -> (forall a, sets d (k a)) -> sets d (m ≫= k).
Proof.
  intros Hm Hk s Hs. specialize (Hm s Hs). unfold mbind, M_bind. destruct (m s) as [[a|e] s']; [by apply Hk|done].
Qed.

Lemma sets_attempt {A} (m : M S E A) : sets d m -> sets d (attempt m).
Proof. intros H s Hs. rewrite attempt_eq. by apply H. Qed.

Lemma sets_when (b : bool) (m : M S E unit) : sets d m -> sets d (when b m).
Proof. by destruct b; [|intros _; apply sets_ret]. Qed.

End Sets.

Create HintDb statix_sets.
#[export] Hint Resolve sets_ret sets_fail sets_gets sets_attempt sets_when : statix_sets.

(** The flag of the world, and of the store over it. *)
Definition wal_dir (s : wal_state) : bool := w_dir (disk s).

(** Splits an operation at its binds and cases. *)
Ltac sets_step :=
  first [ solve [eauto 3 with statix_sets]
        | apply sets_bind; [|intros ?]
        | apply sets_when
        | apply sets_attempt
        | apply sets_modify; solve [intros [] ?; done | intros ? ?; cbn; done]
        | progress cbn beta iota
        | match goal with
          | |- sets _ (match ?x with _ => _ end) => destruct x
          | |- sets _ (let '_ := ?x in _) => destruct x
          end ].
Ltac sets_auto := repeat sets_step.

Lemma sets_io {A} (m : IO A) : sets w_dir m -> sets wal_dir (io m).
Proof. intros H [st w] Hw. unfold io, zoom. cbn. specialize (H w Hw). by destruct (m w). Qed.
Lemma sets_upd f : sets wal_dir (upd f).
Proof. by intros [st w]. Qed.
Lemma sets_get {A} (f : WalInner -> A) : sets wal_dir (get f).
Proof. by intros [st w]. Qed.

Lemma sets_syscall f : (forall w, w_dir w = true -> w_dir (f w) = true) -> sets w_dir (syscall f).
Proof. intros H w Hw. destruct (syscall_cases f w) as [fs [[E|E] _]]; rewrite E; cbn; [by apply H|done]. Qed.

Lemma sets_eta {A} (m : IO A) : sets w_dir m -> sets w_dir (fun w => m w).
Proof. done. Qed.

Lemma sets_fs_create_dir_all : sets w_dir fs_create_dir_all.
Proof. by apply sets_syscall. Qed.
Lemma sets_fs_seek : sets w_dir fs_seek.
Proof. by apply sets_syscall. Qed.
Lemma sets_fs_create name : sets w_dir (fs_create name).
Proof. by apply sets_syscall. Qed.
Lemma sets_fs_set_len name n : sets w_dir (fs_set_len name n).
Proof. by apply sets_syscall. Qed.
Lemma sets_fdatasync name : sets w_dir (fdatasync name).
Proof. by apply sets_syscall. Qed.
Lemma sets_metric (f : metrics -> metrics) : sets w_dir (modify (fun w => set_w_metrics (f (w_metrics w)) w) : IO unit).
Proof. by apply sets_modify. Qed.
Lemma sets_idle : sets w_dir (syscall id).
Proof. by apply sets_syscall. Qed.

#[export] Hint Resolve sets_io sets_upd sets_get sets_fs_create_dir_all sets_fs_seek sets_fs_create sets_fs_set_len
  sets_fdatasync sets_metric sets_idle : statix_sets.

Lemma sets_counter name n : sets w_dir (counter name n).
Proof. apply (sets_metric (counter_add name n)). Qed.
Lemma sets_gauge name v : sets w_dir (gauge name v).
Proof. apply (sets_metric (gauge_set name v)). Qed.

Lemma sets_fs_open name : sets w_dir (fs_open name).
Proof. apply sets_eta. sets_auto. Qed.
Lemma sets_fs_read_dir : sets w_dir fs_read_dir.
Proof. apply sets_eta. sets_auto. Qed.
Lemma sets_fs_len name : sets w_dir (fs_len name).
Proof. apply sets_eta. sets_auto. Qed.
Lemma sets_fs_read_exact name pos n : sets w_dir (fs_read_exact name pos n).
Proof. apply sets_eta. sets_auto. Qed.

#[export] Hint Resolve sets_counter sets_gauge sets_fs_open sets_fs_read_dir sets_fs_len sets_fs_read_exact : statix_sets.

Lemma sets_fs_remove name : sets w_dir (fs_remove name).
Proof. apply sets_eta. sets_auto. Qed.
Lemma next_outcome_dir w : w_dir (next_outcome w).2 = w_dir w.
Proof. unfold next_outcome. by destruct (w_faults w). Qed.
Lemma sets_fs_write name pos bs : sets w_dir (fs_write name pos bs).
Proof.
  intros w Hw. unfold fs_write. destruct bs; [done|]. pose proof (next_outcome_dir w) as E.
  destruct (next_outcome w) as [o w1]. cbn in E. destruct o; cbn; congruence.
Qed.
Lemma sets_fs_read name pos n : sets w_dir (fs_read name pos n).
Proof.
  intros w Hw. unfold fs_read. pose proof (next_outcome_dir w) as E.
  destruct (next_outcome w) as [o w1]. cbn in E. destruct o; cbn; congruence.
Qed.
#[export] Hint Resolve sets_fs_remove sets_fs_write sets_fs_read : statix_sets.
Lemma sets_fs_write_all name pos bs : sets w_dir (fs_write_all name pos bs).
Proof. unfold fs_write_all. sets_auto. Qed.
#[export] Hint Resolve sets_fs_write_all : statix_sets.

(** ** The log's operations *)

Section Dir.
Context {crc : Crc32}.

Lemma sets_read_full_loop fuel name pos want filled : sets w_dir (read_full_loop fuel name pos want filled).
Proof.
  revert filled. induction fuel as [|fuel IH]; intros filled; cbn [read_full_loop]; [sets_auto|].
  destruct (_ <=? _)%nat; [sets_auto|]. intros w Hw.
  pose proof (sets_fs_read name (pos + zlen filled) (want - length filled) w Hw) as H.
  destruct (fs_read _ _ _ w) as [[[|b got]|[]] w1]; cbn in H |- *; try done; by apply IH.
Qed.

Lemma sets_read_full_or_eof name pos want : sets w_dir (read_full_or_eof name pos want).
Proof. intros w Hw. by apply sets_read_full_loop. Qed.
#[local] Hint Resolve sets_read_full_or_eof : statix_sets.

Lemma sets_read_frame_at name offset : sets w_dir (read_frame_at name offset).
Proof. unfold read_frame_at. sets_auto. Qed.
#[local] Hint Resolve sets_read_frame_at : statix_sets.

Lemma sets_refresh_gauges : sets wal_dir refresh_gauges.
Proof. unfold refresh_gauges, refresh_gauges_of. sets_auto. Qed.
#[local] Hint Resolve sets_refresh_gauges : statix_sets.

Lemma sets_enforce_cap incoming : sets wal_dir (enforce_cap incoming).
Proof.
  assert (H : forall fuel, sets wal_dir (enforce_cap_loop fuel incoming)).
  { induction fuel as [|fuel IH]; cbn [enforce_cap_loop]; sets_auto. }
  unfold enforce_cap. sets_auto.
Qed.

Lemma sets_rotate : sets wal_dir rotate.
Proof. unfold rotate, close_active, open_segment. sets_auto. apply sets_io. sets_auto. Qed.

Lemma sets_write_active bs : sets wal_dir (write_active bs).
Proof. unfold write_active. sets_auto. Qed.
#[local] Hint Resolve sets_enforce_cap sets_rotate sets_write_active : statix_sets.

Lemma sets_append p : sets wal_dir (append p).
Proof. unfold append, ensure_active_with_room. sets_auto. Qed.
#[local] Hint Resolve sets_append : statix_sets.

Lemma sets_append_one p : sets wal_dir (append_one p).
Proof. unfold append_one, recover_active_after_error. sets_auto. Qed.
Lemma sets_sync : sets wal_dir sync.
Proof. unfold sync, sync_active. sets_auto. Qed.
#[local] Hint Resolve sets_append_one sets_sync : statix_sets.

(** The writer's burst. *)
Lemma sets_group_commit first rest : sets wal_dir (group_commit first rest).
Proof.
  assert (H : forall rest ff since, sets wal_dir (drain_burst rest ff since)).
  { clear. induction rest as [|[b el] rest IH]; intros ff since; cbn [drain_burst]; sets_auto. }
  unfold group_commit. sets_auto.
Qed.

(** The reader. *)
Lemma sets_peek_next : sets wal_dir peek_next.
Proof.
  assert (H : forall fuel, sets wal_dir (peek_next_loop fuel)).
  { induction fuel as [|fuel IH]; cbn [peek_next_loop]; [sets_auto|].
    unfold gc_front_consumed, advance_to_front. sets_auto; apply sets_io; unfold unlink_consumed; sets_auto. }
  unfold peek_next. sets_auto.
Qed.

Lemma sets_commit_pending : sets wal_dir commit_pending.
Proof. unfold commit_pending. sets_auto. Qed.

(** Recovery. *)
Lemma sets_recover c : sets w_dir (recover c).
Proof.
  assert (Hw : forall fuel path offset frames nb, sets w_dir (walk_frames fuel path offset frames nb)).
  { induction fuel as [|fuel IH]; intros; cbn [walk_frames]; sets_auto. }
  assert (Hs : forall seq sc, sets w_dir (recover_segment seq sc)).
  { intros. unfold recover_segment, header_check, truncate_tail. sets_auto. }
  assert (Ha : forall found sc, sets w_dir (recover_all found sc)).
  { induction found as [|seq found IH]; intros; cbn [recover_all]; sets_auto. }
  unfold recover, open_active_for_append, inner_from_recovered, refresh_gauges_of. sets_auto.
Qed.

End Dir.
