(* ===== verification/Circuit.v ===== *)
(** * Circuit: the gateway-health circuit breaker

    Models the circuit breaker of [statix/src/wal/mod.rs]: the two atomics, the
    transitions the retry worker and the drainer drive, and its gauge.  The
    atomics are read and written by one task each at a time in the program's
    sequential runs; the model is the sequence of their updates. *)

From S2P Require Export Prelude.

Inductive CircuitState : Type := Closed | HalfOpen | Open.

#[export] Instance CircuitState_eq_dec : EqDecision CircuitState.
Proof. solve_decision. Defined.

Definition state_code (s : CircuitState) : Z :=
  match s with Closed => 0 | HalfOpen => 1 | Open => 2 end.

Definition OPEN_THRESHOLD : Z := 3.

(** [CIRCUIT], [CONSECUTIVE_FAILURES] (both [AtomicU8]) and the gauge. *)
Record circuit : Type := Circuit { code : Z; failures : Z; circuit_gauge : Z }.

Definition circuit_init : circuit := Circuit (state_code Closed) 0 0.

Definition circuit_state (c : circuit) : CircuitState :=
  match code c with 0 => Closed | 1 => HalfOpen | _ => Open end.

Definition set_circuit (s : CircuitState) (c : circuit) : circuit :=
  Circuit (state_code s) (failures c) (state_code s).

Definition record_post_success (c : circuit) : circuit :=
  let c := Circuit (code c) 0 (circuit_gauge c) in
  if bool_decide (circuit_state c = Closed) then c else set_circuit Closed c.

(** [fetch_add] wraps; [prev.saturating_add(1)] saturates at 255. *)
Definition record_post_failure (c : circuit) : circuit :=
  let prev := failures c in
  let c := Circuit (code c) (wrapping_add 8 prev 1) (circuit_gauge c) in
  if (OPEN_THRESHOLD <=? saturating_add 8 prev 1) && negb (bool_decide (circuit_state c = Open))
  then set_circuit Open c else c.

Definition try_half_open (c : circuit) : circuit :=
  if bool_decide (circuit_state c = Open) then set_circuit HalfOpen c else c.

(** ** Runs *)

Inductive circuit_event : Type :=
| PostSuccess
| PostFailure
| Trial.

Definition circuit_step (c : circuit) (e : circuit_event) : circuit :=
  match e with
  | PostSuccess => record_post_success c
  | PostFailure => record_post_failure c
  | Trial => try_half_open c
  end.

Definition circuit_run (es : list circuit_event) (c : circuit) : circuit := foldl circuit_step c es.

(** Failures since the last success. *)
Fixpoint failure_run (es : list circuit_event) (n : Z) : Z :=
  match es with
  | [] => n
  | PostSuccess :: es => failure_run es 0
  | PostFailure :: es => failure_run es (n + 1)
  | Trial :: es => failure_run es n
  end.

Lemma failure_run_snoc es e n :
  failure_run (es ++ [e]) n
  = match e with PostSuccess => 0 | PostFailure => failure_run es n + 1 | Trial => failure_run es n end.
Proof. revert n. induction es as [|[] es IH]; intros n; simpl; [by destruct e|apply IH..]. Qed.

Lemma failure_run_nonneg es n : 0 <= n -> 0 <= failure_run es n.
Proof. revert n. induction es as [|[] es IH]; intros n Hn; simpl; [done|apply IH; lia..]. Qed.

Lemma failure_run_le es n : 0 <= n -> failure_run es n <= n + zlen es.
Proof.
  revert n. induction es as [|[] es IH]; intros n Hn; simpl; [lia| | |].
  - specialize (IH 0). lia.
  - specialize (IH (n + 1)). lia.
  - specialize (IH n). lia.
Qed.

Lemma circuit_run_snoc es e c : circuit_run (es ++ [e]) c = circuit_step (circuit_run es c) e.
Proof. unfold circuit_run. by rewrite foldl_app. Qed.

Lemma circuit_state_set s c : circuit_state (set_circuit s c) = s.
Proof. by destruct s. Qed.

(** The gauge and the stored code agree, and the failure counter holds the run
    modulo 256. *)
Lemma circuit_run_counter es :
  let c := circuit_run es circuit_init in
  failures c = failure_run es 0 mod 256 /\ circuit_gauge c = code c
  /\ code c = state_code (circuit_state c).
Proof.
  induction es as [|e es IH] using rev_ind; [done|]. cbn zeta in *.
  rewrite circuit_run_snoc, failure_run_snoc. destruct IH as (Hf & Hg & Hc).
  set (c := circuit_run es circuit_init) in *.
  destruct e; simpl.
  - unfold record_post_success, circuit_state in *; simpl in *. case_bool_decide; simpl; [done|].
    done.
  - unfold record_post_failure.
    assert (E : wrapping_add 8 (failures c) 1 = (failure_run es 0 + 1) mod 256).
    { unfold wrapping_add, wrap. rewrite Hf. change (2 ^ 8) with 256. by rewrite Z.add_mod_idemp_l. }
    destruct (_ && _); simpl; rewrite E; [by split_and!|]. unfold circuit_state in *. simpl. by split_and!.
  - unfold try_half_open. case_bool_decide; simpl; by split_and!.
Qed.

(** ** Properties *)

(** C22: the circuit trips on the third consecutive failure and not before.
    After any sequence of POST outcomes and drainer trials that ends in at most
    255 failures without a success, the circuit is [Closed] exactly when fewer
    than three of them have happened, a success always leaves it [Closed], and
    a failure past the threshold leaves it [Open], also in a half-open trial. *)
Theorem circuit_trips_at_the_threshold es :
  let c := circuit_run es circuit_init in
  let n := failure_run es 0 in
  (forall es1 es2, es = es1 ++ es2 -> failure_run es1 0 <= 255) ->
  (circuit_state c = Closed <-> n < OPEN_THRESHOLD)
  /\ (forall es', es = es' ++ [PostSuccess] -> circuit_state c = Closed)
  /\ (forall es', es = es' ++ [PostFailure] -> OPEN_THRESHOLD <= n -> circuit_state c = Open).
Proof.
  cbn zeta. intros Hb.
  assert (H : (circuit_state (circuit_run es circuit_init) = Closed <-> failure_run es 0 < OPEN_THRESHOLD)
    /\ (forall es', es = es' ++ [PostFailure] -> OPEN_THRESHOLD <= failure_run es 0 ->
         circuit_state (circuit_run es circuit_init) = Open)).
  { unfold OPEN_THRESHOLD. induction es as [|e es IH] using rev_ind.
    { split; [done|]. intros es' E. by destruct es'. }
    destruct IH as [IH _]; [intros es1 es2 ->; apply (Hb es1 (es2 ++ [e])); by rewrite app_assoc|].
    pose proof (Hb es [e] eq_refl) as Hes. pose proof (Hb (es ++ [e]) [] ltac:(by rewrite app_nil_r)) as Hes'.
    pose proof (failure_run_nonneg es 0 ltac:(lia)) as Hnn.
    destruct (circuit_run_counter es) as (Hf & _ & Hc). cbn zeta in *.
    rewrite circuit_run_snoc, failure_run_snoc in *. set (c := circuit_run es circuit_init) in *.
    rewrite Z.mod_small in Hf by lia. destruct e; cbn [circuit_step].
    - split; [|intros es' E; by apply app_inj_2 in E as [_ E]].
      split; [lia|]. intros _. unfold record_post_success. case_bool_decide; [done|].
      apply circuit_state_set.
    - unfold record_post_failure, saturating_add, umax, OPEN_THRESHOLD. rewrite Hf.
      destruct (Z.leb_spec 3 (Z.min (failure_run es 0 + 1) (2 ^ 8 - 1))) as [Hle|Hlt]; cbn [andb].
      + assert (Hopen : circuit_state (if negb (bool_decide (circuit_state
           (Circuit (code c) (wrapping_add 8 (failure_run es 0) 1) (circuit_gauge c)) = Open))
           then set_circuit Open (Circuit (code c) (wrapping_add 8 (failure_run es 0) 1) (circuit_gauge c))
           else Circuit (code c) (wrapping_add 8 (failure_run es 0) 1) (circuit_gauge c)) = Open).
        { case_bool_decide as E; simpl; [exact E|]. apply circuit_state_set. }
        rewrite Hopen. split; [|done]. split; [done|lia].
      + unfold circuit_state in *. simpl. split; [|lia]. rewrite IH. lia.
    - split; [|intros es' E; by apply app_inj_2 in E as [_ E]].
      unfold try_half_open. case_bool_decide as E; [|exact IH]. rewrite circuit_state_set.
      split; [done|]. intros Hlt. apply IH in Hlt. by rewrite E in Hlt. }
  destruct H as [H1 H2]. split; [done|]. split; [|done].
  intros es' ->. rewrite circuit_run_snoc. simpl. unfold record_post_success.
  case_bool_decide; [done|]. apply circuit_state_set.
Qed.

(** The 8-bit failure counter wraps.  After 256 consecutive failures it is
    back at zero, and a half-open trial that fails then leaves the circuit
    [HalfOpen] instead of reopening it; two further failures are needed. *)
Theorem failed_trial_stays_half_open es :
  Forall (fun e => e = PostFailure) es -> zlen es = 256 ->
  let trial := circuit_run [Trial; PostFailure] (circuit_run es circuit_init) in
  circuit_state trial = HalfOpen
  /\ circuit_state (circuit_run [PostFailure; PostFailure] trial) = Open.
Proof.
  intros Hall Hlen. assert (es = replicate 256 PostFailure) as ->; [|vm_compute; done].
  symmetry. apply replicate_as_elem_of. rewrite Forall_forall in Hall. split; [lia|done].
Qed.

(** *** Witnesses *)

Lemma circuit_trips_at_the_threshold_witness :
  circuit_state (circuit_run [PostFailure; PostSuccess; PostFailure; PostFailure; PostFailure; Trial;
                              PostFailure] circuit_init) = Open.
Proof.
  set (es := [PostFailure; PostSuccess; PostFailure; PostFailure; PostFailure; Trial; PostFailure]).
  assert (H : forall es1 es2, es = es1 ++ es2 -> failure_run es1 0 <= 255).
  { intros es1 es2 E. apply (f_equal (@length _)) in E. rewrite length_app in E. simpl in E.
    pose proof (failure_run_le es1 0). lia. }
  destruct (circuit_trips_at_the_threshold es H) as (_ & _ & H3).
  apply (H3 [PostFailure; PostSuccess; PostFailure; PostFailure; PostFailure; Trial]);
    [reflexivity|vm_compute; discriminate].
Defined.

Lemma failed_trial_stays_half_open_witness :
  circuit_state (circuit_run [Trial; PostFailure]
                   (circuit_run (replicate 256 PostFailure) circuit_init)) = HalfOpen.
Proof.
  apply (failed_trial_stays_half_open (replicate 256 PostFailure)); [|reflexivity].
  apply Forall_replicate. reflexivity.
Defined.
