(* ===== verification/Channel.v ===== *)
(** * Channel: the bounded queues between the program's tasks

    The program connects its tasks with [tokio::sync::mpsc] channels, which are
    not part of it.  The class [Channel] states what it relies on: a channel is a
    first-in first-out queue of bounded capacity, [try_send] never waits and
    gives the value back when the queue is full or the receiver is gone, and
    [try_recv] takes the oldest value.  A list with a bound is an instance. *)

From S2P Require Export Prelude.

Inductive send_error : Type := SendFull | SendClosed.

#[export] Instance send_error_eq_dec : EqDecision send_error.
Proof. solve_decision. Defined.

Class Channel (A : Type) : Type := {
  chan : Type;
  queued : chan -> list A;
  chan_capacity : chan -> nat;
  chan_closed : chan -> bool;
  try_send : A -> chan -> res send_error unit * chan;
  try_recv : chan -> option A * chan;
  try_send_spec x c :
    let '(r, c') := try_send x c in
    chan_capacity c' = chan_capacity c /\ chan_closed c' = chan_closed c
    /\ r = (if chan_closed c then Err SendClosed
            else if (length (queued c) <? chan_capacity c)%nat then Ok tt else Err SendFull)
    /\ queued c' = (if is_ok r then queued c ++ [x] else queued c);
  try_recv_spec c :
    let '(r, c') := try_recv c in
    chan_capacity c' = chan_capacity c /\ chan_closed c' = chan_closed c
    /\ r = head (queued c) /\ queued c' = tail (queued c)
}.

Arguments chan A {_}.

(** [Sender::capacity]: the free slots. *)
Definition chan_room {A} `{!Channel A} (c : chan A) : nat := chan_capacity c - length (queued c).

(** A bounded list. *)
Record bounded (A : Type) : Type := Bounded { b_items : list A; b_cap : nat; b_closed : bool }.
Arguments Bounded {A} b_items b_cap b_closed.
Arguments b_items {A} b.
Arguments b_cap {A} b.
Arguments b_closed {A} b.

Definition bounded_send {A} (x : A) (c : bounded A) : res send_error unit * bounded A :=
  if b_closed c then (Err SendClosed, c)
  else if (length (b_items c) <? b_cap c)%nat
       then (Ok tt, Bounded (b_items c ++ [x]) (b_cap c) (b_closed c)) else (Err SendFull, c).

Definition bounded_recv {A} (c : bounded A) : option A * bounded A :=
  (head (b_items c), Bounded (tail (b_items c)) (b_cap c) (b_closed c)).

#[export] Instance bounded_channel (A : Type) : Channel A | 100.
Proof.
  refine {| chan := bounded A; queued := b_items; chan_capacity := b_cap; chan_closed := b_closed;
            try_send := bounded_send; try_recv := bounded_recv |}.
  - intros x c. unfold bounded_send. destruct (b_closed c) eqn:E; [by split_and!|].
    by destruct (_ <? _)%nat.
  - intros c. done.
Defined.

(** The outcomes of a send, as case analysis. *)
Section Laws.
Context {A : Type} `{!Channel A}.

Lemma try_send_cases (x : A) (c : chan A) :
  (fst (try_send x c) = Ok tt /\ queued (snd (try_send x c)) = queued c ++ [x]
     /\ (length (queued c) < chan_capacity c)%nat /\ chan_closed c = false)
  \/ (fst (try_send x c) = Err SendFull /\ queued (snd (try_send x c)) = queued c
      /\ (chan_capacity c <= length (queued c))%nat /\ chan_closed c = false)
  \/ (fst (try_send x c) = Err SendClosed /\ queued (snd (try_send x c)) = queued c
      /\ chan_closed c = true).
Proof.
  pose proof (try_send_spec x c) as H. destruct (try_send x c) as [r c']; simpl.
  destruct H as (_ & _ & -> & ->). destruct (chan_closed c); [by right; right|].
  destruct (Nat.ltb_spec (length (queued c)) (chan_capacity c)); [by left|by right; left].
Qed.

Lemma try_send_capacity (x : A) (c : chan A) :
  chan_capacity (snd (try_send x c)) = chan_capacity c
  /\ chan_closed (snd (try_send x c)) = chan_closed c.
Proof. pose proof (try_send_spec x c) as H. destruct (try_send x c). tauto. Qed.

Lemma try_recv_eq (c : chan A) :
  fst (try_recv c) = head (queued c) /\ queued (snd (try_recv c)) = tail (queued c)
  /\ chan_capacity (snd (try_recv c)) = chan_capacity c
  /\ chan_closed (snd (try_recv c)) = chan_closed c.
Proof. pose proof (try_recv_spec c) as H. destruct (try_recv c). simpl. tauto. Qed.
End Laws.
