(* ===== verification/Drainer.v ===== *)
(** * Drainer: replaying the log into the retry queue

    Models [statix/src/wal/drainer.rs]: one replayed frame and one sweep of the
    drainer task in each state of the circuit.  The retry queue is any
    [Channel]; the random delay before a half-open trial affects only timing and
    is left out.  The theorems show that a sweep moves frames from the log to the
    queue in order, each of them once, and terminates. *)

From S2P Require Export WalProps Circuit Channel.

Section Drainer.
Context {crc : Crc32} `{!Channel bytes}.

Inductive ReplayOutcome : Type := Sent | Empty | NoCapacity.

(** What the drainer works on. *)
Record drain_state : Type := Drain { dr_wal : wal_state; dr_retry : chan bytes; dr_circuit : circuit }.

(** ** Operations *)

Definition replay_one (d : drain_state) : ReplayOutcome * drain_state :=
  match peek_next (dr_wal d) with
  | (Ok (Some frame), w) =>
      match try_send (payload frame) (dr_retry d) with
      | (Ok _, c) => (Sent, Drain (snd (commit_pending w)) c (dr_circuit d))
      | (Err _, c) => (NoCapacity, Drain w c (dr_circuit d))
      end
  | (_, w) => (Empty, Drain w (dr_retry d) (dr_circuit d))
  end.

(** The loop of the [Closed] arm; every round that does not leave it fills a
    slot of the retry queue. *)
Fixpoint drain_closed (fuel : nat) (d : drain_state) : option drain_state :=
  match fuel with
  | O => None
  | S fuel =>
      if (chan_room (dr_retry d) =? 0)%nat || negb (bool_decide (circuit_state (dr_circuit d) = Closed))
      then Some d
      else match replay_one d with
           | (Sent, d) => drain_closed fuel d
           | (_, d) => Some d
           end
  end.

(** One pass of the task's loop. *)
Definition sweep (d : drain_state) : option drain_state :=
  match circuit_state (dr_circuit d) with
  | Open => Some (Drain (dr_wal d) (dr_retry d) (try_half_open (dr_circuit d)))
  | HalfOpen => Some (if has_backlog (inner (dr_wal d)) then snd (replay_one d) else d)
  | Closed =>
      if negb (has_backlog (inner (dr_wal d))) then Some d
      else drain_closed (S (chan_room (dr_retry d))) d
  end.

(** ** Invariant *)

(** The log represents the queue [q]. *)
Definition holds (d : drain_state) (q : list DecodedFrame) : Prop :=
  (exists segs k, wal_rep true (dr_wal d) segs k /\ queue segs k = q)
  /\ total_bytes (inner (dr_wal d)) < 2 ^ 64.

(** The reader's side leaves the writer's counters and the losses alone. *)
Definition log_kept (s s' : wal_state) : Prop :=
  total_bytes (inner s') <= total_bytes (inner s) /\ next_seq (inner s') = next_seq (inner s)
  /\ active (inner s') = active (inner s) /\ (healthy (disk s) -> tidy s -> tidy s')
  /\ (healthy (disk s) -> healthy (disk s'))
  /\ metric (w_metrics (disk s')) M_DROPPED_BATCHES = metric (w_metrics (disk s)) M_DROPPED_BATCHES.

Lemma log_kept_refl s : log_kept s s.
Proof. by split_and!. Qed.

Lemma log_kept_trans s1 s2 s3 : log_kept s1 s2 -> log_kept s2 s3 -> log_kept s1 s3.
Proof.
  intros (A1 & A2 & A3 & A4 & A5 & A6) (B1 & B2 & B3 & B4 & B5 & B6). unfold log_kept.
  split_and!; [lia|congruence|congruence|auto|auto|congruence].
Qed.

Lemma commit_keeps_drops s :
  metric (w_metrics (disk (snd (commit_pending s)))) M_DROPPED_BATCHES
  = metric (w_metrics (disk s)) M_DROPPED_BATCHES.
Proof.
  destruct s as [st w]. unfold commit_pending, mbind, M_bind. cbn.
  destruct (pending_advance st); [|done]. cbn. by apply metric_counter_add_ne.
Qed.

Lemma commit_keeps_active s : active (inner (snd (commit_pending s))) = active (inner s).
Proof.
  destruct s as [st w]. unfold commit_pending, mbind, M_bind. cbn. by destruct (pending_advance st).
Qed.

(** [n] frames went from the front of [q] to the back of the retry queue. *)
Definition moved (d d' : drain_state) (q : list DecodedFrame) (n : nat) : Prop :=
  holds d' (drop n q)
  /\ queued (dr_retry d') = queued (dr_retry d) ++ (payload <$> take n q)
  /\ chan_capacity (dr_retry d') = chan_capacity (dr_retry d)
  /\ chan_closed (dr_retry d') = chan_closed (dr_retry d)
  /\ (healthy (disk (dr_wal d)) -> healthy (disk (dr_wal d')))
  /\ log_kept (dr_wal d) (dr_wal d')
  /\ (n <= chan_room (dr_retry d))%nat.

Lemma moved_0 d d' q :
  holds d' q -> queued (dr_retry d') = queued (dr_retry d) ->
  chan_capacity (dr_retry d') = chan_capacity (dr_retry d) ->
  chan_closed (dr_retry d') = chan_closed (dr_retry d) ->
  (healthy (disk (dr_wal d)) -> healthy (disk (dr_wal d'))) ->
  log_kept (dr_wal d) (dr_wal d') -> moved d d' q 0.
Proof. intros. unfold moved. rewrite take_0, app_nil_r, drop_0. split_and!; try done. lia. Qed.

Lemma replay_one_spec d q :
  holds d q ->
  let '(o, d') := replay_one d in
  dr_circuit d' = dr_circuit d
  /\ match o with
     | Sent => q <> [] /\ (length (queued (dr_retry d)) < chan_capacity (dr_retry d))%nat /\ moved d d' q 1
     | Empty => moved d d' q 0 /\ (healthy (disk (dr_wal d)) -> q = [])
     | NoCapacity => moved d d' q 0
                     /\ (chan_room (dr_retry d) = 0%nat \/ chan_closed (dr_retry d) = true)
     end.
Proof.
  intros [(segs & k & R & <-) Ht]. unfold replay_one.
  pose proof (peek_next_spec _ _ _ _ R Ht) as H. unfold wp in H.
  destruct (peek_next (dr_wal d)) as [r w] eqn:E; cbn [fst snd] in H.
  destruct H as (segs1 & k1 & [P1 P2 (_ & Pa & Pn & _) Pc P5 P6 Pti _ P7]).
  assert (Hk : log_kept (dr_wal d) w) by (by split_and!; [..|apply Pc]).
  assert (Hw : forall c, holds (Drain w c (dr_circuit d)) (queue segs k)).
  { intros c. split; [by exists segs1, k1|]. simpl. lia. }
  destruct r as [[f|]|e].
  - destruct P7 as [Hf [nx Hnx]]. destruct (queue segs k) as [|f' q] eqn:Eq; [done|].
    injection Hf as ->. pose proof (try_send_cases (payload f) (dr_retry d)) as Hc.
    destruct (try_send_capacity (payload f) (dr_retry d)) as [Hcap Hclo].
    destruct (try_send (payload f) (dr_retry d)) as [rs c]; cbn [fst snd] in *.
    destruct Hc as [(-> & Hq & Hroom & _)|[(-> & Hq & Hfull & _)|(-> & Hq & Hcl)]].
    + pose proof (commit_pending_spec true w segs1 k1 P1) as H2. unfold wp in H2.
      pose proof (commit_keeps_active w) as Hact.
      pose proof (commit_keeps_drops w) as Hdr.
      destruct (commit_pending w) as [r2 w2]; cbn [fst snd] in *. rewrite Hnx in H2.
      destruct H2 as (_ & _ & N2 & T2 & _ & Hh2 & Hti2 & _ & k2 & R2 & Q2 & _ & _).
      split; [done|]. split; [done|]. split; [done|]. split_and!; try done; cbn [dr_wal dr_retry].
      * split; [|simpl; lia]. exists segs1, k2. split; [done|]. by rewrite Q2, P2.
      * intros Hh. by apply Hh2, P6.
      * apply (log_kept_trans _ w); [done|]. unfold log_kept. rewrite T2, Hact. split_and!; try done; auto.
      * unfold chan_room. lia.
    + split; [done|]. split; [by apply moved_0|]. left. unfold chan_room. lia.
    + split; [done|]. split; [by apply moved_0|]. by right.
  - split; [done|]. split; [by apply moved_0|done].
  - split; [done|]. destruct P7 as [_ Hn]. split; [by apply moved_0|]. intros Hh. by destruct Hn.
Qed.

Lemma moved_trans d d1 d2 q n :
  q <> [] -> moved d d1 q 1 -> moved d1 d2 (drop 1 q) n -> moved d d2 q (S n).
Proof.
  intros Hq (_ & Q1 & C1 & L1 & H1 & K1 & R1) (S2 & Q2 & C2 & L2 & H2 & K2 & R2). destruct q as [|f q]; [done|].
  unfold moved. rewrite drop_drop in S2. simpl in *.
  split_and!; try congruence; [|by auto|by eapply log_kept_trans|].
  - rewrite Q2, Q1, <- app_assoc. done.
  - unfold chan_room in *. rewrite Q1, C1 in R2. revert R2. len_simpl. simpl. lia.
Qed.

Lemma drain_closed_spec fuel d q :
  holds d q -> (chan_room (dr_retry d) < fuel)%nat -> circuit_state (dr_circuit d) = Closed ->
  exists d' n, drain_closed fuel d = Some d' /\ moved d d' q n /\ dr_circuit d' = dr_circuit d
    /\ (n <= length q)%nat
    /\ (healthy (disk (dr_wal d)) -> chan_closed (dr_retry d) = false ->
        n = length q \/ chan_room (dr_retry d') = 0%nat).
Proof.
  revert d q. induction fuel as [|fuel IH]; intros d q Hd Hf Hc; [lia|]. cbn [drain_closed].
  rewrite bool_decide_true by done. cbn [negb]. rewrite orb_false_r.
  destruct (Nat.eqb_spec (chan_room (dr_retry d)) 0) as [E0|E0].
  { exists d, 0%nat. split_and!; try done; [by apply moved_0, log_kept_refl|lia|by right]. }
  pose proof (replay_one_spec d q Hd) as H. destruct (replay_one d) as [o d1]. destruct H as [Hc1 H].
  destruct o.
  - destruct H as (Hq & Hroom & Hm). assert (Hm1 := Hm). destruct Hm1 as (Hd1 & Q1 & C1 & L1 & Hh1 & _).
    destruct q as [|f q]; [done|]. simpl in Hd1.
    destruct (IH d1 q) as (d2 & n & -> & Hm2 & Hc2 & Hn & Hend).
    + by rewrite drop_0 in Hd1.
    + unfold chan_room in *. rewrite Q1, C1. len_lia.
    + by rewrite Hc1.
    + exists d2, (S n). split; [done|]. split; [apply (moved_trans d d1); [done|done|]|].
      * simpl. by rewrite drop_0.
      * split; [congruence|]. split; [simpl; lia|]. intros Hh Hcl.
        destruct (Hend (Hh1 Hh) ltac:(congruence)) as [->|?]; [by left|by right].
  - destruct H as [Hm Hq]. exists d1, 0%nat. split_and!; try done; [lia|].
    intros Hh _. left. by rewrite (Hq Hh).
  - destruct H as [Hm Hq]. exists d1, 0%nat. split_and!; try done; [lia|].
    intros _ Hcl. destruct Hq as [?|?]; [lia|congruence].
Qed.

Lemma sweep_spec d q :
  holds d q ->
  exists d' n, sweep d = Some d' /\ (n <= length q)%nat /\ moved d d' q n
    /\ match circuit_state (dr_circuit d) with
       | Open => n = 0%nat /\ circuit_state (dr_circuit d') = HalfOpen
       | HalfOpen => (n <= 1)%nat /\ dr_circuit d' = dr_circuit d
           /\ (healthy (disk (dr_wal d)) -> chan_closed (dr_retry d) = false ->
               has_backlog (inner (dr_wal d)) = true ->
               n = length q \/ n = 1%nat \/ chan_room (dr_retry d') = 0%nat)
       | Closed => dr_circuit d' = dr_circuit d
           /\ (w_faults (disk (dr_wal d)) = [] -> chan_closed (dr_retry d) = false ->
               has_backlog (inner (dr_wal d)) = true ->
               n = length q \/ chan_room (dr_retry d') = 0%nat)
       end.
Proof.
  intros Hd. unfold sweep. pose proof (moved_0 d d q Hd eq_refl eq_refl eq_refl id (log_kept_refl _)) as H0.
  destruct (circuit_state (dr_circuit d)) eqn:Ec.
  - destruct (has_backlog _) eqn:Eb; cbn [negb]; [|exists d, 0%nat; split_and!; try done; lia].
    destruct (drain_closed_spec (S (chan_room (dr_retry d))) d q Hd ltac:(lia) Ec)
      as (d' & n & E & H1 & H3 & H4 & H5).
    exists d', n. split_and!; try done. intros. by apply H5.
  - destruct (has_backlog _); [|exists d, 0%nat; split_and!; try done; lia].
    pose proof (replay_one_spec d q Hd) as H. destruct (replay_one d) as [o d1]. destruct H as [Hc H].
    destruct o; [exists d1, 1%nat|exists d1, 0%nat|exists d1, 0%nat].
    + destruct H as (Hq & _ & Hm). split_and!; try done; [destruct q; [done|simpl; lia]|]. intros. by right; left.
    + destruct H as [Hm Hq]. split_and!; try done; [lia|lia|]. intros Hh _ _. left. by rewrite (Hq Hh).
    + destruct H as [Hm Hq]. split_and!; try done; [lia|lia|]. intros _ Hcl _. right; right.
      destruct Hm as (_ & Q & C & _). unfold chan_room in *. rewrite Q, C, app_nil_r.
      by destruct Hq as [|Hq]; [|rewrite Hq in Hcl].
  - exists (Drain (dr_wal d) (dr_retry d) (try_half_open (dr_circuit d))), 0%nat.
    split_and!; try done; [lia|]. simpl. unfold try_half_open. by rewrite bool_decide_true, circuit_state_set.
Qed.

(** A sweep that may post leaves something to post, unless there is nothing left. *)
Lemma sweep_progress d q :
  holds d q -> healthy (disk (dr_wal d)) -> chan_closed (dr_retry d) = false -> (0 < chan_capacity (dr_retry d))%nat ->
  q = [] \/ is_Some (active (inner (dr_wal d))) -> circuit_state (dr_circuit d) <> Open ->
  exists d' n, sweep d = Some d' /\ moved d d' q n /\ dr_circuit d' = dr_circuit d
    /\ (drop n q = [] \/ queued (dr_retry d') <> []).
Proof.
  intros Hd Hh Hcl Hcap Hact Hc. destruct (sweep_spec d q Hd) as (d' & n & E & Hn & Hm & H). exists d', n.
  assert (Hempty : has_backlog (inner (dr_wal d)) = false -> drop n q = []).
  { intros Hb. destruct Hact as [->|Ha]; [by rewrite drop_nil|]. destruct Hd as [(segs & k & R & <-) _].
    by rewrite (no_backlog_empty _ segs k R Ha Hb), drop_nil. }
  assert (Hall : n = length q -> drop n q = []) by (intros ->; by rewrite drop_all).
  assert (Hfull : chan_room (dr_retry d') = 0%nat -> queued (dr_retry d') <> []).
  { destruct Hm as (_ & _ & C & _). unfold chan_room. rewrite C. intros Hr Hq. rewrite Hq in Hr. simpl in Hr. lia. }
  split; [done|]. split; [done|]. destruct (circuit_state (dr_circuit d)); [| |done].
  - destruct H as [H1 H2]. split; [done|]. destruct (has_backlog _); [|by left; apply Hempty].
    destruct (H2 Hh Hcl eq_refl); auto.
  - destruct H as (_ & H1 & H2). split; [done|]. destruct (has_backlog _); [|by left; apply Hempty].
    destruct (H2 Hh Hcl eq_refl) as [|[->|]]; auto. destruct q as [|f q]; [by left|]. right.
    destruct Hm as (_ & Q & _). rewrite Q. cbn. by destruct (queued (dr_retry d)).
Qed.

End Drainer.

(** ** Properties *)

Section Properties.
Context {crc : Crc32} `{!Channel bytes}.

(** One sweep of the drainer, for every script of disk outcomes and any
    retry queue.  It terminates; it moves some number of frames from the front
    of the log to the back of the retry queue, in order, each removed from the
    log if and only if it was queued; an open circuit moves none and becomes
    half open, a half-open one moves at most one and stays as it is; and with a
    working disk, an open queue and a visible backlog a half-open sweep does move
    one, and a closed one stops only when the log is empty or the queue is full. *)
Theorem sweep_moves_frames_in_order d q :
  holds d q ->
  exists d' n, sweep d = Some d' /\ (n <= length q)%nat
    /\ holds d' (drop n q)
    /\ queued (dr_retry d') = queued (dr_retry d) ++ (payload <$> take n q)
    /\ match circuit_state (dr_circuit d) with
       | Open => n = 0%nat /\ circuit_state (dr_circuit d') = HalfOpen
       | HalfOpen => (n <= 1)%nat /\ dr_circuit d' = dr_circuit d
           /\ (healthy (disk (dr_wal d)) -> chan_closed (dr_retry d) = false ->
               has_backlog (inner (dr_wal d)) = true ->
               n = length q \/ n = 1%nat \/ chan_room (dr_retry d') = 0%nat)
       | Closed => dr_circuit d' = dr_circuit d
           /\ (w_faults (disk (dr_wal d)) = [] -> chan_closed (dr_retry d) = false ->
               has_backlog (inner (dr_wal d)) = true ->
               n = length q \/ chan_room (dr_retry d') = 0%nat)
       end.
Proof.
  intros Hd. destruct (sweep_spec d q Hd) as (d' & n & E & Hn & (H1 & H2 & _) & H). by exists d', n.
Qed.

End Properties.

(** *** Witness *)

Definition sample_drain : drain_state :=
  Drain sample_wal (Bounded [] 60 false : chan bytes) circuit_init.

Lemma sample_holds :
  holds sample_drain [Frame 1 (sample_payload 2); Frame 2 (sample_payload 3)].
Proof. split; [exists sample_segs, 1%nat; split; [apply sample_rep|done]|vm_compute; reflexivity]. Qed.

Lemma sweep_moves_frames_in_order_witness :
  exists d' n, sweep sample_drain = Some d' /\ (n <= 2)%nat
    /\ queued (dr_retry d') = payload <$> take n [Frame 1 (sample_payload 2); Frame 2 (sample_payload 3)].
Proof.
  destruct (sweep_moves_frames_in_order sample_drain _ sample_holds) as (d' & n & H1 & H2 & _ & H4 & _).
  exists d', n. split; [exact H1|]. split; [exact H2|]. exact H4.
Defined.
