(* ===== verification/Output.v ===== *)
(** * Output: batch delivery, spilling and the retry worker

    Models [statix/src/output.rs] and the non-blocking [try_append] of the log's
    handle in [statix/src/wal/mod.rs]: what [enqueue_batch_json] does with a
    batch on every branch, how a POST response is classified, and the retry
    worker with its backoff and its reports to the circuit breaker.  The
    channels are any [Channel]; the HTTP client's answers are inputs.  Random
    jitter and the recovery delay only affect timing and are left out. *)

From S2P Require Export Circuit Channel.

(** ** Enqueueing *)

Definition SCHEMA_VERSION : Z := 4.
Definition RETRY_QUEUE_CAPACITY : nat := 60.
Definition DEFAULT_BACKOFF_INITIAL_SECS : Z := 1.
Definition DEFAULT_BACKOFF_MAX_SECS : Z := 30.

Abbreviation body := (list Z).

Section Enqueue.
Context `{!Channel body}.

(** The handle of the log: [append_tx] and [enabled]. *)
Record Wal : Type := WalHandle { append_tx : chan body; wal_enabled : bool }.

Definition try_append (payload : body) (w : Wal) : res body unit * Wal :=
  if negb (wal_enabled w) then (Err payload, w)
  else match try_send payload (append_tx w) with
       | (Ok _, c) => (Ok tt, WalHandle c (wal_enabled w))
       | (Err _, c) => (Err payload, WalHandle c (wal_enabled w))
       end.

(** The statics of the module: [RETRY_TX] and [RETRY_RX] share one channel;
    [rx_locked] says whether the receiver's lock is taken at the moment. *)
Record output_state : Type := OutputState {
  retry : option (chan body);
  rx_present : bool;
  rx_locked : bool;
  wal : option Wal
}.

Definition set_retry (c : chan body) (o : output_state) : output_state :=
  OutputState (Some c) (rx_present o) (rx_locked o) (wal o).
Definition set_wal (w : Wal) (o : output_state) : output_state :=
  OutputState (retry o) (rx_present o) (rx_locked o) (Some w).

(** The error lines of the function. *)
Inductive drop_log : Type :=
| NotInitialized | ReceiverMissing | DroppedOldest | StillFull | QueueLocked | WorkerClosed.

(** The last resort of a full queue: drop the oldest batch for the new one. *)
Definition drop_oldest (tx : chan body) (json : body) (o : output_state) : list drop_log * output_state :=
  if negb (rx_present o) then ([ReceiverMissing], o)
  else if rx_locked o then ([QueueLocked], o)
  else
    let '(old, tx) := try_recv tx in
    let log := match old with Some _ => [DroppedOldest] | None => [] end in
    match try_send json tx with
    | (Ok _, tx) => (log, set_retry tx o)
    | (Err _, tx) => (log ++ [StillFull], set_retry tx o)
    end.

Definition enqueue_batch_json (json : body) (o : output_state) : list drop_log * output_state :=
  match retry o with
  | None => ([NotInitialized], o)
  | Some tx =>
      match try_send json tx with
      | (Ok _, tx) => ([], set_retry tx o)
      | (Err SendFull, tx) =>
          let o := set_retry tx o in
          match wal o with
          | Some w =>
              match try_append json w with
              | (Ok _, w) => ([], set_wal w o)
              | (Err json, w) => drop_oldest tx json (set_wal w o)
              end
          | None => drop_oldest tx json o
          end
      | (Err SendClosed, tx) => ([WorkerClosed], set_retry tx o)
      end
  end.

(** What is waiting for delivery, in memory and on its way to disk. *)
Definition in_queue (o : output_state) : list body := from_option queued [] (retry o).
Definition in_spill (o : output_state) : list body :=
  match wal o with Some w => queued (append_tx w) | None => [] end.

Lemma try_append_cases payload w :
  (fst (try_append payload w) = Ok tt
     /\ queued (append_tx (snd (try_append payload w))) = queued (append_tx w) ++ [payload])
  \/ (fst (try_append payload w) = Err payload
      /\ queued (append_tx (snd (try_append payload w))) = queued (append_tx w)
      /\ (wal_enabled w = false \/ chan_closed (append_tx w) = true
          \/ (chan_capacity (append_tx w) <= length (queued (append_tx w)))%nat)).
Proof.
  unfold try_append. destruct (wal_enabled w) eqn:E; cbn [negb]; [|right; by split_and!; [..|left]].
  pose proof (try_send_cases payload (append_tx w)) as H.
  destruct (try_send payload (append_tx w)) as [r c]; cbn [fst snd] in *.
  destruct H as [(-> & Hq & _)|[(-> & Hq & Hfull & _)|(-> & Hq & Hc)]]; simpl.
  - by left.
  - right. split_and!; try done. by right; right.
  - right. split_and!; try done. by right; left.
Qed.

(** One batch more, at most one batch less: what an enqueue may do to the
    batches waiting. *)
Inductive enqueued (json : body) (q s q' s' : list body) : list drop_log -> Prop :=
| to_queue : q' = q ++ [json] -> s' = s -> enqueued json q s q' s' []
| to_spill : q' = q -> s' = s ++ [json] -> enqueued json q s q' s' []
| replaced old rest : q = old :: rest -> q' = rest ++ [json] -> s' = s ->
    enqueued json q s q' s' [DroppedOldest]
| refused l : q' = q -> s' = s ->
    l ∈ [[NotInitialized]; [ReceiverMissing]; [QueueLocked]; [WorkerClosed]; [StillFull]] ->
    enqueued json q s q' s' l.

(** The memory queue never holds more than its capacity. *)
Definition queue_ok (o : output_state) : Prop :=
  match retry o with Some tx => (length (queued tx) <= chan_capacity tx)%nat | None => True end.

Lemma drop_oldest_spec tx json o :
  retry o = Some tx -> chan_closed tx = false -> (chan_capacity tx <= length (queued tx))%nat ->
  (length (queued tx) <= chan_capacity tx)%nat ->
  enqueued json (in_queue o) (in_spill o)
    (in_queue (snd (drop_oldest tx json o))) (in_spill (snd (drop_oldest tx json o)))
    (fst (drop_oldest tx json o))
  /\ queue_ok (snd (drop_oldest tx json o)).
Proof.
  intros Hr Hcl Hfull Hle. assert (Hq : in_queue o = queued tx) by (unfold in_queue; by rewrite Hr).
  unfold drop_oldest. destruct (rx_present o); cbn [negb].
  2:{ cbn [snd fst]. split; [|by unfold queue_ok; rewrite Hr]. apply refused; [done..|set_solver]. }
  destruct (rx_locked o).
  { cbn [snd fst]. split; [|by unfold queue_ok; rewrite Hr]. apply refused; [done..|set_solver]. }
  destruct (try_recv_eq tx) as (R1 & R2 & R3 & R4). destruct (try_recv tx) as [old tx1]; cbn [fst snd] in *.
  destruct (try_send_capacity json tx1) as [C1 C2]. pose proof (try_send_cases json tx1) as H.
  destruct (try_send json tx1) as [r tx2]; cbn [fst snd] in *. subst old. rewrite Hq.
  destruct (queued tx) as [|b rest] eqn:Eq; cbn [head tail] in *.
  - destruct H as [(_ & _ & Hlt & _)|[(-> & Hq2 & _)|(_ & _ & Hc)]]; [|simpl|congruence].
    + rewrite R2, R3 in Hlt. simpl in *. lia.
    + unfold in_queue, queue_ok. simpl. rewrite Hq2, R2. split; [|simpl; lia]. apply refused; [done..|set_solver].
  - destruct H as [(-> & Hq2 & _)|[(_ & _ & Hf & _)|(_ & _ & Hc)]]; [|rewrite R2, R3 in Hf; simpl in *; lia|congruence].
    unfold in_queue, queue_ok. simpl. rewrite Hq2, R2, C1, R3. split; [by eapply replaced|]. len_lia.
Qed.

End Enqueue.

(** ** The retry worker *)

Section Worker.

(** The classification of status codes by the [http] crate. *)
Variables (is_success is_server_error : Z -> bool).

Inductive PostOutcome : Type :=
| PostOk                       (* PostOutcome::Success *)
| PostRetryable
| PostNonRetryable (status : Z).

Definition is_retryable_status (status : Z) : bool := (status =? 429) || is_server_error status.

(** What the HTTP client answers: no client, no response, or a status. *)
Inductive post_answer : Type :=
| NoClient
| SendFailed
| Response (status : Z).

Definition post_ingest (a : post_answer) : PostOutcome :=
  match a with
  | NoClient | SendFailed => PostRetryable
  | Response status =>
      if is_success status then PostOk
      else if is_retryable_status status then PostRetryable
      else PostNonRetryable status
  end.

Record worker : Type := Worker { backoff_secs : Z; worker_circuit : circuit }.

(** [read_env_u64(..).max(initial_backoff)]. *)
Definition max_backoff (initial configured : Z) : Z := Z.max configured initial.

Section Loop.
Variables (initial maxb : Z).

(** One POST: the worker afterwards, the base of the delay it sleeps, and
    whether it is done with the batch. *)
Definition worker_post (a : post_answer) (w : worker) : worker * option Z * bool :=
  match post_ingest a with
  | PostOk => (Worker initial (record_post_success (worker_circuit w)), None, true)
  | PostRetryable =>
      (Worker (Z.min (wrapping_mul 64 (backoff_secs w) 2) maxb)
              (record_post_failure (worker_circuit w)), Some (backoff_secs w), false)
  | PostNonRetryable _ => (Worker initial (record_post_success (worker_circuit w)), None, true)
  end.

(** The inner loop on one batch: consumes answers until one settles it.  [None]
    means the answers ran out with the batch still unsettled. *)
Fixpoint deliver (answers : list post_answer) (w : worker)
    : option (PostOutcome * list post_answer) * list Z * worker :=
  match answers with
  | [] => (None, [], w)
  | a :: answers =>
      match worker_post a w with
      | (w, delay, true) => (Some (post_ingest a, answers), [], w)
      | (w, delay, false) =>
          let '(r, delays, w) := deliver answers w in
          (r, match delay with Some d => d :: delays | None => delays end, w)
      end
  end.

(** The outer loop on the queued batches: what happened to each of them. *)
Fixpoint worker_loop (bodies : list body) (answers : list post_answer) (w : worker)
    : list (body * PostOutcome) * list body * worker :=
  match bodies with
  | [] => ([], [], w)
  | b :: bodies =>
      match deliver answers w with
      | (None, _, w) => ([], b :: bodies, w)
      | (Some (o, answers), _, w) =>
          let '(done, waiting, w) := worker_loop bodies answers w in ((b, o) :: done, waiting, w)
      end
  end.

End Loop.
End Worker.

(** The delays after consecutive failures, from base [b]. *)
Fixpoint backoffs (b maxb : Z) (n : nat) : list Z :=
  match n with
  | O => []
  | S n => b :: backoffs (Z.min (b * 2) maxb) maxb n
  end.

Lemma backoffs_lookup b maxb n i :
  0 < b <= maxb -> (i < n)%nat -> backoffs b maxb n !! i = Some (Z.min (b * 2 ^ Z.of_nat i) maxb).
Proof.
  revert b i. induction n as [|n IH]; intros b i Hb Hi; [lia|]. destruct i as [|i]; simpl.
  - f_equal. lia.
  - rewrite IH by lia. f_equal. rewrite Nat2Z.inj_succ, Z.pow_succ_r by lia.
    destruct (Z.min_spec (b * 2) maxb) as [[? ->]|[? ->]]; [lia|].
    assert (1 <= 2 ^ Z.of_nat i) by (apply (Z.pow_le_mono_r 2 0); lia). nia.
Qed.

Lemma length_backoffs b maxb n : length (backoffs b maxb n) = n.
Proof. revert b. induction n; intros; simpl; auto. Qed.

Section WorkerLaws.
Variables (is_success is_server_error : Z -> bool) (initial maxb : Z).
Hypothesis (Hinit : 0 < initial <= maxb) (Hmax : maxb < 2 ^ 63).

Definition retryable (a : post_answer) : Prop :=
  post_ingest is_success is_server_error a = PostRetryable.

Lemma deliver_failures retr rest w :
  Forall retryable retr -> 0 < backoff_secs w <= maxb ->
  exists w', 0 < backoff_secs w' <= maxb
    /\ worker_circuit w' = circuit_run (replicate (length retr) PostFailure) (worker_circuit w)
    /\ deliver is_success is_server_error initial maxb (retr ++ rest) w
       = (let '(r, delays, w2) := deliver is_success is_server_error initial maxb rest w' in
          (r, backoffs (backoff_secs w) maxb (length retr) ++ delays, w2)).
Proof.
  intros Hr. revert w. induction Hr as [|a retr Ha _ IH]; intros w Hw.
  { exists w. split; [done|split; [done|]]. simpl. by destruct (deliver is_success is_server_error initial maxb rest w) as [[? ?] ?]. }
  destruct (IH (Worker (Z.min (wrapping_mul 64 (backoff_secs w) 2) maxb)
                  (record_post_failure (worker_circuit w)))) as (w' & Hw' & Hc & E).
  { unfold wrapping_mul, wrap. simpl. rewrite Z.mod_small by lia. lia. }
  exists w'. split; [done|]. split; [by rewrite Hc|]. simpl. unfold worker_post. rewrite Ha, E. simpl.
  destruct (deliver is_success is_server_error initial maxb rest w') as [[r ds] w2]. unfold wrapping_mul, wrap.
  rewrite Z.mod_small by lia. done.
Qed.

Lemma worker_loop_spec bodies answers w :
  let '(done, waiting, _) := worker_loop is_success is_server_error initial maxb bodies answers w in
  done.*1 ++ waiting = bodies /\ Forall (fun x => snd x <> PostRetryable) done.
Proof.
  revert answers w. induction bodies as [|b bodies IH]; intros answers w; simpl; [done|].
  assert (Hd : forall answers w, match fst (fst (deliver is_success is_server_error initial maxb answers w)) with
    | Some (o, _) => o <> PostRetryable | None => True end).
  { clear. intros answers. induction answers as [|a answers IH]; intros w; [done|]. simpl.
    unfold worker_post. destruct (post_ingest is_success is_server_error a) eqn:E; simpl; rewrite ?E; try done.
    specialize (IH (Worker (Z.min (wrapping_mul 64 (backoff_secs w) 2) maxb)
                  (record_post_failure (worker_circuit w)))).
    by destruct (deliver is_success is_server_error initial maxb answers _) as [[r ds] w2]. }
  specialize (Hd answers w). destruct (deliver is_success is_server_error initial maxb answers w) as [[[[o rest]|] ds] w1]; simpl in *; [|done].
  specialize (IH rest w1). destruct (worker_loop is_success is_server_error initial maxb bodies rest w1) as [[done waiting] w2].
  destruct IH as [<- Hok]. simpl. by split; [|constructor].
Qed.
End WorkerLaws.

(** ** Properties *)

Section Properties.
Context `{!Channel body}.

(** Every branch of an enqueue. *)
Lemma enqueue_spec json o :
  queue_ok o ->
  let '(log, o') := enqueue_batch_json json o in
  enqueued json (in_queue o) (in_spill o) (in_queue o') (in_spill o') log
  /\ queue_ok o'
  /\ (forall tx, retry o = Some tx -> chan_closed tx = false ->
      (0 < chan_room tx)%nat
      \/ (exists w, wal o = Some w /\ wal_enabled w = true /\ chan_closed (append_tx w) = false
                    /\ (0 < chan_room (append_tx w))%nat) ->
      log = []).
Proof.
  intros Hok. unfold enqueue_batch_json. destruct (retry o) as [tx|] eqn:Er.
  2:{ split_and!; [|by unfold queue_ok; rewrite Er|by intros ? [=]]. apply refused; [done..|set_solver]. }
  assert (Hq : in_queue o = queued tx) by (unfold in_queue; by rewrite Er).
  unfold queue_ok in Hok. rewrite Er in Hok.
  pose proof (try_send_cases json tx) as H. destruct (try_send_capacity json tx) as [C1 C2].
  destruct (try_send json tx) as [r tx1]; cbn [fst snd] in *.
  destruct H as [(-> & Q1 & Hlt & Hcl)|[(-> & Q1 & Hge & Hcl)|(-> & Q1 & Hcl)]].
  - rewrite Hq. unfold in_queue, queue_ok, in_spill. simpl. rewrite Q1. split_and!; [by apply to_queue| |done].
    rewrite C1. len_lia.
  - assert (Hroom : chan_room tx = 0%nat) by (unfold chan_room; lia).
    assert (Hdrop : forall w, in_spill (OutputState (Some tx1) (rx_present o) (rx_locked o) w) = in_spill o ->
      let o1 := OutputState (Some tx1) (rx_present o) (rx_locked o) w in
      let '(log, o') := drop_oldest tx1 json o1 in
      enqueued json (in_queue o) (in_spill o) (in_queue o') (in_spill o') log /\ queue_ok o').
    { intros w Hw. cbn zeta. set (o1 := OutputState _ _ _ w) in *.
      destruct (drop_oldest_spec tx1 json o1) as [H1 H2]; [done|congruence|by rewrite C1, Q1|by rewrite C1, Q1|].
      rewrite Hw in H1. unfold in_queue at 1 in H1. simpl in H1. rewrite Q1, <- Hq in H1.
      destruct (drop_oldest tx1 json o1) as [log o']; cbn [fst snd] in *. done. }
    unfold set_retry. destruct (wal o) as [w|] eqn:Ew; cbn [wal].
    + pose proof (try_append_cases json w) as Ha.
      destruct (try_append json w) as [ra w1]; cbn [fst snd] in *.
      destruct Ha as [[-> Qa]|(-> & Qa & Hwhy)].
      * split_and!; [|unfold queue_ok; simpl; by rewrite C1, Q1|done].
        unfold in_queue, in_spill, set_wal. simpl. rewrite Ew, Er. simpl. rewrite Q1.
        by apply to_spill.
      * specialize (Hdrop (Some w1)). unfold set_wal. simpl.
        destruct (drop_oldest tx1 json _) as [log o'] in *.
        destruct Hdrop as [H1 H2]; [unfold in_spill; simpl; by rewrite Ew|]. split_and!; [done|done|].
        intros tx0 [= <-] _ [?|(w0 & [= <-] & W1 & W2 & W3)]; [lia|]. unfold chan_room in W3.
        destruct Hwhy as [?|[?|?]]; [congruence|congruence|lia].
    + specialize (Hdrop None). simpl in Hdrop.
      destruct (drop_oldest tx1 json _) as [log o'] in *.
      destruct Hdrop as [H1 H2]; [unfold in_spill; simpl; by rewrite Ew|]. split_and!; [done|done|].
      intros tx0 [= <-] _ [?|(w0 & ? & _)]; [lia|done].
  - unfold set_retry, in_queue, in_spill, queue_ok. simpl. rewrite Er. simpl. rewrite Q1, C1.
    split_and!; [|done|by intros tx0 [= <-] ?; congruence].
    apply refused; [done..|set_solver].
Qed.

(** Every batch is accounted for.  An enqueue puts the batch at the back of
    the memory queue, or hands it to the log's writer, or replaces the oldest
    queued batch and logs it, or refuses the batch and logs why; nothing else
    changes, the memory queue stays within its capacity, and no batch is lost
    while the worker runs and either the queue or the writer's channel has room. *)
Theorem enqueue_accounts_for_every_batch json o :
  queue_ok o ->
  let '(log, o') := enqueue_batch_json json o in
  enqueued json (in_queue o) (in_spill o) (in_queue o') (in_spill o') log
  /\ queue_ok o'
  /\ (forall tx, retry o = Some tx -> chan_closed tx = false ->
      (0 < chan_room tx)%nat
      \/ (exists w, wal o = Some w /\ wal_enabled w = true /\ chan_closed (append_tx w) = false
                    /\ (0 < chan_room (append_tx w))%nat) ->
      log = []).
Proof. apply enqueue_spec. Qed.

End Properties.
Section WorkerProperties.
Variables (is_success is_server_error : Z -> bool) (initial maxb : Z).

(** C18: the retry worker on one batch.  It posts the batch again after every
    retryable answer (no connection, 429 or a server error), sleeping the
    exponential schedule [min (b * 2^i) max] (before jitter), never gives the
    batch up by itself, and settles it at the first success or other status; the
    backoff is then back at its initial value and the circuit has seen exactly
    the failures and one success. *)
Theorem worker_retries_until_settled retr final rest w :
  0 < initial <= maxb -> maxb < 2 ^ 63 -> 0 < backoff_secs w <= maxb ->
  Forall (retryable is_success is_server_error) retr ->
  ~ retryable is_success is_server_error final ->
  exists delays,
    deliver is_success is_server_error initial maxb (retr ++ final :: rest) w
    = (Some (post_ingest is_success is_server_error final, rest), delays,
       Worker initial
         (circuit_run (replicate (length retr) PostFailure ++ [PostSuccess]) (worker_circuit w)))
    /\ length delays = length retr
    /\ (forall i, (i < length retr)%nat ->
          delays !! i = Some (Z.min (backoff_secs w * 2 ^ Z.of_nat i) maxb))
    /\ fst (fst (deliver is_success is_server_error initial maxb retr w)) = None.
Proof.
  intros Hi Hm Hw Hr Hf. exists (backoffs (backoff_secs w) maxb (length retr)).
  destruct (deliver_failures is_success is_server_error initial maxb Hm retr (final :: rest) w Hr Hw)
    as (w' & Hw' & Hc & ->).
  destruct (deliver_failures is_success is_server_error initial maxb Hm retr [] w Hr Hw)
    as (w2 & _ & _ & E2). rewrite app_nil_r in E2. rewrite E2. simpl.
  split_and!; [| |by intros; apply backoffs_lookup|done].
  - unfold worker_post, retryable in *. rewrite circuit_run_snoc, <- Hc. simpl.
    destruct (post_ingest is_success is_server_error final); [by rewrite app_nil_r|done|by rewrite app_nil_r].
  - apply length_backoffs.
Qed.

(** The worker settles batches in the order they were queued, each at most
    once, and what is not settled stays waiting: settled and waiting batches
    together are always exactly the batches queued, and no batch is settled by a
    retryable answer. *)
Theorem worker_preserves_order bodies answers w :
  let '(done, waiting, _) := worker_loop is_success is_server_error initial maxb bodies answers w in
  done.*1 ++ waiting = bodies /\ Forall (fun x => snd x <> PostRetryable) done.
Proof. apply worker_loop_spec. Qed.

End WorkerProperties.

(** *** Witnesses *)

(** The status classes of RFC 9110, as the [http] crate documents them. *)
Definition status_success (s : Z) : bool := (200 <=? s) && (s <? 300).
Definition status_server_error (s : Z) : bool := (500 <=? s) && (s <? 600).

Definition full_output : output_state :=
  OutputState (Some (Bounded [[1]; [2]] 2 false : chan body)) true false
    (Some (WalHandle (Bounded [] 1 false : chan body) true)).

Lemma enqueue_accounts_for_every_batch_witness :
  let '(log, o') := enqueue_batch_json [3] full_output in
  enqueued [3] [[1]; [2]] [] (in_queue o') (in_spill o') log /\ queue_ok o'.
Proof.
  pose proof (enqueue_accounts_for_every_batch [3] full_output ltac:(vm_compute; lia)) as H.
  destruct (enqueue_batch_json [3] full_output) as [log o']. destruct H as (H1 & H2 & _).
  split; assumption.
Defined.

Lemma worker_retries_until_settled_witness :
  exists delays,
    deliver status_success status_server_error 1 30
      [SendFailed; Response 503; Response 429; Response 200; Response 500] (Worker 1 circuit_init)
    = (Some (PostOk, [Response 500]), delays,
       Worker 1 (circuit_run (replicate 3 PostFailure ++ [PostSuccess]) circuit_init))
    /\ length delays = 3%nat.
Proof.
  destruct (worker_retries_until_settled status_success status_server_error 1 30
    [SendFailed; Response 503; Response 429] (Response 200) [Response 500] (Worker 1 circuit_init))
    as (delays & H1 & H2 & _).
  - lia.
  - lia.
  - simpl. lia.
  - repeat constructor.
  - intros H. discriminate H.
  - exists delays. split; [exact H1|exact H2].
Defined.
