(* ===== verification/Delivery.v ===== *)
(** * Delivery: the life of a batch between the agent and the gateway

    Puts the agent's delivery tasks together: [enqueue_batch_json] and the retry
    worker of [Output], the writer thread of [Writer] and the drainer of [Drainer],
    with the state they share (the retry queue, the spill channel, the log behind
    its lock and the circuit).  A step is one turn of one of the tasks; the log's
    lock is held for the whole of a burst of the writer and of a sweep's peek, so
    these turns do not overlap.  The theorem: a batch never vanishes silently. *)

From S2P Require Export Writer Drainer Output.

Section Delivery.
Context {crc : Crc32} `{!Channel body}.
Variables (is_success is_server_error : Z -> bool) (initial maxb : Z).

(** The statics, the log, the retry worker with the circuit and the batch it is
    posting, and, for the record, the batches it has settled and the lines the
    enqueues logged. *)
Record pipe : Type := Pipe {
  p_out : output_state;
  p_log : wal_state;
  p_worker : worker;
  p_hand : option body;
  p_settled : list (body * PostOutcome);
  p_drops : list drop_log
}.

(** [Emit]: the event loop hands over a batch, the receiver's lock being taken or
    not.  [Burst]: the writer thread takes what is queued, with the answers of its
    clock test.  [Sweep]: one pass of the drainer.  [Post]: the retry worker takes
    a batch if it has none and posts it once. *)
Inductive pipe_event : Type :=
| Emit (json : body) (locked : bool)
| Burst (clock : list bool)
| Sweep
| Post (a : post_answer).

(** Everything queued in a channel. *)
Fixpoint recv_all (n : nat) (c : chan body) : list body * chan body :=
  match n with
  | O => ([], c)
  | S n =>
      match try_recv c with
      | (Some b, c) => let '(bs, c) := recv_all n c in (b :: bs, c)
      | (None, c) => ([], c)
      end
  end.

(** The clock says no once its answers are used up. *)
Fixpoint with_clock (bs : list body) (clock : list bool) : list (body * bool) :=
  match bs with
  | [] => []
  | b :: bs => (b, default false (head clock)) :: with_clock bs (tail clock)
  end.

Definition pipe_step (e : pipe_event) (p : pipe) : option pipe :=
  match e with
  | Emit json locked =>
      let o := OutputState (retry (p_out p)) (rx_present (p_out p)) locked (wal (p_out p)) in
      let '(log, o) := enqueue_batch_json json o in
      Some (Pipe o (p_log p) (p_worker p) (p_hand p) (p_settled p) (p_drops p ++ log))
  | Burst clock =>
      match wal (p_out p) with
      | None => Some p
      | Some w =>
          let '(bs, c) := recv_all (length (queued (append_tx w))) (append_tx w) in
          let o := set_wal (WalHandle c (wal_enabled w)) (p_out p) in
          match bs with
          | [] => Some (Pipe o (p_log p) (p_worker p) (p_hand p) (p_settled p) (p_drops p))
          | first :: rest =>
              let '(_, s) := group_commit first (with_clock rest clock) (p_log p) in
              Some (Pipe o s (p_worker p) (p_hand p) (p_settled p) (p_drops p))
          end
      end
  | Sweep =>
      match wal (p_out p), retry (p_out p) with
      | Some w, Some tx =>
          if wal_enabled w then
            d ← sweep (Drain (p_log p) tx (worker_circuit (p_worker p)));
            Some (Pipe (set_retry (dr_retry d) (p_out p)) (dr_wal d)
                    (Worker (backoff_secs (p_worker p)) (dr_circuit d)) (p_hand p) (p_settled p) (p_drops p))
          else Some p
      | _, _ => Some p
      end
  | Post a =>
      let '(hand, o) :=
        match p_hand p, retry (p_out p) with
        | Some b, _ => (Some b, p_out p)
        | None, Some tx => let '(b, tx) := try_recv tx in (b, set_retry tx (p_out p))
        | None, None => (None, p_out p)
        end in
      match hand with
      | None => Some (Pipe o (p_log p) (p_worker p) None (p_settled p) (p_drops p))
      | Some b =>
          let '(w, _, settled) := worker_post is_success is_server_error initial maxb a (p_worker p) in
          if settled
          then Some (Pipe o (p_log p) w None
                       (p_settled p ++ [(b, post_ingest is_success is_server_error a)]) (p_drops p))
          else Some (Pipe o (p_log p) w (Some b) (p_settled p) (p_drops p))
      end
  end.

Fixpoint pipe_run (es : list pipe_event) (p : pipe) : option pipe :=
  match es with
  | [] => Some p
  | e :: es => p ← pipe_step e p; pipe_run es p
  end.

(** ** Counting the losses of the log *)

Abbreviation lost_in_log s := (metric (w_metrics (disk s)) M_DROPPED_BATCHES).

(** The log holds the queue [q] on a healthy disk, in files that are all its own,
    with room in its counters. *)
Record log_ok (n : nat) (s : wal_state) (q : list DecodedFrame) : Prop := {
  lo_rep : exists segs k, wal_rep true s segs k /\ queue segs k = q;
  lo_healthy : healthy (disk s);
  lo_tidy : tidy s;
  lo_margin : margin n s
}.

(** From holding [q] to holding [q'], with [ps] added: what is missing was counted. *)
Definition log_moves (s s' : wal_state) (q : list DecodedFrame) (ps : list body) (q' : list DecodedFrame) : Prop :=
  exists lost, (payload <$> q) ++ ps ≡ₚ (payload <$> q') ++ lost /\ lost_in_log s + zlen lost <= lost_in_log s'.

Lemma log_moves_refl s s' q : lost_in_log s' = lost_in_log s -> log_moves s s' q [] q.
Proof. intros E. exists []. rewrite E. split; [done|simpl; lia]. Qed.

Lemma log_moves_trans s1 s2 s3 q1 q2 q3 ps1 ps2 :
  log_moves s1 s2 q1 ps1 q2 -> log_moves s2 s3 q2 ps2 q3 -> log_moves s1 s3 q1 (ps1 ++ ps2) q3.
Proof.
  intros (l1 & H1 & C1) (l2 & H2 & C2). exists (l2 ++ l1). split; [|len_lia].
  rewrite app_assoc, H1. rewrite <- app_assoc, (Permutation_app_comm l1), app_assoc, H2. by rewrite app_assoc.
Qed.

(** There is a segment to append to; the drainer sees the frames there are. *)
Definition log_active (s : wal_state) : Prop := is_Some (active (inner s)).
Definition log_live (s : wal_state) (q : list DecodedFrame) : Prop := q = [] \/ log_active s.

Lemma append_one_counts s q p n :
  log_ok (S n) s q -> payload_ok p ->
  wp (append_one p) (fun r s' => r = Ok tt /\ log_active s'
                                 /\ exists q', log_ok n s' q' /\ log_moves s s' q [p] q') s.
Proof.
  intros [(segs & k & R & <-) Hh Ht Hm] Hp. pose proof (frame_size_bound p Hp) as Hsz.
  apply wp_bind, wp_attempt.
  apply (wp_mono _ (fun r s' => exists pre segs', append_post s segs k p r s' pre segs')).
  { apply append_outcome; [done..|]. unfold margin in *. lia. }
  intros r s' (pre & segs' & [_ _ A3 A4 A5 _ A7 _ _ _ A10 _ A12 A13 A14 A15]).
  destruct A7 as [->|[_ []]]; [|done]. apply wp_ret. split; [done|]. split; [by apply A15|]. cbn [is_ok] in *.
  exists (queue segs' (restart pre k)). split.
  { split; [by exists segs', (restart pre k)|by apply A12|by apply A14|]. unfold margin, SEGMENT_HEADER_LEN in *. lia. }
  set (d := (length (concat pre) - k)%nat) in *. exists (payload <$> take d (queue segs k)). rewrite A4. split.
  - rewrite <- (take_drop d (queue segs k)) at 1. rewrite !fmap_app. cbn. solve_Permutation.
  - assert (zlen (concat pre) = sumZ (fun fr => zlen fr) pre) as E.
    { clear. induction pre as [|fr pre IH]; [done|]. rewrite sumZ_cons, <- IH. simpl. len_lia. }
    rewrite A5, <- E, length_fmap, length_take. lia.
Qed.

Lemma sync_counts s q n :
  log_ok n s q ->
  wp sync (fun r s' => r = Ok tt /\ (log_active s -> log_active s') /\ log_ok n s' q /\ log_moves s s' q [] q) s.
Proof.
  destruct s as [st w]. intros [(segs & k & R & Hq) Hh Ht Hm]. unfold sync, sync_active.
  apply wp_bind, wp_attempt, wp_bind, wp_gets. cbn [inner].
  destruct (active st) as [a|] eqn:Ea.
  - apply wp_zoom, wp_syscall; cbn [inner disk]; [|by intros w1 _ []].
    intros w1 H1. apply wp_ret. pose proof (advanced_files _ _ H1) as Hf.
    split; [done|]. split; [done|]. split.
    + split; [|by apply (advanced_healthy _ _ H1)|by apply (tidy_files st st w)|done]. exists segs, k. split; [|done].
      by apply (rep_frame _ _ w); [|cbn; rewrite Hf].
    + apply log_moves_refl. cbn. by rewrite (advanced_metrics _ _ H1).
  - apply wp_ret, wp_ret. split; [done|]. split; [done|]. split; [|by apply log_moves_refl]. split; [|done..]. by exists segs, k.
Qed.

Lemma drain_burst_counts rest ff since s q n :
  log_ok (length rest + n) s q -> Forall payload_ok rest.*1 ->
  wp (drain_burst rest ff since) (fun r s' => is_ok r = true /\ (log_active s -> log_active s')
    /\ exists q', log_ok n s' q' /\ log_moves s s' q rest.*1 q') s.
Proof.
  revert since s q. induction rest as [|[p el] rest IH]; intros since s q Hi Hp.
  { apply wp_ret. split; [done|]. split; [done|]. exists q. split; [done|by apply log_moves_refl]. }
  rewrite fmap_cons in *. apply Forall_cons in Hp as [Hp Hp']. cbn [drain_burst]. apply wp_bind.
  eapply wp_mono; [by apply (append_one_counts s q p (length rest + n))|].
  intros r s1 (-> & Hac1 & q1 & Hi1 & Hm1). cbn zeta.
  assert (Hgo : forall since1 s2, log_active s2 -> log_ok (length rest + n) s2 q1 -> log_moves s1 s2 q1 [] q1 ->
    wp (drain_burst rest ff since1) (fun r s' => is_ok r = true /\ (log_active s -> log_active s')
      /\ exists q', log_ok n s' q' /\ log_moves s s' q (p :: rest.*1) q') s2).
  { intros since1 s2 Hac2 Hi2 Hm2. eapply wp_mono; [by apply IH|]. intros r s' (E & Hac & q' & Hq' & Hm').
    split; [done|]. split; [by intros _; apply Hac|]. exists q'. split; [done|]. apply (log_moves_trans _ s2 _ _ q1 _ [p] rest.*1); [|done].
    by apply (log_moves_trans _ s1 _ _ q1 _ [p] []). }
  destruct (_ || el); [|apply Hgo; [exact Hac1|exact Hi1|by apply log_moves_refl]].
  apply wp_bind. eapply wp_mono; [by apply (sync_counts s1)|]. intros r s2 (-> & Hac2 & Hi2 & Hm2). apply Hgo; auto.
Qed.

Lemma group_commit_counts first rest s q n :
  log_ok (S (length rest) + n) s q -> Forall payload_ok (first :: rest.*1) ->
  log_active (group_commit first rest s).2
  /\ exists q', log_ok n (group_commit first rest s).2 q'
    /\ log_moves s (group_commit first rest s).2 q (first :: rest.*1) q'.
Proof.
  intros Hi Hp. apply Forall_cons in Hp as [Hp Hp'].
  assert (H : wp (group_commit first rest) (fun _ s' => log_active s' /\ exists q', log_ok n s' q'
    /\ log_moves s s' q (first :: rest.*1) q') s).
  { unfold group_commit. apply wp_bind, wp_gets, wp_bind.
    eapply wp_mono; [by apply (append_one_counts s q first (length rest + n))|].
    intros r s1 (-> & Hac1 & q1 & Hi1 & Hm1). apply wp_bind. eapply wp_mono; [by apply (drain_burst_counts rest _ 1 s1 q1 n)|].
    intros r s2 (E & Hac2 & q2 & Hi2 & Hm2). specialize (Hac2 Hac1). destruct r as [since|]; [|done].
    pose proof (log_moves_trans _ _ _ _ _ _ _ _ Hm1 Hm2) as Hm. apply wp_when; intros _; [|split; [done|by exists q2]].
    eapply wp_mono; [by apply (sync_counts s2)|]. intros r s3 (_ & Hac3 & Hi3 & Hm3). split; [auto|]. exists q2. split; [done|].
    rewrite <- (app_nil_r (first :: rest.*1)). by eapply log_moves_trans. }
  unfold wp in H. by destruct (group_commit first rest s).
Qed.

(** ** Accounting *)

(** The batches on their way, and the losses reported so far. *)
Definition waiting (p : pipe) (q : list DecodedFrame) : list body :=
  option_list (p_hand p) ++ in_queue (p_out p) ++ in_spill (p_out p) ++ (payload <$> q).
Definition reported (p : pipe) : Z := zlen (p_drops p) + lost_in_log (p_log p).

Definition emitted (es : list pipe_event) : list body :=
  omap (fun e => match e with Emit json _ => Some json | _ => None end) es.
Definition pipe_event_ok (e : pipe_event) : Prop := match e with Emit json _ => payload_ok json | _ => True end.

(** [n] more batches can be appended to the log. *)
Record pipe_inv (n : nat) (p : pipe) (q : list DecodedFrame) : Prop := {
  pi_log : log_ok (length (in_spill (p_out p)) + n) (p_log p) q;
  pi_spill : Forall payload_ok (in_spill (p_out p));
  pi_queue : queue_ok (p_out p)
}.

Lemma log_ok_le n m s q : (n <= m)%nat -> log_ok m s q -> log_ok n s q.
Proof. intros Hle [H1 H2 H3 H4]. split; [done..|]. unfold margin in *. lia. Qed.

Lemma recv_all_spec c :
  (recv_all (length (queued c)) c).1 = queued c /\ queued (recv_all (length (queued c)) c).2 = [].
Proof.
  remember (queued c) as l eqn:E. revert c E. induction l as [|b l IH]; intros c E; [done|].
  cbn [recv_all length]. destruct (try_recv_eq c) as (R1 & R2 & _ & _). destruct (try_recv c) as [r c1].
  cbn [fst snd] in *. rewrite <- E in R1, R2. cbn in R1, R2. subst r. destruct (IH c1 ltac:(done)) as [I1 I2].
  destruct (recv_all (length l) c1) as [bs c2]. cbn [fst snd] in *. by rewrite I1.
Qed.

Lemma with_clock_fst bs clock : (with_clock bs clock).*1 = bs.
Proof. revert clock. induction bs as [|b bs IH]; intros clock; cbn; [done|]. by rewrite IH. Qed.

(** A step loses only what it reports. *)
Definition accounted (e : pipe_event) (p p' : pipe) (q q' : list DecodedFrame) : Prop :=
  exists lost, emitted [e] ++ (p_settled p).*1 ++ waiting p q ≡ₚ (p_settled p').*1 ++ waiting p' q' ++ lost
    /\ reported p + zlen lost <= reported p'.

Lemma refused_one (l : list drop_log) :
  l ∈ [[NotInitialized]; [ReceiverMissing]; [QueueLocked]; [WorkerClosed]; [StillFull]] -> length l = 1%nat.
Proof. intros H. by repeat (apply elem_of_cons in H as [->|H]; [done|]); apply elem_of_nil in H. Qed.

Lemma emit_accounts json locked p q n :
  pipe_inv (S n) p q -> payload_ok json ->
  exists p', pipe_step (Emit json locked) p = Some p' /\ pipe_inv n p' q /\ accounted (Emit json locked) p p' q q.
Proof.
  intros [Hl Hs Hq] Hj. cbn [pipe_step]. set (o := OutputState _ _ locked _).
  pose proof (enqueue_spec json o Hq) as H. destruct (enqueue_batch_json json o) as [log o'].
  destruct H as (He & Hq' & _). eexists. split; [done|]. unfold accounted, waiting, reported. cbn.
  change (in_queue (p_out p)) with (in_queue o). change (in_spill (p_out p)) with (in_spill o) in *.
  inversion He as [E1 E2|E1 E2|old rest E0 E1 E2|l E1 E2 Hin]; subst; rewrite ?E0, ?E1, ?E2 in *.
  - split; [split; cbn; rewrite ?E2; [by eapply log_ok_le; [|done]; lia|done|done]|].
    exists []. split; [solve_Permutation|]. simpl. rewrite length_app. simpl. lia.
  - split; [split; cbn; rewrite ?E2; [eapply log_ok_le; [|done]; len_lia|by apply Forall_app; split; [|by constructor]|done]|].
    exists []. split; [solve_Permutation|]. rewrite app_nil_r. simpl. lia.
  - split; [split; cbn; rewrite ?E2; [by eapply log_ok_le; [|done]; lia|done|done]|].
    exists [old]. split; [solve_Permutation|]. rewrite length_app. simpl. lia.
  - split; [split; cbn; rewrite ?E2; [by eapply log_ok_le; [|done]; lia|done|done]|].
    exists [json]. split; [solve_Permutation|]. rewrite length_app.
    rewrite (refused_one log Hin). simpl. lia.
Qed.

Lemma burst_accounts clock p q n :
  pipe_inv n p q ->
  exists p' q', pipe_step (Burst clock) p = Some p' /\ pipe_inv n p' q' /\ accounted (Burst clock) p p' q q'
    /\ (log_live (p_log p) q -> log_live (p_log p') q').
Proof.
  intros [Hl Hs Hq]. cbn [pipe_step]. destruct (wal (p_out p)) as [w|] eqn:Ew.
  2:{ exists p, q. split; [done|]. split; [done|]. split; [|done]. exists []. rewrite app_nil_r. split; [done|simpl; lia]. }
  destruct (recv_all_spec (append_tx w)) as [R1 R2]. destruct (recv_all _ (append_tx w)) as [bs c]. cbn [fst snd] in *.
  set (o := set_wal _ _). assert (Eo : in_queue o = in_queue (p_out p)) by done.
  assert (Es : in_spill o = []) by done.
  assert (E1 : in_spill (p_out p) = bs) by (unfold in_spill; by rewrite Ew). rewrite E1 in Hl, Hs.
  assert (Hqo : queue_ok o) by done. destruct bs as [|first rest].
  - eexists _, q. split; [done|]. split; [split; cbn [p_out p_log]; rewrite ?Es; done|].
    split; [|done]. exists []. unfold waiting, reported. cbn [p_out p_hand p_settled p_log p_drops]. rewrite Eo, Es, E1.
    rewrite app_nil_r. split; [done|simpl; lia].
  - destruct (group_commit_counts first (with_clock rest clock) (p_log p) q n) as (G0 & q' & G1 & (lost & G2 & G3)).
    { by rewrite <- (length_fmap fst), with_clock_fst. }
    { by rewrite with_clock_fst. }
    destruct (group_commit first (with_clock rest clock) (p_log p)) as [r s]. cbn [snd] in *.
    eexists _, q'. split; [done|]. split; [split; cbn [p_out p_log]; rewrite ?Es; done|].
    split; [|intros _; by right]. exists lost. unfold waiting, reported. cbn [p_out p_hand p_settled p_log p_drops]. rewrite Eo, Es, E1.
    rewrite with_clock_fst in G2. split; [|lia].
    assert (G4 : (first :: rest) ++ (payload <$> q) ≡ₚ (payload <$> q') ++ lost) by (by rewrite Permutation_app_comm).
    change (emitted [Burst clock]) with (@nil body). rewrite G4. solve_Permutation.
Qed.

(** The drainer runs, and its circuit lets it post. *)
Definition can_drain (p : pipe) : Prop :=
  match wal (p_out p), retry (p_out p) with
  | Some w, Some tx => wal_enabled w = true /\ chan_closed tx = false /\ (0 < chan_capacity tx)%nat
                       /\ circuit_state (worker_circuit (p_worker p)) <> Open
  | _, _ => False
  end.

Lemma sweep_accounts p q n :
  pipe_inv n p q ->
  exists p' q', pipe_step Sweep p = Some p' /\ pipe_inv n p' q' /\ accounted Sweep p p' q q'
    /\ (log_live (p_log p) q -> log_live (p_log p') q' /\ (can_drain p -> q' = [] \/ in_queue (p_out p') <> [])).
Proof.
  intros [Hl Hs Hq]. cbn [pipe_step].
  assert (Hid : ~ can_drain p -> exists p' q', Some p = Some p' /\ pipe_inv n p' q' /\ accounted Sweep p p' q q'
    /\ (log_live (p_log p) q -> log_live (p_log p') q' /\ (can_drain p -> q' = [] \/ in_queue (p_out p') <> []))).
  { intros Hc. exists p, q. split; [done|]. split; [done|]. split; [|done]. exists []. rewrite app_nil_r. split; [done|simpl; lia]. }
  unfold can_drain in Hid |- *.
  destruct (wal (p_out p)) as [w|]; [|apply Hid; tauto]. destruct (retry (p_out p)) as [tx|] eqn:Er; [|apply Hid; tauto].
  destruct (wal_enabled w); [clear Hid|apply Hid; intros (? & _); done].
  destruct Hl as [Hr Hh Ht Hm]. set (d := Drain (p_log p) tx (worker_circuit (p_worker p))).
  assert (Hd : holds d q) by (split; [exact Hr|unfold margin in Hm; simpl; lia]).
  destruct (sweep_spec d q Hd) as (d' & k & Esw & Hk & ((Hr' & _) & Q1 & C1 & _ & Hh' & (K1 & K4 & K2 & Kt & _ & K3) & Hroom) & _).
  rewrite Esw. cbn [mbind option_bind]. set (o := set_retry _ _). eexists _, (drop k q). split; [done|].
  cbn [dr_retry dr_wal d] in *. assert (Eq : in_queue (p_out p) = queued tx) by (unfold in_queue; by rewrite Er).
  assert (Eo : in_queue o = queued (dr_retry d')) by done. assert (Es : in_spill o = in_spill (p_out p)) by done.
  split; [|split].
  3:{ intros Hlive. cbn [p_log p_out]. split.
      - destruct Hlive as [->|Ha]; [left; by rewrite drop_nil|right]. unfold log_active. by rewrite K2.
      - intros (_ & Hcl & Hcap & Hco). destruct (sweep_progress d q Hd Hh Hcl Hcap Hlive Hco)
          as (d2 & k2 & E2 & Hm2 & _ & Hp2). rewrite Esw in E2. injection E2 as <-.
        rewrite Eo. destruct Hp2 as [Hp2|]; [left|by right].
        destruct Hm2 as (_ & Q2 & _). rewrite Q1 in Q2. apply app_inv_head in Q2.
        apply (f_equal length) in Q2. rewrite !length_fmap, !length_take in Q2.
        apply drop_ge. apply (f_equal length) in Hp2. rewrite length_drop in Hp2. simpl in Hp2. lia. }
  - split; cbn [p_out p_log]; rewrite ?Es; [|done|].
    + split; [done|by apply Hh'|by apply Kt|]. unfold margin in *. lia.
    + unfold queue_ok in *. rewrite Er in Hq. cbn. rewrite Q1, C1. unfold chan_room in Hroom. len_simpl. lia.
  - exists []. unfold waiting, reported. cbn [p_out p_hand p_settled p_log p_drops].
    rewrite Eo, Es, Eq, Q1, K3. split; [|simpl; lia]. rewrite <- (take_drop k q) at 1. rewrite fmap_app.
    change (emitted [Sweep]) with (@nil body). solve_Permutation.
Qed.

Lemma post_accounts a p q n :
  pipe_inv n p q ->
  exists p', pipe_step (Post a) p = Some p' /\ pipe_inv n p' q /\ accounted (Post a) p p' q q.
Proof.
  intros [Hl Hs Hq]. cbn [pipe_step].
  set (r := match p_hand p, retry (p_out p) with Some _, _ | None, None => _ | None, Some tx => _ end).
  assert (Hr : option_list r.1 ++ in_queue r.2 = option_list (p_hand p) ++ in_queue (p_out p)
    /\ in_spill r.2 = in_spill (p_out p) /\ queue_ok r.2).
  { unfold r. destruct (p_hand p) as [b|]; [done|]. destruct (retry (p_out p)) as [tx|] eqn:Er; [|done].
    destruct (try_recv_eq tx) as (R1 & R2 & R3 & _). destruct (try_recv tx) as [b c]. cbn [fst snd] in *.
    unfold in_queue, queue_ok in *. rewrite Er in Hq |- *. cbn. rewrite R2, R3, R1.
    split; [by destruct (queued tx)|]. split; [done|]. destruct (queued tx); simpl in *; lia. }
  destruct r as [hand o]. cbn [fst snd] in Hr. destruct Hr as (H1 & H2 & H3).
  assert (Hgo : forall w hand' l, option_list hand = l.*1 ++ option_list hand' ->
    let p' := Pipe o (p_log p) w hand' (p_settled p ++ l) (p_drops p) in
    pipe_inv n p' q /\ accounted (Post a) p p' q q).
  { intros w hand' l El p'. split; [split; cbn; rewrite ?H2; done|].
    exists []. unfold waiting, reported, p'. cbn [p_out p_hand p_settled p_log p_drops]. rewrite H2.
    split; [|simpl; lia]. rewrite (app_assoc (option_list (p_hand p))), <- H1, El, fmap_app.
    change (emitted [Post a]) with (@nil body). solve_Permutation. }
  assert (Hnil : forall w hand', option_list hand = option_list hand' ->
    let p' := Pipe o (p_log p) w hand' (p_settled p) (p_drops p) in
    pipe_inv n p' q /\ accounted (Post a) p p' q q).
  { intros w hand' E. specialize (Hgo w hand' [] E). by rewrite app_nil_r in Hgo. }
  destruct hand as [b|]; [|eexists; split; [done|by apply Hnil]].
  destruct (worker_post _ _ _ _ _ _) as [[w delay] []]; eexists; (split; [done|]).
  - by apply Hgo.
  - by apply Hnil.
Qed.

Definition step_cost (e : pipe_event) : nat := match e with Emit _ _ => 1 | _ => 0 end.

Lemma step_accounts e p q n :
  pipe_inv (step_cost e + n) p q -> pipe_event_ok e ->
  exists p' q', pipe_step e p = Some p' /\ pipe_inv n p' q' /\ accounted e p p' q q'.
Proof.
  intros Hi He. destruct e as [json locked|clock| |a].
  - destruct (emit_accounts json locked p q n Hi He) as (p' & H). by exists p', q.
  - destruct (burst_accounts clock p q n Hi) as (p' & q' & H1 & H2 & H3 & _). by exists p', q'.
  - destruct (sweep_accounts p q n Hi) as (p' & q' & H1 & H2 & H3 & _). by exists p', q'.
  - destruct (post_accounts a p q n Hi) as (p' & H). by exists p', q.
Qed.

Lemma pipe_run_accounts es p q :
  Forall pipe_event_ok es -> pipe_inv (length (emitted es)) p q ->
  exists p' q' lost, pipe_run es p = Some p' /\ pipe_inv 0 p' q'
    /\ emitted es ++ (p_settled p).*1 ++ waiting p q ≡ₚ (p_settled p').*1 ++ waiting p' q' ++ lost
    /\ zlen lost <= reported p' - reported p.
Proof.
  intros He. revert p q. induction He as [|e es He _ IH]; intros p q Hi.
  { exists p, q, []. split; [done|]. split; [done|]. rewrite app_nil_r. split; [done|simpl; lia]. }
  assert (Ec : length (emitted (e :: es)) = (step_cost e + length (emitted es))%nat) by (by destruct e).
  rewrite Ec in Hi. destruct (step_accounts e p q _ Hi He) as (p1 & q1 & E1 & Hi1 & l1 & H1 & C1).
  destruct (IH p1 q1 Hi1) as (p2 & q2 & l2 & E2 & Hi2 & H2 & C2).
  exists p2, q2, (l2 ++ l1). cbn [pipe_run]. rewrite E1. split; [done|]. split; [done|]. split; [|len_simpl; lia].
  assert (Ee : emitted (e :: es) = emitted [e] ++ emitted es) by (by destruct e).
  rewrite Ee, <- app_assoc, (Permutation_app_comm (emitted es)), app_assoc, H1.
  transitivity ((emitted es ++ (p_settled p1).*1 ++ waiting p1 q1) ++ l1); [solve_Permutation|].
  rewrite H2. solve_Permutation.
Qed.

(** ** Property *)

(** A batch never vanishes silently.  On a healthy disk, whatever the order
    in which the event loop, the writer thread, the drainer and the retry worker
    take their turns and whatever the gateway answers, every turn ends, and the
    batches emitted and those waiting at the start are, each exactly once, settled
    (accepted, or refused for good by the gateway), waiting in memory, in the spill channel or in the log, or lost;
    and the losses are at most what the agent reported: one logged line per batch
    lost before the log, and the counter of batches the log dropped. *)
Theorem no_batch_vanishes_silently es p q :
  Forall pipe_event_ok es -> pipe_inv (length (emitted es)) p q ->
  exists p' q' lost, pipe_run es p = Some p' /\ pipe_inv 0 p' q'
    /\ emitted es ++ (p_settled p).*1 ++ waiting p q ≡ₚ (p_settled p').*1 ++ waiting p' q' ++ lost
    /\ zlen lost <= reported p' - reported p.
Proof. apply pipe_run_accounts. Qed.

End Delivery.

(** ** Witness *)

(** A full retry queue of two, a spill channel of one, an empty log. *)
Definition sample_pipe : pipe :=
  Pipe full_output (fresh_wal sample_cfg fresh_world) (Worker 1 circuit_init) None [] [].

Definition sample_turns : list pipe_event :=
  [Emit (sample_payload 3) false; Burst [true]; Emit (sample_payload 4) false; Emit (sample_payload 5) false;
   Post (Response 503); Post (Response 200); Sweep; Post (Response 404)].

Abbreviation sample_end := (pipe_run status_success status_server_error 1 30 sample_turns sample_pipe).

(** The first batch goes to the log and comes back, the second to the spill
    channel, the third replaces the oldest; the gateway settles two. *)
Example sample_turns_outcome :
  (fun p => ((p_settled p).*1, in_queue (p_out p), in_spill (p_out p), p_drops p)) <$> sample_end
  = Some ([[2]; sample_payload 5], [sample_payload 3], [sample_payload 4], [DroppedOldest]).
Proof. vm_compute. reflexivity. Qed.

Lemma sample_turns_ok : Forall pipe_event_ok sample_turns.
Proof. repeat constructor; apply sample_payload_ok. Qed.

Lemma no_batch_vanishes_silently_witness :
  exists p' q' lost, sample_end = Some p' /\ pipe_inv 0 p' q'
    /\ [sample_payload 3; sample_payload 4; sample_payload 5] ++ waiting sample_pipe []
       ≡ₚ (p_settled p').*1 ++ waiting p' q' ++ lost
    /\ zlen lost <= reported p' - reported sample_pipe.
Proof.
  apply (no_batch_vanishes_silently status_success status_server_error 1 30 sample_turns sample_pipe []).
  - exact sample_turns_ok.
  - split; [split| |].
    + exists [], 0%nat. split; [apply fresh_rep|reflexivity].
    + reflexivity.
    + by apply fresh_tidy.
    + apply fresh_margin. simpl. lia.
    + constructor.
    + vm_compute. lia.
Defined.
