(* ===== verification/Wire.v ===== *)
(** * Wire: the records that cross a boundary

    Models [statix-common/src/lib.rs], the 64-byte ring-buffer record shared with
    the kernel program, with its [repr(C)] layout, and [statix-wire/src/lib.rs],
    the JSON batch the agent posts to the gateway.  JSON is the value tree that
    serde maps the records to and from: objects are lists of fields, a field
    marked [skip_serializing_if] is left out when it is [None], one marked
    [default] may be missing, unknown fields are ignored and a repeated field is
    an error. *)

From S2P Require Export Prelude.

(** ** The ring-buffer record *)

Definition EVENT_KIND_WORKLOAD_IDENTITY : Z := 1.
Definition EVENT_KIND_MEMORY_SAMPLE : Z := 2.

(** The padding fields are zero in every event the program builds. *)
Record StatixEvent : Type := {
  kind : Z;
  pid : Z;
  tgid : Z;
  cpu_id : Z;
  event_cgroup_id : Z;
  timestamp : Z;
  memory_bytes : Z;
  comm : list Z
}.

Definition event_ok (e : StatixEvent) : Prop :=
  urange 8 (kind e) /\ urange 32 (pid e) /\ urange 32 (tgid e) /\ urange 32 (cpu_id e)
  /\ urange 64 (event_cgroup_id e) /\ urange 64 (timestamp e) /\ urange 64 (memory_bytes e)
  /\ length (comm e) = 16%nat /\ Forall byte_ok (comm e).

#[export] Instance event_ok_dec e : Decision (event_ok e).
Proof. unfold event_ok, byte_ok. apply _. Defined.

Definition encode_event (e : StatixEvent) : list Z :=
  le_bytes 1 (kind e) ++ replicate 7 0 ++ le_bytes 4 (pid e) ++ le_bytes 4 (tgid e)
  ++ le_bytes 4 (cpu_id e) ++ replicate 4 0 ++ le_bytes 8 (event_cgroup_id e)
  ++ le_bytes 8 (timestamp e) ++ le_bytes 8 (memory_bytes e) ++ comm e.

Definition field (off len : nat) (bs : list Z) : list Z := take len (drop off bs).

Definition decode_event (bs : list Z) : StatixEvent :=
  {| kind := from_le (field 0 1 bs); pid := from_le (field 8 4 bs); tgid := from_le (field 12 4 bs);
     cpu_id := from_le (field 16 4 bs); event_cgroup_id := from_le (field 24 8 bs);
     timestamp := from_le (field 32 8 bs); memory_bytes := from_le (field 40 8 bs);
     comm := field 48 16 bs |}.

(** ** The ingest batch *)

Record WorkloadRow : Type := {
  cgroup_id : Z;
  namespace : option string;
  pod : option string;
  container : option string;
  k8s_resolved : bool;
  memory_bytes_max : Z;
  memory_bytes_last : Z;
  exec_count : Z;
  sample_count : Z;
  cpu_usage_usec : Z;
  cpu_request_millicores : Z;
  memory_request_bytes : Z;
  cpu_limit_millicores : Z;
  memory_limit_bytes : Z
}.

Record IngestBatch : Type := {
  schema_version : Z;
  window_start_ns : Z;
  window_end_ns : Z;
  node : string;
  batch_id : string;
  agent_version : string;
  workloads : list WorkloadRow
}.

#[warnings="-register-all"]
Inductive json : Type :=
| JNull
| JBool (b : bool)
| JNum (n : Z)
| JStr (s : string)
| JArr (l : list json)
| JObj (l : list (string * json)).

(** *** Serializing *)

Definition opt_field (name : string) (v : option string) : list (string * json) :=
  match v with Some s => [(name, JStr s)] | None => [] end.

Definition row_fields (r : WorkloadRow) : list (string * json) :=
  ([("cgroup_id", JNum (cgroup_id r))]
    ++ opt_field "namespace" (namespace r) ++ opt_field "pod" (pod r)
    ++ opt_field "container" (container r)
    ++ [("k8s_resolved", JBool (k8s_resolved r));
        ("memory_bytes_max", JNum (memory_bytes_max r));
        ("memory_bytes_last", JNum (memory_bytes_last r));
        ("exec_count", JNum (exec_count r)); ("sample_count", JNum (sample_count r));
        ("cpu_usage_usec", JNum (cpu_usage_usec r));
        ("cpu_request_millicores", JNum (cpu_request_millicores r));
        ("memory_request_bytes", JNum (memory_request_bytes r));
        ("cpu_limit_millicores", JNum (cpu_limit_millicores r));
        ("memory_limit_bytes", JNum (memory_limit_bytes r))]).

Definition row_to_json (r : WorkloadRow) : json := JObj (row_fields r).

Definition batch_to_json (b : IngestBatch) : json :=
  JObj [("schema_version", JNum (schema_version b));
        ("window_start_ns", JNum (window_start_ns b)); ("window_end_ns", JNum (window_end_ns b));
        ("node", JStr (node b)); ("batch_id", JStr (batch_id b));
        ("agent_version", JStr (agent_version b)); ("workloads", JArr (row_to_json <$> workloads b))].

(** *** Deserializing *)

Definition fields_of (j : json) : option (list (string * json)) :=
  match j with JObj l => Some l | _ => None end.

(** The values of a field; more than one is a duplicate field. *)
Definition lookup_field (name : string) (l : list (string * json)) : option (option json) :=
  match filter (fun x => x.1 = name) l with
  | [] => Some None
  | [(_, v)] => Some (Some v)
  | _ => None
  end.

Definition as_num (w : Z) (j : json) : option Z :=
  match j with JNum n => if bool_decide (urange w n) then Some n else None | _ => None end.
Definition as_bool (j : json) : option bool := match j with JBool b => Some b | _ => None end.
Definition as_str (j : json) : option string := match j with JStr s => Some s | _ => None end.

(** A required field, one with [#[serde(default)]], and an [Option] field. *)
Definition required {A} (f : json -> option A) (name : string) (l : list (string * json)) : option A :=
  v ← lookup_field name l; v ← v; f v.
Definition defaulted (w : Z) (name : string) (l : list (string * json)) : option Z :=
  v ← lookup_field name l; match v with Some v => as_num w v | None => Some 0 end.
Definition optional (name : string) (l : list (string * json)) : option (option string) :=
  v ← lookup_field name l;
  match v with
  | None | Some JNull => Some None
  | Some v => Some <$> as_str v
  end.

Definition row_of_json (j : json) : option WorkloadRow :=
  l ← fields_of j;
  v1 ← required (as_num 64) "cgroup_id" l;
  v2 ← optional "namespace" l;
  v3 ← optional "pod" l;
  v4 ← optional "container" l;
  v5 ← required as_bool "k8s_resolved" l;
  v6 ← required (as_num 64) "memory_bytes_max" l;
  v7 ← required (as_num 64) "memory_bytes_last" l;
  v8 ← required (as_num 32) "exec_count" l;
  v9 ← required (as_num 32) "sample_count" l;
  v10 ← defaulted 64 "cpu_usage_usec" l;
  v11 ← defaulted 64 "cpu_request_millicores" l;
  v12 ← defaulted 64 "memory_request_bytes" l;
  v13 ← defaulted 64 "cpu_limit_millicores" l;
  v14 ← defaulted 64 "memory_limit_bytes" l;
  Some {| cgroup_id := v1; namespace := v2; pod := v3; container := v4; k8s_resolved := v5;
          memory_bytes_max := v6; memory_bytes_last := v7; exec_count := v8; sample_count := v9;
          cpu_usage_usec := v10; cpu_request_millicores := v11; memory_request_bytes := v12;
          cpu_limit_millicores := v13; memory_limit_bytes := v14 |}.

Definition as_rows (j : json) : option (list WorkloadRow) :=
  match j with JArr l => mapM row_of_json l | _ => None end.

Definition batch_of_json (j : json) : option IngestBatch :=
  l ← fields_of j;
  v1 ← required (as_num 32) "schema_version" l;
  v2 ← required (as_num 64) "window_start_ns" l;
  v3 ← required (as_num 64) "window_end_ns" l;
  v4 ← required as_str "node" l;
  v5 ← required as_str "batch_id" l;
  v6 ← required as_str "agent_version" l;
  v7 ← required as_rows "workloads" l;
  Some {| schema_version := v1; window_start_ns := v2; window_end_ns := v3; node := v4;
          batch_id := v5; agent_version := v6; workloads := v7 |}.

(** The fields are within their widths. *)
Definition row_ok (r : WorkloadRow) : Prop :=
  urange 64 (cgroup_id r) /\ urange 64 (memory_bytes_max r) /\ urange 64 (memory_bytes_last r)
  /\ urange 32 (exec_count r) /\ urange 32 (sample_count r) /\ urange 64 (cpu_usage_usec r)
  /\ urange 64 (cpu_request_millicores r) /\ urange 64 (memory_request_bytes r)
  /\ urange 64 (cpu_limit_millicores r) /\ urange 64 (memory_limit_bytes r).

Definition batch_ok (b : IngestBatch) : Prop :=
  urange 32 (schema_version b) /\ urange 64 (window_start_ns b) /\ urange 64 (window_end_ns b)
  /\ Forall row_ok (workloads b).

#[export] Instance row_ok_dec r : Decision (row_ok r).
Proof. unfold row_ok. apply _. Defined.

(** ** Lemmas *)

Lemma as_num_ok w n : urange w n -> as_num w (JNum n) = Some n.
Proof. intros. unfold as_num. by rewrite bool_decide_true. Qed.

(** Finding each field of a serialized row. *)
Ltac find_field := intros; match goal with r : WorkloadRow |- _ =>
  destruct r as [? [?|] [?|] [?|] ? ? ? ? ? ? ? ? ? ?]; reflexivity end.

Lemma required_num l w name n :
  lookup_field name l = Some (Some (JNum n)) -> urange w n -> required (as_num w) name l = Some n.
Proof. intros E Hn. unfold required. rewrite E. simpl. by rewrite bool_decide_true. Qed.

Lemma defaulted_num l w name n :
  lookup_field name l = Some (Some (JNum n)) -> urange w n -> defaulted w name l = Some n.
Proof. intros E Hn. unfold defaulted. rewrite E. simpl. by rewrite bool_decide_true. Qed.

Lemma defaulted_missing l w name : lookup_field name l = Some None -> defaulted w name l = Some 0.
Proof. intros E. unfold defaulted. by rewrite E. Qed.

(** Parse the fields of a row one by one. *)
Ltac parse_num w name v :=
  first [ rewrite (required_num _ w name v) by (find_field || done)
        | rewrite (defaulted_num _ w name v) by (find_field || done)
        | rewrite (defaulted_missing _ w name) by find_field ];
  cbn [mbind option_bind].

(** The schema versions: [names] are the fields the sender does not know. *)
Definition sent_fields (names : list string) (r : WorkloadRow) : list (string * json) :=
  filter (fun x => x.1 ∉ names) (row_fields r).

(** A number field of a row sent without [names]: its value, or the default. *)
Definition kept (names : list string) (name : string) (n : Z) : Z :=
  if bool_decide (name ∈ names) then 0 else n.

Definition received (names : list string) (r : WorkloadRow) : WorkloadRow :=
  {| cgroup_id := cgroup_id r; namespace := namespace r; pod := pod r; container := container r;
     k8s_resolved := k8s_resolved r; memory_bytes_max := memory_bytes_max r;
     memory_bytes_last := memory_bytes_last r; exec_count := exec_count r;
     sample_count := sample_count r;
     cpu_usage_usec := kept names "cpu_usage_usec" (cpu_usage_usec r);
     cpu_request_millicores := kept names "cpu_request_millicores" (cpu_request_millicores r);
     memory_request_bytes := kept names "memory_request_bytes" (memory_request_bytes r);
     cpu_limit_millicores := kept names "cpu_limit_millicores" (cpu_limit_millicores r);
     memory_limit_bytes := kept names "memory_limit_bytes" (memory_limit_bytes r) |}.

Definition resource_fields : list string :=
  ["cpu_request_millicores"; "memory_request_bytes"; "cpu_limit_millicores"; "memory_limit_bytes"].

Definition v4_fields : list string := [].
Definition v3_fields : list string := resource_fields.
Definition v2_fields : list string := "cpu_usage_usec" :: resource_fields.

Ltac parse_row r :=
  parse_num 64 "cgroup_id" (cgroup_id r);
  match goal with |- context [sent_fields ?names r] =>
    assert (optional "namespace" (sent_fields names r) = Some (namespace r)) as -> by find_field;
    assert (optional "pod" (sent_fields names r) = Some (pod r)) as -> by find_field;
    assert (optional "container" (sent_fields names r) = Some (container r)) as -> by find_field;
    assert (required as_bool "k8s_resolved" (sent_fields names r) = Some (k8s_resolved r)) as ->
      by find_field
  end; cbn [mbind option_bind];
  parse_num 64 "memory_bytes_max" (memory_bytes_max r);
  parse_num 64 "memory_bytes_last" (memory_bytes_last r);
  parse_num 32 "exec_count" (exec_count r); parse_num 32 "sample_count" (sample_count r);
  parse_num 64 "cpu_usage_usec" (cpu_usage_usec r);
  parse_num 64 "cpu_request_millicores" (cpu_request_millicores r);
  parse_num 64 "memory_request_bytes" (memory_request_bytes r);
  parse_num 64 "cpu_limit_millicores" (cpu_limit_millicores r);
  parse_num 64 "memory_limit_bytes" (memory_limit_bytes r).

Lemma row_received names r :
  names ∈ [v4_fields; v3_fields; v2_fields] -> row_ok r ->
  row_of_json (JObj (sent_fields names r)) = Some (received names r).
Proof.
  intros Hn (H1 & H2 & H3 & H4 & H5 & H6 & H7 & H8 & H9 & H10). unfold row_of_json.
  cbn [fields_of mbind option_bind].
  repeat (apply elem_of_cons in Hn as [->|Hn]; [parse_row r; reflexivity|]). by apply elem_of_nil in Hn.
Qed.

Lemma sent_v4 r : sent_fields v4_fields r = row_fields r.
Proof. find_field. Qed.

Lemma received_v4 r : received v4_fields r = r.
Proof. by destruct r. Qed.

Lemma row_roundtrip r : row_ok r -> row_of_json (row_to_json r) = Some r.
Proof.
  intros Hr. unfold row_to_json. rewrite <- sent_v4, row_received by (done || by left).
  by rewrite received_v4.
Qed.

Lemma rows_roundtrip l : Forall row_ok l -> mapM row_of_json (row_to_json <$> l) = Some l.
Proof.
  induction 1 as [|r l Hr _ IH]; [done|]. rewrite fmap_cons. cbn [mapM].
  rewrite row_roundtrip by done. cbn [mbind option_bind]. by rewrite IH.
Qed.

Lemma batch_roundtrip b : batch_ok b -> batch_of_json (batch_to_json b) = Some b.
Proof.
  intros (B1 & B2 & B3 & B4).
  unfold batch_of_json, batch_to_json. cbn [fields_of mbind option_bind].
  rewrite (required_num _ 32 "schema_version" (schema_version b)) by done. cbn [mbind option_bind].
  rewrite (required_num _ 64 "window_start_ns" (window_start_ns b)) by done. cbn [mbind option_bind].
  rewrite (required_num _ 64 "window_end_ns" (window_end_ns b)) by done.
  pose proof (rows_roundtrip _ B4) as Hrows. unfold required, lookup_field. simpl.
  rewrite Hrows. simpl. by destruct b.
Qed.

(** ** Properties *)

(** C24: the wire format round trips, and is compatible with older agents.  A
    batch the agent serializes is parsed by the gateway to the same batch, and a
    row sent without the fields its schema version does not know (version 2: no
    CPU usage and no resources, version 3: no resources) is parsed with zeros in
    their place and every other field unchanged. *)
Theorem wire_roundtrip_and_versions b r names :
  batch_ok b -> row_ok r -> names ∈ [v4_fields; v3_fields; v2_fields] ->
  batch_of_json (batch_to_json b) = Some b
  /\ row_of_json (JObj (sent_fields names r)) = Some (received names r).
Proof.
  intros Hb Hr Hn. split; [by apply batch_roundtrip|by apply row_received].
Qed.

(** The ring-buffer record is 64 bytes laid out as documented, and reading
    back what was written gives the same event: the kernel program and the agent
    agree on every field. *)
Theorem event_layout_roundtrip e :
  event_ok e ->
  length (encode_event e) = 64%nat /\ Forall byte_ok (encode_event e)
  /\ decode_event (encode_event e) = e.
Proof.
  intros (H1 & H2 & H3 & H4 & H5 & H6 & H7 & Hc & Hb).
  assert (Hlen : length (encode_event e) = 64%nat)
    by (unfold encode_event; rewrite !length_app, !length_le_bytes, !length_replicate; lia).
  split; [done|]. split.
  { unfold encode_event. rewrite !Forall_app. split_and!; try apply le_bytes_ok; try done;
      by repeat constructor. }
  unfold decode_event.
  assert (field 0 1 (encode_event e) = le_bytes 1 (kind e)) as -> by reflexivity.
  assert (field 8 4 (encode_event e) = le_bytes 4 (pid e)) as -> by reflexivity.
  assert (field 12 4 (encode_event e) = le_bytes 4 (tgid e)) as -> by reflexivity.
  assert (field 16 4 (encode_event e) = le_bytes 4 (cpu_id e)) as -> by reflexivity.
  assert (field 24 8 (encode_event e) = le_bytes 8 (event_cgroup_id e)) as -> by reflexivity.
  assert (field 32 8 (encode_event e) = le_bytes 8 (timestamp e)) as -> by reflexivity.
  assert (field 40 8 (encode_event e) = le_bytes 8 (memory_bytes e)) as -> by reflexivity.
  assert (field 48 16 (encode_event e) = comm e) as ->.
  { transitivity (take 16 (comm e)); [reflexivity|]. apply take_ge. lia. }
  rewrite (from_le_bytes_small 1 8), !(from_le_bytes_small 4 32), !(from_le_bytes_small 8 64) by done.
  by destruct e.
Qed.

(** *** Witnesses *)

Definition sample_row : WorkloadRow :=
  {| cgroup_id := 42; namespace := Some "shop"; pod := None; container := Some "web";
     k8s_resolved := true; memory_bytes_max := 100; memory_bytes_last := 50; exec_count := 1;
     sample_count := 2; cpu_usage_usec := 12345; cpu_request_millicores := 250;
     memory_request_bytes := 128; cpu_limit_millicores := 500; memory_limit_bytes := 256 |}.

Definition sample_batch : IngestBatch :=
  {| schema_version := 4; window_start_ns := 1; window_end_ns := 2; node := "n1"; batch_id := "b";
     agent_version := "0.1.0"; workloads := [sample_row] |}.

Lemma sample_row_ok : row_ok sample_row.
Proof. apply (bool_decide_unpack _). vm_compute. exact I. Qed.

Lemma wire_roundtrip_and_versions_witness :
  batch_of_json (batch_to_json sample_batch) = Some sample_batch
  /\ row_of_json (JObj (sent_fields v3_fields sample_row)) = Some (received v3_fields sample_row).
Proof.
  apply (wire_roundtrip_and_versions sample_batch sample_row v3_fields).
  - unfold batch_ok, urange. simpl. repeat split; try lia. repeat constructor; vm_compute; discriminate.
  - apply sample_row_ok.
  - right. left.
Defined.

Lemma event_layout_roundtrip_witness :
  let e := {| kind := 1; pid := 300; tgid := 300; cpu_id := 2; event_cgroup_id := 2 ^ 40;
              timestamp := 12; memory_bytes := 0; comm := replicate 16 65 |} in
  decode_event (encode_event e) = e.
Proof.
  apply event_layout_roundtrip. apply (bool_decide_unpack _). vm_compute. exact I.
Defined.
