(* ===== verification/Aggregator.v ===== *)
(** * Aggregator: time-windowed rollups per cgroup

    Models [statix/src/aggregator.rs]: the double-buffered map of statistics,
    every ingest path, the early flush at [max_keys] and the window flush.  The
    attribution cache is an interface, [Attribution]; the clock and the random
    batch id are inputs of the operations that read them.  The order in which a
    hash map is iterated is left open: rows are compared up to permutation.
    The theorems: double buffering is invisible, the active buffer stays
    bounded, and no event is ever lost or counted twice. *)

From S2P Require Export Wire.

(** ** The attribution cache *)

Record Resources : Type := {
  res_cpu_request_millicores : Z;
  res_memory_request_bytes : Z;
  res_cpu_limit_millicores : Z;
  res_memory_limit_bytes : Z
}.

Definition default_resources : Resources :=
  {| res_cpu_request_millicores := 0; res_memory_request_bytes := 0;
     res_cpu_limit_millicores := 0; res_memory_limit_bytes := 0 |}.

Record WorkloadLabels : Type := {
  lb_namespace : option string;
  lb_pod : option string;
  lb_container : option string;
  lb_pod_uid : option string;
  lb_k8s_resolved : bool;
  lb_resources : Resources
}.

Definition DEFAULT_LABELS : WorkloadLabels :=
  {| lb_namespace := None; lb_pod := None; lb_container := None; lb_pod_uid := None;
     lb_k8s_resolved := false; lb_resources := default_resources |}.

(** What the aggregator uses of the cache. *)
Class Attribution : Type := {
  cache : Type;
  on_identity_event : StatixEvent -> cache -> cache;
  labels_for_cgroup : Z -> cache -> WorkloadLabels
}.

(** ** State *)

Definition DEFAULT_MAX_KEYS : nat := 4096.

Record WorkloadStats : Type := {
  st_exec_count : Z;
  st_sample_count : Z;
  st_memory_bytes_max : Z;
  st_memory_bytes_last : Z;
  st_cpu_usage_usec : Z;
  st_labels : WorkloadLabels
}.

Definition default_stats : WorkloadStats :=
  {| st_exec_count := 0; st_sample_count := 0; st_memory_bytes_max := 0; st_memory_bytes_last := 0;
     st_cpu_usage_usec := 0; st_labels := DEFAULT_LABELS |}.

Abbreviation stats_map := (gmap Z WorkloadStats).

(** [buffers: [_; 2]] and the index [active]: false is 0. *)
Record Aggregator : Type := {
  ag_window_start_ns : Z;
  ag_buffer0 : stats_map;
  ag_buffer1 : stats_map;
  ag_active : bool;
  ag_max_keys : nat
}.

Record BatchPayload : Type := {
  bp_window_start_ns : Z;
  bp_window_end_ns : Z;
  bp_node : string;
  bp_batch_id : string;
  bp_agent_version : string;
  bp_workloads : list WorkloadRow
}.

Definition new_aggregator (now : Z) : Aggregator :=
  {| ag_window_start_ns := now; ag_buffer0 := ∅; ag_buffer1 := ∅; ag_active := false;
     ag_max_keys := DEFAULT_MAX_KEYS |}.

Definition buffer (i : bool) (a : Aggregator) : stats_map :=
  if i then ag_buffer1 a else ag_buffer0 a.

Definition set_buffer (i : bool) (m : stats_map) (a : Aggregator) : Aggregator :=
  {| ag_window_start_ns := ag_window_start_ns a;
     ag_buffer0 := if i then ag_buffer0 a else m; ag_buffer1 := if i then m else ag_buffer1 a;
     ag_active := ag_active a; ag_max_keys := ag_max_keys a |}.

Definition reset_window (now : Z) (a : Aggregator) : Aggregator :=
  {| ag_window_start_ns := now; ag_buffer0 := ag_buffer0 a; ag_buffer1 := ag_buffer1 a;
     ag_active := ag_active a; ag_max_keys := ag_max_keys a |}.

Definition set_active_buffer (i : bool) (a : Aggregator) : Aggregator :=
  {| ag_window_start_ns := ag_window_start_ns a; ag_buffer0 := ag_buffer0 a;
     ag_buffer1 := ag_buffer1 a; ag_active := i; ag_max_keys := ag_max_keys a |}.

(** [env!("CARGO_PKG_VERSION")]. *)
Definition AGENT_VERSION : string := "1.2.0".

(** The text form of a UUID, of the [uuid] crate. *)
Class UuidText : Type := uuid_to_string : list Z -> string.

Section Aggregator.
Context {ATT : Attribution} {UUID : UuidText}.

(** The UUID v4 bits of 16 random bytes. *)
Definition fast_batch_id (bytes : list Z) : string :=
  let bytes := alter (fun b => Z.lor (Z.land b 15) 64) 6%nat bytes in
  let bytes := alter (fun b => Z.lor (Z.land b 63) 128) 8%nat bytes in
  uuid_to_string bytes.

(** ** Operations *)

(** [entry(id).or_default()], mutated in place. *)
Definition on_entry (id : Z) (f : WorkloadStats -> WorkloadStats) (a : Aggregator) : Aggregator :=
  let m := buffer (ag_active a) a in
  set_buffer (ag_active a) (<[id := f (default default_stats (m !! id))]> m) a.

Definition on_exec (l : WorkloadLabels) (s : WorkloadStats) : WorkloadStats :=
  {| st_exec_count := saturating_add 32 (st_exec_count s) 1; st_sample_count := st_sample_count s;
     st_memory_bytes_max := st_memory_bytes_max s; st_memory_bytes_last := st_memory_bytes_last s;
     st_cpu_usage_usec := st_cpu_usage_usec s; st_labels := l |}.

Definition on_memory (bytes : Z) (l : WorkloadLabels) (s : WorkloadStats) : WorkloadStats :=
  {| st_exec_count := st_exec_count s; st_sample_count := saturating_add 32 (st_sample_count s) 1;
     st_memory_bytes_max := if st_memory_bytes_max s <? bytes then bytes else st_memory_bytes_max s;
     st_memory_bytes_last := bytes; st_cpu_usage_usec := st_cpu_usage_usec s; st_labels := l |}.

Definition on_cpu (delta : Z) (l : WorkloadLabels) (s : WorkloadStats) : WorkloadStats :=
  {| st_exec_count := st_exec_count s; st_sample_count := st_sample_count s;
     st_memory_bytes_max := st_memory_bytes_max s; st_memory_bytes_last := st_memory_bytes_last s;
     st_cpu_usage_usec := saturating_add 64 (st_cpu_usage_usec s) delta; st_labels := l |}.

Definition row_of (x : Z * WorkloadStats) : WorkloadRow :=
  let '(id, s) := x in
  {| cgroup_id := id; namespace := lb_namespace (st_labels s); pod := lb_pod (st_labels s);
     container := lb_container (st_labels s); k8s_resolved := lb_k8s_resolved (st_labels s);
     memory_bytes_max := st_memory_bytes_max s; memory_bytes_last := st_memory_bytes_last s;
     exec_count := st_exec_count s; sample_count := st_sample_count s;
     cpu_usage_usec := st_cpu_usage_usec s;
     cpu_request_millicores := res_cpu_request_millicores (lb_resources (st_labels s));
     memory_request_bytes := res_memory_request_bytes (lb_resources (st_labels s));
     cpu_limit_millicores := res_cpu_limit_millicores (lb_resources (st_labels s));
     memory_limit_bytes := res_memory_limit_bytes (lb_resources (st_labels s)) |}.

(** The clock and the random bytes a flush would read. *)
Record ambient : Type := Ambient { now_ns : Z; rnd_bytes : list Z }.

Definition flush (node : string) (amb : ambient) (a : Aggregator) : option BatchPayload * Aggregator :=
  let flush_idx := ag_active a in
  let m := buffer flush_idx a in
  if bool_decide (m = ∅) then (None, reset_window (now_ns amb) a)
  else
    let start := ag_window_start_ns a in
    let a := reset_window (now_ns amb) (set_active_buffer (negb (ag_active a)) a) in
    let rows := row_of <$> map_to_list (buffer flush_idx a) in
    let a := set_buffer flush_idx ∅ a in
    (Some {| bp_window_start_ns := start; bp_window_end_ns := now_ns amb; bp_node := node;
             bp_batch_id := fast_batch_id (rnd_bytes amb);
             bp_agent_version := AGENT_VERSION; bp_workloads := rows |}, a).

Definition try_early_flush (node : string) (amb : ambient) (a : Aggregator)
    : option BatchPayload * Aggregator :=
  if (ag_max_keys a <=? size (buffer (ag_active a) a))%nat then flush node amb a else (None, a).

Definition ingest_memory_sample_inner (id bytes : Z) (c : cache) (a : Aggregator) : Aggregator :=
  on_entry id (on_memory bytes (labels_for_cgroup id c)) a.

Definition ingest_memory_sample (id bytes : Z) (c : cache) (node : string) (amb : ambient)
    (a : Aggregator) : option BatchPayload * Aggregator :=
  try_early_flush node amb (ingest_memory_sample_inner id bytes c a).

Definition ingest_cpu_sample (id delta : Z) (c : cache) (node : string) (amb : ambient)
    (a : Aggregator) : option BatchPayload * Aggregator :=
  try_early_flush node amb (on_entry id (on_cpu delta (labels_for_cgroup id c)) a).

Definition on_statix_event (e : StatixEvent) (node : string) (amb : ambient) (c : cache)
    (a : Aggregator) : option BatchPayload * cache * Aggregator :=
  let '(c, a) :=
    if kind e =? EVENT_KIND_WORKLOAD_IDENTITY then
      let c := on_identity_event e c in
      (c, on_entry (event_cgroup_id e) (on_exec (labels_for_cgroup (event_cgroup_id e) c)) a)
    else if kind e =? EVENT_KIND_MEMORY_SAMPLE then
      (c, ingest_memory_sample_inner (event_cgroup_id e) (memory_bytes e) c a)
    else (c, a) in
  let '(b, a) := try_early_flush node amb a in (b, c, a).

(** ** Runs *)

(** The calls the agent's event loop makes. *)
Inductive agg_call : Type :=
| CallEvent (e : StatixEvent)
| CallMemory (id bytes : Z)
| CallCpu (id delta : Z)
| CallFlush.

Definition agg_step (node : string) (call : agg_call) (amb : ambient) (s : cache * Aggregator)
    : option BatchPayload * (cache * Aggregator) :=
  let '(c, a) := s in
  match call with
  | CallEvent e => let '(b, c, a) := on_statix_event e node amb c a in (b, (c, a))
  | CallMemory id bytes => let '(b, a) := ingest_memory_sample id bytes c node amb a in (b, (c, a))
  | CallCpu id delta => let '(b, a) := ingest_cpu_sample id delta c node amb a in (b, (c, a))
  | CallFlush => let '(b, a) := flush node amb a in (b, (c, a))
  end.

(** The batches of a run, in order. *)
Fixpoint agg_run (node : string) (calls : list (agg_call * ambient)) (s : cache * Aggregator)
    : list BatchPayload * (cache * Aggregator) :=
  match calls with
  | [] => ([], s)
  | (call, amb) :: calls =>
      let '(b, s) := agg_step node call amb s in
      let '(bs, s) := agg_run node calls s in
      (match b with Some b => b :: bs | None => bs end, s)
  end.

(** ** Specification: one map *)

(** The aggregator a reader has in mind: a window start and one map. *)
Record spec_agg : Type := SpecAgg { sp_start : Z; sp_map : stats_map; sp_max : nat }.

Definition spec_of (a : Aggregator) : spec_agg :=
  SpecAgg (ag_window_start_ns a) (buffer (ag_active a) a) (ag_max_keys a).

Definition spec_update (id : Z) (f : WorkloadStats -> WorkloadStats) (s : spec_agg) : spec_agg :=
  SpecAgg (sp_start s) (<[id := f (default default_stats (sp_map s !! id))]> (sp_map s)) (sp_max s).

Definition spec_flush (node : string) (amb : ambient) (s : spec_agg) : option BatchPayload * spec_agg :=
  (if bool_decide (sp_map s = ∅) then None
   else Some {| bp_window_start_ns := sp_start s; bp_window_end_ns := now_ns amb; bp_node := node;
                bp_batch_id := fast_batch_id (rnd_bytes amb);
             bp_agent_version := AGENT_VERSION; bp_workloads := row_of <$> map_to_list (sp_map s) |},
   SpecAgg (now_ns amb) ∅ (sp_max s)).

Definition spec_early (node : string) (amb : ambient) (s : spec_agg) : option BatchPayload * spec_agg :=
  if (sp_max s <=? size (sp_map s))%nat then spec_flush node amb s else (None, s).

Definition spec_call (node : string) (call : agg_call) (amb : ambient) (s : cache * spec_agg)
    : option BatchPayload * (cache * spec_agg) :=
  let '(c, a) := s in
  match call with
  | CallEvent e =>
      let c' := if kind e =? EVENT_KIND_WORKLOAD_IDENTITY then on_identity_event e c else c in
      let l := labels_for_cgroup (event_cgroup_id e) c' in
      let a := if kind e =? EVENT_KIND_WORKLOAD_IDENTITY then spec_update (event_cgroup_id e) (on_exec l) a
               else if kind e =? EVENT_KIND_MEMORY_SAMPLE
                    then spec_update (event_cgroup_id e) (on_memory (memory_bytes e) l) a
               else a in
      let '(b, a) := spec_early node amb a in (b, (c', a))
  | CallMemory id bytes =>
      let '(b, a) := spec_early node amb (spec_update id (on_memory bytes (labels_for_cgroup id c)) a) in
      (b, (c, a))
  | CallCpu id delta =>
      let '(b, a) := spec_early node amb (spec_update id (on_cpu delta (labels_for_cgroup id c)) a) in
      (b, (c, a))
  | CallFlush => let '(b, a) := spec_flush node amb a in (b, (c, a))
  end.

Fixpoint spec_run (node : string) (calls : list (agg_call * ambient)) (s : cache * spec_agg)
    : list BatchPayload * (cache * spec_agg) :=
  match calls with
  | [] => ([], s)
  | (call, amb) :: calls =>
      let '(b, s) := spec_call node call amb s in
      let '(bs, s) := spec_run node calls s in
      (match b with Some b => b :: bs | None => bs end, s)
  end.

(** The buffer that is not active is empty. *)
Definition agg_inv (a : Aggregator) : Prop := buffer (negb (ag_active a)) a = ∅.

(** ** Double buffering is invisible *)

Lemma spec_of_entry id f a : spec_of (on_entry id f a) = spec_update id f (spec_of a).
Proof. unfold spec_of, on_entry, spec_update. destruct a as [? ? ? [] ?]; done. Qed.

Lemma agg_inv_entry id f a : agg_inv a -> agg_inv (on_entry id f a).
Proof. destruct a as [? ? ? [] ?]; done. Qed.

Lemma flush_spec node amb a :
  agg_inv a ->
  fst (flush node amb a) = fst (spec_flush node amb (spec_of a))
  /\ spec_of (snd (flush node amb a)) = snd (spec_flush node amb (spec_of a))
  /\ agg_inv (snd (flush node amb a)).
Proof.
  unfold agg_inv, flush, spec_flush, spec_of. destruct a as [st b0 b1 [] mk]; simpl; intros ->;
    case_bool_decide as E; simpl; by rewrite ?E.
Qed.

Lemma early_spec node amb a :
  agg_inv a ->
  fst (try_early_flush node amb a) = fst (spec_early node amb (spec_of a))
  /\ spec_of (snd (try_early_flush node amb a)) = snd (spec_early node amb (spec_of a))
  /\ agg_inv (snd (try_early_flush node amb a)).
Proof.
  intros Hi. unfold try_early_flush, spec_early. cbn [sp_max sp_map spec_of].
  destruct (_ <=? _)%nat; [by apply flush_spec|done].
Qed.

Lemma flatten {A B C} (p : A * B) (c : C) :
  (let '(b, c, a) := (let '(b, a) := p in (b, c, a)) in (b, (c, a)))
  = (let '(b, a) := p in (b, (c, a))).
Proof. by destruct p. Qed.

Lemma early_pair node amb (c : cache) a :
  agg_inv a ->
  let '(b, (c', a')) := (let '(b, a) := try_early_flush node amb a in (b, (c, a))) in
  let '(b2, (c2, a2)) := (let '(b, a) := spec_early node amb (spec_of a) in (b, (c, a))) in
  b = b2 /\ c' = c2 /\ spec_of a' = a2 /\ agg_inv a'.
Proof.
  intros Hi. destruct (early_spec node amb a Hi) as (H1 & H2 & H3).
  destruct (try_early_flush node amb a), (spec_early node amb (spec_of a)). done.
Qed.

Lemma step_spec node call amb c a :
  agg_inv a ->
  let '(b, (c', a')) := agg_step node call amb (c, a) in
  let '(b2, (c2, a2)) := spec_call node call amb (c, spec_of a) in
  b = b2 /\ c' = c2 /\ spec_of a' = a2 /\ agg_inv a'.
Proof.
  intros Hi. destruct call as [e|id bytes|id d|]; cbn [agg_step spec_call].
  - unfold on_statix_event. destruct (kind e =? EVENT_KIND_WORKLOAD_IDENTITY);
      [|destruct (kind e =? EVENT_KIND_MEMORY_SAMPLE)].
    + rewrite <- spec_of_entry, flatten. apply early_pair. by apply agg_inv_entry.
    + unfold ingest_memory_sample_inner. rewrite <- spec_of_entry, flatten.
      apply early_pair. by apply agg_inv_entry.
    + rewrite flatten. by apply early_pair.
  - unfold ingest_memory_sample, ingest_memory_sample_inner. rewrite <- spec_of_entry.
    apply early_pair. by apply agg_inv_entry.
  - unfold ingest_cpu_sample. rewrite <- spec_of_entry.
    apply early_pair. by apply agg_inv_entry.
  - destruct (flush_spec node amb a Hi) as (H1 & H2 & H3).
    destruct (flush node amb a), (spec_flush node amb (spec_of a)). done.
Qed.

Lemma run_spec node calls c a :
  agg_inv a ->
  let '(bs, (c', a')) := agg_run node calls (c, a) in
  let '(bs2, (c2, a2)) := spec_run node calls (c, spec_of a) in
  bs = bs2 /\ c' = c2 /\ spec_of a' = a2 /\ agg_inv a'.
Proof.
  revert c a. induction calls as [|[call amb] calls IH]; intros c a Hi; [done|].
  cbn [agg_run spec_run]. pose proof (step_spec node call amb c a Hi) as H.
  destruct (agg_step node call amb (c, a)) as [b [c1 a1]].
  destruct (spec_call node call amb (c, spec_of a)) as [b2 [c2 a2]]. destruct H as (-> & -> & <- & Hi1).
  specialize (IH c2 a1 Hi1). destruct (agg_run node calls (c2, a1)) as [bs [c3 a3]].
  destruct (spec_run node calls (c2, spec_of a1)) as [bs2 [c4 a4]]. destruct IH as (-> & -> & <- & ?).
  done.
Qed.

(** ** Conservation *)

(** The three additive statistics. *)
Inductive stat : Type := SExec | SSample | SCpu.

Definition stat_width (k : stat) : Z := match k with SCpu => 64 | _ => 32 end.
Definition stat_field (k : stat) (s : WorkloadStats) : Z :=
  match k with SExec => st_exec_count s | SSample => st_sample_count s | SCpu => st_cpu_usage_usec s end.
Definition row_stat (k : stat) (r : WorkloadRow) : Z :=
  match k with SExec => exec_count r | SSample => sample_count r | SCpu => cpu_usage_usec r end.

(** What one call contributes to the statistic [k] of cgroup [g]. *)
Definition contribution (k : stat) (g : Z) (call : agg_call) : Z :=
  match call with
  | CallEvent e =>
      if negb (event_cgroup_id e =? g) then 0
      else if kind e =? EVENT_KIND_WORKLOAD_IDENTITY
           then match k with SExec => 1 | _ => 0 end
           else if kind e =? EVENT_KIND_MEMORY_SAMPLE
                then match k with SSample => 1 | _ => 0 end else 0
  | CallMemory id _ => if id =? g then match k with SSample => 1 | _ => 0 end else 0
  | CallCpu id d => if id =? g then match k with SCpu => d | _ => 0 end else 0
  | CallFlush => 0
  end.

(** The statistic in the map, and in the rows of batches. *)
Definition held (k : stat) (g : Z) (m : stats_map) : Z := from_option (stat_field k) 0 (m !! g).
Definition row_total (k : stat) (g : Z) (rows : list WorkloadRow) : Z :=
  sumZ (fun r => if cgroup_id r =? g then row_stat k r else 0) rows.
Definition shipped (k : stat) (g : Z) (bs : list BatchPayload) : Z :=
  sumZ (fun b => row_total k g (bp_workloads b)) bs.

Lemma sumZ_perm {A} (f : A -> Z) l1 l2 : l1 ≡ₚ l2 -> sumZ f l1 = sumZ f l2.
Proof. unfold sumZ. induction 1; simpl; lia. Qed.

Lemma row_total_map k g m : row_total k g (row_of <$> map_to_list m) = held k g m.
Proof.
  unfold row_total, held. induction m as [|i s m Hi IH] using map_ind; [done|].
  rewrite (sumZ_perm _ _ (row_of <$> ((i, s) :: map_to_list m)))
    by (by rewrite map_to_list_insert).
  rewrite fmap_cons, sumZ_cons, IH. simpl. destruct (Z.eqb_spec i g) as [->|Hne].
  - rewrite lookup_insert_eq, Hi. simpl. destruct k; simpl; lia.
  - rewrite lookup_insert_ne by done. lia.
Qed.

Lemma spec_flush_conserves k g node amb s :
  held k g (sp_map s)
  = match fst (spec_flush node amb s) with Some b => row_total k g (bp_workloads b) | None => 0 end
    + held k g (sp_map (snd (spec_flush node amb s))).
Proof.
  unfold spec_flush. case_bool_decide as E; simpl.
  - by rewrite E.
  - rewrite row_total_map. unfold held at 3. rewrite lookup_empty. simpl. lia.
Qed.

Lemma spec_early_conserves k g node amb s :
  held k g (sp_map s)
  = match fst (spec_early node amb s) with Some b => row_total k g (bp_workloads b) | None => 0 end
    + held k g (sp_map (snd (spec_early node amb s))).
Proof. unfold spec_early. destruct (_ <=? _)%nat; [apply spec_flush_conserves|simpl; lia]. Qed.

Lemma held_update k g id f s d :
  (forall st, 0 <= stat_field k st -> stat_field k st + d <= umax (stat_width k) ->
     stat_field k (f st) = stat_field k st + d) ->
  0 <= held k g (sp_map s) -> (id = g -> held k g (sp_map s) + d <= umax (stat_width k)) ->
  held k g (sp_map (spec_update id f s)) = held k g (sp_map s) + (if id =? g then d else 0).
Proof.
  intros Hf H0 Hle. unfold held, spec_update in *. simpl. destruct (Z.eqb_spec id g) as [->|Hne].
  - rewrite lookup_insert_eq. simpl. specialize (Hle eq_refl).
    destruct (sp_map s !! g) as [st|]; simpl in *; [by apply Hf|].
    rewrite Hf; [destruct k; simpl; lia|destruct k; simpl; lia|]. destruct k; simpl in *; lia.
  - rewrite lookup_insert_ne by done. lia.
Qed.

Lemma spec_call_conserves k g node call amb c s :
  0 <= held k g (sp_map s) -> 0 <= contribution k g call ->
  held k g (sp_map s) + contribution k g call <= umax (stat_width k) ->
  let '(b, (_, s')) := spec_call node call amb (c, s) in
  held k g (sp_map s) + contribution k g call
  = match b with Some b => row_total k g (bp_workloads b) | None => 0 end + held k g (sp_map s').
Proof.
  intros H0 Hc Hle.
  assert (Hgo : forall s1 (c1 : cache), held k g (sp_map s1) = held k g (sp_map s) + contribution k g call ->
    let '(b, (_, s')) := (let '(b, a) := spec_early node amb s1 in (b, (c1, a))) in
    held k g (sp_map s) + contribution k g call
    = match b with Some b => row_total k g (bp_workloads b) | None => 0 end + held k g (sp_map s')).
  { intros s1 c1 E. pose proof (spec_early_conserves k g node amb s1) as H. rewrite E in H.
    destruct (spec_early node amb s1). done. }
  destruct call as [e|id bytes|id d|]; cbn [spec_call contribution] in *.
  - apply Hgo. destruct (kind e =? EVENT_KIND_WORKLOAD_IDENTITY); [|destruct (kind e =? _)].
    + rewrite (held_update k g _ _ _ (match k with SExec => 1 | _ => 0 end)); try done.
      * by destruct (event_cgroup_id e =? g).
      * intros st Hst Hu. destruct k; simpl in *; try lia. by apply saturating_add_small.
      * intros Hg. rewrite Hg, Z.eqb_refl in Hle. exact Hle.
    + rewrite (held_update k g _ _ _ (match k with SSample => 1 | _ => 0 end)); try done.
      * by destruct (event_cgroup_id e =? g).
      * intros st Hst Hu. destruct k; simpl in *; try lia. by apply saturating_add_small.
      * intros Hg. rewrite Hg, Z.eqb_refl in Hle. exact Hle.
    + destruct (event_cgroup_id e =? g); simpl; lia.
  - apply Hgo. apply (held_update k g _ _ _ (match k with SSample => 1 | _ => 0 end)); try done.
    + intros st Hst Hu. destruct k; simpl in *; try lia. by apply saturating_add_small.
    + intros ->. rewrite Z.eqb_refl in Hle. exact Hle.
  - apply Hgo. apply (held_update k g _ _ _ (match k with SCpu => d | _ => 0 end)); try done.
    + intros st Hst Hu. destruct k; simpl in *; try lia. by apply saturating_add_small.
    + intros ->. rewrite Z.eqb_refl in Hle. exact Hle.
  - pose proof (spec_flush_conserves k g node amb s) as H. destruct (spec_flush node amb s). simpl in *. lia.
Qed.

Lemma held_nonneg_entry k id f m :
  (forall st, 0 <= stat_field k st -> 0 <= stat_field k (f st)) ->
  (forall g, 0 <= held k g m) -> forall g, 0 <= held k g (<[id := f (default default_stats (m !! id))]> m).
Proof.
  intros Hf H0 g. unfold held in *. destruct (decide (id = g)) as [->|Hne].
  - rewrite lookup_insert_eq. simpl. apply Hf. specialize (H0 g).
    destruct (m !! g); [exact H0|by destruct k].
  - by rewrite lookup_insert_ne.
Qed.

Definition total_contribution (k : stat) (g : Z) (calls : list (agg_call * ambient)) : Z :=
  sumZ (fun x => contribution k g x.1) calls.

Lemma row_total_nonneg k g m : 0 <= held k g m -> 0 <= row_total k g (row_of <$> map_to_list m).
Proof. by rewrite row_total_map. Qed.

Lemma spec_flush_nonneg k g node amb s :
  0 <= held k g (sp_map s) ->
  0 <= held k g (sp_map (snd (spec_flush node amb s)))
  /\ 0 <= match fst (spec_flush node amb s) with Some b => row_total k g (bp_workloads b) | None => 0 end.
Proof.
  intros H. unfold spec_flush. case_bool_decide; simpl; rewrite ?row_total_map;
    unfold held at 1; rewrite lookup_empty; simpl; split; lia || done.
Qed.

Lemma spec_early_nonneg k g node amb s :
  0 <= held k g (sp_map s) ->
  0 <= held k g (sp_map (snd (spec_early node amb s)))
  /\ 0 <= match fst (spec_early node amb s) with Some b => row_total k g (bp_workloads b) | None => 0 end.
Proof. unfold spec_early. destruct (_ <=? _)%nat; [apply spec_flush_nonneg|done]. Qed.

Lemma spec_call_nonneg k g node call amb c s :
  0 <= held k g (sp_map s) -> 0 <= contribution k g call ->
  held k g (sp_map s) + contribution k g call <= umax (stat_width k) ->
  let '(b, (_, s')) := spec_call node call amb (c, s) in
  0 <= held k g (sp_map s')
  /\ 0 <= match b with Some b => row_total k g (bp_workloads b) | None => 0 end.
Proof.
  intros H0 Hc Hle. pose proof (spec_call_conserves k g node call amb c s H0 Hc Hle) as Hcons.
  destruct call as [e|id bytes|id d|]; cbn [spec_call contribution] in *.
  1-3: match goal with |- context [spec_early ?n ?am ?x] => pose proof (spec_early_nonneg k g n am x) as H;
         pose proof (spec_early_conserves k g n am x) as E; destruct (spec_early n am x) as [b s'] end;
       apply H; simpl in *; lia.
  pose proof (spec_flush_nonneg k g node amb s H0) as H. destruct (spec_flush node amb s). done.
Qed.

Lemma spec_run_conserves k g node calls c s :
  0 <= held k g (sp_map s) -> Forall (fun x => 0 <= contribution k g x.1) calls ->
  held k g (sp_map s) + total_contribution k g calls <= umax (stat_width k) ->
  let '(bs, (_, s')) := spec_run node calls (c, s) in
  held k g (sp_map s) + total_contribution k g calls = shipped k g bs + held k g (sp_map s')
  /\ 0 <= shipped k g bs /\ 0 <= held k g (sp_map s').
Proof.
  unfold total_contribution, shipped.
  revert c s. induction calls as [|[call amb] calls IH]; intros c s H0 Hc Hle; [simpl; lia|].
  inv Hc. rewrite sumZ_cons in *. cbn [fst spec_run] in *.
  assert (Hrest : 0 <= sumZ (fun x : agg_call * ambient => contribution k g x.1) calls)
    by (by apply sumZ_nonneg).
  pose proof (spec_call_conserves k g node call amb c s H0 ltac:(done) ltac:(lia)) as H.
  pose proof (spec_call_nonneg k g node call amb c s H0 ltac:(done) ltac:(lia)) as H'.
  destruct (spec_call node call amb (c, s)) as [b [c1 s1]]. destruct H' as [Hs1 Hb].
  specialize (IH c1 s1 Hs1 ltac:(done) ltac:(destruct b; lia)).
  destruct (spec_run node calls (c1, s1)) as [bs [c2 s2]]. destruct b; rewrite ?sumZ_cons; lia.
Qed.

(** ** Bounds and windows *)

(** What the output relies on of a batch. *)
Definition batch_bounded (maxk : nat) (b : BatchPayload) : Prop :=
  (0 < length (bp_workloads b) <= maxk)%nat /\ NoDup (map cgroup_id (bp_workloads b)).

Lemma cgroup_ids_of_rows m : map cgroup_id (row_of <$> map_to_list m) = (map_to_list m).*1.
Proof. change map with (@fmap list _ Z Z) || idtac. induction (map_to_list m) as [|[i s] l IH]; [done|].
  simpl. by f_equal. Qed.

Lemma spec_flush_ok node amb s :
  (size (sp_map s) <= sp_max s)%nat ->
  sp_max (snd (spec_flush node amb s)) = sp_max s /\ size (sp_map (snd (spec_flush node amb s))) = 0%nat
  /\ match fst (spec_flush node amb s) with Some b => batch_bounded (sp_max s) b | None => True end.
Proof.
  intros Hs. unfold spec_flush. simpl. split; [done|]. split; [apply map_size_empty|].
  case_bool_decide as E; [done|]. simpl. split; simpl.
  - rewrite length_fmap, length_map_to_list. split; [|done].
    apply map_size_non_empty_iff in E. lia.
  - rewrite cgroup_ids_of_rows. apply NoDup_fst_map_to_list.
Qed.

Lemma spec_early_ok node amb s :
  (0 < sp_max s)%nat -> (size (sp_map s) <= sp_max s)%nat ->
  sp_max (snd (spec_early node amb s)) = sp_max s
  /\ (size (sp_map (snd (spec_early node amb s))) < sp_max s)%nat
  /\ match fst (spec_early node amb s) with Some b => batch_bounded (sp_max s) b | None => True end.
Proof.
  intros H0 Hs. unfold spec_early. destruct (Nat.leb_spec (sp_max s) (size (sp_map s))) as [Hle|Hlt]; [|done].
  destruct (spec_flush_ok node amb s Hs) as (? & -> & ?). done.
Qed.

Lemma size_update id f s :
  (size (sp_map s) < sp_max s)%nat ->
  (size (sp_map (spec_update id f s)) <= sp_max (spec_update id f s))%nat.
Proof.
  intros. unfold spec_update. simpl. rewrite map_size_insert. destruct (_ !! _); simpl; lia.
Qed.

Lemma spec_call_ok node call amb c s :
  (size (sp_map s) < sp_max s)%nat ->
  let '(b, (_, s')) := spec_call node call amb (c, s) in
  sp_max s' = sp_max s /\ (size (sp_map s') < sp_max s)%nat
  /\ match b with Some b => batch_bounded (sp_max s) b | None => True end.
Proof.
  intros Hs. destruct call as [e|id bytes|id d|]; cbn [spec_call].
  1-3: match goal with |- context [spec_early ?n ?am ?x] =>
         assert (Hx : sp_max x = sp_max s /\ (size (sp_map x) <= sp_max x)%nat)
           by (destruct_ifs; split; try apply size_update; simpl; (done || lia));
         destruct Hx as [Hm Hx];
         pose proof (spec_early_ok n am x ltac:(lia) Hx) as H;
         destruct (spec_early n am x) end; rewrite Hm in H; exact H.
  pose proof (spec_flush_ok node amb s ltac:(lia)) as (H1 & H2 & H3).
  destruct (spec_flush node amb s). simpl in *. split_and!; [done|lia|done].
Qed.

Lemma spec_run_ok node calls c s :
  (size (sp_map s) < sp_max s)%nat ->
  let '(bs, (_, s')) := spec_run node calls (c, s) in
  sp_max s' = sp_max s /\ (size (sp_map s') < sp_max s)%nat /\ Forall (batch_bounded (sp_max s)) bs.
Proof.
  revert c s. induction calls as [|[call amb] calls IH]; intros c s Hs; [done|]. cbn [spec_run].
  pose proof (spec_call_ok node call amb c s Hs) as H.
  destruct (spec_call node call amb (c, s)) as [b [c1 s1]]. destruct H as (Hm & Hs1 & Hb).
  rewrite <- Hm in Hs1. specialize (IH c1 s1 Hs1). rewrite Hm in *.
  destruct (spec_run node calls (c1, s1)) as [bs [c2 s2]]. destruct IH as (? & ? & ?).
  split_and!; [done..|]. destruct b; [by constructor|done].
Qed.

(** Batches of a run cover windows that follow one another. *)
Fixpoint windows_from (t : Z) (bs : list BatchPayload) : Prop :=
  match bs with
  | [] => True
  | b :: bs => t <= bp_window_start_ns b /\ bp_window_start_ns b <= bp_window_end_ns b
               /\ windows_from (bp_window_end_ns b) bs
  end.

(** The clock readings of a run. *)
Fixpoint clock_from (t : Z) (calls : list (agg_call * ambient)) : Prop :=
  match calls with
  | [] => True
  | (_, amb) :: calls => t <= now_ns amb /\ clock_from (now_ns amb) calls
  end.

Lemma windows_from_mono t t' bs : t <= t' -> windows_from t' bs -> windows_from t bs.
Proof. destruct bs; simpl; intuition lia. Qed.

Lemma spec_call_window node call amb c s :
  let '(b, (_, s')) := spec_call node call amb (c, s) in
  (sp_start s' = sp_start s /\ b = None)
  \/ (sp_start s' = now_ns amb
      /\ match b with
         | Some b => bp_window_start_ns b = sp_start s /\ bp_window_end_ns b = now_ns amb
         | None => True end).
Proof.
  assert (Hf : forall x, sp_start (snd (spec_flush node amb x)) = now_ns amb
      /\ match fst (spec_flush node amb x) with
         | Some b => bp_window_start_ns b = sp_start x /\ bp_window_end_ns b = now_ns amb
         | None => True end).
  { intros x. unfold spec_flush. by case_bool_decide. }
  destruct call as [e|id bytes|id d|]; cbn [spec_call].
  1-3: match goal with |- context [spec_early ?n ?am ?x] =>
         assert (Hx : sp_start x = sp_start s) by (destruct_ifs; done); specialize (Hf x);
         unfold spec_early; destruct (_ <=? _)%nat; [|by left];
         destruct (spec_flush n am x); right; rewrite Hx in Hf; exact Hf end.
  specialize (Hf s). destruct (spec_flush node amb s). right. exact Hf.
Qed.

Lemma spec_run_windows node calls c s t :
  sp_start s <= t -> clock_from t calls ->
  windows_from (sp_start s) (fst (spec_run node calls (c, s))).
Proof.
  revert c s t. induction calls as [|[call amb] calls IH]; intros c s t Ht Hc; [done|].
  cbn [spec_run clock_from] in *. destruct Hc as [Hn Hc].
  pose proof (spec_call_window node call amb c s) as H.
  destruct (spec_call node call amb (c, s)) as [b [c1 s1]].
  assert (Hs1 : sp_start s1 <= now_ns amb) by (destruct H as [[-> _]|[-> _]]; lia).
  specialize (IH c1 s1 (now_ns amb) Hs1 Hc). destruct (spec_run node calls (c1, s1)) as [bs [c2 s2]].
  simpl in *. destruct H as [[E ->]|[E Hb]]; [by rewrite <- E|].
  destruct b as [b|]; [|eapply windows_from_mono; [|exact IH]; lia].
  destruct Hb as [H1 H2]. simpl. rewrite H1, H2. split_and!; [lia|lia|]. by rewrite <- E.
Qed.

(** ** Peak memory *)

Definition held_peak (g : Z) (m : stats_map) : Z :=
  Z.max 0 (from_option st_memory_bytes_max 0 (m !! g)).
Definition maxZ {A} (f : A -> Z) (l : list A) : Z := foldr (fun x acc => Z.max (f x) acc) 0 l.
Definition row_peak (g : Z) (rows : list WorkloadRow) : Z :=
  maxZ (fun r => if cgroup_id r =? g then Z.max 0 (memory_bytes_max r) else 0) rows.
Definition shipped_peak (g : Z) (bs : list BatchPayload) : Z := maxZ (fun b => row_peak g (bp_workloads b)) bs.

(** The memory sample a call carries for cgroup [g], 0 if none. *)
Definition sampled (g : Z) (call : agg_call) : Z :=
  match call with
  | CallEvent e => if (event_cgroup_id e =? g) && negb (kind e =? EVENT_KIND_WORKLOAD_IDENTITY)
                      && (kind e =? EVENT_KIND_MEMORY_SAMPLE)
                   then Z.max 0 (memory_bytes e) else 0
  | CallMemory id bytes => if id =? g then Z.max 0 bytes else 0
  | _ => 0
  end.

Lemma maxZ_perm {A} (f : A -> Z) l1 l2 : l1 ≡ₚ l2 -> maxZ f l1 = maxZ f l2.
Proof. unfold maxZ. induction 1; simpl; lia. Qed.

Lemma maxZ_cons {A} (f : A -> Z) x l : maxZ f (x :: l) = Z.max (f x) (maxZ f l).
Proof. done. Qed.

Lemma maxZ_nonneg {A} (f : A -> Z) l : 0 <= maxZ f l.
Proof. unfold maxZ. induction l; simpl; lia. Qed.

Lemma row_peak_map g m : row_peak g (row_of <$> map_to_list m) = held_peak g m.
Proof.
  unfold row_peak, held_peak. induction m as [|i s m Hi IH] using map_ind; [done|].
  rewrite (maxZ_perm _ _ (row_of <$> ((i, s) :: map_to_list m))) by (by rewrite map_to_list_insert).
  rewrite fmap_cons. cbn [maxZ foldr]. unfold maxZ in IH. rewrite IH. simpl.
  destruct (Z.eqb_spec i g) as [->|Hne].
  - rewrite lookup_insert_eq, Hi. simpl. lia.
  - rewrite lookup_insert_ne by done. lia.
Qed.

Definition batch_peak (g : Z) (b : option BatchPayload) : Z :=
  match b with Some b => row_peak g (bp_workloads b) | None => 0 end.

Lemma held_peak_empty g : held_peak g ∅ = 0.
Proof. unfold held_peak. by rewrite lookup_empty. Qed.

Lemma spec_flush_peak g node amb s :
  held_peak g (sp_map s)
  = Z.max (batch_peak g (fst (spec_flush node amb s))) (held_peak g (sp_map (snd (spec_flush node amb s)))).
Proof.
  unfold spec_flush. case_bool_decide as E; simpl; rewrite ?row_peak_map, ?E, held_peak_empty; [done|].
  unfold held_peak. lia.
Qed.

Lemma spec_early_peak g node amb s :
  held_peak g (sp_map s)
  = Z.max (batch_peak g (fst (spec_early node amb s))) (held_peak g (sp_map (snd (spec_early node amb s)))).
Proof.
  unfold spec_early. destruct (_ <=? _)%nat; [apply spec_flush_peak|]. unfold held_peak. simpl. lia.
Qed.

Lemma peak_update g id f s d :
  (forall st, st_memory_bytes_max (f st) = Z.max (st_memory_bytes_max st) d \/
     (st_memory_bytes_max (f st) = st_memory_bytes_max st /\ d = 0)) ->
  held_peak g (sp_map (spec_update id f s))
  = Z.max (held_peak g (sp_map s)) (if id =? g then Z.max 0 d else 0).
Proof.
  intros Hf. unfold held_peak, spec_update. simpl. destruct (Z.eqb_spec id g) as [->|Hne].
  - rewrite lookup_insert_eq. simpl. destruct (sp_map s !! g) as [st|]; simpl;
      [specialize (Hf st)|specialize (Hf default_stats); simpl in Hf]; lia.
  - rewrite lookup_insert_ne by done. lia.
Qed.

Lemma on_memory_max bytes l st :
  st_memory_bytes_max (on_memory bytes l st) = Z.max (st_memory_bytes_max st) bytes.
Proof. simpl. destruct (Z.ltb_spec (st_memory_bytes_max st) bytes); lia. Qed.

Lemma spec_call_peak g node call amb c s :
  let '(b, (_, s')) := spec_call node call amb (c, s) in
  Z.max (held_peak g (sp_map s)) (sampled g call) = Z.max (batch_peak g b) (held_peak g (sp_map s')).
Proof.
  assert (Hgo : forall s1 (c1 : cache), held_peak g (sp_map s1) = Z.max (held_peak g (sp_map s)) (sampled g call) ->
    let '(b, (_, s')) := (let '(b, a) := spec_early node amb s1 in (b, (c1, a))) in
    Z.max (held_peak g (sp_map s)) (sampled g call) = Z.max (batch_peak g b) (held_peak g (sp_map s'))).
  { intros s1 c1 E. pose proof (spec_early_peak g node amb s1) as H. rewrite E in H.
    destruct (spec_early node amb s1). done. }
  assert (Hn : 0 <= held_peak g (sp_map s)) by (unfold held_peak; lia).
  destruct call as [e|id bytes|id d|]; cbn [spec_call sampled] in *.
  - apply Hgo. destruct (kind e =? EVENT_KIND_WORKLOAD_IDENTITY); [|destruct (kind e =? _)];
      rewrite ?andb_false_r, ?andb_true_r; cbn [negb andb]; rewrite ?andb_false_r; cbn [andb].
    + rewrite (peak_update g _ _ _ 0) by (right; done). by destruct (event_cgroup_id e =? g).
    + apply peak_update. left. apply on_memory_max.
    + lia.
  - apply Hgo, peak_update. left. apply on_memory_max.
  - apply Hgo. rewrite (peak_update g _ _ _ 0) by (right; done). by destruct (id =? g).
  - pose proof (spec_flush_peak g node amb s) as H. destruct (spec_flush node amb s). simpl in *. lia.
Qed.

Lemma spec_run_peak g node calls c s :
  let '(bs, (_, s')) := spec_run node calls (c, s) in
  Z.max (held_peak g (sp_map s)) (maxZ (fun x => sampled g x.1) calls)
  = Z.max (shipped_peak g bs) (held_peak g (sp_map s')).
Proof.
  revert c s. induction calls as [|[call amb] calls IH]; intros c s; [simpl; lia|].
  cbn [spec_run]. pose proof (spec_call_peak g node call amb c s) as H.
  destruct (spec_call node call amb (c, s)) as [b [c1 s1]]. specialize (IH c1 s1).
  destruct (spec_run node calls (c1, s1)) as [bs [c2 s2]]. unfold shipped_peak in *.
  rewrite maxZ_cons. cbn [fst]. destruct b; rewrite ?maxZ_cons; cbn [batch_peak] in H; [lia|].
  pose proof (maxZ_nonneg (fun b => row_peak g (bp_workloads b)) bs). lia.
Qed.

(** ** Properties *)

Definition batches (p : list BatchPayload * (cache * Aggregator)) : list BatchPayload := p.1.
Definition final_map (p : list BatchPayload * (cache * Aggregator)) : stats_map :=
  buffer (ag_active p.2.2) p.2.2.

(** C23: the two ping-pong buffers behave as one map.  Whatever events, samples
    and flushes the agent processes, the batches it emits and the final state are
    those of an aggregator with a single map that is emptied at each flush; in
    particular a buffer never carries rows of an earlier window into a later
    one. *)
Theorem double_buffering_is_invisible node calls c now :
  let '(bs, (c', a')) := agg_run node calls (c, new_aggregator now) in
  let '(bs', (c'', s')) := spec_run node calls (c, SpecAgg now ∅ DEFAULT_MAX_KEYS) in
  bs = bs' /\ c' = c'' /\ spec_of a' = s' /\ buffer (negb (ag_active a')) a' = ∅.
Proof. exact (run_spec node calls c (new_aggregator now) eq_refl). Qed.

Lemma agg_run_spec node calls c now :
  let s := SpecAgg now ∅ DEFAULT_MAX_KEYS in
  batches (agg_run node calls (c, new_aggregator now)) = fst (spec_run node calls (c, s))
  /\ final_map (agg_run node calls (c, new_aggregator now)) = sp_map (spec_run node calls (c, s)).2.2.
Proof.
  pose proof (run_spec node calls c (new_aggregator now) eq_refl) as H. unfold batches, final_map.
  change (spec_of (new_aggregator now)) with (SpecAgg now ∅ DEFAULT_MAX_KEYS) in H.
  destruct (agg_run _ _ _) as [bs [c1 a1]], (spec_run _ _ _) as [bs2 [c2 a2]].
  destruct H as (-> & -> & <- & _). done.
Qed.

(** C15: telemetry is neither lost nor counted twice.  For every cgroup and each of
    the exec count, the sample count and the CPU time, what the rows of all
    emitted batches report plus what the active buffer still holds is exactly
    what the processed events contributed, early flushes included, as long as
    the total fits the field. *)
Theorem no_event_is_lost node calls c now k g :
  Forall (fun x => 0 <= contribution k g x.1) calls ->
  total_contribution k g calls <= umax (stat_width k) ->
  let out := agg_run node calls (c, new_aggregator now) in
  shipped k g (batches out) + held k g (final_map out) = total_contribution k g calls.
Proof.
  intros Hc Hle out. subst out. destruct (agg_run_spec node calls c now) as [-> ->].
  pose proof (spec_run_conserves k g node calls c (SpecAgg now ∅ DEFAULT_MAX_KEYS)) as H.
  unfold held at 1 2 3 in H. cbn [sp_map] in H. rewrite lookup_empty in H. simpl from_option in H.
  specialize (H ltac:(lia) Hc ltac:(lia)).
  destruct (spec_run _ _ _) as [bs [c1 s1]]. simpl in *. lia.
Qed.

(** The peak memory of a cgroup over the whole run, the value a memory request
    is sized by, is the maximum over the batches and the active buffer: window
    boundaries and early flushes never hide a peak. *)
Theorem no_peak_is_lost node calls c now g :
  let out := agg_run node calls (c, new_aggregator now) in
  Z.max (shipped_peak g (batches out)) (held_peak g (final_map out)) = maxZ (fun x => sampled g x.1) calls.
Proof.
  intros out. subst out. destruct (agg_run_spec node calls c now) as [-> ->].
  pose proof (spec_run_peak g node calls c (SpecAgg now ∅ DEFAULT_MAX_KEYS)) as H.
  cbn [sp_map] in H. rewrite held_peak_empty in H.
  pose proof (maxZ_nonneg (fun x : agg_call * ambient => sampled g x.1) calls).
  destruct (spec_run _ _ _) as [bs [c1 s1]]. simpl in *. lia.
Qed.

(** Memory stays bounded during an exec storm.  After every call the active
    buffer holds fewer than [max_keys] cgroups, and every batch that leaves has
    between 1 and [max_keys] rows, one per cgroup. *)
Theorem active_buffer_is_bounded node calls c now :
  let out := agg_run node calls (c, new_aggregator now) in
  (size (final_map out) < DEFAULT_MAX_KEYS)%nat /\ Forall (batch_bounded DEFAULT_MAX_KEYS) (batches out).
Proof.
  intros out. subst out. destruct (agg_run_spec node calls c now) as [-> ->].
  pose proof (spec_run_ok node calls c (SpecAgg now ∅ DEFAULT_MAX_KEYS)) as H.
  cbn [sp_map sp_max] in H. rewrite map_size_empty in H. specialize (H ltac:(unfold DEFAULT_MAX_KEYS; lia)).
  destruct (spec_run _ _ _) as [bs [c1 s1]]. simpl. tauto.
Qed.

(** With a clock that does not go backwards the windows of the emitted batches
    are well formed and do not overlap: each starts no earlier than the previous
    one ended. *)
Theorem windows_do_not_overlap node calls c now :
  clock_from now calls ->
  windows_from now (batches (agg_run node calls (c, new_aggregator now))).
Proof.
  intros Hc. destruct (agg_run_spec node calls c now) as [-> _].
  exact (spec_run_windows node calls c (SpecAgg now ∅ DEFAULT_MAX_KEYS) now (Z.le_refl _) Hc).
Qed.

End Aggregator.

(** ** Witnesses *)

Definition flat_cache : Attribution :=
  {| cache := gmap Z WorkloadLabels; on_identity_event := fun _ c => c;
     labels_for_cgroup := fun id c => default DEFAULT_LABELS (c !! id) |}.

Definition sample_uuid : UuidText := fun _ => "id"%string.

Definition sample_calls : list (agg_call * ambient) :=
  [(CallCpu 7 100, Ambient 10 []); (CallMemory 7 4096, Ambient 11 []); (CallFlush, Ambient 20 []);
   (CallCpu 7 50, Ambient 30 []); (CallCpu 9 1, Ambient 31 [])].

Lemma no_event_is_lost_witness :
  let out := agg_run (ATT := flat_cache) (UUID := sample_uuid) "n" sample_calls (∅, new_aggregator 0) in
  shipped SCpu 7 (batches (ATT := flat_cache) out) + held SCpu 7 (final_map (ATT := flat_cache) out) = 150.
Proof.
  rewrite (no_event_is_lost (ATT := flat_cache) (UUID := sample_uuid) "n" sample_calls ∅ 0 SCpu 7);
    [done|apply (bool_decide_unpack _); vm_compute; exact I|vm_compute; discriminate].
Defined.

Lemma windows_do_not_overlap_witness :
  windows_from 0 (batches (ATT := flat_cache)
    (agg_run (ATT := flat_cache) (UUID := sample_uuid) "n" sample_calls (∅, new_aggregator 0))).
Proof. apply (windows_do_not_overlap (ATT := flat_cache)). simpl. lia. Defined.
