(* ===== verification/Config.v ===== *)
(** * Config: what the environment configures

    Models [statix-infra/src/env.rs] and the functions that read their settings
    through it: [WalConfig::from_env] of the agent, [Config::from_env] of the
    gateway, the limits of its ClickHouse writer and [DashboardConfig::from_env].
    The environment is the finite map of the variables that hold valid Unicode,
    the ones [std::env::var] answers.  The theorems show that no environment,
    however wrong, yields a configuration the components cannot work with. *)

From S2P Require Export Text Wal.

Abbreviation environment := (gmap string string).

(** ** Reading variables *)

Definition var_with_legacy (name : string) (e : environment) : option string :=
  match e !! name with
  | Some v => Some v
  | None =>
      match strip_prefix "STATIX_" name with
      | Some legacy => e !! ("FINOPS_" +:+ legacy)
      | None => None
      end
  end.

Definition var (name : string) (e : environment) : option string := var_with_legacy name e.

(** For a [w]-bit unsigned type, whose default is 0. *)
Definition read_env_positive (w : Z) (name : string) (def : Z) (e : environment) : Z :=
  match var_with_legacy name e with
  | Some s =>
      match parse_uint w s with
      | Some v => if 0 <? v then v else def
      | None => def
      end
  | None => def
  end.

Definition read_env_u64 (name : string) (def : Z) (e : environment) : Z := read_env_positive 64 name def e.
Definition read_env_usize (name : string) (def : Z) (e : environment) : Z := read_env_positive 64 name def e.

Definition read_node_name (e : environment) (etc_hostname : option string) : string :=
  match var "STATIX_NODE_NAME" e with
  | Some v => v
  | None =>
      match e !! "NODE_NAME" with
      | Some v => v
      | None => match etc_hostname with Some s => trim s | None => "localhost" end
      end
  end.

(** ** The clock *)

(** [wall_unix_ns]: the nanoseconds since the epoch, [None] before it. *)
Definition wall_unix_ns (since_epoch : option Z) : Z :=
  match since_epoch with Some ns => wrap 64 ns | None => 0 end.

Lemma wall_unix_ns_range t : urange 64 (wall_unix_ns t).
Proof. destruct t; [by apply wrap_range|done]. Qed.

(** ** The agent *)

Definition wal_config_from_env (e : environment) : WalConfig :=
  let enabled :=
    match var "STATIX_WAL_ENABLED" e with
    | Some v =>
        let v := to_ascii_lowercase (trim v) in
        negb (String.eqb v "0" || String.eqb v "false" || String.eqb v "no" || String.eqb v "off")
    | None => true
    end in
  let dir := default "/var/lib/statix/wal"%string (var "STATIX_WAL_DIR" e) in
  let max_bytes := read_env_u64 "STATIX_WAL_MAX_BYTES" (512 * 1024 * 1024) e in
  let segment_bytes := read_env_u64 "STATIX_WAL_SEGMENT_BYTES" (8 * 1024 * 1024) e in
  let fsync_frames := read_env_u64 "STATIX_WAL_FSYNC_FRAMES" 64 e in
  let fsync_interval := read_env_u64 "STATIX_WAL_FSYNC_INTERVAL_MS" 200 e in
  {| enabled := enabled; dir := dir; max_bytes := Z.max max_bytes segment_bytes;
     segment_bytes := segment_bytes; fsync_frames := Z.max fsync_frames 1;
     fsync_interval := fsync_interval |}.

(** ** The gateway *)

Definition DEFAULT_API_PORT : Z := 3000.
Definition DEFAULT_CLICKHOUSE_URL : string := "http://localhost:8123".
Definition DEFAULT_CLICKHOUSE_USER : string := "default".

Record GatewayConfig : Type := {
  api_port : Z;
  api_token : option string;
  expected_bearer : option string;
  clickhouse_url : string;
  clickhouse_user : string;
  clickhouse_password : string
}.

Definition is_empty (s : string) : bool := match s with EmptyString => true | _ => false end.

Definition env_string (name def : string) (e : environment) : string :=
  match e !! name with
  | Some s => if negb (is_empty s) then s else def
  | None => def
  end.

(** The error is the code the process exits with. *)
Definition env_api_port (e : environment) : res Z Z :=
  match var "STATIX_API_PORT" e with
  | None => Ok DEFAULT_API_PORT
  | Some s =>
      match parse_uint 16 s with
      | Some 0 => Err 1
      | Some port => Ok port
      | None => Err 1
      end
  end.

Definition gateway_config_from_env (e : environment) : res Z GatewayConfig :=
  let api_token := match var "STATIX_API_TOKEN" e with
                   | Some s => if negb (is_empty s) then Some s else None
                   | None => None
                   end in
  let expected_bearer := match api_token with Some t => Some ("Bearer " +:+ t) | None => None end in
  match env_api_port e with
  | Err code => Err code
  | Ok port =>
      Ok {| api_port := port; api_token := api_token; expected_bearer := expected_bearer;
            clickhouse_url := env_string "CLICKHOUSE_URL" DEFAULT_CLICKHOUSE_URL e;
            clickhouse_user := env_string "CLICKHOUSE_USER" DEFAULT_CLICKHOUSE_USER e;
            clickhouse_password := default ""%string (e !! "CLICKHOUSE_PASSWORD") |}
  end.

Definition DEFAULT_CHANNEL_SIZE : Z := 8192.
Definition MIN_CHANNEL_SIZE : Z := 1024.
Definition DEFAULT_BATCH_MAX : Z := 1024.
Definition DEFAULT_LINGER_MS : Z := 50.
Definition DEFAULT_INSERT_TIMEOUT_SECS : Z := 3.

Definition ingest_channel_capacity (e : environment) : Z :=
  Z.max (read_env_usize "STATIX_INGEST_CHANNEL_SIZE" DEFAULT_CHANNEL_SIZE e) MIN_CHANNEL_SIZE.
Definition read_batch_max (e : environment) : Z :=
  clamp (read_env_usize "STATIX_CH_BATCH_MAX" DEFAULT_BATCH_MAX e) 64 16384.
Definition read_linger (e : environment) : Z :=
  clamp (read_env_u64 "STATIX_CH_LINGER_MS" DEFAULT_LINGER_MS e) 1 1000.
Definition read_insert_timeout (e : environment) : Z :=
  clamp (read_env_u64 "STATIX_CH_INSERT_TIMEOUT_SECS" DEFAULT_INSERT_TIMEOUT_SECS e) 1 30.

Definition DEFAULT_MAX_LIMIT : Z := 500.
Definition DEFAULT_CACHE_MS : Z := 2000.
Definition DEFAULT_RATE_LIMIT_PER_MIN : Z := 600.

(** [cache_ttl] is in milliseconds. *)
Record DashboardConfig : Type := {
  dash_enabled : bool;
  dash_dir : option string;
  cache_ttl : Z;
  max_limit : Z;
  rate_limit_per_min : Z
}.

Definition dashboard_config_from_env (e : environment) : DashboardConfig :=
  {| dash_enabled :=
       negb (match var "STATIX_DASHBOARD_ENABLED" e with
             | Some s => String.eqb s "0" || String.eqb s "false" || String.eqb s "no" || String.eqb s "off"
             | None => false
             end);
     dash_dir := match var "STATIX_DASHBOARD_DIR" e with
                 | Some s => if negb (is_empty s) then Some s else None
                 | None => None
                 end;
     cache_ttl := clamp (read_env_u64 "STATIX_DASHBOARD_CACHE_MS" DEFAULT_CACHE_MS e) 0 60000;
     max_limit := clamp (read_env_usize "STATIX_DASHBOARD_MAX_LIMIT" DEFAULT_MAX_LIMIT e) 10 5000;
     rate_limit_per_min :=
       wrap 32 (clamp (read_env_u64 "STATIX_DASHBOARD_RATE_LIMIT_PER_MIN" DEFAULT_RATE_LIMIT_PER_MIN e)
                      10 1000000) |}.

(** ** Lemmas *)

Lemma parse_digits_range w acc s v :
  0 <= acc < 2 ^ w -> parse_digits w acc s = Some v -> 0 <= v < 2 ^ w.
Proof.
  revert acc. induction s as [|c s IH]; intros acc Ha; simpl; [by intros [= <-]|].
  destruct (char_digit c) as [d|] eqn:Ec; [|done]. destruct (Z.ltb_spec (acc * 10 + d) (2 ^ w)); [|done].
  apply IH. split; [|done]. assert (0 <= d); [|lia].
  unfold char_digit in Ec. destruct (ascii_between 48 57 c) eqn:Eb; [|done]. inv Ec.
  unfold ascii_between in Eb. apply andb_prop in Eb as [Eb _]. apply Nat.leb_le in Eb. lia.
Qed.

Lemma parse_uint_range w s v : 0 < w -> parse_uint w s = Some v -> 0 <= v < 2 ^ w.
Proof.
  intros Hw. assert (H0 : 0 <= 0 < 2 ^ w) by (split; [done|by apply Z.pow_pos_nonneg; lia]).
  unfold parse_uint. destruct s as [|c s]; [done|]. destruct (Ascii.eqb c "+").
  - destruct s; [done|]. by apply parse_digits_range.
  - by apply parse_digits_range.
Qed.

Lemma read_env_positive_range w name def e :
  0 < w -> 0 < def < 2 ^ w -> 0 < read_env_positive w name def e < 2 ^ w.
Proof.
  intros Hw Hd. unfold read_env_positive. destruct (var_with_legacy name e) as [s|]; [|done].
  destruct (parse_uint w s) as [v|] eqn:E; [|done]. apply parse_uint_range in E; [|done].
  destruct (Z.ltb_spec 0 v); [lia|done].
Qed.

Lemma read_env_u64_given name def e s n :
  e !! name = Some s -> parse_uint 64 s = Some n -> 0 < n -> read_env_u64 name def e = n.
Proof.
  intros He Hs Hn. unfold read_env_u64, read_env_positive, var_with_legacy. rewrite He, Hs.
  by destruct (Z.ltb_spec 0 n); [|lia].
Qed.

Lemma read_env_u64_range name def e : 0 < def < 2 ^ 64 -> 0 < read_env_u64 name def e < 2 ^ 64.
Proof. by apply read_env_positive_range. Qed.

Lemma env_string_nonempty name def e : def <> ""%string -> env_string name def e <> ""%string.
Proof. intros Hd. unfold env_string. by destruct (e !! name) as [[|c s]|]. Qed.

(** ** Properties *)

(** What the log store, the writer and the dashboard rely on. *)
Definition wal_config_ok (c : WalConfig) : Prop :=
  0 < segment_bytes c /\ segment_bytes c <= max_bytes c /\ max_bytes c < 2 ^ 64
  /\ 1 <= fsync_frames c /\ fsync_frames c < 2 ^ 64
  /\ 0 < fsync_interval c /\ fsync_interval c < 2 ^ 64.

Definition dashboard_config_ok (c : DashboardConfig) : Prop :=
  0 <= cache_ttl c <= 60000 /\ 10 <= max_limit c <= 5000 /\ 10 <= rate_limit_per_min c <= 1000000.

(** C25: whatever the environment holds (variables missing, empty, negative, not
    numbers or out of range) the settings the program runs with are usable: the
    log's cap holds at least one segment, counts and intervals are positive, the
    writer's batch, linger time and timeout stay in their documented ranges, and
    a port, when the gateway starts at all, is between 1 and 65535. *)
Theorem configuration_is_always_usable e :
  wal_config_ok (wal_config_from_env e)
  /\ dashboard_config_ok (dashboard_config_from_env e)
  /\ 64 <= read_batch_max e <= 16384 /\ MIN_CHANNEL_SIZE <= ingest_channel_capacity e < 2 ^ 64
  /\ 1 <= read_linger e <= 1000 /\ 1 <= read_insert_timeout e <= 30
  /\ match gateway_config_from_env e with
     | Ok c => 1 <= api_port c <= 65535 /\ clickhouse_url c <> ""%string
     | Err code => code = 1
     end.
Proof.
  pose proof (read_env_positive_range 64 "STATIX_INGEST_CHANNEL_SIZE" DEFAULT_CHANNEL_SIZE e
    ltac:(lia) ltac:(unfold DEFAULT_CHANNEL_SIZE; lia)).
  split_and!; try (apply clamp_bounds; lia);
    try (unfold ingest_channel_capacity, read_env_usize, MIN_CHANNEL_SIZE; lia).
  - pose proof (read_env_u64_range "STATIX_WAL_MAX_BYTES" (512 * 1024 * 1024) e ltac:(lia)).
    pose proof (read_env_u64_range "STATIX_WAL_SEGMENT_BYTES" (8 * 1024 * 1024) e ltac:(lia)).
    pose proof (read_env_u64_range "STATIX_WAL_FSYNC_FRAMES" 64 e ltac:(lia)).
    pose proof (read_env_u64_range "STATIX_WAL_FSYNC_INTERVAL_MS" 200 e ltac:(lia)).
    unfold wal_config_ok, wal_config_from_env. simpl. lia.
  - unfold dashboard_config_ok, dashboard_config_from_env. simpl.
    assert (Hc : forall x, 10 <= clamp x 10 1000000 <= 1000000) by (intros; apply clamp_bounds; lia).
    rewrite wrap_small; [|unfold urange; specialize (Hc (read_env_u64 "STATIX_DASHBOARD_RATE_LIMIT_PER_MIN"
      DEFAULT_RATE_LIMIT_PER_MIN e)); lia].
    split; [apply clamp_bounds; lia|]. split; [apply clamp_bounds; lia|apply Hc].
  - unfold gateway_config_from_env, env_api_port. destruct (var "STATIX_API_PORT" e) as [s|].
    + destruct (parse_uint 16 s) as [p|] eqn:E; [|done]. apply parse_uint_range in E; [|lia].
      destruct p; [done|simpl|lia]. split; [lia|by apply env_string_nonempty].
    + simpl. split; [unfold DEFAULT_API_PORT; lia|by apply env_string_nonempty].
Qed.

(** Setting a numeric variable to a decimal number that fits has exactly that
    effect when it is positive and the default's otherwise; the new name of a
    variable takes precedence over its [FINOPS_] name, which is still honoured
    when the new one is not set. *)
Theorem numeric_setting_roundtrip name n def e :
  0 <= n < 2 ^ 64 ->
  read_env_u64 name def (<[name := dec_fixed 20 n]> e) = (if 0 <? n then n else def)
  /\ (forall legacy, name = "STATIX_" +:+ legacy -> e !! name = None ->
      read_env_u64 name def (<["FINOPS_" +:+ legacy := dec_fixed 20 n]> e) = (if 0 <? n then n else def)).
Proof.
  intros Hn. assert (Hp : parse_uint 64 (dec_fixed 20 n) = Some n) by (apply parse_uint_dec_fixed; lia).
  unfold read_env_u64, read_env_positive, var_with_legacy. split.
  - by rewrite lookup_insert_eq, Hp.
  - intros legacy -> Hnone. rewrite lookup_insert_ne by done. rewrite Hnone, strip_prefix_app.
    by rewrite lookup_insert_eq, Hp.
Qed.

(** The gateway demands a bearer token exactly when a non-empty one is
    configured, and then precisely that token. *)
Theorem bearer_follows_token e c :
  gateway_config_from_env e = Ok c ->
  match var "STATIX_API_TOKEN" e with
  | Some t => expected_bearer c = if String.eqb t "" then None else Some ("Bearer " +:+ t)
  | None => expected_bearer c = None
  end.
Proof.
  unfold gateway_config_from_env. destruct (env_api_port e); [|done]. intros [= <-]. simpl.
  destruct (var "STATIX_API_TOKEN" e) as [t|]; [|done]. by destruct t.
Qed.

(** ** Witnesses *)

Lemma numeric_setting_roundtrip_witness :
  read_env_u64 "STATIX_WAL_FSYNC_FRAMES" 64 {["STATIX_WAL_FSYNC_FRAMES" := dec_fixed 20 128]} = 128.
Proof.
  exact (proj1 (numeric_setting_roundtrip "STATIX_WAL_FSYNC_FRAMES" 128 64 ∅ ltac:(lia))).
Defined.

Lemma bearer_follows_token_witness :
  match var "STATIX_API_TOKEN" {["STATIX_API_TOKEN" := "s3cret"]} with
  | Some t => Some "Bearer s3cret"%string = if String.eqb t "" then None else Some ("Bearer " +:+ t)
  | None => Some "Bearer s3cret"%string = None
  end.
Proof.
  exact (bearer_follows_token {["STATIX_API_TOKEN" := "s3cret"]}
    {| api_port := 3000; api_token := Some "s3cret"%string; expected_bearer := Some "Bearer s3cret"%string;
       clickhouse_url := DEFAULT_CLICKHOUSE_URL; clickhouse_user := DEFAULT_CLICKHOUSE_USER;
       clickhouse_password := "" |} eq_refl).
Defined.
