(* ===== verification/Startup.v ===== *)
(** * Startup: how the agent's delivery tasks come up

    Models [init_retry_worker], [init_wal] and [init_http_client] of
    [statix/src/output.rs] with [Wal::open] of [statix/src/wal/mod.rs], in the order
    [main] calls them: the settings, the statics they fill, the recovery of the log
    and the fall-backs when the log is disabled or cannot be opened.  The theorem:
    what a previous run left in the log is waiting for delivery when the agent
    starts. *)

From S2P Require Export Delivery Config.

#[local] Open Scope Z_scope.

(** ** Settings *)

Definition DEFAULT_HTTP_TIMEOUT_SECS : Z := 5.
Definition DEFAULT_HTTP_POOL_IDLE_SECS : Z := 55.
Definition APPEND_CHANNEL_CAPACITY : nat := 256.

Definition read_http_timeout_secs (e : environment) : Z :=
  read_env_u64 "STATIX_HTTP_TIMEOUT_SECS" DEFAULT_HTTP_TIMEOUT_SECS e.
Definition read_http_pool_idle_secs (e : environment) : Z :=
  read_env_u64 "STATIX_HTTP_POOL_IDLE_SECS" DEFAULT_HTTP_POOL_IDLE_SECS e.

Definition is_http_ingest (e : environment) : bool := bool_decide (is_Some (var "STATIX_INGEST_URL" e)).

(** The settings of the client: the timeouts and the [Authorization] header, when
    there is a token that can be a header value. *)
Record http_settings : Type := {
  http_timeout_secs : Z;
  http_pool_idle_secs : Z;
  authorization : option string
}.

Definition init_http_client (header_value : string -> bool) (e : environment) : http_settings :=
  {| http_timeout_secs := read_http_timeout_secs e; http_pool_idle_secs := read_http_pool_idle_secs e;
     authorization :=
       match var "STATIX_API_TOKEN" e with
       | Some token =>
           if negb (is_empty token) then
             let bearer := ("Bearer " +:+ token)%string in
             if header_value bearer then Some bearer else None
           else None
       | None => None
       end |}.

Section Startup.
Context {crc : Crc32} `{!Channel body}.

(** The fresh channels [mpsc::channel] returns. *)
Variables (retry_channel append_channel : chan body).

(** ** Operations *)

(** The statics before anything is initialised. *)
Definition no_output : output_state := OutputState None false false None.

(** [OnceLock::set] keeps the first value. *)
Definition init_retry_worker (e : environment) (o : output_state) : (Z * Z) * output_state :=
  let initial_backoff := read_env_u64 "STATIX_BACKOFF_INITIAL_SECS" DEFAULT_BACKOFF_INITIAL_SECS e in
  let max_backoff :=
    max_backoff initial_backoff (read_env_u64 "STATIX_BACKOFF_MAX_SECS" DEFAULT_BACKOFF_MAX_SECS e) in
  ((initial_backoff, max_backoff),
   match retry o with
   | Some _ => o
   | None => OutputState (Some retry_channel) true (rx_locked o) (wal o)
   end).

(** [Wal::open]: the recovered store behind its lock, and the handle. *)
Definition wal_open (c : WalConfig) : IO (WalInner * Wal) :=
  inner ← recover c;
  mret (inner, WalHandle append_channel (enabled c)).

(** The statics and the store; without a log the store is never touched. *)
Definition init_wal (e : environment) (w : world) (o : output_state) : output_state * wal_state :=
  let w := (gauge M_SEGMENTS_CURRENT 0 (gauge M_BYTES_CURRENT 0 w).2).2 in
  let c := wal_config_from_env e in
  if negb (enabled c) then (o, fresh_wal c w)
  else
    match wal_open c w with
    | (Ok (inner, handle), w) =>
        (match wal o with Some _ => o | None => set_wal handle o end, WalState inner w)
    | (Err _, w) => (o, fresh_wal c w)
    end.

(** The delivery tasks as [main] starts them. *)
Definition start_delivery (e : environment) (w : world) : pipe :=
  if is_http_ingest e then
    let '((initial, _), o) := init_retry_worker e no_output in
    let '(o, s) := init_wal e w o in
    Pipe o s (Worker initial circuit_init) None [] []
  else Pipe no_output (fresh_wal (wal_config_from_env e) w) (Worker DEFAULT_BACKOFF_INITIAL_SECS circuit_init) None [] [].

(** ** Properties *)

(** The backoff settings are what the retry worker relies on. *)
Lemma backoff_settings_ok e o :
  let '(initial, maxb) := (init_retry_worker e o).1 in 0 < initial <= maxb /\ maxb < 2 ^ 64.
Proof.
  cbn. pose proof (read_env_u64_range "STATIX_BACKOFF_INITIAL_SECS" DEFAULT_BACKOFF_INITIAL_SECS e ltac:(done)).
  pose proof (read_env_u64_range "STATIX_BACKOFF_MAX_SECS" DEFAULT_BACKOFF_MAX_SECS e ltac:(done)).
  unfold max_backoff. lia.
Qed.

(** The statics and the store after a start with a log. *)
Lemma start_delivery_log e w l n :
  is_http_ingest e = true -> enabled (wal_config_from_env e) = true ->
  healthy w -> w_dir w = true -> image (w_files w) l -> sumZ meta_bytes (survivor_metas l) < 2 ^ 64 ->
  queued retry_channel = [] -> queued append_channel = [] ->
  margin n (p_log (start_delivery e w)) ->
  pipe_inv n (start_delivery e w) (concat (survivors l))
  /\ waiting (start_delivery e w) (concat (survivors l)) = payload <$> concat (survivors l)
  /\ p_settled (start_delivery e w) = []
  /\ log_live (p_log (start_delivery e w)) (concat (survivors l))
  /\ p_out (start_delivery e w) = OutputState (Some retry_channel) true false (Some (WalHandle append_channel true))
  /\ worker_circuit (p_worker (start_delivery e w)) = circuit_init.
Proof.
  intros Hu He Hh Hd Him Hroom Hr Ha. unfold start_delivery, init_wal. rewrite Hu.
  cbn [init_retry_worker no_output retry rx_locked wal]. rewrite He. cbn [negb].
  set (w0 := (gauge M_SEGMENTS_CURRENT 0 _).2).
  assert (Ef : w_files w0 = w_files w) by done. assert (Eh : healthy w0) by done. rewrite <- Ef in Him.
  pose proof (recover_spec (wal_config_from_env e) l w0 Eh Hd Him Hroom) as H. unfold wp in H.
  unfold wal_open, mbind, M_bind. destruct (recover (wal_config_from_env e) w0) as [r w1]. cbn [fst snd] in H.
  destruct H as (Hh1 & st & -> & R & _ & _ & Hact & Hti & _). cbn. intros Hm.
  assert (Hq : queue (survivors l) 0 = concat (survivors l)) by (unfold queue; by rewrite drop_0).
  unfold waiting, in_spill, in_queue. cbn. rewrite Hr, Ha. split; [|split; [done|split; [done|split; [|split; [|done]]]]].
  2:{ destruct Hact as [->|Hact]; [by left|by right]. }
  2:{ unfold set_wal. cbn [retry rx_present rx_locked]. f_equal. f_equal. f_equal. exact He. }
  split; unfold in_spill, queue_ok; cbn; rewrite ?Ha, ?Hr; [|constructor|simpl; lia].
  split; [by exists (survivors l), 0%nat|done|done|done].
Qed.

(** What a previous run left is delivered.  When the agent starts on a
    directory of segment files, with any torn or damaged tails, every complete
    frame in it is waiting for delivery, oldest segment first; and from then on,
    in any run of the delivery tasks, every one of them and every new batch is
    settled, waiting, or reported as lost. *)
Theorem restart_resumes_the_backlog is_success is_server_error initial maxb e w l es :
  is_http_ingest e = true -> enabled (wal_config_from_env e) = true ->
  healthy w -> w_dir w = true -> image (w_files w) l -> sumZ meta_bytes (survivor_metas l) < 2 ^ 64 ->
  queued retry_channel = [] -> queued append_channel = [] ->
  margin (length (emitted es)) (p_log (start_delivery e w)) -> Forall pipe_event_ok es ->
  exists p' q' lost,
    pipe_run is_success is_server_error initial maxb es (start_delivery e w) = Some p'
    /\ emitted es ++ (payload <$> concat (survivors l)) ≡ₚ (p_settled p').*1 ++ waiting p' q' ++ lost
    /\ zlen lost <= reported p' - reported (start_delivery e w).
Proof.
  intros Hu He Hh Hd Him Hroom Hr Ha Hm Hes.
  destruct (start_delivery_log e w l _ Hu He Hh Hd Him Hroom Hr Ha Hm) as (Hi & Hw & Hs & _).
  destruct (pipe_run_accounts is_success is_server_error initial maxb es _ _ Hes Hi)
    as (p' & q' & lost & E & _ & Hp & Hc).
  exists p', q', lost. split; [done|]. split; [|done]. by rewrite Hs, Hw in Hp.
Qed.

End Startup.

(** ** Witness *)

(** Two complete frames and a torn one, on disk from a previous run. *)
Definition restart_env : environment := {["STATIX_INGEST_URL"%string := "http://gateway"%string]}.
Definition empty_channel (n : nat) : chan body := (Bounded [] n false : bounded body).

Lemma restart_resumes_the_backlog_witness :
  exists p' q' lost,
    pipe_run status_success status_server_error 1 30 [Sweep; Post (Response 200)]
      (start_delivery (empty_channel 60) (empty_channel 256) restart_env crash_world) = Some p'
    /\ [] ++ (payload <$> concat (survivors crash_entries)) ≡ₚ (p_settled p').*1 ++ waiting p' q' ++ lost
    /\ zlen lost <= reported p'
                    - reported (start_delivery (empty_channel 60) (empty_channel 256) restart_env crash_world).
Proof.
  apply (restart_resumes_the_backlog (empty_channel 60) (empty_channel 256) status_success status_server_error
           1 30 restart_env crash_world crash_entries [Sweep; Post (Response 200)]).
  - by vm_compute.
  - by vm_compute.
  - reflexivity.
  - reflexivity.
  - exact crash_image.
  - by vm_compute.
  - reflexivity.
  - reflexivity.
  - split; by vm_compute.
  - repeat constructor.
Defined.
