(* ===== verification/Lives.v ===== *)
(** * Lives: a log over many runs of the agent

    The agent is killed and started again any number of times.  What was in memory
    is gone each time, and so are the process's metrics; what was in the log is
    not.  A [life] is one run: the settings it starts with and the turns its
    delivery tasks take until the process ends, at any point between two turns.
    The theorem accounts for every batch over all the lives. *)

From S2P Require Export WalDir Startup.

#[local] Open Scope Z_scope.

(** The settings of a run and the turns it takes. *)
Record life : Type := Life { lf_env : environment; lf_events : list pipe_event }.

(** The disk as the next process finds it. *)
Definition restarted (w : world) : world := set_w_metrics ∅ w.

Section Lives.
Context {crc : Crc32} `{!Channel body}.
Variables (is_success is_server_error : Z -> bool) (retry_channel append_channel : chan body).

Abbreviation start := (start_delivery retry_channel append_channel).

(** One life: from the start of the delivery tasks to the end of the process. *)
Definition live (f : life) (w : world) : option pipe :=
  let '(initial, maxb) := (init_retry_worker retry_channel (lf_env f) no_output).1 in
  pipe_run is_success is_server_error initial maxb (lf_events f) (start (lf_env f) w).

(** The lives of the agent over one directory: how each starts and ends. *)
Fixpoint lives (fs : list life) (w : world) : option (list (pipe * pipe)) :=
  match fs with
  | [] => Some []
  | f :: fs =>
      p ← live f w;
      ps ← lives fs (restarted (disk (p_log p)));
      Some ((start (lf_env f) w, p) :: ps)
  end.

(** What a process that ends takes with it. *)
Definition memory (p : pipe) : list body := option_list (p_hand p) ++ in_queue (p_out p) ++ in_spill (p_out p).

(** What the lives settled, what was in memory at the end of one of them, and
    how many losses were reported. *)
Definition all_settled (ps : list (pipe * pipe)) : list body := concat ((fun x => (p_settled x.2).*1) <$> ps).
Definition all_forgotten (ps : list (pipe * pipe)) : list body := concat ((fun x => memory x.2) <$> ps).
Definition all_reported (ps : list (pipe * pipe)) : Z := sumZ (fun x => reported x.2 - reported x.1) ps.
Definition all_emitted (fs : list life) : list body := concat ((fun f => emitted (lf_events f)) <$> fs).

(** The settings have a log; the batches fit; each life has room in the log's
    64-bit counters for the batches it emits, and no file outgrows 2^64 bytes. *)
Definition life_ok (f : life) : Prop :=
  is_http_ingest (lf_env f) = true /\ enabled (wal_config_from_env (lf_env f)) = true
  /\ Forall pipe_event_ok (lf_events f).

Fixpoint roomy_lives (fs : list life) (w : world) : Prop :=
  match fs with
  | [] => True
  | f :: fs =>
      margin (length (emitted (lf_events f))) (p_log (start (lf_env f) w))
      /\ match live f w with
         | Some p => bounded_files (w_files (disk (p_log p))) /\ roomy_lives fs (restarted (disk (p_log p)))
         | None => True
         end
  end.

#[export] Instance roomy_lives_dec fs w : Decision (roomy_lives fs w).
Proof.
  revert w. induction fs as [|f fs IH]; intros w; cbn [roomy_lives]; [apply _|].
  apply and_dec; [unfold margin; apply _|]. destruct (live f w) as [p|]; [|apply _].
  apply and_dec; [unfold bounded_files; apply _|apply IH].
Defined.

(** ** The directory stays *)

Lemma sweep_dir d d' : sweep d = Some d' -> wal_dir (dr_wal d) = true -> wal_dir (dr_wal d') = true.
Proof.
  assert (Hr : forall d, wal_dir (dr_wal d) = true -> wal_dir (dr_wal (replay_one d).2) = true).
  { clear. intros d Hd. unfold replay_one. pose proof (sets_peek_next _ Hd) as H.
    destruct (peek_next (dr_wal d)) as [[[f|]|e] s]; cbn [snd] in H; [|done..].
    destruct (try_send _ _) as [[] c]; cbn; [by apply sets_commit_pending|done]. }
  assert (Hc : forall fuel d d', drain_closed fuel d = Some d' -> wal_dir (dr_wal d) = true -> wal_dir (dr_wal d') = true).
  { clear -Hr. induction fuel as [|fuel IH]; intros d d' E Hd; [done|]. cbn [drain_closed] in E.
    destruct (_ || _); [by injection E as <-|]. specialize (Hr d Hd).
    destruct (replay_one d) as [[] d1]; [by apply (IH _ _ E)|by injection E as <-..]. }
  unfold sweep. destruct (circuit_state _); [|destruct (has_backlog _)|].
  - destruct (negb _); [by intros [= <-]|apply Hc].
  - intros [= <-]. apply Hr.
  - by intros [= <-].
  - by intros [= <-].
Qed.

Lemma pipe_step_dir initial maxb e p p' :
  pipe_step is_success is_server_error initial maxb e p = Some p' ->
  wal_dir (p_log p) = true -> wal_dir (p_log p') = true.
Proof.
  destruct e as [json locked|clock| |a]; cbn [pipe_step]; intros E Hd.
  - destruct (enqueue_batch_json _ _). by injection E as <-.
  - destruct (wal (p_out p)) as [w|]; [|by injection E as <-].
    destruct (recv_all _ _) as [[|first rest] c]; [by injection E as <-|].
    pose proof (sets_group_commit first (with_clock rest clock) _ Hd) as H.
    destruct (group_commit _ _ _). by injection E as <-.
  - destruct (wal (p_out p)) as [w|]; [|by injection E as <-].
    destruct (retry (p_out p)) as [tx|]; [|by injection E as <-].
    destruct (wal_enabled w); [|by injection E as <-].
    destruct (sweep _) as [d|] eqn:Es; [|done]. injection E as <-. by apply (sweep_dir _ _ Es).
  - destruct (match p_hand p with Some _ => _ | None => _ end) as [[b|] o]; [|by injection E as <-].
    destruct (worker_post _ _ _ _ _ _) as [[w out] []]; by injection E as <-.
Qed.

Lemma pipe_run_dir initial maxb es p p' :
  pipe_run is_success is_server_error initial maxb es p = Some p' ->
  wal_dir (p_log p) = true -> wal_dir (p_log p') = true.
Proof.
  revert p. induction es as [|e es IH]; intros p E Hd; [by injection E as <-|].
  cbn [pipe_run] in E. destruct (pipe_step _ _ _ _ e p) as [p1|] eqn:E1; [|done].
  by apply (IH p1 E), (pipe_step_dir _ _ _ _ _ E1).
Qed.

Lemma start_dir e w : w_dir w = true -> wal_dir (p_log (start e w)) = true.
Proof.
  intros Hd. unfold start_delivery, init_wal. destruct (is_http_ingest e); [|done].
  cbn [init_retry_worker no_output retry]. destruct (enabled _); cbn [negb]; [|done].
  set (w0 := (gauge _ _ _).2). assert (H0 : w_dir w0 = true) by done. clearbody w0.
  unfold wal_open, mbind, M_bind. pose proof (sets_recover (wal_config_from_env e) w0 H0) as H.
  destruct (recover _ w0) as [[st|err] w1]; cbn in H |- *; done.
Qed.

(** ** One life *)

Hypotheses (Hretry : queued retry_channel = []) (Happend : queued append_channel = []).

Lemma one_life f w l :
  life_ok f -> healthy w -> w_dir w = true -> image (w_files w) l -> sumZ meta_bytes (survivor_metas l) < 2 ^ 64 ->
  margin (length (emitted (lf_events f))) (p_log (start (lf_env f) w)) ->
  exists p q lost, live f w = Some p /\ pipe_inv 0 p q /\ wal_dir (p_log p) = true
    /\ emitted (lf_events f) ++ (payload <$> concat (survivors l))
       ≡ₚ (p_settled p).*1 ++ memory p ++ (payload <$> q) ++ lost
    /\ zlen lost <= reported p - reported (start (lf_env f) w).
Proof.
  intros (Hu & He & Hes) Hh Hd Him Hroom Hm. unfold live.
  destruct (init_retry_worker _ _ _).1 as [initial maxb].
  destruct (start_delivery_log retry_channel append_channel _ w l _ Hu He Hh Hd Him Hroom Hretry Happend Hm)
    as (Hi & Hw & Hs & _).
  destruct (pipe_run_accounts is_success is_server_error initial maxb _ _ _ Hes Hi)
    as (p & q & lost & E & Hi' & Hp & Hc).
  exists p, q, lost. split; [done|]. split; [done|]. split; [by apply (pipe_run_dir _ _ _ _ _ E), start_dir|].
  split; [|done]. rewrite Hs, Hw in Hp. cbn in Hp. rewrite Hp. unfold waiting, memory. by rewrite <- !app_assoc.
Qed.

(** What a life leaves on disk: everything still queued in the log, after the
    frames of the front segment that were already replayed. *)
Lemma life_leaves p q :
  pipe_inv 0 p q -> bounded_files (w_files (disk (p_log p))) ->
  exists l, image (w_files (disk (p_log p))) l /\ sumZ meta_bytes (survivor_metas l) < 2 ^ 64
            /\ q ⊆+ concat (survivors l).
Proof.
  intros [[(segs & k & R & <-) Hh Ht Hm] _ _] Hb. destruct (p_log p) as [st w] eqn:E. cbn [disk] in *.
  destruct (rep_image true st w (w_files w) segs k R Hb) as (l & Him & <- & Et); [done|apply (se_only _ _ Ht)|].
  exists l. split; [done|]. split; [rewrite Et; unfold margin in Hm; cbn [inner] in Hm; lia|].
  apply sublist_submseteq, sublist_drop.
Qed.

(** What the last life leaves in the log. *)
Definition left_in_log (ps : list (pipe * pipe)) (q0 q : list DecodedFrame) : Prop :=
  match last ps with Some x => pipe_inv 0 x.2 q | None => q = q0 end.

Lemma all_cons x ps :
  all_settled (x :: ps) = (p_settled x.2).*1 ++ all_settled ps
  /\ all_forgotten (x :: ps) = memory x.2 ++ all_forgotten ps
  /\ all_reported (x :: ps) = (reported x.2 - reported x.1) + all_reported ps.
Proof. done. Qed.

Lemma lives_length fs w ps : lives fs w = Some ps -> length ps = length fs.
Proof.
  revert w ps. induction fs as [|f fs IH]; intros w ps E; [by injection E as <-|].
  cbn [lives] in E. apply bind_Some in E as (p & _ & E). apply bind_Some in E as (ps' & E' & E).
  injection E as <-. cbn. f_equal. by apply (IH _ _ E').
Qed.

Lemma lives_account fs w l :
  Forall life_ok fs -> healthy w -> w_dir w = true -> image (w_files w) l -> sumZ meta_bytes (survivor_metas l) < 2 ^ 64 ->
  roomy_lives fs w ->
  exists ps q lost, lives fs w = Some ps /\ left_in_log ps (concat (survivors l)) q
    /\ all_emitted fs ++ (payload <$> concat (survivors l)) ⊆+ all_settled ps ++ all_forgotten ps ++ (payload <$> q) ++ lost
    /\ zlen lost <= all_reported ps.
Proof.
  intros Hfs. revert w l. induction Hfs as [|f fs Hf _ IH]; intros w l Hh Hd Him Hroom Hm.
  { exists [], (concat (survivors l)), []. split; [done|]. split; [done|]. rewrite app_nil_r. split; [done|simpl; lia]. }
  cbn [roomy_lives] in Hm. destruct Hm as [Hm Hrest].
  destruct (one_life f w l Hf Hh Hd Him Hroom Hm) as (p & q & lost & E & Hi & Hd' & Hp & Hc).
  rewrite E in Hrest. destruct Hrest as [Hb Hrest].
  destruct (life_leaves p q Hi Hb) as (l' & Him' & Hroom' & Hsub).
  destruct (IH (restarted (disk (p_log p))) l') as (ps & q' & lost' & E' & Hleft & Hsub' & Hc'); try done.
  { apply (lo_healthy _ _ _ (pi_log _ _ _ Hi)). }
  exists ((start (lf_env f) w, p) :: ps). cbn [lives]. rewrite E. cbn [mbind option_bind]. rewrite E'.
  destruct (all_cons (start (lf_env f) w, p) ps) as (-> & -> & ->). cbn [fst snd].
  set (S0 := payload <$> concat (survivors l)) in *. set (S1 := payload <$> concat (survivors l')) in *.
  assert (Hall : all_emitted (f :: fs) ++ S0 ⊆+ ((p_settled p).*1 ++ all_settled ps) ++ (memory p ++ all_forgotten ps)
                                   ++ (payload <$> q') ++ lost ++ lost').
  { change (all_emitted (f :: fs)) with (emitted (lf_events f) ++ all_emitted fs).
    transitivity ((all_emitted fs ++ S1) ++ (p_settled p).*1 ++ memory p ++ lost).
    - transitivity (all_emitted fs ++ (payload <$> q) ++ (p_settled p).*1 ++ memory p ++ lost).
      + apply Permutation_submseteq. transitivity (all_emitted fs ++ (emitted (lf_events f) ++ S0)); [solve_Permutation|].
        rewrite Hp. solve_Permutation.
      + rewrite <- app_assoc. apply submseteq_app; [done|]. apply submseteq_app; [|done]. by apply fmap_submseteq.
    - etransitivity; [apply submseteq_app; [exact Hsub'|done]|]. apply Permutation_submseteq. solve_Permutation. }
  destruct ps as [|x ps].
  - apply lives_length in E'. destruct fs; [|done].
    exists q, lost. split; [done|]. split; [exact Hi|]. split; [|cbn; lia].
    apply Permutation_submseteq. change (all_emitted [f]) with (emitted (lf_events f) ++ []).
    rewrite app_nil_r, Hp. cbn. by rewrite !app_nil_r.
  - exists q', (lost ++ lost'). split; [done|]. split; [|split; [exact Hall|len_lia]].
    unfold left_in_log in *. cbn [last] in *. destruct (last (x :: ps)) eqn:El; [done|]. by apply last_None in El.
Qed.


End Lives.

(** ** A gap *)

(** Two runs over the log of [crash_world]: each ends after one sweep of the drainer. *)
Definition two_sweeps : list life := [Life restart_env [Sweep]; Life restart_env [Sweep]].

Definition two_sweeps_end : option (list (pipe * pipe)) :=
  lives status_success status_server_error (empty_channel 60) (empty_channel 256) two_sweeps crash_world.

(** What is left in memory and on disk, and what was settled and reported. *)
Definition seen (ps : list (pipe * pipe)) : list (list body) * list body * Z * option (gmap string bytes) :=
  ((fun x => memory x.2) <$> ps, all_settled ps, all_reported ps, (fun x => w_files (disk (p_log x.2))) <$> last ps).

Lemma two_sweeps_seen :
  seen <$> two_sweeps_end
  = Some ([[sample_payload 1; sample_payload 2; sample_payload 3]; [sample_payload 3]], [], 0,
          Some {["notes.txt"%string := [1; 2; 3];
                 segment_path 7 := encode_segment_header ++ encode_frame (Frame 10 (sample_payload 3))]}).
Proof. vm_compute. reflexivity. Qed.


(** ** Witness *)

(** The first run settles a batch and is killed with another in memory, a third in
    the log's channel and the rest of the log behind. *)
Definition three_lives : list life :=
  [Life restart_env [Sweep; Post (Response 200); Emit (sample_payload 4) false];
   Life restart_env [Emit (sample_payload 5) true; Burst []];
   Life restart_env [Sweep; Post (Response 200)]].

