(* ===== verification/ChWriter.v ===== *)
(** * ChWriter: the gateway's ClickHouse writer

    Models [statix-gateway/src/clickhouse_writer.rs]: the rows, the coalescing of
    queued rows into batches with a linger timer, the insert with its bounded
    retries, and the drain at shutdown.  The receiver sees a script of polls, one
    per time the task wakes: the rows that arrived since and whether the linger
    timer, if one is running, has fired.  When the script ends every sender is
    gone: a receive then takes what is queued and answers nothing once the queue
    is empty.  What ClickHouse answers to the n-th insert is a parameter. *)

From S2P Require Export Wire Config.

Record MetricRow : Type := {
  mr_window_start_ns : Z;
  mr_window_end_ns : Z;
  mr_node : string;
  mr_batch_id : string;
  mr_agent_version : string;
  mr_cgroup_id : Z;
  mr_namespace : option string;
  mr_pod : option string;
  mr_container : option string;
  mr_k8s_resolved : bool;
  mr_memory_bytes_max : Z;
  mr_memory_bytes_last : Z;
  mr_exec_count : Z;
  mr_sample_count : Z;
  mr_cpu_usage_usec : Z;
  mr_cpu_request_millicores : Z;
  mr_memory_request_bytes : Z;
  mr_cpu_limit_millicores : Z;
  mr_memory_limit_bytes : Z
}.

Definition from_ingest (b : IngestBatch) (w : WorkloadRow) : MetricRow :=
  {| mr_window_start_ns := window_start_ns b; mr_window_end_ns := window_end_ns b;
     mr_node := node b; mr_batch_id := batch_id b; mr_agent_version := agent_version b;
     mr_cgroup_id := cgroup_id w; mr_namespace := namespace w; mr_pod := pod w;
     mr_container := container w; mr_k8s_resolved := k8s_resolved w;
     mr_memory_bytes_max := memory_bytes_max w; mr_memory_bytes_last := memory_bytes_last w;
     mr_exec_count := exec_count w; mr_sample_count := sample_count w;
     mr_cpu_usage_usec := cpu_usage_usec w; mr_cpu_request_millicores := cpu_request_millicores w;
     mr_memory_request_bytes := memory_request_bytes w; mr_cpu_limit_millicores := cpu_limit_millicores w;
     mr_memory_limit_bytes := memory_limit_bytes w |}.

(** ** Coalescing *)

Record poll : Type := Poll { p_timer : bool; p_arrived : list MetricRow }.

Definition recv_many (room : nat) (q : list MetricRow) : list MetricRow * list MetricRow :=
  (take room q, drop room q).

(** The [select] loop of [fill_batch]; the timer is polled first. *)
Fixpoint fill_loop (polls : list poll) (batch_max : nat) (batch q : list MetricRow)
    : list MetricRow * list MetricRow * list poll :=
  if negb (length batch <? batch_max)%nat then (batch, q, polls)
  else
    let room := (batch_max - length batch)%nat in
    match polls with
    | [] =>
        (* senders gone: after this receive the batch is full or the queue is
           empty, and then the next one answers 0 *)
        let '(got, q) := recv_many room q in (batch ++ got, q, [])
    | Poll timer arrived :: polls =>
        if timer then (batch, q ++ arrived, polls)
        else
          (* nothing yet: the receive goes on waiting *)
          let '(got, q) := recv_many room (q ++ arrived) in
          fill_loop polls batch_max (batch ++ got) q
    end.

(** The first receive: what is queued, or the first row to arrive. *)
Fixpoint recv (polls : list poll) (q : list MetricRow) : option MetricRow * list MetricRow * list poll :=
  match q with
  | first :: q => (Some first, q, polls)
  | [] =>
      match polls with
      | [] => (None, [], [])
      | Poll _ arrived :: polls => recv polls arrived
      end
  end.

Definition fill_batch (polls : list poll) (batch_max : nat) (q : list MetricRow)
    : option (list MetricRow) * list MetricRow * list poll :=
  match recv polls q with
  | (None, q, polls) => (None, q, polls)
  | (Some first, q, polls) =>
      let '(batch, q, polls) := fill_loop polls batch_max [first] q in (Some batch, q, polls)
  end.

(** ** Inserting *)

Definition MAX_INSERT_RETRIES : Z := 5.
Definition INITIAL_BACKOFF_MS : Z := 100.
Definition MAX_BACKOFF_MS : Z := 2000.

(** How one insert can end: opening it, writing a row, or waiting for its end. *)
Inductive insert_answer : Type := OpenError | WriteError | EndError | EndTimeout | Acked.

Definition flush_batch (a : insert_answer) : bool :=
  match a with Acked => true | OpenError | WriteError | EndError | EndTimeout => false end.

Definition rand_jitter_ms (base_ms subsec_nanos : Z) : Z :=
  let span := wrapping_mul 64 base_ms 30 / 100 in
  if span =? 0 then 0 else subsec_nanos mod (span + 1).

(** The flag shared with the handlers, the metrics, how many inserts were tried,
    and what became of each batch. *)
Record writer_state : Type := WriterState {
  ch_healthy : bool;
  ch_metrics : metrics;
  ch_tries : nat;
  inserted : list (list MetricRow);
  dropped : list (list MetricRow)
}.

Definition M_ROWS : string := "statix_api_ch_insert_rows_total".
Definition M_ERRORS : string := "statix_api_ch_insert_errors_total".
Definition M_DROPPED : string := "statix_api_ch_insert_dropped_total".

Definition insert_ok (rows : list MetricRow) (s : writer_state) : writer_state :=
  WriterState true (counter_add M_ROWS (zlen rows) (ch_metrics s)) (S (ch_tries s))
    (inserted s ++ [rows]) (dropped s).
Definition insert_failed (s : writer_state) : writer_state :=
  WriterState false (counter_add M_ERRORS 1 (ch_metrics s)) (S (ch_tries s)) (inserted s) (dropped s).
Definition drop_rows (rows : list MetricRow) (s : writer_state) : writer_state :=
  WriterState (ch_healthy s) (counter_add M_DROPPED (zlen rows) (ch_metrics s)) (ch_tries s)
    (inserted s) (dropped s ++ [rows]).

Section Writer.
(** ClickHouse's answers, and the clock the jitter is drawn from. *)
Variables (answer : nat -> insert_answer) (nanos : nat -> Z).

(** The loop over [attempt]; [tries] is [MAX_INSERT_RETRIES - attempt].  The
    first component lists the delays slept, in milliseconds. *)
Fixpoint flush_attempts (tries : nat) (attempt backoff_ms : Z) (batch : list MetricRow)
    (s : writer_state) : list Z * writer_state :=
  match tries with
  | O => ([], s)
  | S tries =>
      let now := nanos (ch_tries s) in
      if flush_batch (answer (ch_tries s)) then ([], insert_ok batch s)
      else
        let s := insert_failed s in
        if MAX_INSERT_RETRIES <=? attempt + 1 then ([], drop_rows batch s)
        else
          let delay := wrapping_add 64 backoff_ms (rand_jitter_ms backoff_ms now) in
          let '(delays, s) :=
            flush_attempts tries (attempt + 1) (Z.min (wrapping_mul 64 backoff_ms 2) MAX_BACKOFF_MS) batch s in
          (delay :: delays, s)
  end.

Definition flush_with_retry (batch : list MetricRow) (s : writer_state) : list Z * writer_state :=
  flush_attempts (Z.to_nat MAX_INSERT_RETRIES) 0 INITIAL_BACKOFF_MS batch s.

(** ** The task *)

Definition ping_ready (ok : bool) (s : writer_state) : writer_state :=
  WriterState ok (ch_metrics s) (ch_tries s) (inserted s) (dropped s).

(** The drain at shutdown, on a closed channel; [None] when the fuel is not
    enough. *)
Fixpoint drain_final (fuel : nat) (batch_max : nat) (batch q : list MetricRow) (s : writer_state)
    : option writer_state :=
  match fuel with
  | O => None
  | S fuel =>
      let room := (batch_max - length batch)%nat in
      if (room =? 0)%nat then drain_final fuel batch_max [] q (flush_with_retry batch s).2
      else
        let '(got, q) := recv_many room q in
        match got with
        | [] => Some (match batch with [] => s | _ => (flush_with_retry batch s).2 end)
        | _ =>
            let batch := batch ++ got in
            if (batch_max <=? length batch)%nat
            then drain_final fuel batch_max [] q (flush_with_retry batch s).2
            else drain_final fuel batch_max batch q s
        end
  end.

Fixpoint writer_loop (fuel : nat) (polls : list poll) (batch_max : nat) (q : list MetricRow)
    (s : writer_state) : option (list poll * list MetricRow * writer_state) :=
  match fuel with
  | O => None
  | S fuel =>
      match fill_batch polls batch_max q with
      | (None, q, polls) => Some (polls, q, s)
      | (Some batch, q, polls) => writer_loop fuel polls batch_max q (flush_with_retry batch s).2
      end
  end.

(** The spawned task, from the ping to the end of the drain. *)
Definition writer_task (fuel : nat) (ping : bool) (polls : list poll) (batch_max : nat)
    (s : writer_state) : option writer_state :=
  match writer_loop fuel polls batch_max [] (ping_ready ping s) with
  | Some (polls, q, s) => drain_final fuel batch_max [] q s
  | None => None
  end.

(** ** One flush *)

(** The answers to the next [n] inserts were all failures. *)
Definition all_fail (t n : nat) : Prop := forall i, (t <= i < t + n)%nat -> flush_batch (answer i) = false.

(** A batch is settled: inserted ([ok]) or dropped, and metered as such. *)
Definition settles (ok : bool) (batch : list MetricRow) (s s' : writer_state) : Prop :=
  ch_healthy s' = ok
  /\ inserted s' = inserted s ++ (if ok then [batch] else [])
  /\ dropped s' = dropped s ++ (if ok then [] else [batch])
  /\ metric (ch_metrics s') M_ROWS = metric (ch_metrics s) M_ROWS + (if ok then zlen batch else 0)
  /\ metric (ch_metrics s') M_DROPPED = metric (ch_metrics s) M_DROPPED + (if ok then 0 else zlen batch).

Lemma settles_ok batch s : settles true batch s (insert_ok batch s).
Proof.
  split; [done|]. split; [done|]. split; [by rewrite app_nil_r|].
  simpl. autorewrite with statix_metric. lia.
Qed.

Lemma settles_drop_rows batch s : settles false batch s (drop_rows batch (insert_failed s)).
Proof.
  split; [done|]. split; [by rewrite app_nil_r|]. split; [done|].
  simpl. autorewrite with statix_metric. lia.
Qed.

Lemma settles_after_failure ok batch s s' : settles ok batch (insert_failed s) s' -> settles ok batch s s'.
Proof. unfold settles. simpl. by autorewrite with statix_metric. Qed.

Lemma all_fail_0 t : all_fail t 0.
Proof. intros i Hi. lia. Qed.

Lemma all_fail_cons t n : flush_batch (answer t) = false -> all_fail (S t) n -> all_fail t (S n).
Proof. intros E Hn i Hi. destruct (decide (i = t)) as [->|]; [done|]. apply Hn. lia. Qed.

Lemma flush_attempts_S n0 attempt b batch s :
  (flush_attempts (S n0) attempt b batch s).2
  = if flush_batch (answer (ch_tries s)) then insert_ok batch s
    else if MAX_INSERT_RETRIES <=? attempt + 1 then drop_rows batch (insert_failed s)
    else (flush_attempts n0 (attempt + 1) (Z.min (wrapping_mul 64 b 2) MAX_BACKOFF_MS) batch (insert_failed s)).2.
Proof.
  cbn [flush_attempts]. destruct (flush_batch _); [done|]. destruct (_ <=? _); [done|].
  by destruct (flush_attempts n0 _ _ _ _).
Qed.

Lemma flush_attempts_spec n0 attempt b batch s :
  attempt + Z.of_nat (S n0) = MAX_INSERT_RETRIES -> 0 <= attempt ->
  let s' := (flush_attempts (S n0) attempt b batch s).2 in
  (exists n, (n <= n0)%nat /\ all_fail (ch_tries s) n /\ flush_batch (answer (ch_tries s + n)) = true
     /\ settles true batch s s' /\ ch_tries s' = S (ch_tries s + n))
  \/ (all_fail (ch_tries s) (S n0) /\ settles false batch s s' /\ ch_tries s' = (ch_tries s + S n0)%nat).
Proof.
  revert attempt b s. induction n0 as [|n0 IH]; intros attempt b s Ha H0; rewrite flush_attempts_S;
    destruct (flush_batch (answer (ch_tries s))) eqn:E.
  1,3: left; exists 0%nat; rewrite Nat.add_0_r;
       exact (conj (Nat.le_0_l _) (conj (all_fail_0 _) (conj E (conj (settles_ok batch s) eq_refl)))).
  - right. destruct (Z.leb_spec MAX_INSERT_RETRIES (attempt + 1)); [|lia].
    split; [apply all_fail_cons; [done|apply all_fail_0]|]. split; [apply settles_drop_rows|simpl; lia].
  - destruct (Z.leb_spec MAX_INSERT_RETRIES (attempt + 1)); [lia|].
    specialize (IH (attempt + 1) (Z.min (wrapping_mul 64 b 2) MAX_BACKOFF_MS) (insert_failed s)
      ltac:(lia) ltac:(lia)).
    cbn [ch_tries insert_failed] in IH.
    destruct IH as [(n & I1 & I2 & I3 & I4 & I5)|(I2 & I4 & I5)].
    + left. exists (S n). rewrite <- Nat.add_succ_comm.
      split; [lia|]. split; [by apply all_fail_cons|]. split; [done|].
      split; [by apply settles_after_failure|done].
    + right. split; [by apply all_fail_cons|]. split; [by apply settles_after_failure|lia].
Qed.

(** The delays of one flush, from base [b]. *)
Lemma jitter_bound b now : 0 <= b <= MAX_BACKOFF_MS -> 0 <= rand_jitter_ms b now <= b * 30 / 100.
Proof.
  unfold rand_jitter_ms, MAX_BACKOFF_MS. intros Hb.
  assert (E : wrapping_mul 64 b 30 = b * 30) by (apply wrap_small; unfold urange; lia).
  rewrite E. assert (0 <= b * 30 / 100) by (apply Z.div_pos; lia).
  destruct (Z.eqb_spec (b * 30 / 100) 0); [lia|].
  pose proof (Z.mod_pos_bound now (b * 30 / 100 + 1)). lia.
Qed.

(** ** Coalescing *)

Definition arrivals (polls : list poll) : list MetricRow := concat (p_arrived <$> polls).

Lemma fill_loop_spec polls batch_max batch q b q' polls' :
  fill_loop polls batch_max batch q = (b, q', polls') ->
  (length batch <= batch_max)%nat ->
  exists got, b = batch ++ got /\ (length b <= batch_max)%nat
    /\ b ++ q' ++ arrivals polls' = batch ++ q ++ arrivals polls
    /\ (length polls' <= length polls)%nat.
Proof.
  unfold arrivals. revert batch q. induction polls as [|[timer arrived] polls IH]; intros batch q;
    cbn [fill_loop]; destruct (Nat.ltb_spec (length batch) batch_max); cbn [negb].
  - unfold recv_many. intros [= <- <- <-] _. eexists. split; [done|]. split; [len_lia|]. split; [|done].
    rewrite <- app_assoc. simpl. rewrite !app_nil_r. by rewrite take_drop.
  - intros [= <- <- <-] Hl. exists []. by rewrite app_nil_r.
  - destruct timer.
    + intros [= <- <- <-] Hl. exists []. rewrite app_nil_r. split; [done|]. split; [done|].
      split; [|simpl; lia]. simpl. by rewrite <- !app_assoc.
    + unfold recv_many. intros E Hl. apply IH in E as (got & -> & ? & E2 & ?); [|len_lia].
      exists (take (batch_max - length batch) (q ++ arrived) ++ got).
      split; [by rewrite app_assoc|]. split; [done|]. split; [|simpl; lia].
      rewrite E2, <- app_assoc. f_equal. simpl. by rewrite !app_assoc, take_drop.
  - intros [= <- <- <-] Hl. exists []. by rewrite app_nil_r.
Qed.

Lemma recv_spec polls q r q' polls' :
  recv polls q = (r, q', polls') ->
  (length polls' <= length polls)%nat
  /\ match r with
     | Some first => first :: q' ++ arrivals polls' = q ++ arrivals polls
     | None => q = [] /\ arrivals polls = [] /\ q' = [] /\ polls' = []
     end.
Proof.
  unfold arrivals. revert q. induction polls as [|[timer arrived] polls IH]; intros [|first q]; cbn [recv].
  1-2,4: intros [= <- <- <-]; split; done.
  intros E. apply IH in E as [Hl E]. split; [simpl; lia|]. simpl.
  destruct r; [done|]. destruct E as (-> & E & -> & ->). done.
Qed.

Lemma fill_batch_spec polls batch_max q b q' polls' :
  (0 < batch_max)%nat -> fill_batch polls batch_max q = (b, q', polls') ->
  (length polls' <= length polls)%nat
  /\ match b with
     | Some b => b <> [] /\ (length b <= batch_max)%nat /\ b ++ q' ++ arrivals polls' = q ++ arrivals polls
     | None => q = [] /\ arrivals polls = [] /\ q' = [] /\ polls' = []
     end.
Proof.
  intros Hm. unfold fill_batch. destruct (recv polls q) as [[r q1] p1] eqn:E1.
  apply recv_spec in E1 as [Hl1 E1]. destruct r as [first|]; [|by intros [= <- <- <-]].
  destruct (fill_loop p1 batch_max [first] q1) as [[b2 q2] p2] eqn:E2. intros [= <- <- <-].
  apply fill_loop_spec in E2 as (got & -> & Hb & E2 & Hl2); [|simpl; lia].
  split; [lia|]. split; [done|]. split; [done|]. by rewrite E2, <- E1.
Qed.

(** ** The task *)

(** Every batch between [s] and [s'] was settled, in the order of [batches]. *)
Inductive settled_run : list (list MetricRow) -> writer_state -> writer_state -> Prop :=
| settled_nil s : settled_run [] s s
| settled_cons b bs ok s s1 s' : settles ok b s s1 -> settled_run bs s1 s' -> settled_run (b :: bs) s s'.

Lemma flush_with_retry_settles batch s : exists ok, settles ok batch s (flush_with_retry batch s).2.
Proof.
  destruct (flush_attempts_spec 4 0 INITIAL_BACKOFF_MS batch s) as [(n & _ & _ & _ & H & _)|(_ & H & _)];
    [done|done|by exists true|by exists false].
Qed.

Lemma writer_loop_spec fuel polls batch_max q s :
  (0 < batch_max)%nat -> (length q + length (arrivals polls) < fuel)%nat ->
  exists bs s', writer_loop fuel polls batch_max q s = Some ([], [], s')
    /\ concat bs = q ++ arrivals polls
    /\ Forall (fun b => (0 < length b <= batch_max)%nat) bs /\ settled_run bs s s'.
Proof.
  intros Hm. revert polls q s. induction fuel as [|fuel IH]; intros polls q s Hf; [lia|]. cbn [writer_loop].
  destruct (fill_batch polls batch_max q) as [[b q1] p1] eqn:E. apply fill_batch_spec in E as [_ E]; [|done].
  destruct b as [b|].
  - destruct E as (Hb & Hbl & E). destruct (flush_with_retry_settles b s) as [ok Hok].
    destruct (IH p1 q1 (flush_with_retry b s).2) as (bs & s' & E1 & E2 & E3 & E4).
    { apply (f_equal length) in E. destruct b; [done|]. len_lia. }
    exists (b :: bs), s'. split; [done|]. split; [simpl; by rewrite E2, E|].
    split; [constructor; [destruct b; [done|simpl in *; lia]|done]|by eapply settled_cons].
  - destruct E as (-> & -> & -> & ->). exists [], s. split; [done|]. split; [done|].
    split; [constructor|constructor].
Qed.

Lemma settled_run_totals bs s s' :
  settled_run bs s s' ->
  concat bs ≡ₚ concat (drop (length (inserted s)) (inserted s')) ++ concat (drop (length (dropped s)) (dropped s'))
  /\ (exists i d, inserted s' = inserted s ++ i /\ dropped s' = dropped s ++ d
        /\ i `sublist_of` bs /\ d `sublist_of` bs
        /\ metric (ch_metrics s') M_ROWS = metric (ch_metrics s) M_ROWS + zlen (concat i)
        /\ metric (ch_metrics s') M_DROPPED = metric (ch_metrics s) M_DROPPED + zlen (concat d)).
Proof.
  intros H. assert (Hm : exists i d, inserted s' = inserted s ++ i /\ dropped s' = dropped s ++ d
        /\ i `sublist_of` bs /\ d `sublist_of` bs /\ concat bs ≡ₚ concat i ++ concat d
        /\ metric (ch_metrics s') M_ROWS = metric (ch_metrics s) M_ROWS + zlen (concat i)
        /\ metric (ch_metrics s') M_DROPPED = metric (ch_metrics s) M_DROPPED + zlen (concat d)).
  { induction H as [s|b bs ok s s1 s' (_ & Hi & Hd & Hr & Hx) _ (i & d & I1 & I2 & I3 & I4 & I5 & I6 & I7)].
    - exists [], []. rewrite !app_nil_r. simpl. split_and!; done || lia.
    - exists ((if ok then [b] else []) ++ i), ((if ok then [] else [b]) ++ d).
      rewrite I1, I2, Hi, Hd, !app_assoc, I6, I7, Hr, Hx.
      destruct ok; simpl; rewrite ?length_app; split_and!; try done; try lia; try (by constructor).
      + by rewrite I5, app_assoc.
      + rewrite I5. solve_Permutation. }
  destruct Hm as (i & d & I1 & I2 & I3 & I4 & I5 & I6 & I7). split; [|by exists i, d].
  rewrite I1, I2, !drop_app_length. done.
Qed.

(** ** Delays *)

Definition jittered (base delay : Z) : Prop := base <= delay <= base + base * 30 / 100.

(** The bases of the delays between [n + 1] attempts. *)
Fixpoint delay_bases (n : nat) (b : Z) : list Z :=
  match n with O => [] | S n => b :: delay_bases n (Z.min (b * 2) MAX_BACKOFF_MS) end.

Lemma delay_bound b now :
  0 <= b <= MAX_BACKOFF_MS -> jittered b (wrapping_add 64 b (rand_jitter_ms b now)).
Proof.
  intros Hb. pose proof (jitter_bound b now Hb). unfold jittered, MAX_BACKOFF_MS in *.
  assert (b * 30 / 100 <= b * 30) by (apply Z.div_le_upper_bound; lia).
  rewrite wrapping_add_small; lia.
Qed.

Lemma flush_attempts_delays n0 attempt b batch s :
  attempt + Z.of_nat (S n0) = MAX_INSERT_RETRIES -> 0 <= b <= MAX_BACKOFF_MS ->
  exists k, Forall2 jittered (take k (delay_bases n0 b)) (flush_attempts (S n0) attempt b batch s).1.
Proof.
  revert attempt b s. induction n0 as [|n0 IH]; intros attempt b s Ha Hb.
  - exists 0%nat. cbn [flush_attempts]. destruct (flush_batch _); [constructor|].
    destruct (Z.leb_spec MAX_INSERT_RETRIES (attempt + 1)); [constructor|lia].
  - set (m := S n0) in *. cbn [flush_attempts]. destruct (flush_batch _); [by exists 0%nat|].
    destruct (Z.leb_spec MAX_INSERT_RETRIES (attempt + 1)); [by exists 0%nat|].
    assert (E : wrapping_mul 64 b 2 = b * 2) by (apply wrap_small; unfold urange, MAX_BACKOFF_MS in *; lia).
    rewrite E. set (b2 := Z.min (b * 2) MAX_BACKOFF_MS).
    destruct (IH (attempt + 1) b2 (insert_failed s) ltac:(lia)) as [k Hk];
      [unfold b2, MAX_BACKOFF_MS in *; lia|].
    exists (S k). destruct (flush_attempts m _ _ _ _) as [delays s']. cbn [fst] in *.
    constructor; [by apply delay_bound|exact Hk].
Qed.

(** ** The drain *)

(** What a drain that starts with [batch] in hand and [q] queued settles. *)
Definition settles_all (batch_max : nat) (rows : list MetricRow) (s s' : writer_state) : Prop :=
  exists bs, concat bs = rows /\ Forall (fun b => (0 < length b <= batch_max)%nat) bs /\ settled_run bs s s'.

Lemma settles_all_nil batch_max s : settles_all batch_max [] s s.
Proof. exists []. repeat constructor. Qed.

Lemma settles_all_flush batch_max batch rows s s' :
  (0 < length batch <= batch_max)%nat -> settles_all batch_max rows (flush_with_retry batch s).2 s' ->
  settles_all batch_max (batch ++ rows) s s'.
Proof.
  intros Hb (bs & <- & Hl & Hr). destruct (flush_with_retry_settles batch s) as [ok Hok].
  exists (batch :: bs). split; [done|]. split; [by constructor|by eapply settled_cons].
Qed.

Lemma drain_final_spec fuel batch_max batch q s :
  (length batch < batch_max)%nat -> (length q < fuel)%nat ->
  exists s', drain_final fuel batch_max batch q s = Some s' /\ settles_all batch_max (batch ++ q) s s'.
Proof.
  revert batch q s. induction fuel as [|fuel IH]; intros batch q s Hb Hf; [lia|].
  cbn [drain_final]. destruct (Nat.eqb_spec (batch_max - length batch) 0); [lia|]. unfold recv_many.
  set (room := (batch_max - length batch)%nat). pose proof (length_take q room) as Hl.
  pose proof (take_drop room q) as Eq. destruct (take room q) as [|r got]; [|set (rest := drop room q) in *].
  - destruct q; [|simpl in Hl; unfold room in Hl; lia]. rewrite app_nil_r.
    destruct batch as [|r batch]; eexists; (split; [done|]); [apply settles_all_nil|].
    rewrite <- (app_nil_r (r :: batch)) at 1. apply settles_all_flush; [simpl in *; lia|apply settles_all_nil].
  - rewrite <- Eq in Hf |- *. rewrite app_assoc. unfold room in Hl.
    destruct (Nat.leb_spec batch_max (length (batch ++ r :: got))) as [Hm|Hm].
    + destruct (IH [] rest (flush_with_retry (batch ++ r :: got) s).2) as (s' & E1 & H); [simpl; lia| |].
      { revert Hf. len_simpl. lia. }
      exists s'. split; [done|]. apply settles_all_flush; [|done]. revert Hl Hm. len_simpl. lia.
    + apply IH; [done|]. revert Hf. len_simpl. lia.
Qed.

Lemma writer_task_spec ping polls batch_max s :
  (0 < batch_max)%nat ->
  exists s', writer_task (S (length (arrivals polls))) ping polls batch_max s = Some s'
    /\ settles_all batch_max (arrivals polls) (ping_ready ping s) s'.
Proof.
  intros Hm. destruct (writer_loop_spec (S (length (arrivals polls))) polls batch_max [] (ping_ready ping s) Hm)
    as (bs & s' & E & H); [simpl; lia|]. unfold writer_task. rewrite E.
  destruct (drain_final_spec (S (length (arrivals polls))) batch_max [] [] s') as (s2 & E2 & bs2 & H2 & H4 & H3);
    [simpl; lia..|].
  exists s2. split; [done|]. assert (bs2 = []) as ->.
  { destruct bs2 as [|[|] ?]; [done| |done]. by inversion H4; simpl in *; lia. }
  inversion H3; subst. by exists bs.
Qed.

(** ** Properties *)

(** A batch the writer holds is inserted exactly when one of its next five
    attempts is acknowledged, and dropped otherwise; the health flag then says
    which, the row counters say how many, and the delays between the attempts
    follow the schedule 100, 200, 400, 800 ms with at most 30% jitter. *)
Theorem flush_settles_the_batch batch s :
  let '(delays, s') := flush_with_retry batch s in
  ((exists n, (n < 5)%nat /\ all_fail (ch_tries s) n /\ flush_batch (answer (ch_tries s + n)) = true
      /\ settles true batch s s')
   \/ (all_fail (ch_tries s) 5 /\ settles false batch s s'))
  /\ exists k, Forall2 jittered (take k [100; 200; 400; 800]) delays.
Proof.
  pose proof (flush_attempts_spec 4 0 INITIAL_BACKOFF_MS batch s eq_refl ltac:(lia)) as H.
  pose proof (flush_attempts_delays 4 0 INITIAL_BACKOFF_MS batch s eq_refl
    ltac:(unfold INITIAL_BACKOFF_MS, MAX_BACKOFF_MS; lia)) as Hd.
  unfold flush_with_retry. change (Z.to_nat MAX_INSERT_RETRIES) with 5%nat.
  destruct (flush_attempts 5 _ _ _ _) as [delays s']. split; [|exact Hd].
  destruct H as [(n & H1 & H2 & H3 & H4 & _)|(H1 & H2 & _)]; [left; exists n; split; [lia|done]|by right].
Qed.

(** C17: the writer task settles every row.  Whatever arrives, however the linger
    timer fires and whatever ClickHouse answers, the task ends once the senders
    are gone, and by then the rows received are, in order, exactly the rows of
    the batches it settled, each of 1 to [batch_max] rows, and each batch was
    inserted or dropped and metered as such.  The drain at shutdown keeps the same
    promise on its own for whatever rows it finds queued. *)
Theorem writer_settles_every_row ping polls batch_max s :
  (0 < batch_max)%nat ->
  (exists s', writer_task (S (length (arrivals polls))) ping polls batch_max s = Some s'
     /\ settles_all batch_max (arrivals polls) (ping_ready ping s) s')
  /\ forall q, exists s', drain_final (S (length q)) batch_max [] q s = Some s' /\ settles_all batch_max q s s'.
Proof.
  intros Hm. split; [by apply writer_task_spec|].
  intros q. by apply (drain_final_spec (S (length q)) batch_max [] q s); simpl; lia.
Qed.

(** The counters tell the truth: over the life of the writer the inserted-rows
    counter and the dropped-rows counter add up to the rows received, and the
    inserted rows and the dropped rows together are the rows received. *)
Theorem writer_counters_add_up ping polls batch_max s :
  (0 < batch_max)%nat -> inserted s = [] -> dropped s = [] ->
  exists s', writer_task (S (length (arrivals polls))) ping polls batch_max s = Some s'
    /\ concat (inserted s') ++ concat (dropped s') ≡ₚ arrivals polls
    /\ metric (ch_metrics s') M_ROWS + metric (ch_metrics s') M_DROPPED
       = metric (ch_metrics s) M_ROWS + metric (ch_metrics s) M_DROPPED + zlen (arrivals polls).
Proof.
  intros Hm Hi Hd. destruct (writer_task_spec ping polls batch_max s Hm) as (s' & E & bs & H1 & _ & H3).
  exists s'. split; [done|].
  apply settled_run_totals in H3 as (Hp & i & d & I1 & I2 & _ & _ & I6 & I7).
  cbn [ping_ready inserted dropped ch_metrics] in *. rewrite Hi, Hd in *. simpl in *. rewrite !drop_0 in Hp.
  rewrite <- H1. split; [done|]. apply Permutation_length in Hp. rewrite I1, I2, !length_app in Hp. lia.
Qed.

End Writer.

(** ** Witnesses *)

Definition sample_metric_row : MetricRow :=
  from_ingest {| schema_version := 4; window_start_ns := 0; window_end_ns := 10; node := "n";
                 batch_id := "b"; agent_version := "1.2.0"; workloads := [] |}
    {| cgroup_id := 7; namespace := None; pod := None; container := None; k8s_resolved := false;
       memory_bytes_max := 5; memory_bytes_last := 4; exec_count := 1; sample_count := 1;
       cpu_usage_usec := 9; cpu_request_millicores := 0; memory_request_bytes := 0;
       cpu_limit_millicores := 0; memory_limit_bytes := 0 |}.

(** ClickHouse is down for the first seven inserts. *)
Definition sample_answers (n : nat) : insert_answer := if (n <? 7)%nat then EndTimeout else Acked.

Definition sample_polls : list poll :=
  [Poll false [sample_metric_row; sample_metric_row; sample_metric_row]; Poll true [];
   Poll false [sample_metric_row]].

Definition idle_writer : writer_state := WriterState false ∅ 0 [] [].

Lemma writer_settles_every_row_witness :
  (exists s', writer_task sample_answers (fun _ => 0) 5 true sample_polls 2 idle_writer = Some s'
     /\ settles_all 2 (arrivals sample_polls) (ping_ready true idle_writer) s')
  /\ forall q, exists s', drain_final sample_answers (fun _ => 0) (S (length q)) 2 [] q idle_writer = Some s'
       /\ settles_all 2 q idle_writer s'.
Proof. exact (writer_settles_every_row sample_answers (fun _ => 0) true sample_polls 2 idle_writer ltac:(lia)). Defined.

Lemma writer_counters_add_up_witness :
  exists s', writer_task sample_answers (fun _ => 0) 5 true sample_polls 2 idle_writer = Some s'
    /\ concat (inserted s') ++ concat (dropped s') ≡ₚ arrivals sample_polls
    /\ metric (ch_metrics s') M_ROWS + metric (ch_metrics s') M_DROPPED
       = metric (ch_metrics idle_writer) M_ROWS + metric (ch_metrics idle_writer) M_DROPPED
         + zlen (arrivals sample_polls).
Proof.
  exact (writer_counters_add_up sample_answers (fun _ => 0) true sample_polls 2 idle_writer
           ltac:(lia) eq_refl eq_refl).
Defined.
