(* ===== verification/Ingest.v ===== *)
(** * Ingest: the gateway's write path

    Models [statix-gateway/src/routes/ingest.rs] and the health and readiness
    checks of [statix-gateway/src/main.rs], and puts them together with the
    writer task of [ChWriter] as a transition system.  The channel between the
    handlers and the writer is any [PermitChannel]: a [Channel] on which a
    handler can reserve several slots at once.  The theorems: a request is all or
    nothing and its status says which, a ready gateway accepts a reasonable batch,
    and a gateway that has become unhealthy with nothing queued stays so. *)

From S2P Require Export ChWriter Channel.

(** [try_reserve_many] and [Permit::send] of [tokio::sync::mpsc]. *)
Class PermitChannel (A : Type) : Type := {
  #[global] permit_base :: Channel A;
  try_reserve_many : nat -> chan A -> res send_error nat;
  permit_send : A -> chan A -> chan A;
  try_reserve_many_spec n c :
    try_reserve_many n c = (if chan_closed c then Err SendClosed
                            else if (n <=? chan_room c)%nat then Ok n else Err SendFull);
  permit_send_spec x c :
    (length (queued c) < chan_capacity c)%nat ->
    queued (permit_send x c) = queued c ++ [x] /\ chan_capacity (permit_send x c) = chan_capacity c
    /\ chan_closed (permit_send x c) = chan_closed c
}.

#[export] Instance bounded_permits (A : Type) : PermitChannel A.
Proof.
  refine {| permit_base := bounded_channel A;
            try_reserve_many n c := if b_closed c then Err SendClosed
              else if (n <=? b_cap c - length (b_items c))%nat then Ok n else Err SendFull;
            permit_send x c := Bounded (b_items c ++ [x]) (b_cap c) (b_closed c) |}.
  - done.
  - done.
Defined.

Definition MIN_SCHEMA_VERSION : Z := 2.
Definition MAX_SCHEMA_VERSION : Z := 4.
Definition READY_CHANNEL_FULL_THRESHOLD_PCT : Z := 80.

Section Gateway.
Context {PC : PermitChannel MetricRow}.

Record AppState : Type := {
  ingest_tx : chan MetricRow;
  app_channel_capacity : Z;
  app_healthy : bool;
  app_bearer : option string;
  app_metrics : metrics
}.

Definition set_tx (c : chan MetricRow) (s : AppState) : AppState :=
  {| ingest_tx := c; app_channel_capacity := app_channel_capacity s; app_healthy := app_healthy s;
     app_bearer := app_bearer s; app_metrics := app_metrics s |}.
Definition set_healthy (b : bool) (s : AppState) : AppState :=
  {| ingest_tx := ingest_tx s; app_channel_capacity := app_channel_capacity s; app_healthy := b;
     app_bearer := app_bearer s; app_metrics := app_metrics s |}.
Definition count (name : string) (s : AppState) : AppState :=
  {| ingest_tx := ingest_tx s; app_channel_capacity := app_channel_capacity s;
     app_healthy := app_healthy s; app_bearer := app_bearer s;
     app_metrics := counter_add name 1 (app_metrics s) |}.

Record response : Type := Response { status : Z; reply : string }.

(** ** Handlers *)

(** The loop over the workloads; [None] is the panic of [expect]. *)
Fixpoint send_rows (b : IngestBatch) (ws : list WorkloadRow) (permits : nat) (c : chan MetricRow)
    : option (chan MetricRow) :=
  match ws with
  | [] => Some c
  | w :: ws =>
      match permits with
      | O => None
      | S permits => send_rows b ws permits (permit_send (from_ingest b w) c)
      end
  end.

Definition ingest_inner (b : IngestBatch) (s : AppState) : option (response * AppState) :=
  if (schema_version b <? MIN_SCHEMA_VERSION) || (MAX_SCHEMA_VERSION <? schema_version b) then
    Some (Response 400 ("Unsupported schema_version=" +:+ pretty (schema_version b)
                        +:+ ". Expected 2..=4."), s)
  else if negb (app_healthy s) then
    Some (Response 503 "ClickHouse unavailable; retry later.",
          count "statix_api_ch_unhealthy_reject_total" s)
  else
    match workloads b with
    | [] => Some (Response 200 "", s)
    | ws =>
        match try_reserve_many (length ws) (ingest_tx s) with
        | Ok permits =>
            match send_rows b ws permits (ingest_tx s) with
            | Some c => Some (Response 200 "", set_tx c s)
            | None => None
            end
        | Err SendFull =>
            Some (Response 503 "Ingest buffer full. Retry later.",
                  count "statix_api_ingest_channel_full_total" s)
        | Err SendClosed => Some (Response 503 "Writer unavailable.", s)
        end
    end.

Definition record_ingest_metrics (st : Z) (s : AppState) : AppState :=
  let s := count ("statix_api_ingest_requests_total/" +:+ pretty st) s in
  if st =? 503 then count "statix_api_ingest_503_total" s else s.

(** [auth] is the [Authorization] header, when it is there and is text. *)
Definition ingest_authorized (auth : option string) (s : AppState) : bool :=
  match app_bearer s with
  | Some expected => bool_decide (auth = Some expected)
  | None => true
  end.

Definition handler (auth : option string) (b : IngestBatch) (s : AppState) : option (response * AppState) :=
  if negb (ingest_authorized auth s) then Some (Response 401 "", record_ingest_metrics 401 s)
  else
    match ingest_inner b s with
    | Some (r, s) => Some (r, record_ingest_metrics (status r) s)
    | None => None
    end.

Definition health_check (s : AppState) : Z := if chan_closed (ingest_tx s) then 503 else 200.

Definition ingest_channel_over_threshold (remaining total threshold_pct : Z) : bool :=
  if total =? 0 then false
  else saturating_mul 64 remaining 100 / total <? saturating_sub 100 threshold_pct.

Definition readiness_check (s : AppState) : Z :=
  if chan_closed (ingest_tx s) then 503
  else if negb (app_healthy s) then 503
  else if ingest_channel_over_threshold (Z.of_nat (chan_room (ingest_tx s))) (app_channel_capacity s)
            READY_CHANNEL_FULL_THRESHOLD_PCT then 503
  else 200.

(** ** The gateway as a transition system *)

(** What the handlers share, and the writer task between two receives. *)
Record gateway : Type := Gateway { app : AppState; chw : writer_state }.

Fixpoint take_rows (k : nat) (c : chan MetricRow) : list MetricRow * chan MetricRow :=
  match k with
  | O => ([], c)
  | S k =>
      match try_recv c with
      | (Some r, c) => let '(rs, c) := take_rows k c in (r :: rs, c)
      | (None, c) => ([], c)
      end
  end.

Section Steps.
Variables (answer : nat -> insert_answer) (nanos : nat -> Z).

(** One request is handled, or the writer takes some queued rows and flushes
    them; the flag is shared. *)
Inductive gw_step : gateway -> gateway -> Prop :=
| gw_request auth b r s' s w :
    handler auth b s = Some (r, s') -> gw_step (Gateway s w) (Gateway s' w)
| gw_flush k rows c s w :
    take_rows k (ingest_tx s) = (rows, c) -> rows <> [] ->
    gw_step (Gateway s w)
      (Gateway (set_healthy (ch_healthy (flush_with_retry answer nanos rows w).2) (set_tx c s))
               (flush_with_retry answer nanos rows w).2).

(** Nothing queued, and the flag down. *)
Definition stuck (g : gateway) : Prop :=
  app_healthy (app g) = false /\ queued (ingest_tx (app g)) = [].

Definition queue_fits (s : AppState) : Prop :=
  (length (queued (ingest_tx s)) <= chan_capacity (ingest_tx s))%nat.

(** ** Lemmas *)

Lemma send_rows_spec b ws permits c :
  (length ws <= permits)%nat -> (length ws <= chan_room c)%nat ->
  exists c', send_rows b ws permits c = Some c' /\ queued c' = queued c ++ (from_ingest b <$> ws)
    /\ chan_capacity c' = chan_capacity c /\ chan_closed c' = chan_closed c.
Proof.
  revert permits c. induction ws as [|w ws IH]; intros permits c Hp Hr; simpl in *.
  - exists c. by rewrite app_nil_r.
  - destruct permits as [|permits]; [lia|]. unfold chan_room in *.
    destruct (permit_send_spec (from_ingest b w) c) as (Q & C & L); [lia|].
    destruct (IH permits (permit_send (from_ingest b w) c)) as (c' & -> & Q' & C' & L'); [lia|..].
    { rewrite C, Q. len_lia. }
    exists c'. rewrite Q', Q, C', C, L', L, <- app_assoc. done.
Qed.

Lemma take_rows_empty k c rows c' : queued c = [] -> take_rows k c = (rows, c') -> rows = [].
Proof.
  intros Hq. destruct k as [|k]; simpl; [by intros [= <- _]|].
  destruct (try_recv_eq c) as (E & _). rewrite Hq in E. destruct (try_recv c) as [r c1]. simpl in E.
  subst r. by intros [= <- _].
Qed.

Lemma record_metrics_frame st s :
  ingest_tx (record_ingest_metrics st s) = ingest_tx s
  /\ app_healthy (record_ingest_metrics st s) = app_healthy s
  /\ app_bearer (record_ingest_metrics st s) = app_bearer s
  /\ app_channel_capacity (record_ingest_metrics st s) = app_channel_capacity s.
Proof. unfold record_ingest_metrics. by destruct (st =? 503). Qed.

(** The status of a request, from the state before it. *)
Definition ingest_status (auth : option string) (b : IngestBatch) (s : AppState) : Z :=
  if negb (ingest_authorized auth s) then 401
  else if (schema_version b <? MIN_SCHEMA_VERSION) || (MAX_SCHEMA_VERSION <? schema_version b) then 400
  else if negb (app_healthy s) then 503
  else if bool_decide (workloads b = []) then 200
  else if chan_closed (ingest_tx s) then 503
  else if (length (workloads b) <=? chan_room (ingest_tx s))%nat then 200 else 503.

Lemma ingest_inner_spec b s :
  exists r s', ingest_inner b s = Some (r, s')
    /\ (forall auth, ingest_authorized auth s = true -> status r = ingest_status auth b s)
    /\ queued (ingest_tx s') = queued (ingest_tx s) ++ (if status r =? 200 then from_ingest b <$> workloads b else [])
    /\ chan_capacity (ingest_tx s') = chan_capacity (ingest_tx s)
    /\ chan_closed (ingest_tx s') = chan_closed (ingest_tx s)
    /\ app_healthy s' = app_healthy s /\ app_bearer s' = app_bearer s
    /\ (queue_fits s -> queue_fits s').
Proof.
  unfold ingest_inner, ingest_status, queue_fits.
  destruct (_ || _); [eexists _, _; split; [done|]; split; [by intros auth ->|]; simpl; by rewrite app_nil_r|].
  destruct (app_healthy s) eqn:Eh; cbn [negb];
    [|eexists _, _; split; [done|]; split; [by intros auth ->|]; simpl; by rewrite app_nil_r].
  destruct (workloads b) as [|w ws] eqn:Ew.
  { eexists _, _. split; [done|]. split; [by intros auth ->|]. simpl. by rewrite app_nil_r. }
  rewrite try_reserve_many_spec, bool_decide_eq_false_2 by done.
  destruct (chan_closed (ingest_tx s)) eqn:Ec;
    [eexists _, _; split; [done|]; split; [by intros auth ->|]; simpl; by rewrite app_nil_r|].
  destruct (Nat.leb_spec (length (w :: ws)) (chan_room (ingest_tx s))) as [Hle|Hgt];
    [|eexists _, _; split; [done|]; split; [by intros auth ->|]; simpl; by rewrite app_nil_r].
  destruct (send_rows_spec b (w :: ws) (length (w :: ws)) (ingest_tx s)) as (c & -> & Q & C & L); [done..|].
  eexists _, _. split; [done|]. split; [by intros auth ->|]. simpl. rewrite Q, C, L.
  split_and!; try done. unfold chan_room in Hle. intros _. len_lia.
Qed.

Lemma handler_spec auth b s :
  exists r s', handler auth b s = Some (r, s') /\ status r = ingest_status auth b s
    /\ queued (ingest_tx s') = queued (ingest_tx s) ++ (if status r =? 200 then from_ingest b <$> workloads b else [])
    /\ chan_capacity (ingest_tx s') = chan_capacity (ingest_tx s)
    /\ chan_closed (ingest_tx s') = chan_closed (ingest_tx s)
    /\ app_healthy s' = app_healthy s /\ app_bearer s' = app_bearer s /\ (queue_fits s -> queue_fits s').
Proof.
  unfold handler. destruct (ingest_authorized auth s) eqn:Ea; cbn [negb].
  - destruct (ingest_inner_spec b s) as (r & s' & -> & H1 & H2 & H3 & H4 & H5 & H6 & H7).
    destruct (record_metrics_frame (status r) s') as (F1 & F2 & F3 & _).
    eexists _, _. split; [done|]. unfold queue_fits in *. rewrite F1, F2, F3. split_and!; auto.
  - destruct (record_metrics_frame 401 s) as (F1 & F2 & F3 & _).
    eexists _, _. split; [done|]. unfold queue_fits, ingest_status. rewrite F1, F2, F3, Ea. simpl.
    by rewrite app_nil_r.
Qed.

Lemma stuck_step g g' : gw_step g g' -> stuck g -> stuck g'.
Proof.
  intros Hs [Hh Hq]. destruct Hs as [auth b r s' s w E|k rows c s w E Hr]; cbn [app] in *.
  - destruct (handler_spec auth b s) as (r0 & s0 & E0 & Hst & Hq0 & _ & _ & Hh0 & _).
    rewrite E in E0. inv E0. split; cbn [app]; [congruence|]. rewrite Hq0, Hq.
    unfold ingest_status in Hst. rewrite Hh in Hst. cbn [negb] in Hst.
    destruct (negb (ingest_authorized auth s)); [|destruct (_ || _)]; by rewrite Hst.
  - by apply take_rows_empty in E.
Qed.

Lemma over_threshold_exact remaining total :
  0 <= remaining -> remaining * 100 < 2 ^ 64 -> 0 < total ->
  ingest_channel_over_threshold remaining total READY_CHANNEL_FULL_THRESHOLD_PCT
  = (5 * remaining <? total).
Proof.
  intros H0 Hr Ht. unfold ingest_channel_over_threshold, READY_CHANNEL_FULL_THRESHOLD_PCT.
  destruct (Z.eqb_spec total 0); [lia|].
  assert (E : saturating_mul 64 remaining 100 = remaining * 100) by (unfold saturating_mul, umax; lia).
  rewrite E. change (saturating_sub 100 80) with 20. destruct (Z.ltb_spec (5 * remaining) total).
  - apply Z.ltb_lt. apply Z.div_lt_upper_bound; lia.
  - apply Z.ltb_ge. apply Z.div_le_lower_bound; lia.
Qed.

Lemma supported_schema b :
  MIN_SCHEMA_VERSION <= schema_version b <= MAX_SCHEMA_VERSION ->
  (schema_version b <? MIN_SCHEMA_VERSION) || (MAX_SCHEMA_VERSION <? schema_version b) = false.
Proof.
  intros Hv. destruct (Z.ltb_spec (schema_version b) MIN_SCHEMA_VERSION); [lia|].
  destruct (Z.ltb_spec MAX_SCHEMA_VERSION (schema_version b)); [lia|done].
Qed.

Lemma ready_status auth b s :
  readiness_check s = 200 -> ingest_authorized auth s = true ->
  MIN_SCHEMA_VERSION <= schema_version b <= MAX_SCHEMA_VERSION ->
  app_channel_capacity s = Z.of_nat (chan_capacity (ingest_tx s)) ->
  app_channel_capacity s * 100 < 2 ^ 64 -> 5 * zlen (workloads b) <= app_channel_capacity s ->
  ingest_status auth b s = 200.
Proof.
  intros Hr Ha Hv Hc Hb Hw. unfold ingest_status, readiness_check in *. rewrite Ha, supported_schema by done.
  cbn [negb]. destruct (chan_closed (ingest_tx s)); [done|]. destruct (app_healthy s); [|done]. cbn [negb] in *.
  case_bool_decide; [done|]. destruct (workloads b) as [|w ws]; [done|].
  rewrite over_threshold_exact in Hr; [|lia|unfold chan_room; lia|simpl in Hw; lia].
  destruct (Z.ltb_spec (5 * Z.of_nat (chan_room (ingest_tx s))) (app_channel_capacity s)); [done|].
  destruct (Nat.leb_spec (length (w :: ws)) (chan_room (ingest_tx s))); [done|]. lia.
Qed.

(** More rows than the channel can ever hold. *)
Lemma oversized_status auth b s :
  ingest_authorized auth s = true -> MIN_SCHEMA_VERSION <= schema_version b <= MAX_SCHEMA_VERSION ->
  (chan_capacity (ingest_tx s) < length (workloads b))%nat -> ingest_status auth b s = 503.
Proof.
  intros Ha Hv Hc. unfold ingest_status. rewrite Ha, supported_schema by done. cbn [negb].
  destruct (negb (app_healthy s)); [done|]. rewrite bool_decide_eq_false_2 by (intros E; rewrite E in Hc; simpl in Hc; lia).
  destruct (chan_closed (ingest_tx s)); [done|].
  destruct (Nat.leb_spec (length (workloads b)) (chan_room (ingest_tx s))) as [Hle|]; [|done].
  unfold chan_room in Hle. lia.
Qed.

End Steps.

(** ** Properties *)

(** C16: a request is all or nothing.  The handler always answers (the [expect] on
    the reserved permits never fires), the status is determined by the checks in
    their order, and the rows of the batch are queued, all of them, in order,
    exactly when the status is 200; the queue never exceeds the channel. *)
Theorem ingest_is_all_or_nothing auth b s :
  exists r s', handler auth b s = Some (r, s') /\ status r = ingest_status auth b s
    /\ queued (ingest_tx s') = queued (ingest_tx s) ++ (if status r =? 200 then from_ingest b <$> workloads b else [])
    /\ (queue_fits s -> queue_fits s').
Proof.
  destruct (handler_spec auth b s) as (r & s' & E & Hst & Hq & _ & _ & _ & _ & Hf). by exists r, s'.
Qed.

(** Readiness is honest.  While [/ready] answers 200 an authorised batch of a
    supported schema with no more rows than a fifth of the channel is accepted. *)
Theorem ready_gateway_accepts auth b s :
  readiness_check s = 200 -> ingest_authorized auth s = true ->
  MIN_SCHEMA_VERSION <= schema_version b <= MAX_SCHEMA_VERSION ->
  app_channel_capacity s = Z.of_nat (chan_capacity (ingest_tx s)) ->
  app_channel_capacity s * 100 < 2 ^ 64 -> 5 * zlen (workloads b) <= app_channel_capacity s ->
  exists r s', handler auth b s = Some (r, s') /\ status r = 200.
Proof.
  intros Hr Ha Hv Hc Hb Hw. destruct (handler_spec auth b s) as (r & s' & E & Hst & _).
  exists r, s'. split; [done|]. rewrite Hst. by apply ready_status.
Qed.

(** A gateway whose health flag is down while nothing is queued never recovers
    by itself.  The flag only rises after a successful insert, an insert needs a
    queued row, and no row is queued while the flag is down: whatever requests
    come and whatever ClickHouse would answer, the flag stays down, [/ready]
    answers 503 and so does every authorised batch of a supported schema.  This
    is where a gateway starts when its only ping fails. *)
Theorem unhealthy_idle_gateway_never_recovers answer nanos g g' auth b :
  stuck g -> rtc (gw_step answer nanos) g g' ->
  ingest_authorized auth (app g') = true ->
  MIN_SCHEMA_VERSION <= schema_version b <= MAX_SCHEMA_VERSION ->
  stuck g' /\ readiness_check (app g') = 503
  /\ exists r s', handler auth b (app g') = Some (r, s') /\ status r = 503.
Proof.
  intros Hg Hr Ha Hv. assert (Hs : stuck g') by (induction Hr; eauto using stuck_step).
  split; [done|]. destruct Hs as [Hh Hq]. split.
  - unfold readiness_check. rewrite Hh. by destruct (chan_closed _).
  - destruct (handler_spec auth b (app g')) as (r & s' & E & Hst & _). exists r, s'. split; [done|].
    rewrite Hst. unfold ingest_status. rewrite Ha, Hh. cbn [negb].
    destruct (Z.ltb_spec (schema_version b) MIN_SCHEMA_VERSION); [lia|].
    by destruct (Z.ltb_spec MAX_SCHEMA_VERSION (schema_version b)); [lia|].
Qed.

End Gateway.

(** ** Witnesses *)

Definition sample_app (healthy : bool) : AppState (PC := bounded_permits MetricRow) :=
  {| ingest_tx := (Bounded [] 1024 false : chan MetricRow); app_channel_capacity := 1024;
     app_healthy := healthy; app_bearer := Some "Bearer t"%string; app_metrics := ∅ |}.

Definition sample_request : IngestBatch :=
  {| schema_version := 4; window_start_ns := 0; window_end_ns := 10; node := "n"; batch_id := "b";
     agent_version := "1.2.0";
     workloads := [{| cgroup_id := 7; namespace := None; pod := None; container := None;
       k8s_resolved := false; memory_bytes_max := 5; memory_bytes_last := 4; exec_count := 1;
       sample_count := 1; cpu_usage_usec := 9; cpu_request_millicores := 0; memory_request_bytes := 0;
       cpu_limit_millicores := 0; memory_limit_bytes := 0 |}] |}.

Lemma ready_gateway_accepts_witness :
  exists r s', handler (Some "Bearer t"%string) sample_request (sample_app true) = Some (r, s') /\ status r = 200.
Proof.
  apply (ready_gateway_accepts (Some "Bearer t"%string) sample_request (sample_app true));
    try reflexivity; vm_compute; first [done|by split].
Defined.

Lemma unhealthy_idle_gateway_never_recovers_witness :
  let g := Gateway (sample_app false) idle_writer in
  stuck g /\ readiness_check (app g) = 503
  /\ exists r s', handler (Some "Bearer t"%string) sample_request (app g) = Some (r, s') /\ status r = 503.
Proof.
  apply (unhealthy_idle_gateway_never_recovers (fun _ => Acked) (fun _ => 0)
           (Gateway (sample_app false) idle_writer) _ (Some "Bearer t"%string) sample_request).
  - done.
  - apply rtc_refl.
  - reflexivity.
  - vm_compute. by split.
Defined.
