(* ===== verification/F64.v ===== *)
(** * F64: the floating-point arithmetic the program uses

    Rust's [f64] is IEEE 754 binary64 with rounding to nearest, ties to even.  A
    finite value is [m * 2^e]; the sign of zero is not kept, since no operation
    of the program observes it.  The file defines the conversions, [*], [/],
    comparison, [round] and the saturating [as u64] that the agent's quantity
    parser and the gateway's dashboard apply, and [str::parse] for [f64]; the
    lemmas say when they are exact. *)

From S2P Require Export Text.

Inductive f64 : Type :=
| Finite (m e : Z)
| Infinite (neg : bool)
| NaN.

(** ** Rounding a rational *)

(** [floor (log2 (a / d))] for positive [a] and [d]. *)
Definition log2_q (a d : Z) : Z :=
  let l := Z.log2 a - Z.log2 d in
  let below := if 0 <=? l then a <? d * 2 ^ l else a * 2 ^ (- l) <? d in
  if below then l - 1 else l.

Definition div_half_even (a d : Z) : Z :=
  let q := a / d in
  let r := a mod d in
  if (d <? 2 * r) || ((2 * r =? d) && Z.odd q) then q + 1 else q.

(** The binary64 nearest to [a / d], [a >= 0], [d > 0]. *)
Definition round_pos (a d : Z) : f64 :=
  if a =? 0 then Finite 0 0
  else
    let e := Z.max (-1074) (log2_q a d - 52) in
    let m := if 0 <=? e then div_half_even a (d * 2 ^ e) else div_half_even (a * 2 ^ (- e)) d in
    if (971 <? e) || ((e =? 971) && (2 ^ 53 <=? m)) then Infinite false else Finite m e.

Definition f64_neg (x : f64) : f64 :=
  match x with Finite m e => Finite (- m) e | Infinite b => Infinite (negb b) | NaN => NaN end.

Definition round_q (a d : Z) : f64 := if 0 <=? a then round_pos a d else f64_neg (round_pos (- a) d).

(** [m * 2^e] as a fraction. *)
Definition num_of (m e : Z) : Z := if 0 <=? e then m * 2 ^ e else m.
Definition den_of (e : Z) : Z := if 0 <=? e then 1 else 2 ^ (- e).

(** ** Operations *)

Definition f64_of_u64 (n : Z) : f64 := round_q n 1.

Definition sign_neg (x : f64) : bool :=
  match x with Finite m _ => m <? 0 | Infinite b => b | NaN => false end.
Definition is_zero (x : f64) : bool := match x with Finite m _ => m =? 0 | _ => false end.

Definition f64_mul (x y : f64) : f64 :=
  match x, y with
  | Finite m1 e1, Finite m2 e2 => round_q (num_of m1 e1 * num_of m2 e2) (den_of e1 * den_of e2)
  | NaN, _ | _, NaN => NaN
  | _, _ => if is_zero x || is_zero y then NaN else Infinite (xorb (sign_neg x) (sign_neg y))
  end.

Definition f64_div (x y : f64) : f64 :=
  match x, y with
  | Finite m1 e1, Finite m2 e2 =>
      if m2 =? 0 then (if m1 =? 0 then NaN else Infinite (m1 <? 0))
      else round_q (Z.sgn m2 * num_of m1 e1 * den_of e2) (den_of e1 * Z.abs (num_of m2 e2))
  | NaN, _ | _, NaN => NaN
  | Infinite _, Infinite _ => NaN
  | Infinite b, Finite m _ => Infinite (xorb b (m <? 0))
  | Finite _ _, Infinite _ => Finite 0 0
  end.

Definition f64_add (x y : f64) : f64 :=
  match x, y with
  | Finite m1 e1, Finite m2 e2 => round_q (num_of m1 e1 * den_of e2 + num_of m2 e2 * den_of e1) (den_of e1 * den_of e2)
  | NaN, _ | _, NaN => NaN
  | Infinite b, Infinite c => if eqb b c then Infinite b else NaN
  | Infinite b, Finite _ _ | Finite _ _, Infinite b => Infinite b
  end.

Definition is_finite (x : f64) : bool := match x with Finite _ _ => true | _ => false end.

(** [x >= y] and [x > y]; false when either is not a number. *)
Definition f64_ltb (x y : f64) : bool :=
  match x, y with
  | Finite m1 e1, Finite m2 e2 => num_of m1 e1 * den_of e2 <? num_of m2 e2 * den_of e1
  | Infinite true, Finite _ _ | Infinite true, Infinite false | Finite _ _, Infinite false => true
  | _, _ => false
  end.
Definition f64_leb (x y : f64) : bool :=
  match x, y with
  | Finite m1 e1, Finite m2 e2 => num_of m1 e1 * den_of e2 <=? num_of m2 e2 * den_of e1
  | Infinite true, Infinite _ | Infinite _, Infinite false
  | Infinite true, Finite _ _ | Finite _ _, Infinite false => true
  | _, _ => false
  end.

(** [x.round() as u64]: half away from zero, then saturating. *)
Definition round_as_u64 (x : f64) : Z :=
  match x with
  | Finite m e => clamp ((2 * num_of m e + den_of e) / (2 * den_of e)) 0 (umax 64)
  | Infinite false => umax 64
  | Infinite true | NaN => 0
  end.

(** ** Parsing *)

(** The longest run of digits: its value, its length and the rest. *)
Fixpoint take_digits (acc : Z) (n : nat) (s : string) : Z * nat * string :=
  match s with
  | EmptyString => (acc, n, "")
  | String c s' =>
      match char_digit c with
      | Some d => take_digits (acc * 10 + d) (S n) s'
      | None => (acc, n, s)
      end
  end.

Definition take_sign (s : string) : bool * string :=
  match s with
  | String c s' => if Ascii.eqb c "-" then (true, s') else if Ascii.eqb c "+" then (false, s') else (false, s)
  | EmptyString => (false, s)
  end.

(** The exponent, or 0 when there is none. *)
Definition parse_exp (s : string) : option Z :=
  match s with
  | EmptyString => Some 0
  | String c s' =>
      if Ascii.eqb c "e" || Ascii.eqb c "E" then
        let '(neg, s') := take_sign s' in
        match take_digits 0 0 s' with
        | (_, O, _) => None
        | (v, _, EmptyString) => Some (if neg then - v else v)
        | _ => None
        end
      else None
  end.

(** [digits * 10^(exp - frac)] *)
Definition decimal (digits : Z) (frac : nat) (exp : Z) : f64 :=
  let e := exp - Z.of_nat frac in
  if 0 <=? e then round_q (digits * 10 ^ e) 1 else round_q digits (10 ^ (- e)).

Definition parse_number (s : string) : option f64 :=
  let '(v, n, rest) := take_digits 0 0 s in
  let '(v, n', rest) := match rest with
                        | String c r => if Ascii.eqb c "." then take_digits v 0 r else (v, O, rest)
                        | EmptyString => (v, O, rest)
                        end in
  match (n + n')%nat with
  | O => None
  | _ => match parse_exp rest with Some e => Some (decimal v n' e) | None => None end
  end.

Definition parse_f64 (s : string) : option f64 :=
  let '(neg, s) := take_sign s in
  let l := to_ascii_lowercase s in
  let x := if String.eqb l "inf" || String.eqb l "infinity" then Some (Infinite false)
           else if String.eqb l "nan" then Some NaN
           else parse_number s in
  match x with Some x => Some (if neg then f64_neg x else x) | None => None end.

(** ** Exactness *)

Lemma log2_q_int a : 0 < a -> log2_q a 1 = Z.log2 a.
Proof.
  intros Ha. unfold log2_q. cbv zeta. change (Z.log2 1) with 0. rewrite !Z.sub_0_r, Z.mul_1_l.
  pose proof (Z.log2_nonneg a). destruct (Z.leb_spec 0 (Z.log2 a)); [|lia].
  destruct (Z.ltb_spec a (2 ^ Z.log2 a)); [|done]. pose proof (Z.log2_spec a Ha). lia.
Qed.

Lemma div_half_even_exact q d : 0 < d -> div_half_even (q * d) d = q.
Proof.
  intros Hd. unfold div_half_even. rewrite Z.div_mul, Z.mod_mul by lia. change (2 * 0) with 0.
  destruct (Z.ltb_spec d 0); [lia|]. by destruct (Z.eqb_spec 0 d); [lia|].
Qed.

(** An integer of at most 53 significant bits is represented exactly. *)
Lemma round_int_exact k j :
  0 < k < 2 ^ 53 -> 0 <= j -> k * 2 ^ j < 2 ^ 1024 ->
  exists m e, round_q (k * 2 ^ j) 1 = Finite m e /\ num_of m e = k * 2 ^ j * den_of e.
Proof.
  intros Hk Hj Hb. assert (H2 : 0 < 2 ^ j) by (apply Z.pow_pos_nonneg; lia).
  set (a := k * 2 ^ j) in *. assert (Ha : 0 < a) by (unfold a; nia).
  unfold round_q, round_pos. destruct (Z.leb_spec 0 a); [|lia]. destruct (Z.eqb_spec a 0); [lia|].
  rewrite log2_q_int by done.
  assert (Hl : Z.log2 a - 52 <= j).
  { unfold a. rewrite Z.log2_mul_pow2 by lia. assert (Z.log2 k < 53) by (apply Z.log2_lt_pow2; lia). lia. }
  pose proof (Z.log2_nonneg a). assert (Z.log2 a < 1024) by (apply Z.log2_lt_pow2; lia).
  rewrite Z.max_r by lia. set (e := Z.log2 a - 52) in *. rewrite Z.mul_1_l.
  pose proof (Z.log2_spec a Ha) as [_ Hs].
  destruct (Z.leb_spec 0 e) as [He|He].
  - assert (E : a = k * 2 ^ (j - e) * 2 ^ e).
    { unfold a. rewrite <- Z.mul_assoc, <- Z.pow_add_r by lia. do 2 f_equal. lia. }
    rewrite E, div_half_even_exact by (apply Z.pow_pos_nonneg; lia).
    exists (k * 2 ^ (j - e)), e. split.
    + assert (k * 2 ^ (j - e) < 2 ^ 53).
      { replace (Z.succ (Z.log2 a)) with (53 + e) in Hs by lia. rewrite Z.pow_add_r in Hs by lia.
        rewrite E in Hs. assert (0 < 2 ^ e) by (apply Z.pow_pos_nonneg; lia). nia. }
      destruct (Z.ltb_spec 971 e); [lia|]. destruct (Z.leb_spec (2 ^ 53) (k * 2 ^ (j - e))); [lia|].
      by rewrite andb_false_r.
    + unfold num_of, den_of. destruct (Z.leb_spec 0 e); [lia|lia].
  - rewrite <- (Z.mul_1_r (a * 2 ^ (- e))), div_half_even_exact by lia.
    exists (a * 2 ^ (- e)), e. split.
    + destruct (Z.ltb_spec 971 e); [lia|]. by destruct (Z.eqb_spec e 971); [lia|].
    + unfold num_of, den_of. by destruct (Z.leb_spec 0 e); [lia|].
Qed.

Lemma round_q_0 d : round_q 0 d = Finite 0 0.
Proof. done. Qed.

(** The value of a finite number is the integer [n]. *)
Definition is_int (x : f64) (n : Z) : Prop :=
  match x with Finite m e => num_of m e = n * den_of e | _ => False end.

Lemma is_int_round k j :
  0 <= k < 2 ^ 53 -> 0 <= j -> k * 2 ^ j < 2 ^ 1024 -> is_int (round_q (k * 2 ^ j) 1) (k * 2 ^ j).
Proof.
  intros Hk Hj Hb. destruct (decide (k = 0)) as [->|]; [done|].
  destruct (round_int_exact k j) as (m & e & -> & H); [lia|done|done|]. exact H.
Qed.

Lemma den_pos e : 0 < den_of e.
Proof. unfold den_of. destruct (Z.leb_spec 0 e); [lia|]. apply Z.pow_pos_nonneg; lia. Qed.

(** Rounding only depends on the value of the fraction. *)
Lemma div_half_even_scale a d c : 0 < d -> 0 < c -> div_half_even (a * c) (d * c) = div_half_even a d.
Proof.
  intros Hd Hc. unfold div_half_even. rewrite Z.div_mul_cancel_r, Z.mul_mod_distr_r by lia.
  replace (d * c <? 2 * (a mod d * c)) with (d <? 2 * (a mod d)).
  - replace (2 * (a mod d * c) =? d * c) with (2 * (a mod d) =? d); [done|].
    destruct (Z.eqb_spec (2 * (a mod d)) d), (Z.eqb_spec (2 * (a mod d * c)) (d * c)); nia.
  - destruct (Z.ltb_spec d (2 * (a mod d))), (Z.ltb_spec (d * c) (2 * (a mod d * c))); nia.
Qed.

Lemma round_as_u64_int x n : is_int x n -> 0 <= n <= umax 64 -> round_as_u64 x = n.
Proof.
  destruct x as [m e| |]; simpl; try done. intros E Hn. pose proof (den_pos e).
  rewrite E. replace (2 * (n * den_of e) + den_of e) with (den_of e + n * (2 * den_of e)) by lia.
  rewrite Z.div_add, Z.div_small by lia. unfold clamp. lia.
Qed.

(** ** Bounds *)

Lemma log2_q_below a d : 0 < a -> 0 < d -> 0 <= log2_q a d -> d * 2 ^ log2_q a d <= a.
Proof.
  intros Ha Hd. pose proof (Z.log2_spec a Ha) as [Ha1 _]. pose proof (Z.log2_spec d Hd) as [_ Hd2].
  pose proof (Z.log2_nonneg a). pose proof (Z.log2_nonneg d).
  unfold log2_q. cbv zeta. set (l := Z.log2 a - Z.log2 d).
  destruct (Z.leb_spec 0 l); [|destruct (_ <? _); lia].
  destruct (Z.ltb_spec a (d * 2 ^ l)); [|lia]. intros Hl.
  assert (E : 2 ^ Z.log2 a = 2 ^ Z.succ (Z.log2 d) * 2 ^ (l - 1)) by (rewrite <- Z.pow_add_r by lia; f_equal; lia).
  assert (0 < 2 ^ (l - 1)) by (apply Z.pow_pos_nonneg; lia). nia.
Qed.

Lemma div_half_even_le a d n : 0 < d -> a <= n * d -> div_half_even a d <= n.
Proof.
  intros Hd H. unfold div_half_even. pose proof (Z.div_mod a d ltac:(lia)). pose proof (Z.mod_pos_bound a d Hd).
  destruct (decide (a / d = n)) as [E|E]; [|destruct (_ || _); nia].
  assert (a mod d = 0) as -> by nia. change (2 * 0) with 0.
  destruct (Z.ltb_spec d 0); [lia|]. destruct (Z.eqb_spec 0 d); [lia|]. cbn. lia.
Qed.

Lemma div_half_even_ge a d n : 0 < d -> n * d <= a -> n <= div_half_even a d.
Proof.
  intros Hd H. assert (n <= a / d) by (apply Z.div_le_lower_bound; lia). unfold div_half_even. destruct (_ || _); lia.
Qed.

(** An integer that a binary64 holds, far from the largest. *)
Definition rep (n : Z) : Prop := exists k j, 0 <= k < 2 ^ 53 /\ 0 <= j /\ n = k * 2 ^ j /\ n < 2 ^ 1000.

(** The value of [x] is at most [n], or at least. *)
Definition at_most (x : f64) (n : Z) : Prop := match x with Finite m e => num_of m e <= n * den_of e | _ => False end.
Definition at_least (n : Z) (x : f64) : Prop := match x with Finite m e => n * den_of e <= num_of m e | _ => False end.

Lemma rep_small n : 0 <= n < 2 ^ 53 -> rep n.
Proof. intros Hn. exists n, 0. split_and!; lia. Qed.

Lemma rep_pow2 j : 0 <= j < 1000 -> rep (2 ^ j).
Proof. intros Hj. exists 1, j. split_and!; try lia. apply Z.pow_lt_mono_r; lia. Qed.

(** Rounding does not cross such an integer. *)
Lemma round_between a d lo hi :
  0 < d -> rep lo -> rep hi -> lo * d <= a <= hi * d ->
  at_least lo (round_q a d) /\ at_most (round_q a d) hi.
Proof.
  intros Hd (k1 & j1 & Hk1 & Hj1 & E1 & B1) (k2 & j2 & Hk2 & Hj2 & E2 & B2) [H1 H2].
  assert (P : forall j, 0 <= j -> 0 < 2 ^ j) by (intros; apply Z.pow_pos_nonneg; lia).
  pose proof (P j1 Hj1). pose proof (P j2 Hj2). assert (0 <= lo) by nia.
  unfold round_q. destruct (Z.leb_spec 0 a); [|nia]. unfold round_pos. destruct (Z.eqb_spec a 0) as [->|Ha].
  { unfold at_least, at_most, num_of, den_of. cbn. nia. }
  pose proof (log2_q_below a d ltac:(lia) Hd) as Hl. set (l := log2_q a d) in *. cbv zeta.
  set (e := Z.max (-1074) (l - 52)).
  assert (Hcap : 0 <= l -> l < 1000 /\ l < 53 + j2).
  { intros Hl0. specialize (Hl Hl0). assert (2 ^ l <= hi) by nia. split.
    - apply (Z.pow_lt_mono_r_iff 2); lia.
    - apply (Z.pow_lt_mono_r_iff 2); [lia..|]. rewrite Z.pow_add_r by lia. nia. }
  destruct (Z.ltb_spec 971 e) as [He|_]; [unfold e in He; lia|].
  destruct (Z.eqb_spec e 971) as [He|_]; [unfold e in He; lia|]. cbn [orb andb].
  unfold at_least, at_most, num_of, den_of. destruct (Z.leb_spec 0 e) as [He|He].
  - assert (El : e = l - 52) by (unfold e; lia). specialize (Hl ltac:(lia)). destruct (Hcap ltac:(lia)) as [_ Hj].
    pose proof (P e He). assert (Hde : 0 < d * 2 ^ e) by nia.
    assert (S : forall j, e <= j -> 2 ^ j = 2 ^ (j - e) * 2 ^ e) by (intros; rewrite <- Z.pow_add_r by lia; f_equal; lia).
    split.
    + destruct (Z.le_gt_cases e j1) as [Hej|Hej].
      * rewrite (S j1 Hej), Z.mul_assoc in E1.
        pose proof (div_half_even_ge a (d * 2 ^ e) (k1 * 2 ^ (j1 - e)) Hde ltac:(nia)). nia.
      * assert (E52 : 2 ^ l = 2 ^ 52 * 2 ^ e) by (rewrite <- Z.pow_add_r by lia; f_equal; lia).
        pose proof (div_half_even_ge a (d * 2 ^ e) (2 ^ 52) Hde ltac:(nia)).
        assert (2 * 2 ^ j1 <= 2 ^ e) by (rewrite <- Z.pow_succ_r by lia; apply Z.pow_le_mono_r; lia). nia.
    + rewrite (S j2 ltac:(lia)), Z.mul_assoc in E2.
      pose proof (div_half_even_le a (d * 2 ^ e) (k2 * 2 ^ (j2 - e)) Hde ltac:(nia)). nia.
  - pose proof (P (- e) ltac:(lia)).
    pose proof (div_half_even_ge (a * 2 ^ (- e)) d (lo * 2 ^ (- e)) Hd ltac:(nia)).
    pose proof (div_half_even_le (a * 2 ^ (- e)) d (hi * 2 ^ (- e)) Hd ltac:(nia)). lia.
Qed.

(** ** Products of integers *)

Lemma den_pow2 e : exists k, 0 <= k /\ den_of e = 2 ^ k.
Proof. unfold den_of. destruct (Z.leb_spec 0 e); [by exists 0|exists (- e); lia]. Qed.

Lemma log2_q_scale a k : 0 < a -> 0 <= k -> log2_q (a * 2 ^ k) (2 ^ k) = Z.log2 a.
Proof.
  intros Ha Hk. unfold log2_q. rewrite Z.log2_mul_pow2, Z.log2_pow2 by lia. cbv zeta.
  replace (Z.log2 a + k - k) with (Z.log2 a) by lia. replace (k + Z.log2 a - k) with (Z.log2 a) by lia.
  pose proof (Z.log2_nonneg a). destruct (Z.leb_spec 0 (Z.log2 a)); [|lia].
  pose proof (Z.log2_spec a Ha). assert (0 < 2 ^ k) by (apply Z.pow_pos_nonneg; lia).
  destruct (Z.ltb_spec (a * 2 ^ k) (2 ^ k * 2 ^ Z.log2 a)); [nia|done].
Qed.

Lemma round_q_scale a k : 0 <= a -> 0 <= k -> round_q (a * 2 ^ k) (2 ^ k) = round_q a 1.
Proof.
  intros Ha Hk. assert (Hp : 0 < 2 ^ k) by (apply Z.pow_pos_nonneg; lia).
  destruct (decide (a = 0)) as [->|]; [done|].
  unfold round_q, round_pos. destruct (Z.leb_spec 0 (a * 2 ^ k)); [|nia]. destruct (Z.leb_spec 0 a); [|lia].
  destruct (Z.eqb_spec (a * 2 ^ k) 0); [nia|]. destruct (Z.eqb_spec a 0); [lia|].
  rewrite log2_q_scale, log2_q_int by lia. cbv zeta. set (e := Z.max _ _).
  assert (E : (if 0 <=? e then div_half_even (a * 2 ^ k) (2 ^ k * 2 ^ e)
               else div_half_even (a * 2 ^ k * 2 ^ (- e)) (2 ^ k))
              = (if 0 <=? e then div_half_even a (1 * 2 ^ e) else div_half_even (a * 2 ^ (- e)) 1)).
  { destruct (Z.leb_spec 0 e).
    - rewrite (Z.mul_comm (2 ^ k)), Z.mul_1_l. apply div_half_even_scale; [apply Z.pow_pos_nonneg|]; lia.
    - rewrite <- (Z.mul_1_l (2 ^ k)) at 2. rewrite <- (div_half_even_scale (a * 2 ^ (- e)) 1 (2 ^ k)) by lia.
      f_equal; lia. }
  by rewrite E.
Qed.

(** The product of two integer values is exact when it has at most 53
    significant bits. *)
Lemma f64_mul_int x y a b k j :
  is_int x a -> is_int y b -> a * b = k * 2 ^ j -> 0 <= k < 2 ^ 53 -> 0 <= j -> k * 2 ^ j < 2 ^ 1024 ->
  is_int (f64_mul x y) (a * b).
Proof.
  destruct x as [m1 e1| |], y as [m2 e2| |]; try done. intros E1 E2 Hab Hk Hj Hb. simpl in *.
  destruct (den_pow2 e1) as (k1 & Hk1 & D1), (den_pow2 e2) as (k2 & Hk2 & D2).
  replace (num_of m1 e1 * num_of m2 e2) with (a * b * 2 ^ (k1 + k2))
    by (rewrite E1, E2, D1, D2, Z.pow_add_r by lia; lia).
  replace (den_of e1 * den_of e2) with (2 ^ (k1 + k2)) by (rewrite D1, D2, Z.pow_add_r by lia; lia).
  assert (0 < 2 ^ j) by (apply Z.pow_pos_nonneg; lia).
  rewrite round_q_scale by nia. rewrite Hab. by apply is_int_round.
Qed.

Lemma is_int_finite x n : is_int x n -> is_finite x = true.
Proof. by destruct x. Qed.

Lemma is_int_nonneg x n : is_int x n -> 0 <= n -> f64_leb (Finite 0 0) x = true.
Proof.
  destruct x as [m e| |]; try done. simpl. intros E Hn. pose proof (den_pos e).
  rewrite E. apply Z.leb_le. change (num_of 0 0) with 0. change (den_of 0) with 1. nia.
Qed.

(** ** Parsing integers *)

Lemma take_digits_app w acc n s t v :
  parse_digits w acc s = Some v ->
  match t with EmptyString => True | String c _ => char_digit c = None end ->
  take_digits acc n (String.append s t) = (v, (n + String.length s)%nat, t).
Proof.
  intros Hp Ht. revert acc n Hp. induction s as [|c s IH]; intros acc n; simpl.
  - intros [= ->]. rewrite Nat.add_0_r. destruct t as [|c t]; [done|]. simpl. by rewrite Ht.
  - destruct (char_digit c) as [d|]; [|done]. destruct (_ <? _); [|done]. intros Hp.
    rewrite IH by done. by rewrite Nat.add_succ_r.
Qed.

Lemma all_digits_lower s : all_digits s = true -> to_ascii_lowercase s = s.
Proof.
  induction s as [|c s IH]; [done|]. simpl. intros [Hc Hs]%andb_prop. rewrite IH by done. f_equal.
  unfold to_ascii_lower_char, is_digit, ascii_between in *.
  destruct (Nat.leb_spec 65 (nat_of_ascii c)); [|done]. apply andb_prop in Hc as [_ Hc].
  apply Nat.leb_le in Hc. lia.
Qed.

(** The text of an integer of at most 53 bits parses to it. *)
Lemma parse_f64_dec n : 0 <= n < 2 ^ 53 -> exists x, parse_f64 (dec n) = Some x /\ is_int x n.
Proof.
  intros Hn. assert (Hp : parse_digits 67 0 (dec n) = Some n) by (apply parse_digits_dec; lia).
  pose proof (dec_digits n ltac:(lia)) as Hd. pose proof (dec_nonempty n) as Hne.
  exists (round_q n 1). split.
  2:{ pose proof (is_int_round n 0 ltac:(lia) ltac:(lia)) as H. rewrite Z.mul_1_r in H. apply H. lia. }
  assert (Hs : take_sign (dec n) = (false, dec n)).
  { destruct (dec n) as [|c s]; [done|]. simpl in *. apply andb_prop in Hd as [Hc _].
    destruct (Ascii.eqb_spec c "-") as [->|]; [done|]. by destruct (Ascii.eqb_spec c "+") as [->|]. }
  unfold parse_f64. rewrite Hs, all_digits_lower by done.
  assert (Hw : forall w, all_digits w = false -> String.eqb (dec n) w = false).
  { intros w Hw. apply String.eqb_neq. intros E. rewrite E in Hd. congruence. }
  rewrite !Hw by done. cbn [orb]. unfold parse_number.
  pose proof (take_digits_app 67 0 0 (dec n) "" n Hp I) as E. rewrite string_app_nil_r in E. rewrite E.
  destruct (dec n) as [|c s]; [done|]. cbn [String.length Nat.add parse_exp].
  unfold decimal. simpl. by rewrite Z.mul_1_r.
Qed.
