(* ===== verification/Cgroup.v ===== *)
(** * Cgroup: paths, kernel files and names of the cgroup hierarchy

    Models the functions of [statix/src/attribution/mod.rs] that read the cgroup
    file system and take identities out of its names: the [/proc] line parser,
    the readers of [memory.current], [cpu.stat] and [memory.stat], the paths they
    are at, and the pod UID and container ID in a directory name.  A path is its
    components, which is how Rust compares paths; reading a file is a parameter,
    the operating system's answer to one [open] and one [read] of at most so many
    bytes.  The theorems: the kernel's formats are read back exactly, and the
    identities are found in every layout Kubernetes uses. *)

From S2P Require Export Text.

#[local] Open Scope string_scope.
#[local] Open Scope Z_scope.

(** ** UTF-8 *)

(** The ranges of the bytes that must follow a lead byte. *)
Definition utf8_lead (c : ascii) : option (list (nat * nat)) :=
  if ascii_between 0 127 c then Some []
  else if ascii_between 194 223 c then Some [(128, 191)]%nat
  else if ascii_between 224 224 c then Some [(160, 191); (128, 191)]%nat
  else if ascii_between 237 237 c then Some [(128, 159); (128, 191)]%nat
  else if ascii_between 225 239 c then Some [(128, 191); (128, 191)]%nat
  else if ascii_between 240 240 c then Some [(144, 191); (128, 191); (128, 191)]%nat
  else if ascii_between 241 243 c then Some [(128, 191); (128, 191); (128, 191)]%nat
  else if ascii_between 244 244 c then Some [(128, 143); (128, 191); (128, 191)]%nat
  else None.

Fixpoint utf8_ok (pending : list (nat * nat)) (s : string) : bool :=
  match s, pending with
  | EmptyString, [] => true
  | EmptyString, _ => false
  | String c s, (lo, hi) :: pending => ascii_between lo hi c && utf8_ok pending s
  | String c s, [] => match utf8_lead c with Some p => utf8_ok p s | None => false end
  end.

Definition from_utf8 (s : string) : option string := if utf8_ok [] s then Some s else None.

(** ** Paths *)

Record path : Type := Path { absolute : bool; comps : list string }.

#[export] Instance path_eq_dec : EqDecision path.
Proof. solve_decision. Defined.

Fixpoint split_slash (cur s : string) : list string :=
  match s with
  | EmptyString => [cur]
  | String c s => if Ascii.eqb c "/" then cur :: split_slash "" s else split_slash (cur +:+ String c "") s
  end.

(** Empty and [.] components do not count. *)
Definition parse_path (s : string) : path :=
  Path (starts_with "/" s)
       (filter (fun c => c <> "" /\ c <> ".") (split_slash "" s)).

Definition path_join (p q : path) : path :=
  if absolute q then q else Path (absolute p) (comps p ++ comps q).

(** [strip_prefix(Path::new("/"))]. *)
Definition strip_root (p : path) : option path :=
  if absolute p then Some (Path false (comps p)) else None.

Definition file_name (p : path) : option string :=
  match last (comps p) with Some c => if String.eqb c ".." then None else Some c | None => None end.

Definition parent (p : path) : option path :=
  match comps p with [] => None | _ => Some (Path (absolute p) (take (length (comps p) - 1) (comps p))) end.

Definition precompute (file : string) (cgroup_root rel_path : path) : path :=
  let rel := default rel_path (strip_root rel_path) in
  path_join (path_join cgroup_root rel) (Path false [file]).

Definition precompute_cpu_stat : path -> path -> path := precompute "cpu.stat".
Definition precompute_memory_current : path -> path -> path := precompute "memory.current".
Definition precompute_memory_stat : path -> path -> path := precompute "memory.stat".

(** ** Errors *)

Inductive AttributionError : Type :=
| OpenFile (p : path)
| EmptyCgroupFile (p : path)
| InvalidCgroupUtf8 (p : path)
| NoCgroupPath (p : path)
| EmptyMemoryCurrent (p : path)
| InvalidMemoryUtf8 (p : path)
| ParseMemoryBytes (p : path) (value : string)
| EmptyCpuStat (p : path)
| InvalidCpuUtf8 (p : path)
| ParseCpuUsage (p : path) (value : string)
| NoCpuUsageField (p : path).

(** ** Reading *)

Inductive read_answer : Type :=
| CannotOpen
| CannotRead
| GotBytes (s : string).

(** What the operating system answers to opening a file and reading it once
    into a buffer of the given size. *)
Class KernelFiles : Type := read_once : path -> nat -> read_answer.

Definition parse_cgroup_v2_path_line (line : string) : option string :=
  let line := trim line in
  if String.eqb line "" then None
  else
    let fallback :=
      let path := rsplit_next ":" line in
      if starts_with "/" path then Some path else None in
    match split_once "::" line with
    | Some (_, path) => if starts_with "/" path then Some path else fallback
    | None => fallback
    end.

Section Readers.
Context {K : KernelFiles}.

Definition cgroup_path_from_pid (pid : Z) : res AttributionError path :=
  let cgroup_file := Path true ["proc"; dec pid; "cgroup"] in
  match read_once cgroup_file 1024 with
  | CannotOpen | CannotRead => Err (OpenFile cgroup_file)
  | GotBytes EmptyString => Err (EmptyCgroupFile cgroup_file)
  | GotBytes buf =>
      match from_utf8 buf with
      | None => Err (InvalidCgroupUtf8 cgroup_file)
      | Some contents =>
          match head (omap parse_cgroup_v2_path_line (str_lines contents)) with
          | Some path => Ok (parse_path path)
          | None => Err (NoCgroupPath cgroup_file)
          end
      end
  end.

Definition read_memory_current_at (p : path) : res AttributionError Z :=
  match read_once p 32 with
  | CannotOpen | CannotRead => Err (OpenFile p)
  | GotBytes EmptyString => Err (EmptyMemoryCurrent p)
  | GotBytes buf =>
      match from_utf8 buf with
      | None => Err (InvalidMemoryUtf8 p)
      | Some s =>
          let raw_str := trim s in
          match parse_uint 64 raw_str with
          | Some v => Ok v
          | None => Err (ParseMemoryBytes p raw_str)
          end
      end
  end.

Definition read_cpu_usage_usec_at (p : path) : res AttributionError Z :=
  match read_once p 256 with
  | CannotOpen | CannotRead => Err (OpenFile p)
  | GotBytes EmptyString => Err (EmptyCpuStat p)
  | GotBytes buf =>
      match from_utf8 buf with
      | None => Err (InvalidCpuUtf8 p)
      | Some contents =>
          match head (str_lines contents) with
          | None => Err (NoCpuUsageField p)
          | Some first_line =>
              match strip_prefix "usage_usec " first_line with
              | None => Err (NoCpuUsageField p)
              | Some v =>
                  let value := trim v in
                  match parse_uint 64 value with
                  | Some u => Ok u
                  | None => Err (ParseCpuUsage p value)
                  end
              end
          end
      end
  end.

Definition read_inactive_file_at (p : path) : option Z :=
  match read_once p 4096 with
  | CannotOpen | CannotRead => None
  | GotBytes buf =>
      contents ← from_utf8 buf;
      v ← head (omap (strip_prefix "inactive_file ") (str_lines contents));
      parse_uint 64 (trim v)
  end.

End Readers.

(** ** Names *)

(** The text after the last occurrence of [p]. *)
Fixpoint after_last (p s : string) : option string :=
  match s with
  | EmptyString => strip_prefix p s
  | String _ s' => match after_last p s' with Some r => Some r | None => strip_prefix p s end
  end.

Fixpoint take_string (n : nat) (s : string) : string :=
  match n, s with
  | S n, String c s => String c (take_string n s)
  | _, _ => ""
  end.

(** [part.get(start..start + n)] of the text from [start] on.  A range that
    would split a character holds a byte that is not ASCII; its only use tests
    for hexadecimal digits. *)
Definition get_prefix (n : nat) (s : string) : option string :=
  let t := take_string n s in if (String.length t =? n)%nat then Some t else None.

Definition uuid_byte (i : nat) (c : ascii) : bool :=
  if ((i =? 8) || (i =? 13) || (i =? 18) || (i =? 23))%nat then Ascii.eqb c "_" || Ascii.eqb c "-"
  else is_ascii_hexdigit c.

Fixpoint all_bytes (f : nat -> ascii -> bool) (i : nat) (s : string) : bool :=
  match s with EmptyString => true | String c s => f i c && all_bytes f (S i) s end.

Definition is_uuid (s : string) : bool := (String.length s =? 36)%nat && all_bytes uuid_byte 0 s.

Fixpoint replace_char (a b : ascii) (s : string) : string :=
  match s with EmptyString => "" | String c s => String (if Ascii.eqb c a then b else c) (replace_char a b s) end.

Definition pod_uid_of_component (part : string) : option string :=
  if String.eqb part ".." then None   (* not a [Component::Normal] *)
  else
    part ← from_utf8 part;
    rest ← after_last "pod" part;
    uid ← get_prefix 36 rest;
    if is_uuid uid then Some (replace_char "_" "-" uid) else None.

Definition pod_uid_from_path (p : path) : option string := head (omap pod_uid_of_component (comps p)).

Definition container_id_from_dir_name (name : string) : option string :=
  let name := default name (strip_suffix ".scope" name) in
  let id := rsplit_next "-" name in
  if (String.length id =? 64)%nat && all_bytes (fun _ => is_ascii_hexdigit) 0 id then Some id else None.

(** ** Lemmas: UTF-8 and lines *)

#[local] Arguments String.append !_ _ : simpl nomatch.
#[local] Opaque dec.

Lemma utf8_ok_app p a b : utf8_ok p a = true -> utf8_ok p (a +:+ b) = utf8_ok [] b.
Proof.
  revert p. induction a as [|c a IH]; intros p; simpl; [by destruct p|].
  destruct p as [|[lo hi] p].
  - destruct (utf8_lead c); [apply IH|done].
  - intros [-> H]%andb_prop. simpl. by apply IH.
Qed.

Lemma utf8_digits s : all_digits s = true -> utf8_ok [] s = true.
Proof.
  induction s as [|c s IH]; [done|]. simpl. intros [Hc Hs]%andb_prop.
  unfold utf8_lead. replace (ascii_between 0 127 c) with true; [by apply IH|].
  unfold is_digit, ascii_between in *. apply andb_prop in Hc as [H1 H2].
  apply Nat.leb_le in H2. symmetry. apply andb_true_intro. split; apply Nat.leb_le; lia.
Qed.

Fixpoint no_char (x : ascii) (s : string) : bool :=
  match s with EmptyString => true | String c s => negb (Ascii.eqb c x) && no_char x s end.

Lemma no_char_app x s t : no_char x (s +:+ t) = no_char x s && no_char x t.
Proof. induction s as [|c s IH]; [done|]. simpl. by rewrite IH, andb_assoc. Qed.

Lemma no_char_digits x s : is_digit x = false -> all_digits s = true -> no_char x s = true.
Proof.
  intros Hx. induction s as [|c s IH]; [done|]. simpl. intros [Hc Hs]%andb_prop. rewrite IH by done.
  destruct (Ascii.eqb_spec c x) as [->|]; [congruence|done].
Qed.

Lemma lines_acc_line cur l rest :
  no_char newline l = true ->
  lines_acc cur (l +:+ String newline rest) = strip_cr (cur +:+ l) :: str_lines rest.
Proof.
  revert cur. induction l as [|c l IH]; intros cur; simpl.
  - intros _. change (Ascii.eqb newline newline) with true. by rewrite string_app_nil_r.
  - intros [Hc Hl]%andb_prop. apply negb_true_iff in Hc. rewrite Hc, IH by done.
    by rewrite <- string_app_assoc.
Qed.

Lemma str_lines_line l rest :
  no_char newline l = true -> str_lines (l +:+ String newline rest) = strip_cr l :: str_lines rest.
Proof. apply (lines_acc_line ""). Qed.

Lemma strip_cr_word l c : last_char l = Some c -> is_alnum c = true -> strip_cr l = l.
Proof.
  intros Hl Hc. unfold strip_cr. destruct (strip_suffix _ l) as [r|] eqn:E; [|done].
  apply strip_suffix_Some in E. rewrite E, last_char_app in Hl by done. simpl in Hl. inv Hl.
Qed.

Lemma dec_ends n : 0 <= n < 10 ^ 20 ->
  exists c1 s c2, dec n = String c1 s /\ is_digit c1 = true /\ last_char (dec n) = Some c2 /\ is_digit c2 = true.
Proof.
  intros Hn. pose proof (dec_digits n Hn) as Hd. destruct (dec n) as [|c1 s] eqn:E; [by destruct (dec_nonempty n)|].
  destruct (last_char (String c1 s)) as [c2|] eqn:El.
  - exists c1, s, c2. split; [done|]. split; [by apply andb_prop in Hd as [? _]|]. split; [done|].
    by apply (all_digits_last (String c1 s)).
  - exfalso. clear -El. revert c1 El. induction s as [|c s IH]; intros c1; [done|]. apply IH.
Qed.

Lemma trim_dec n : 0 <= n < 10 ^ 20 -> trim (dec n) = dec n.
Proof.
  intros Hn. destruct (dec_ends n Hn) as (c1 & s & c2 & E & H1 & H2 & H3).
  eapply trim_word; [exact E|by apply digit_alnum|exact H2|by apply digit_alnum].
Qed.

Lemma trim_line s c1 s' c2 :
  s = String c1 s' -> is_alnum c1 = true -> last_char s = Some c2 -> is_alnum c2 = true ->
  trim (s +:+ String newline "") = s.
Proof.
  intros Hs H1 Hl H2. pose proof (trim_word s c1 s' c2 Hs H1 Hl H2) as Ht.
  set (t := s +:+ String newline ""). unfold trim, trim_start in *.
  assert (Hstart : forall u, strip_any strip_prefix (s +:+ u) = None).
  { intros u. apply strip_any_none. eapply Forall_impl; [apply whitespace_word_free|]. intros w Hw.
    destruct (strip_prefix w _) as [r|] eqn:E; [|done]. exfalso. apply strip_prefix_Some in E.
    destruct w as [|c w]; [done|]. rewrite Hs in E. simpl in E. injection E as <- _.
    cbn [word_free] in Hw. rewrite H1 in Hw. done. }
  rewrite (trim_with_none strip_prefix _ t) by apply Hstart.
  rewrite (trim_with_none strip_prefix _ s) in Ht
    by (specialize (Hstart ""); by rewrite string_app_nil_r in Hstart).
  unfold trim_end in *. assert (Hlen : String.length t = S (String.length s)).
  { unfold t. rewrite string_length_app. simpl. lia. }
  rewrite Hlen. cbn [trim_with].
  assert (E : strip_any strip_suffix t = Some s).
  { unfold strip_any, whitespace. cbn [fmap list_fmap app foldr].
    destruct (strip_suffix (utf8 [9%nat]) t) as [r|] eqn:E9.
    - exfalso. apply strip_suffix_Some in E9. apply (f_equal last_char) in E9. unfold t in E9.
      rewrite !last_char_app in E9 by done. done.
    - change (utf8 [10%nat]) with (String newline ""). unfold t. by rewrite strip_suffix_app. }
  rewrite E. done.
Qed.

(** ** Lemmas: names *)

Lemma after_last_none p0 p s :
  no_char p0 s = true -> after_last (String p0 p) s = None.
Proof.
  induction s as [|c s IH]; [done|]. cbn [no_char after_last strip_prefix]. intros [Hc Hs]%andb_prop.
  rewrite IH by done. apply negb_true_iff in Hc. rewrite Ascii.eqb_sym in Hc. by rewrite Hc.
Qed.

(** The text after a "pod" that no later "p" follows. *)
Lemma after_last_pod pre t : no_char "p" t = true -> after_last "pod" (pre +:+ ("pod" +:+ t)) = Some t.
Proof.
  intros Ht. induction pre as [|c pre IH].
  - change ("" +:+ ("pod" +:+ t)) with (String "p" (String "o" (String "d" t))). cbn [after_last].
    rewrite (after_last_none "p" "od" t Ht).
    by destruct t.
  - change (String c pre +:+ ("pod" +:+ t)) with (String c (pre +:+ ("pod" +:+ t))). cbn [after_last]. by rewrite IH.
Qed.

Lemma get_prefix_app n s t : String.length s = n -> get_prefix n (s +:+ t) = Some s.
Proof.
  intros <-. unfold get_prefix. assert (E : take_string (String.length s) (s +:+ t) = s).
  { induction s as [|c s IH]; [by destruct t|]. simpl. by rewrite IH. }
  rewrite E. by rewrite Nat.eqb_refl.
Qed.

Lemma all_bytes_no_char f i s x :
  (forall j c, f j c = true -> c <> x) -> all_bytes f i s = true -> no_char x s = true.
Proof.
  intros Hf. revert i. induction s as [|c s IH]; intros i; [done|]. simpl. intros [Hc Hs]%andb_prop.
  rewrite (IH _ Hs). destruct (Ascii.eqb_spec c x) as [->|]; [by destruct (Hf _ _ Hc)|done].
Qed.

Lemma existsb_no_char x s : no_char x s = true -> existsb (Ascii.eqb x) (String.list_ascii_of_string s) = false.
Proof.
  induction s as [|c s IH]; [done|]. simpl. intros [Hc Hs]%andb_prop. rewrite IH by done.
  rewrite Ascii.eqb_sym. apply negb_true_iff in Hc. by rewrite Hc.
Qed.

Lemma rsplit_next_none c s : no_char c s = true -> rsplit_next c s = s.
Proof.
  destruct s as [|d s]; [done|]. simpl. intros [Hc Hs]%andb_prop. apply negb_true_iff in Hc.
  rewrite Ascii.eqb_sym in Hc. by rewrite Hc, existsb_no_char.
Qed.

Lemma rsplit_next_app c pre s : no_char c s = true -> rsplit_next c (pre +:+ String c s) = s.
Proof.
  intros Hs. induction pre as [|d pre IH]; simpl.
  - rewrite Ascii.eqb_refl. by apply rsplit_next_none.
  - rewrite IH. destruct (Ascii.eqb c d); [done|].
    assert (E : existsb (Ascii.eqb c) (String.list_ascii_of_string (pre +:+ String c s)) = true).
    { clear. induction pre as [|e pre IH]; simpl; [by rewrite Ascii.eqb_refl|]. by rewrite IH, orb_true_r. }
    by rewrite E.
Qed.

(** ** Properties *)

(** The lines of [memory.stat] before the field. *)
Definition text_of (lines : list string) : string :=
  foldr (fun l acc => l +:+ String newline acc) "" lines.

Definition plain_line (l : string) : Prop :=
  no_char newline l = true /\ no_char carriage_return l = true.

Lemma strip_cr_plain l : no_char carriage_return l = true -> strip_cr l = l.
Proof.
  intros Hl. unfold strip_cr. destruct (strip_suffix _ l) as [r|] eqn:E; [|done]. exfalso.
  apply strip_suffix_Some in E. rewrite E, no_char_app in Hl. apply andb_prop in Hl as [_ Hl]. done.
Qed.

Lemma omap_field_lines field lines l rest :
  Forall (fun x => plain_line x /\ strip_prefix field x = None) lines -> plain_line l ->
  head (omap (strip_prefix field) (str_lines (text_of lines +:+ (l +:+ String newline rest))))
  = match strip_prefix field l with
    | Some v => Some v
    | None => head (omap (strip_prefix field) (str_lines rest))
    end.
Proof.
  intros Hls [Hn Hc]. induction Hls as [|x lines [[Hxn Hxc] Hx] _ IH].
  - simpl. rewrite str_lines_line, strip_cr_plain by done. simpl. by destruct (strip_prefix field l).
  - cbn [text_of foldr]. fold (text_of lines). rewrite <- string_app_assoc.
    change (String newline (text_of lines) +:+ (l +:+ String newline rest))
      with (String newline (text_of lines +:+ (l +:+ String newline rest))).
    rewrite str_lines_line, strip_cr_plain by done. simpl. by rewrite Hx.
Qed.

Section Kernel.
Context {K : KernelFiles}.

(** C28: what the kernel prints is what the agent reads.  For every 64-bit value:
    [memory.current] holding the number and a newline, [cpu.stat] with the number
    in its first line, and [memory.stat] with the number in its first
    [inactive_file] line all read back as that number, whatever follows. *)
Theorem kernel_formats_are_read p n lines rest :
  0 <= n < 2 ^ 64 -> utf8_ok [] rest = true ->
  Forall (fun x => plain_line x /\ strip_prefix "inactive_file " x = None) lines ->
  utf8_ok [] (text_of lines) = true ->
  (read_once p 32 = GotBytes (dec n +:+ String newline "") -> read_memory_current_at p = Ok n)
  /\ (read_once p 256 = GotBytes ("usage_usec " +:+ (dec n +:+ String newline rest)) ->
      read_cpu_usage_usec_at p = Ok n)
  /\ (read_once p 4096 = GotBytes (text_of lines +:+ (("inactive_file " +:+ dec n) +:+ String newline rest)) ->
      read_inactive_file_at p = Some n).
Proof.
  intros Hn Hrest Hlines Hutf. assert (Hn' : 0 <= n < 10 ^ 20) by lia.
  destruct (dec_ends n Hn') as (c1 & s & c2 & E & H1 & H2 & H3).
  pose proof (dec_digits n Hn') as Hd. pose proof (utf8_digits _ Hd) as Hu.
  assert (Hp : parse_uint 64 (dec n) = Some n).
  { unfold parse_uint. pose proof (parse_digits_dec 64 n ltac:(lia) Hn' ltac:(lia)) as H.
    rewrite E in *. destruct (Ascii.eqb_spec c1 "+") as [->|]; [done|exact H]. }
  assert (Hline : forall f, no_char newline f = true -> no_char carriage_return f = true -> plain_line (f +:+ dec n)).
  { intros f Hf1 Hf2. split; rewrite no_char_app, ?Hf1, ?Hf2; by apply no_char_digits. }
  split_and!; intros Hr.
  - unfold read_memory_current_at. rewrite Hr.
    assert (Hb : from_utf8 (dec n +:+ String newline "") = Some (dec n +:+ String newline "")).
    { unfold from_utf8. by rewrite utf8_ok_app. }
    rewrite Hb, (trim_line (dec n) c1 s c2) by (done || by apply digit_alnum). rewrite Hp.
    destruct (dec n +:+ _) eqn:Ee; [|done]. rewrite E in Ee. done.
  - unfold read_cpu_usage_usec_at. rewrite Hr.
    assert (Hb : from_utf8 ("usage_usec " +:+ (dec n +:+ String newline rest))
                 = Some ("usage_usec " +:+ (dec n +:+ String newline rest))).
    { unfold from_utf8. rewrite (utf8_ok_app [] "usage_usec "), (utf8_ok_app [] (dec n)) by done.
      simpl. by rewrite Hrest. }
    rewrite Hb, string_app_assoc. destruct (Hline "usage_usec ") as [Hl1 Hl2]; [done..|].
    rewrite str_lines_line, strip_cr_plain by done. cbn [head].
    rewrite strip_prefix_app, (trim_dec n Hn'), Hp. done.
  - unfold read_inactive_file_at. rewrite Hr. destruct (Hline "inactive_file ") as [Hl1 Hl2]; [done..|].
    assert (Hb : from_utf8 (text_of lines +:+ (("inactive_file " +:+ dec n) +:+ String newline rest))
                 = Some (text_of lines +:+ (("inactive_file " +:+ dec n) +:+ String newline rest))).
    { unfold from_utf8. rewrite utf8_ok_app by done. rewrite <- string_app_assoc.
      rewrite (utf8_ok_app [] "inactive_file "), (utf8_ok_app [] (dec n)) by done. simpl. by rewrite Hrest. }
    rewrite Hb. cbn [mbind option_bind]. rewrite omap_field_lines by done.
    rewrite strip_prefix_app. cbn [mbind option_bind]. by rewrite (trim_dec n Hn').
Qed.

End Kernel.


Lemma string_app_suffix (a b c d : string) :
  a +:+ b = c +:+ d -> (String.length d <= String.length b)%nat -> exists e, b = e +:+ d.
Proof.
  revert c. induction a as [|x a IH]; intros c E Hl; [by exists c|]. destruct c as [|y c].
  - apply (f_equal String.length) in E. simpl in E. rewrite string_length_app in E. lia.
  - simpl in E. injection E as _ E. by apply (IH c).
Qed.

Lemma hex_id_no_char x id :
  is_ascii_hexdigit x = false -> all_bytes (fun _ => is_ascii_hexdigit) 0 id = true -> no_char x id = true.
Proof. intros Hx. apply all_bytes_no_char. intros _ c Hc ->. congruence. Qed.

Lemma strip_scope_id pre id :
  String.length id = 64%nat -> all_bytes (fun _ => is_ascii_hexdigit) 0 id = true ->
  strip_suffix ".scope" (pre +:+ id) = None.
Proof.
  intros Hl Hh. destruct (strip_suffix ".scope" (pre +:+ id)) as [r|] eqn:E; [|done]. exfalso.
  apply strip_suffix_Some, string_app_suffix in E as [e ->]; [|rewrite Hl; simpl; lia].
  pose proof (hex_id_no_char "." _ eq_refl Hh) as H. rewrite no_char_app in H.
  apply andb_prop in H as [_ H]. done.
Qed.

Lemma uuid_no_p uid suffix : is_uuid uid = true -> suffix ∈ [""; ".slice"] -> no_char "p" (uid +:+ suffix) = true.
Proof.
  intros [_ Hb]%andb_prop Hs. rewrite no_char_app. apply andb_true_intro. split.
  - eapply all_bytes_no_char; [|exact Hb]. intros j c Hc ->. unfold uuid_byte in Hc. by destruct (_ || _).
  - apply list_elem_of_In in Hs as [<-|[<-|[]]]; done.
Qed.

(** The pod's UID in a path whose earlier components name none. *)
Lemma pod_uid_found before pre uid suffix after :
  is_uuid uid = true -> suffix ∈ [""; ".slice"] -> omap pod_uid_of_component before = [] ->
  utf8_ok [] (pre +:+ ("pod" +:+ (uid +:+ suffix))) = true ->
  pod_uid_from_path (Path true (before ++ (pre +:+ ("pod" +:+ (uid +:+ suffix))) :: after))
    = Some (replace_char "_" "-" uid).
Proof.
  intros Hu Hs Hb Hc. pose proof (uuid_no_p uid suffix Hu Hs) as Hp.
  assert (Hlen : String.length uid = 36%nat) by (apply andb_prop in Hu as [Hu _]; by apply Nat.eqb_eq).
  unfold pod_uid_from_path. cbn [comps]. rewrite omap_app, Hb. cbn [app omap list_omap].
  set (c := pre +:+ _) in *.
  assert (E : pod_uid_of_component c = Some (replace_char "_" "-" uid)); [|by rewrite E].
  unfold pod_uid_of_component, from_utf8. rewrite Hc. unfold c.
  destruct (String.eqb_spec (pre +:+ ("pod" +:+ (uid +:+ suffix))) "..") as [Ec|_].
  - apply (f_equal (after_last "pod")) in Ec. by rewrite after_last_pod in Ec.
  - cbn [mbind option_bind]. rewrite after_last_pod by done. cbn [mbind option_bind].
    rewrite get_prefix_app by done. cbn [mbind option_bind]. by rewrite Hu.
Qed.

Definition container_id_ok (id : string) : Prop :=
  String.length id = 64%nat /\ all_bytes (fun _ => is_ascii_hexdigit) 0 id = true.

(** The container ID in a directory name, bare or behind a prefix. *)
Lemma container_id_found id scope :
  container_id_ok id -> scope ∈ [""; ".scope"] ->
  container_id_from_dir_name (id +:+ scope) = Some id
  /\ (forall runtime, container_id_from_dir_name (runtime +:+ String "-" (id +:+ scope)) = Some id).
Proof.
  intros [Hl Hh] Hsc.
  assert (Hid : forall s, rsplit_next "-" s = id ->
    (if (String.length (rsplit_next "-" s) =? 64)%nat
        && all_bytes (fun _ => is_ascii_hexdigit) 0 (rsplit_next "-" s) then Some (rsplit_next "-" s) else None)
    = Some id) by (intros s ->; by rewrite Hl, Hh).
  pose proof (hex_id_no_char "-" id eq_refl Hh) as Hdash. unfold container_id_from_dir_name.
  split; [apply Hid|intros runtime; apply Hid]; apply list_elem_of_In in Hsc as [<-|[<-|[]]].
  - rewrite string_app_nil_r. pose proof (strip_scope_id "" id Hl Hh) as E. simpl in E. rewrite E.
    by apply rsplit_next_none.
  - rewrite strip_suffix_app. by apply rsplit_next_none.
  - rewrite string_app_nil_r. change (String "-" id) with ("-" +:+ id).
    rewrite string_app_assoc, strip_scope_id by done. cbn [default]. rewrite <- string_app_assoc.
    by apply rsplit_next_app.
  - change (String "-" (id +:+ ".scope")) with (String "-" id +:+ ".scope").
    rewrite string_app_assoc, strip_suffix_app. by apply rsplit_next_app.
Qed.

(** C29: identities are found in every layout.  A pod's UID is found in a path
    whose components before the pod's name none, whether it is written with
    dashes (cgroupfs) or underscores (systemd), with or without a [.slice] after
    it and whatever stands before its "pod"; a 64-digit container ID is found in a
    directory name bare or behind any runtime's prefix, with or without
    [.scope]. *)
Theorem identities_are_found before pre uid suffix after id runtime scope :
  is_uuid uid = true -> suffix ∈ [""; ".slice"] ->
  omap pod_uid_of_component before = [] ->
  utf8_ok [] (pre +:+ ("pod" +:+ (uid +:+ suffix))) = true ->
  container_id_ok id -> scope ∈ [""; ".scope"] ->
  pod_uid_from_path (Path true (before ++ (pre +:+ ("pod" +:+ (uid +:+ suffix))) :: after))
    = Some (replace_char "_" "-" uid)
  /\ container_id_from_dir_name (id +:+ scope) = Some id
  /\ container_id_from_dir_name (runtime +:+ String "-" (id +:+ scope)) = Some id.
Proof.
  intros Hu Hs Hb Hc Hid Hsc. destruct (container_id_found id scope Hid Hsc) as [H1 H2].
  split; [by apply pod_uid_found|done].
Qed.

(** ** Witnesses *)

Definition sample_files (content : string) : KernelFiles :=
  fun _ n => GotBytes (take_string n content).

Lemma kernel_formats_are_read_witness :
  read_memory_current_at (K := sample_files (dec 4096 +:+ String newline "")) (Path true ["m"]) = Ok 4096.
Proof.
  apply (proj1 (kernel_formats_are_read (K := sample_files (dec 4096 +:+ String newline ""))
           (Path true ["m"]) 4096 [] "" ltac:(lia) eq_refl ltac:(constructor) eq_refl)).
  vm_compute. reflexivity.
Defined.

Definition sample_uid : string := "0f4c1a2b_3c4d_5e6f_7a8b_9c0d1e2f3a4b".
Definition sample_container_id : string :=
  "0123456789abcdef0123456789abcdef0123456789abcdef0123456789abcdef".

Lemma identities_are_found_witness :
  pod_uid_from_path (Path true ["kubepods.slice"; "kubepods-burstable.slice";
    "kubepods-burstable-pod" +:+ (sample_uid +:+ ".slice"); "x"]) = Some "0f4c1a2b-3c4d-5e6f-7a8b-9c0d1e2f3a4b".
Proof.
  refine (proj1 (identities_are_found ["kubepods.slice"; "kubepods-burstable.slice"] "kubepods-burstable-"
    sample_uid ".slice" ["x"] sample_container_id "cri-containerd" ".scope" _ _ _ _ _ _));
    first [by vm_compute|split; by vm_compute|apply list_elem_of_In; simpl; tauto].
Defined.
