(* ===== verification/Quantity.v ===== *)
(** * Quantity: Kubernetes resource quantities

    Models the quantity parsers of [statix/src/attribution/mod.rs] on the
    floating-point arithmetic of [F64]: CPU quantities to millicores and memory
    quantities to bytes.  The theorem: a whole number with any unit is converted
    exactly. *)

From S2P Require Export F64.

#[local] Open Scope string_scope.
#[local] Open Scope Z_scope.

(** [(x.is_finite() && x >= 0.0).then(|| x.round() as u64)]. *)
Definition accept (x : f64) : option Z :=
  if is_finite x && f64_leb (Finite 0 0) x then Some (round_as_u64 x) else None.

Definition cpu_millicores (q : string) : option Z :=
  let q := trim q in
  millicores ← match strip_suffix "m" q with
               | Some m => parse_f64 m
               | None => x ← parse_f64 q; Some (f64_mul x (f64_of_u64 1000))
               end;
  accept millicores.

(** The literals are powers of 1024 and of 1000; all are exact. *)
Definition UNITS : list (string * Z) :=
  [("Ki", 1024); ("Mi", 1024 ^ 2); ("Gi", 1024 ^ 3); ("Ti", 1024 ^ 4); ("Pi", 1024 ^ 5); ("Ei", 1024 ^ 6);
   ("k", 10 ^ 3); ("M", 10 ^ 6); ("G", 10 ^ 9); ("T", 10 ^ 12); ("P", 10 ^ 15); ("E", 10 ^ 18)].

Definition split_unit (q : string) : string * f64 :=
  match head (omap (fun '(suffix, factor) => num ← strip_suffix suffix q; Some (num, f64_of_u64 factor)) UNITS) with
  | Some r => r
  | None => (q, f64_of_u64 1)
  end.

Definition memory_bytes_of (q : string) : option Z :=
  let q := trim q in
  let '(number, factor) := split_unit q in
  x ← parse_f64 number;
  accept (f64_mul x factor).

(** ** Lemmas *)

#[local] Opaque dec f64_of_u64 f64_mul.

(** The conversions the agent applies to whole quantities. *)
Lemma accept_int x n : is_int x n -> 0 <= n < 2 ^ 64 -> accept x = Some n.
Proof.
  intros Hx Hn. unfold accept. rewrite (is_int_finite x n Hx), (is_int_nonneg x n Hx) by lia.
  cbn [andb]. f_equal. apply round_as_u64_int; [done|unfold umax; lia].
Qed.

(** A number with a suffix that ends in a letter is a trimmed word. *)
Lemma trim_dec_suffix n suf c :
  0 <= n < 10 ^ 20 -> last_char suf = Some c -> is_alnum c = true -> trim (dec n +:+ suf) = dec n +:+ suf.
Proof.
  intros Hn Hl Hc. pose proof (dec_digits n Hn) as Hd. pose proof (dec_nonempty n) as Hne.
  destruct (dec n) as [|c1 s]; [done|]. simpl in Hd. apply andb_prop in Hd as [Hd _].
  eapply trim_word; [done|by apply digit_alnum| |exact Hc]. rewrite last_char_app; [done|]. by destruct suf.
Qed.

Lemma last_dec n : 0 <= n < 10 ^ 20 -> exists c, last_char (dec n) = Some c /\ is_digit c = true.
Proof.
  intros Hn. pose proof (dec_digits n Hn) as Hd. pose proof (dec_nonempty n) as Hne.
  destruct (last_char (dec n)) as [c|] eqn:E; [exists c; split; [done|by apply (all_digits_last (dec n))]|].
  exfalso. apply Hne. clear -E. induction (dec n) as [|a s IH]; [done|]. destruct s; [done|]. by apply IH in E.
Qed.

Lemma trim_dec_word n : 0 <= n < 10 ^ 20 -> trim (dec n) = dec n.
Proof.
  intros Hn. destruct (last_dec n Hn) as (c2 & H2 & H3). pose proof (dec_digits n Hn) as Hd.
  destruct (dec n) as [|c1 s] eqn:E; [done|]. simpl in Hd. apply andb_prop in Hd as [Hd _].
  eapply trim_word; [done|by apply digit_alnum|exact H2|by apply digit_alnum].
Qed.

(** A suffix that ends in another character does not match. *)
Lemma strip_suffix_last suf s a b :
  last_char suf = Some a -> last_char s = Some b -> a <> b -> strip_suffix suf s = None.
Proof.
  intros Ha Hb Hab. destruct (strip_suffix suf s) as [r|] eqn:E; [|done]. exfalso.
  apply strip_suffix_Some in E. subst s. rewrite last_char_app in Hb by (by destruct suf). congruence.
Qed.

(** Nor does one that differs within the end of the text. *)
Lemma strip_suffix_two a b suf c d x :
  suf = String c (String d "") -> (a <> c \/ b <> d) ->
  strip_suffix suf (x +:+ String a (String b "")) = None.
Proof.
  intros -> Hne. destruct (strip_suffix _ _) as [r|] eqn:E; [|done]. exfalso.
  apply strip_suffix_Some in E. revert r E. induction x as [|e x IH]; intros r E.
  - destruct r as [|f [|g [|h r]]]; simpl in E; try discriminate. injection E as -> ->. tauto.
  - destruct r as [|f r]; simpl in E.
    + apply (f_equal String.length) in E. simpl in E. rewrite string_length_app in E. simpl in E. lia.
    + injection E as _ E. by apply (IH r).
Qed.

(** Two suffixes that cannot end the same text. *)
Definition clash (a b : string) : bool :=
  match a, b with
  | String x (String y ""), String z (String w "") => negb (Ascii.eqb z x) || negb (Ascii.eqb w y)
  | _, _ => match last_char a, last_char b with Some x, Some y => negb (Ascii.eqb x y) | _, _ => false end
  end.

Lemma clash_strip a b x : clash a b = true -> strip_suffix a (x +:+ b) = None.
Proof.
  intros H.
  assert (Hlast : (match last_char a, last_char b with Some x, Some y => negb (Ascii.eqb x y) | _, _ => false end)
                  = true -> strip_suffix a (x +:+ b) = None).
  { destruct (last_char a) as [c|] eqn:Ea; [|done]. destruct (last_char b) as [d|] eqn:Eb; [|done].
    intros Hcd%negb_true_iff%Ascii.eqb_neq. eapply strip_suffix_last; [exact Ea| |exact Hcd].
    rewrite last_char_app; [done|by destruct b]. }
  destruct a as [|a1 [|a2 [|? ?]]], b as [|b1 [|b2 [|? ?]]]; try by apply Hlast.
  apply (strip_suffix_two b1 b2 _ a1 a2); [done|].
  cbn [clash] in H. apply orb_prop in H as [H|H]; apply negb_true_iff, Ascii.eqb_neq in H; auto.
Qed.

Definition units_ok : bool :=
  forallb (fun '(a, _) => forallb (fun '(b, _) => String.eqb a b || clash a b) UNITS) UNITS.

Lemma units_clash a b c d : (a, c) ∈ UNITS -> (b, d) ∈ UNITS -> a <> b -> clash a b = true.
Proof.
  intros Ha%list_elem_of_In Hb%list_elem_of_In Hne. assert (H : units_ok = true) by reflexivity.
  unfold units_ok in H. rewrite forallb_forall in H. specialize (H _ Ha). cbv beta iota in H.
  rewrite forallb_forall in H. specialize (H _ Hb). cbv beta iota in H.
  apply orb_prop in H as [H|H]; [by apply String.eqb_eq in H|done].
Qed.

Lemma split_unit_suffix n suffix c :
  (suffix, c) ∈ UNITS -> split_unit (dec n +:+ suffix) = (dec n, f64_of_u64 c).
Proof.
  intros Hin. unfold split_unit.
  assert (Hnd : NoDup UNITS.*1) by (apply (bool_decide_unpack _); vm_compute; exact I).
  assert (Hcl : forall a d, (a, d) ∈ UNITS -> a <> suffix -> strip_suffix a (dec n +:+ suffix) = None).
  { intros a d Ha Hne. by eapply clash_strip, units_clash. }
  assert (Hgo : forall l, (suffix, c) ∈ l -> NoDup l.*1 ->
    (forall a d, (a, d) ∈ l -> a <> suffix -> strip_suffix a (dec n +:+ suffix) = None) ->
    head (omap (fun '(a, f) => num ← strip_suffix a (dec n +:+ suffix); Some (num, f64_of_u64 f)) l)
    = Some (dec n, f64_of_u64 c)).
  { intros l. induction l as [|[a d] l IH]; intros Hl Hd Hc; [by apply not_elem_of_nil in Hl|].
    cbn [omap list_omap]. rewrite fmap_cons in Hd. apply NoDup_cons in Hd as [Hna Hd].
    destruct (decide (a = suffix)) as [->|Hne].
    - rewrite strip_suffix_app. apply elem_of_cons in Hl as [[= ->]|Hl]; [done|].
      exfalso. apply Hna. by apply (list_elem_of_fmap_2 fst _ (suffix, c)).
    - rewrite (Hc a d) by (done || by left). cbn [mbind option_bind].
      apply elem_of_cons in Hl as [[= ? ?]|Hl]; [congruence|].
      apply IH; [done..|]. intros; eapply Hc; [by right|done]. }
  by rewrite (Hgo UNITS).
Qed.

Lemma split_unit_none n : 0 <= n < 10 ^ 20 -> split_unit (dec n) = (dec n, f64_of_u64 1).
Proof.
  intros Hn. destruct (last_dec n Hn) as (c & Hl & Hc). unfold split_unit, UNITS. cbn [omap list_omap].
  assert (H : forall suf a, last_char suf = Some a -> is_digit a = false -> strip_suffix suf (dec n) = None).
  { intros suf a Ha Hd. eapply strip_suffix_last; [exact Ha|exact Hl|]. intros ->. congruence. }
  repeat (erewrite H; [|reflexivity|reflexivity]). reflexivity.
Qed.

(** The factors, each of at most 53 significant bits. *)
Lemma unit_factor suffix c :
  (suffix, c) ∈ UNITS ->
  is_int (f64_of_u64 c) c /\ 0 < c /\ exists d, last_char suffix = Some d /\ is_alnum d = true.
Proof.
  revert suffix c. assert (H : Forall (fun '(s, c) => is_int (f64_of_u64 c) c /\ 0 < c
    /\ exists d, last_char s = Some d /\ is_alnum d = true) UNITS).
  { unfold UNITS. repeat (constructor; [split; [vm_compute; reflexivity|split; [vm_compute; reflexivity|]];
      eexists; split; vm_compute; reflexivity|]). constructor. }
  intros suffix c Hin. exact (proj1 (Forall_forall _ _) H _ Hin).
Qed.

(** ** Properties *)

(** C30: whole quantities are converted exactly.  For a number below 2^53 written
    in decimal: with the suffix [m] the CPU quantity is that many millicores and
    without one a thousand times as many; with any memory unit, binary or
    decimal, the quantity is the product with the unit, whenever that product
    fits 64 bits and has at most 53 significant bits. *)
Theorem whole_quantities_are_exact n suffix c k j :
  0 <= n < 2 ^ 53 ->
  cpu_millicores (dec n +:+ "m") = Some n
  /\ memory_bytes_of (dec n) = Some n
  /\ (n * 1000 < 2 ^ 53 -> cpu_millicores (dec n) = Some (n * 1000))
  /\ ((suffix, c) ∈ UNITS -> n * c = k * 2 ^ j -> 0 <= k < 2 ^ 53 -> 0 <= j -> n * c < 2 ^ 64 ->
      memory_bytes_of (dec n +:+ suffix) = Some (n * c)).
Proof.
  intros Hn. assert (Hn' : 0 <= n < 10 ^ 20) by lia. destruct (parse_f64_dec n Hn) as (x & Hx & Hi).
  split_and!.
  - unfold cpu_millicores. rewrite (trim_dec_suffix n "m" "m") by done.
    rewrite strip_suffix_app. cbn [mbind option_bind]. rewrite Hx. cbn [mbind option_bind].
    apply accept_int; [done|lia].
  - unfold memory_bytes_of. rewrite trim_dec_word, split_unit_none by done. rewrite Hx.
    cbn [mbind option_bind]. apply accept_int; [|lia]. rewrite <- (Z.mul_1_r n).
    apply (f64_mul_int _ _ n 1 n 0); [done|by vm_compute|lia..].
  - intros Hs. unfold cpu_millicores. rewrite trim_dec_word by done.
    destruct (last_dec n Hn') as (b & Hl & Hb).
    rewrite (strip_suffix_last "m" (dec n) "m" b) by (try done; intros <-; done).
    rewrite Hx. cbn [mbind option_bind]. apply accept_int; [|lia].
    apply (f64_mul_int _ _ n 1000 (n * 1000) 0); [done|by vm_compute|lia..].
  - intros Hin E Hk Hj Hb. destruct (unit_factor suffix c Hin) as (Hc & Hc0 & d & Hd1 & Hd2).
    unfold memory_bytes_of.
    rewrite (trim_dec_suffix n suffix d), (split_unit_suffix n suffix c) by done. rewrite Hx. cbn [mbind option_bind].
    apply accept_int; [|nia]. apply (f64_mul_int _ _ n c k j); try done. rewrite <- E.
    apply (Z.lt_trans _ (2 ^ 64)); [done|]. by vm_compute.
Qed.

(** ** Witnesses *)

Lemma whole_quantities_are_exact_witness :
  memory_bytes_of (dec 3 +:+ "Gi") = Some (3 * 1024 ^ 3) /\ cpu_millicores (dec 250 +:+ "m") = Some 250.
Proof.
  split.
  - apply (whole_quantities_are_exact 3 "Gi" (1024 ^ 3) 3 30); try lia.
    unfold UNITS. rewrite !elem_of_cons. tauto.
  - apply (whole_quantities_are_exact 250 "" 0 0 0). lia.
Defined.
