(* ===== verification/Attribution.v ===== *)
(** * Attribution: which workload a cgroup belongs to

    Models the attribution cache of [statix/src/attribution/mod.rs]: the six maps
    behind the lock, every operation on them, the labels taken from a cgroup path,
    what is kept of a pod, the merge of the two, and the Kubernetes watcher as the
    sequence of its events.  The cache is an instance of the interface
    [Attribution] the aggregator uses.  What the Kubernetes API returns and which
    files exist are inputs; the iteration order of a hash map is left to the
    [map_to_list] of [gmap], and no theorem depends on it.  The theorems: the maps
    stay consistent, a merge labels every tracked cgroup exactly as its path and
    the known pods say, and eviction removes exactly the cgroups that are gone. *)

From S2P Require Export Cgroup Quantity Aggregator.

#[local] Open Scope string_scope.
#[local] Open Scope Z_scope.

(** ** Pods *)

Record PodInfo : Type := {
  pi_namespace : string;
  pi_name : string;
  pi_containers : gmap string string;
  pi_resources : gmap string Resources
}.

(** What the agent reads of a pod as the Kubernetes API returns it. *)
Record ResourceRequirements : Type := {
  rr_requests : option (gmap string string);
  rr_limits : option (gmap string string)
}.
Record ContainerStatus : Type := { cs_name : string; cs_container_id : option string }.
Record Container : Type := { c_name : string; c_resources : option ResourceRequirements }.
Record PodStatus : Type := {
  container_statuses : option (list ContainerStatus);
  init_container_statuses : option (list ContainerStatus);
  ephemeral_container_statuses : option (list ContainerStatus)
}.
Record PodSpec : Type := { containers : list Container; init_containers : option (list Container) }.
Record Pod : Type := {
  meta_uid : option string;
  meta_namespace : option string;
  meta_name : option string;
  pod_status : option PodStatus;
  pod_spec : option PodSpec
}.

Definition quantity (map : option (gmap string string)) (key : string) : option string :=
  m ← map; m !! key.

Definition resources_from (spec : option ResourceRequirements) : Resources :=
  match spec with
  | None => default_resources
  | Some r =>
      {| res_cpu_request_millicores := default 0 (quantity (rr_requests r) "cpu" ≫= cpu_millicores);
         res_memory_request_bytes := default 0 (quantity (rr_requests r) "memory" ≫= memory_bytes_of);
         res_cpu_limit_millicores := default 0 (quantity (rr_limits r) "cpu" ≫= cpu_millicores);
         res_memory_limit_bytes := default 0 (quantity (rr_limits r) "memory" ≫= memory_bytes_of) |}
  end.

(** The identifier after the runtime's scheme. *)
Definition status_id (cs : ContainerStatus) : option string :=
  s ← cs_container_id cs; '(_, id) ← split_once "://" s; Some id.

Definition insert_status (m : gmap string string) (cs : ContainerStatus) : gmap string string :=
  match status_id cs with Some id => <[id := cs_name cs]> m | None => m end.

Definition statuses_of (st : PodStatus) : list ContainerStatus :=
  default [] (container_statuses st) ++ default [] (init_container_statuses st)
  ++ default [] (ephemeral_container_statuses st).

Definition containers_of (sp : PodSpec) : list Container :=
  containers sp ++ default [] (init_containers sp).

Definition pod_info (p : Pod) : PodInfo :=
  {| pi_namespace := default "default" (meta_namespace p); pi_name := default "" (meta_name p);
     pi_containers := match pod_status p with
                      | Some st => foldl insert_status ∅ (statuses_of st)
                      | None => ∅
                      end;
     pi_resources := match pod_spec p with
                     | Some sp => foldl (fun m c => <[c_name c := resources_from (c_resources c)]> m) ∅
                                    (containers_of sp)
                     | None => ∅
                     end |}.

Definition pod_info_from (p : Pod) : option (string * PodInfo) :=
  match meta_uid p with
  | None | Some EmptyString => None
  | Some uid => Some (uid, pod_info p)
  end.

Definition container_name_in_pod (dir_name : string) (pod : PodInfo) : option string :=
  if starts_with "crio-conmon-" dir_name then None
  else id ← container_id_from_dir_name dir_name; pi_containers pod !! id.

(** ** Labels of a path *)

(** [file_name().and_then(to_str)]. *)
Definition dir_name (p : path) : option string := name ← file_name p; from_utf8 name.

Definition labels_from_cgroup_path (p : option path) : WorkloadLabels :=
  match p with
  | None => DEFAULT_LABELS
  | Some p =>
      {| lb_namespace := None; lb_pod := None;
         lb_container := take_string 12 <$> (dir_name p ≫= container_id_from_dir_name);
         lb_pod_uid := pod_uid_from_path p; lb_k8s_resolved := false; lb_resources := default_resources |}
  end.

(** ** The cache *)

Record CacheState : Type := {
  cgroup_paths : gmap Z path;
  memory_current_paths : gmap Z path;
  memory_stat_paths : gmap Z path;
  cpu_stat_paths : gmap Z path;
  cgroup_labels : gmap Z WorkloadLabels;
  pod_by_uid : gmap string PodInfo
}.

Record AttributionCache : Type := { cgroup_root : path; cache_state : CacheState }.

Definition cgroup_v2_mount (setting : option string) : path :=
  match setting with Some s => parse_path s | None => Path true ["sys"; "fs"; "cgroup"] end.

Definition new_cache (setting : option string) : AttributionCache :=
  {| cgroup_root := cgroup_v2_mount setting;
     cache_state := {| cgroup_paths := ∅; memory_current_paths := ∅; memory_stat_paths := ∅;
                       cpu_stat_paths := ∅; cgroup_labels := ∅; pod_by_uid := ∅ |} |}.

Definition on_state (f : CacheState -> CacheState) (c : AttributionCache) : AttributionCache :=
  {| cgroup_root := cgroup_root c; cache_state := f (cache_state c) |}.

(** The four maps of a cgroup's paths. *)
Definition insert_paths (root : path) (id : Z) (rel_path : path) (s : CacheState) : CacheState :=
  {| cgroup_paths := <[id := rel_path]> (cgroup_paths s);
     memory_current_paths := <[id := precompute_memory_current root rel_path]> (memory_current_paths s);
     memory_stat_paths := <[id := precompute_memory_stat root rel_path]> (memory_stat_paths s);
     cpu_stat_paths := <[id := precompute_cpu_stat root rel_path]> (cpu_stat_paths s);
     cgroup_labels := cgroup_labels s; pod_by_uid := pod_by_uid s |}.

Definition insert_label (id : Z) (l : WorkloadLabels) (s : CacheState) : CacheState :=
  {| cgroup_paths := cgroup_paths s; memory_current_paths := memory_current_paths s;
     memory_stat_paths := memory_stat_paths s; cpu_stat_paths := cpu_stat_paths s;
     cgroup_labels := <[id := l]> (cgroup_labels s); pod_by_uid := pod_by_uid s |}.

Definition set_pods (m : gmap string PodInfo) (s : CacheState) : CacheState :=
  {| cgroup_paths := cgroup_paths s; memory_current_paths := memory_current_paths s;
     memory_stat_paths := memory_stat_paths s; cpu_stat_paths := cpu_stat_paths s;
     cgroup_labels := cgroup_labels s; pod_by_uid := m |}.

(** The part of [on_identity_event] under the write lock. *)
Definition identity_write (id : Z) (rel_path : option path) (c : AttributionCache) : AttributionCache :=
  on_state (fun s =>
    if bool_decide (is_Some (cgroup_paths s !! id)) then s
    else
      let s := match rel_path with Some p => insert_paths (cgroup_root c) id p s | None => s end in
      insert_label id (labels_from_cgroup_path (cgroup_paths s !! id)) s) c.

Definition cache_on_identity_event {K : KernelFiles} (e : StatixEvent) (c : AttributionCache) : AttributionCache :=
  if bool_decide (is_Some (cgroup_paths (cache_state c) !! event_cgroup_id e)) then c
  else
    let rel_path := match cgroup_path_from_pid (pid e) with Ok p => Some p | Err _ => None end in
    identity_write (event_cgroup_id e) rel_path c.

(** A sample target: the cgroup and its [memory.current], [cpu.stat] and
    [memory.stat]. *)
Definition sample_targets (c : AttributionCache) : list (Z * path * path * path) :=
  omap (fun '(id, mem_path) =>
          cpu_path ← cpu_stat_paths (cache_state c) !! id;
          stat_path ← memory_stat_paths (cache_state c) !! id;
          Some (id, mem_path, cpu_path, stat_path))
       (map_to_list (memory_current_paths (cache_state c))).

Definition cache_labels_for_cgroup (id : Z) (c : AttributionCache) : WorkloadLabels :=
  default DEFAULT_LABELS (cgroup_labels (cache_state c) !! id).

Definition upsert_pod (uid : string) (info : PodInfo) (c : AttributionCache) : AttributionCache :=
  on_state (fun s => set_pods (<[uid := info]> (pod_by_uid s)) s) c.

Definition remove_pod_by_uid (uid : string) (c : AttributionCache) : AttributionCache :=
  on_state (fun s => set_pods (delete uid (pod_by_uid s)) s) c.

Definition register_cgroup_directory (id : Z) (rel_path : path) (c : AttributionCache) : AttributionCache :=
  on_state (fun s =>
    let s := insert_paths (cgroup_root c) id rel_path s in
    insert_label id (labels_from_cgroup_path (cgroup_paths s !! id)) s) c.

Definition remove_cgroup (s : CacheState) (id : Z) : CacheState :=
  {| cgroup_paths := delete id (cgroup_paths s);
     memory_current_paths := delete id (memory_current_paths s);
     memory_stat_paths := delete id (memory_stat_paths s); cpu_stat_paths := delete id (cpu_stat_paths s);
     cgroup_labels := delete id (cgroup_labels s); pod_by_uid := pod_by_uid s |}.

(** [exists_] answers [Path::exists]. *)
Definition stale_ids (exists_ : path -> bool) (s : CacheState) : list Z :=
  (filter (fun x => exists_ x.2 = false) (map_to_list (memory_current_paths s))).*1.

Definition evict_stale_cgroups (exists_ : path -> bool) (c : AttributionCache) : nat * AttributionCache :=
  let ids := stale_ids exists_ (cache_state c) in
  match ids with
  | [] => (0%nat, c)
  | _ => (length ids, on_state (fun s => foldl remove_cgroup s ids) c)
  end.

(** One directory of the walk at startup: [ino] is [None] when its metadata
    cannot be read; [rel] is its path under the root. *)
Record dir_entry : Type := DirEntry { de_is_dir : bool; de_is_root : bool; de_ino : option Z; de_rel : path }.

Definition discovered (e : dir_entry) : option (Z * path) :=
  if negb (de_is_dir e) then None
  else if de_is_root e then None
  else
    ino ← de_ino e;
    if ino =? 0 then None else Some (ino, Path true (comps (de_rel e))).

Definition bootstrap_existing_cgroups (walk : list dir_entry) (c : AttributionCache) : AttributionCache :=
  foldl (fun c '(id, p) => register_cgroup_directory id p c) c (omap discovered walk).

(** ** Merging pods into the labels *)

(** The labels of one tracked cgroup, and whether its pod is unknown. *)
Definition merged_labels (pods : gmap string PodInfo) (p : path) : WorkloadLabels * bool :=
  let labels := labels_from_cgroup_path (Some p) in
  match lb_pod_uid labels with
  | None => (labels, false)
  | Some uid =>
      match pods !! uid with
      | None => (labels, true)
      | Some pod =>
          let container := name ← dir_name p; container_name_in_pod name pod in
          ({| lb_namespace := Some (pi_namespace pod); lb_pod := Some (pi_name pod);
              lb_container := container; lb_pod_uid := lb_pod_uid labels; lb_k8s_resolved := true;
              lb_resources := default default_resources (name ← container; pi_resources pod !! name) |}, false)
      end
  end.

(** The merge reads a snapshot and writes later; other tasks may run in
    between. *)
Definition merge_snapshot (c : AttributionCache) : list (Z * WorkloadLabels) * Z :=
  let s := cache_state c in
  let rows := (fun '(id, p) => (id, merged_labels (pod_by_uid s) p)) <$> map_to_list (cgroup_paths s) in
  ((fun '(id, (labels, _)) => (id, labels)) <$> rows,
   sumZ (fun '((_, (_, unknown)) : Z * (WorkloadLabels * bool)) => if unknown then 1 else 0) rows).

Definition merge_write (new_labels : list (Z * WorkloadLabels)) (c : AttributionCache) : AttributionCache :=
  on_state (fun s => foldl (fun s x => insert_label x.1 x.2 s) s new_labels) c.

(** The gauge [statix_k8s_unmatched_cgroups] is the first component. *)
Definition merge_cgroup_labels_from_k8s (c : AttributionCache) : Z * AttributionCache :=
  let '(new_labels, unmatched) := merge_snapshot c in (unmatched, merge_write new_labels c).

(** ** The watcher *)

Inductive watch_event : Type :=
| Apply (p : Pod)
| Delete (p : Pod)
| Init
| InitApply (p : Pod)
| InitDone.

Definition on_watch_event (e : watch_event) (c : AttributionCache) : AttributionCache :=
  match e with
  | Apply p =>
      match pod_info_from p with
      | Some (uid, info) => (merge_cgroup_labels_from_k8s (upsert_pod uid info c)).2
      | None => c
      end
  | Delete p => match meta_uid p with Some uid => remove_pod_by_uid uid c | None => c end
  | InitApply p => match pod_info_from p with Some (uid, info) => upsert_pod uid info c | None => c end
  | Init => c
  | InitDone => (merge_cgroup_labels_from_k8s c).2
  end.

(** The list fallback between two streams; [None] when the request failed. *)
Definition refresh_k8s_pods (configured : bool) (listed : option (list Pod)) (c : AttributionCache)
    : AttributionCache :=
  if negb configured then c
  else
    match listed with
    | None => c
    | Some pods =>
        (merge_cgroup_labels_from_k8s
           (foldl (fun c p => match pod_info_from p with
                              | Some (uid, info) => upsert_pod uid info c
                              | None => c
                              end) c pods)).2
    end.

Definition INITIAL_RECONNECT_SECS : Z := 5.
Definition MAX_RECONNECT_BACKOFF : Z := 300.

(** One stream: its events, then the fallback and the next delay. *)
Definition watch_round (events : list watch_event) (configured : bool) (listed : option (list Pod))
    (st : AttributionCache * Z) : AttributionCache * Z :=
  let '(c, backoff) := st in
  let backoff := match events with [] => backoff | _ => INITIAL_RECONNECT_SECS end in
  let c := foldl (fun c e => on_watch_event e c) c events in
  (refresh_k8s_pods configured listed c, Z.min (backoff * 2) MAX_RECONNECT_BACKOFF).

#[export] Instance attribution_cache {K : KernelFiles} : Attribution :=
  {| cache := AttributionCache; on_identity_event := cache_on_identity_event;
     labels_for_cgroup := cache_labels_for_cgroup |}.

(** ** Consistency *)

(** The four path maps describe the same cgroups, each of which has a label. *)
Record cache_inv (c : AttributionCache) : Prop := {
  ci_memory : memory_current_paths (cache_state c)
              = precompute_memory_current (cgroup_root c) <$> cgroup_paths (cache_state c);
  ci_stat : memory_stat_paths (cache_state c)
            = precompute_memory_stat (cgroup_root c) <$> cgroup_paths (cache_state c);
  ci_cpu : cpu_stat_paths (cache_state c)
           = precompute_cpu_stat (cgroup_root c) <$> cgroup_paths (cache_state c);
  ci_labels : forall id, is_Some (cgroup_paths (cache_state c) !! id) ->
              is_Some (cgroup_labels (cache_state c) !! id)
}.

(** Operations that keep the paths and only add labels keep it. *)
Lemma cache_inv_labels c c' :
  cache_inv c -> cgroup_root c' = cgroup_root c ->
  cgroup_paths (cache_state c') = cgroup_paths (cache_state c) ->
  memory_current_paths (cache_state c') = memory_current_paths (cache_state c) ->
  memory_stat_paths (cache_state c') = memory_stat_paths (cache_state c) ->
  cpu_stat_paths (cache_state c') = cpu_stat_paths (cache_state c) ->
  (forall id, is_Some (cgroup_labels (cache_state c) !! id) -> is_Some (cgroup_labels (cache_state c') !! id)) ->
  cache_inv c'.
Proof. intros [H1 H2 H3 H4] R P M S C L. split; rewrite ?P, ?M, ?S, ?C, ?R; auto. Qed.

Lemma is_Some_insert {A} (m : gmap Z A) i x id : is_Some (m !! id) -> is_Some (<[i := x]> m !! id).
Proof. rewrite lookup_insert_is_Some'. auto. Qed.

Lemma register_inv id p c : cache_inv c -> cache_inv (register_cgroup_directory id p c).
Proof.
  intros [H1 H2 H3 H4]. split; cbn; rewrite ?H1, ?H2, ?H3, ?fmap_insert; try done.
  intros i. rewrite !lookup_insert_is_Some'. intros [->|Hi]; [by left|right; auto].
Qed.

Lemma identity_write_inv id p c : cache_inv c -> cache_inv (identity_write id p c).
Proof.
  intros HI. unfold identity_write. destruct HI as [H1 H2 H3 H4]. destruct (decide (is_Some (cgroup_paths (cache_state c) !! id))) as [Hd|Hd].
  - by split; cbn; rewrite bool_decide_eq_true_2.
  - split; cbn; rewrite bool_decide_eq_false_2 by done; destruct p as [p|]; cbn;
      rewrite ?H1, ?H2, ?H3, ?fmap_insert; try done.
    + intros i. rewrite !lookup_insert_is_Some'. intros [->|Hi]; [by left|right; auto].
    + intros i Hi. apply is_Some_insert; auto.
Qed.

Lemma on_identity_event_inv {K : KernelFiles} e c : cache_inv c -> cache_inv (cache_on_identity_event e c).
Proof. intros HI. unfold cache_on_identity_event. case_bool_decide; [done|]. by apply identity_write_inv. Qed.

Lemma pods_inv m c : cache_inv c -> cache_inv (on_state (set_pods m) c).
Proof. intros HI. by apply (cache_inv_labels c). Qed.

Lemma merge_write_fields l s :
  let s' := foldl (fun s x => insert_label x.1 x.2 s) s l in
  cgroup_paths s' = cgroup_paths s /\ memory_current_paths s' = memory_current_paths s
  /\ memory_stat_paths s' = memory_stat_paths s /\ cpu_stat_paths s' = cpu_stat_paths s
  /\ pod_by_uid s' = pod_by_uid s
  /\ (forall id, cgroup_labels s' !! id = match last (filter (fun x => x.1 = id) l) with
                                         | Some x => Some x.2
                                         | None => cgroup_labels s !! id end).
Proof.
  induction l as [|x l IH] using rev_ind; [done|]. cbn zeta in *. rewrite foldl_snoc. cbn.
  destruct IH as (-> & -> & -> & -> & -> & IH). split_and!; try done. intros id.
  rewrite filter_app, filter_cons, filter_nil. destruct (decide (x.1 = id)) as [<-|Hne].
  - by rewrite lookup_insert_eq, last_snoc.
  - by rewrite lookup_insert_ne, app_nil_r.
Qed.

Lemma merge_write_inv l c : cache_inv c -> cache_inv (merge_write l c).
Proof.
  intros HI. destruct (merge_write_fields l (cache_state c)) as (H1 & H2 & H3 & H4 & _ & H6).
  apply (cache_inv_labels c); try done. intros id Hid. cbn. rewrite H6.
  by destruct (last _) as [x|]; [eexists|].
Qed.

Lemma merge_inv c : cache_inv c -> cache_inv (merge_cgroup_labels_from_k8s c).2.
Proof.
  intros HI. unfold merge_cgroup_labels_from_k8s. destruct (merge_snapshot c). by apply merge_write_inv.
Qed.

Lemma remove_cgroups_fields ids s :
  let s' := foldl remove_cgroup s ids in
  pod_by_uid s' = pod_by_uid s
  /\ (forall id, cgroup_paths s' !! id = if bool_decide (id ∈ ids) then None else cgroup_paths s !! id)
  /\ (forall id, memory_current_paths s' !! id = if bool_decide (id ∈ ids) then None else memory_current_paths s !! id)
  /\ (forall id, memory_stat_paths s' !! id = if bool_decide (id ∈ ids) then None else memory_stat_paths s !! id)
  /\ (forall id, cpu_stat_paths s' !! id = if bool_decide (id ∈ ids) then None else cpu_stat_paths s !! id)
  /\ (forall id, cgroup_labels s' !! id = if bool_decide (id ∈ ids) then None else cgroup_labels s !! id).
Proof.
  induction ids as [|x ids IH] using rev_ind; [done|]. cbn zeta in *. rewrite foldl_snoc. cbn.
  destruct IH as (-> & I1 & I2 & I3 & I4 & I5). split; [done|].
  assert (Hgo : forall A (m m' : gmap Z A), (forall id, m' !! id = if bool_decide (id ∈ ids) then None else m !! id) ->
    forall id, delete x m' !! id = if bool_decide (id ∈ (ids ++ [x])%list) then None else m !! id).
  { intros A m m' Hm id. destruct (decide (x = id)) as [<-|Hne].
    - rewrite lookup_delete_eq, bool_decide_eq_true_2; [done|]. apply elem_of_app. right. by apply list_elem_of_singleton.
    - rewrite lookup_delete_ne, Hm by done.
      replace (bool_decide (id ∈ (ids ++ [x])%list)) with (bool_decide (id ∈ ids)); [done|].
      apply bool_decide_ext. rewrite elem_of_app, list_elem_of_singleton. split; [by left|].
      intros [?| ->]; done. }
  split_and!; by apply Hgo.
Qed.

Lemma evict_inv ex c : cache_inv c -> cache_inv (evict_stale_cgroups ex c).2.
Proof.
  intros [H1 H2 H3 H4]. unfold evict_stale_cgroups. destruct (stale_ids ex (cache_state c)) as [|x l] eqn:E; [done|].
  rewrite <- E. clear E. set (ids := stale_ids ex (cache_state c)).
  destruct (remove_cgroups_fields ids (cache_state c)) as (_ & R1 & R2 & R3 & R4 & R5).
  split; cbn; [apply map_eq; intros id; rewrite lookup_fmap, R1, ?R2, ?R3, ?R4, ?H1, ?H2, ?H3, ?lookup_fmap;
                 by case_bool_decide..|].
  intros id. rewrite R1, R5. case_bool_decide; [by intros [? ?]|apply H4].
Qed.

(** ** Merging *)

Lemma last_filter_fmap {A} (f : Z * path -> A) (m : gmap Z path) id :
  last (filter (fun x => x.1 = id) ((fun x => (x.1, f x)) <$> map_to_list m))
  = (fun p => (id, f (id, p))) <$> m !! id.
Proof.
  assert (Hgo : forall l : list (Z * path), NoDup l.*1 ->
    last (filter (fun x => x.1 = id) ((fun x => (x.1, f x)) <$> l))
    = (fun p => (id, f (id, p))) <$> (list_to_map l : gmap Z path) !! id).
  { intros l. induction l as [|[i p] l IH]; intros Hd; [done|].
    rewrite fmap_cons in Hd. apply NoDup_cons in Hd as [Hni Hd]. cbn [fmap list_fmap list_to_map foldr].
    rewrite filter_cons. cbn [fst]. destruct (decide (i = id)) as [->|Hne].
    - cbn [uncurry curry fst snd]. rewrite lookup_insert_eq.
      assert (E : filter (fun x : Z * A => x.1 = id) ((fun x => (x.1, f x)) <$> l) = []).
      { apply filter_none, Forall_forall. intros [j a] (y & [= -> ->] & Hy)%list_elem_of_fmap Ej.
        simpl in Ej. subst. apply Hni, list_elem_of_fmap. by exists y. }
      change (list_fmap _ _ _ l) with ((fun x => (x.1, f x)) <$> l). by rewrite E.
    - cbn [uncurry fst snd]. rewrite lookup_insert_ne by done. by apply IH. }
  rewrite Hgo by apply NoDup_fst_map_to_list. by rewrite list_to_map_to_list.
Qed.

Lemma merge_snapshot_labels c :
  (merge_snapshot c).1
  = (fun x => (x.1, (merged_labels (pod_by_uid (cache_state c)) x.2).1)) <$> map_to_list (cgroup_paths (cache_state c)).
Proof.
  unfold merge_snapshot. cbn [fst]. rewrite <- list_fmap_compose. apply list_fmap_ext.
  intros i [id p] _. simpl. by destruct (merged_labels _ p).
Qed.

Lemma merge_spec c :
  let c' := (merge_cgroup_labels_from_k8s c).2 in
  cgroup_root c' = cgroup_root c /\ cgroup_paths (cache_state c') = cgroup_paths (cache_state c)
  /\ memory_current_paths (cache_state c') = memory_current_paths (cache_state c)
  /\ pod_by_uid (cache_state c') = pod_by_uid (cache_state c)
  /\ forall id, cgroup_labels (cache_state c') !! id
       = match cgroup_paths (cache_state c) !! id with
         | Some p => Some (merged_labels (pod_by_uid (cache_state c)) p).1
         | None => cgroup_labels (cache_state c) !! id
         end.
Proof.
  unfold merge_cgroup_labels_from_k8s. pose proof (merge_snapshot_labels c) as E.
  destruct (merge_snapshot c) as [l u]. cbn [fst snd] in *. subst l.
  destruct (merge_write_fields ((fun x => (x.1, (merged_labels (pod_by_uid (cache_state c)) x.2).1))
    <$> map_to_list (cgroup_paths (cache_state c))) (cache_state c)) as (H1 & H2 & _ & _ & H5 & H6).
  split_and!; try done. intros id. cbn. rewrite H6.
  rewrite (last_filter_fmap (fun x => (merged_labels (pod_by_uid (cache_state c)) x.2).1)).
  by destruct (cgroup_paths (cache_state c) !! id).
Qed.

(** ** What a pod's record says of its containers *)

Lemma statuses_lookup sts m id :
  foldl insert_status m sts !! id
  = match last (filter (fun cs => status_id cs = Some id) sts) with
    | Some cs => Some (cs_name cs)
    | None => m !! id
    end.
Proof.
  induction sts as [|cs sts IH] using rev_ind; [done|].
  rewrite foldl_snoc, filter_app, filter_cons, filter_nil. unfold insert_status at 1.
  destruct (status_id cs) as [i|] eqn:Ei; case_decide as Hd.
  - injection Hd as ->. by rewrite lookup_insert_eq, last_snoc.
  - rewrite lookup_insert_ne by congruence. by rewrite app_nil_r.
  - done.
  - by rewrite app_nil_r.
Qed.

Lemma resources_lookup cs (m : gmap string Resources) name :
  foldl (fun m c => <[c_name c := resources_from (c_resources c)]> m) m cs !! name
  = match last (filter (fun c => c_name c = name) cs) with
    | Some c => Some (resources_from (c_resources c))
    | None => m !! name
    end.
Proof.
  induction cs as [|c cs IH] using rev_ind; [done|].
  rewrite foldl_snoc, filter_app, filter_cons, filter_nil. case_decide as Hd.
  - by rewrite Hd, lookup_insert_eq, last_snoc.
  - by rewrite lookup_insert_ne, app_nil_r.
Qed.

(** ** Runs of the cache *)

(** Everything the agent's tasks do to the cache; a merge is two steps, and the
    labels it writes come from an earlier snapshot. *)
Inductive cache_op : Type :=
| OpIdentity (id : Z) (rel_path : option path)
| OpRegister (id : Z) (rel_path : path)
| OpEvict (exists_ : path -> bool)
| OpUpsert (uid : string) (info : PodInfo)
| OpRemove (uid : string)
| OpMergeWrite (new_labels : list (Z * WorkloadLabels)).

Definition cache_step (c : AttributionCache) (o : cache_op) : AttributionCache :=
  match o with
  | OpIdentity id p => identity_write id p c
  | OpRegister id p => register_cgroup_directory id p c
  | OpEvict ex => (evict_stale_cgroups ex c).2
  | OpUpsert uid info => upsert_pod uid info c
  | OpRemove uid => remove_pod_by_uid uid c
  | OpMergeWrite l => merge_write l c
  end.

Lemma cache_run_inv os c : cache_inv c -> cache_inv (foldl cache_step c os).
Proof.
  revert c. induction os as [|o os IH]; intros c HI; [done|]. apply IH.
  destruct o; cbn [cache_step]; auto using identity_write_inv, register_inv, evict_inv, merge_write_inv;
    by apply (cache_inv_labels c).
Qed.

Lemma new_cache_inv setting : cache_inv (new_cache setting).
Proof. split; cbn; [by rewrite fmap_empty..|]. intros id [? H]. by rewrite lookup_empty in H. Qed.

Lemma sample_targets_spec c :
  cache_inv c ->
  (sample_targets c).*1.*1.*1 ≡ₚ (map_to_list (cgroup_paths (cache_state c))).*1
  /\ forall id mem cpu stat, (id, mem, cpu, stat) ∈ sample_targets c <->
     exists p, cgroup_paths (cache_state c) !! id = Some p
       /\ mem = precompute_memory_current (cgroup_root c) p
       /\ cpu = precompute_cpu_stat (cgroup_root c) p /\ stat = precompute_memory_stat (cgroup_root c) p.
Proof.
  intros [H1 H2 H3 _]. unfold sample_targets. rewrite H1, H2, H3.
  set (m := cgroup_paths (cache_state c)). set (r := cgroup_root c). split.
  - assert (Hgo : forall l : list (Z * path), (forall x, x ∈ l -> m !! x.1 = Some x.2) ->
      (omap (fun '(id, mem_path) =>
          cpu_path ← (precompute_cpu_stat r <$> m) !! id; stat_path ← (precompute_memory_stat r <$> m) !! id;
          Some (id, mem_path, cpu_path, stat_path)) (prod_map id (precompute_memory_current r) <$> l)).*1.*1.*1
      = l.*1).
    { induction l as [|[i p] l IH]; intros Hl; [done|]. cbn [fmap list_fmap omap list_omap prod_map fst snd].
      change (Datatypes.id i) with i. rewrite !lookup_fmap.
      pose proof (Hl (i, p) ltac:(by left)) as E. simpl in E. rewrite E.
      cbn [fmap option_fmap option_map mbind option_bind list_fmap fst]. f_equal.
      apply IH. intros x Hx. apply Hl. by right. }
    rewrite <- (Hgo (map_to_list m)) by (intros [i p]; apply elem_of_map_to_list).
    apply fmap_Permutation, fmap_Permutation, fmap_Permutation.
    by rewrite map_to_list_fmap.
  - intros id mem cpu stat. rewrite list_elem_of_omap. split.
    + intros ([i q] & Hin & E). apply elem_of_map_to_list in Hin. rewrite lookup_fmap in Hin.
      destruct (m !! i) as [p|] eqn:Em; [|done]. simpl in Hin. injection Hin as <-.
      rewrite !lookup_fmap, Em in E. simpl in E. injection E as <- <- <- <-. by exists p.
    + intros (p & Em & -> & -> & ->). exists (id, precompute_memory_current r p). split.
      * apply elem_of_map_to_list. by rewrite lookup_fmap, Em.
      * by rewrite !lookup_fmap, Em.
Qed.

(** ** Eviction *)

Lemma stale_ids_spec ex c id :
  cache_inv c ->
  id ∈ stale_ids ex (cache_state c) <-> exists p, cgroup_paths (cache_state c) !! id = Some p
    /\ ex (precompute_memory_current (cgroup_root c) p) = false.
Proof.
  intros HI. unfold stale_ids. rewrite list_elem_of_fmap, (ci_memory _ HI). split.
  - intros ([i q] & -> & Hin). apply list_elem_of_filter in Hin as [Hex Hin]. simpl in *.
    apply elem_of_map_to_list in Hin. rewrite lookup_fmap in Hin.
    destruct (cgroup_paths (cache_state c) !! i) as [p|] eqn:E; [|done]. injection Hin as <-. by exists p.
  - intros (p & Hp & Hex). exists (id, precompute_memory_current (cgroup_root c) p). split; [done|].
    apply list_elem_of_filter. split; [done|]. apply elem_of_map_to_list. by rewrite lookup_fmap, Hp.
Qed.

Lemma length_stale_ids ex c :
  cache_inv c ->
  length (stale_ids ex (cache_state c))
  = length (filter (fun x => ex (precompute_memory_current (cgroup_root c) x.2) = false)
                   (map_to_list (cgroup_paths (cache_state c)))).
Proof.
  intros HI. unfold stale_ids. rewrite length_fmap, (ci_memory _ HI), map_to_list_fmap.
  induction (map_to_list (cgroup_paths (cache_state c))) as [|[i p] l IH]; [done|].
  cbn [fmap list_fmap]. rewrite !filter_cons. simpl. by case_decide; simpl; rewrite IH.
Qed.

Lemma evict_spec ex c :
  (evict_stale_cgroups ex c).1 = length (stale_ids ex (cache_state c))
  /\ forall id,
     cgroup_paths (cache_state (evict_stale_cgroups ex c).2) !! id
     = (if bool_decide (id ∈ stale_ids ex (cache_state c)) then None else cgroup_paths (cache_state c) !! id)
     /\ cgroup_labels (cache_state (evict_stale_cgroups ex c).2) !! id
     = (if bool_decide (id ∈ stale_ids ex (cache_state c)) then None else cgroup_labels (cache_state c) !! id).
Proof.
  unfold evict_stale_cgroups. destruct (stale_ids ex (cache_state c)) as [|i l] eqn:E; [done|].
  rewrite <- E. split; [done|]. intros id.
  destruct (remove_cgroups_fields (stale_ids ex (cache_state c)) (cache_state c)) as (_ & R1 & _ & _ & _ & R5).
  auto.
Qed.

(** ** Properties *)

(** C27: the cache stays well formed.  Starting empty, after any interleaving of
    identity events, directory registrations, evictions, pod updates and label
    writes (late ones included), the four path maps describe the same cgroups,
    each tracked cgroup has a label, and the sampler is given every tracked
    cgroup exactly once, with the three files of its directory. *)
Theorem cache_stays_consistent setting os :
  let c := foldl cache_step (new_cache setting) os in
  cache_inv c
  /\ NoDup (sample_targets c).*1.*1.*1
  /\ forall id mem cpu stat, (id, mem, cpu, stat) ∈ sample_targets c <->
     exists p, cgroup_paths (cache_state c) !! id = Some p
       /\ mem = precompute_memory_current (cgroup_root c) p
       /\ cpu = precompute_cpu_stat (cgroup_root c) p /\ stat = precompute_memory_stat (cgroup_root c) p.
Proof.
  intros c. assert (HI : cache_inv c) by apply cache_run_inv, new_cache_inv.
  destruct (sample_targets_spec c HI) as [Hp Ht]. split; [done|]. split; [|done].
  rewrite Hp. apply NoDup_fst_map_to_list.
Qed.

(** Eviction removes exactly what is gone.  After it a cgroup is tracked if it
    was and its [memory.current] still exists; a gone cgroup has no label left, a
    live one keeps its own; and the number reported is how many went. *)
Theorem eviction_removes_the_gone ex c :
  cache_inv c ->
  let '(n, c') := evict_stale_cgroups ex c in
  let gone p := ex (precompute_memory_current (cgroup_root c) p) = false in
  cache_inv c'
  /\ n = length (filter (fun x => gone x.2) (map_to_list (cgroup_paths (cache_state c))))
  /\ forall id,
     match cgroup_paths (cache_state c) !! id with
     | Some p =>
         if ex (precompute_memory_current (cgroup_root c) p)
         then cgroup_paths (cache_state c') !! id = Some p
              /\ cache_labels_for_cgroup id c' = cache_labels_for_cgroup id c
         else cgroup_paths (cache_state c') !! id = None
              /\ cache_labels_for_cgroup id c' = DEFAULT_LABELS
     | None => cgroup_paths (cache_state c') !! id = None
               /\ cache_labels_for_cgroup id c' = cache_labels_for_cgroup id c
     end.
Proof.
  intros HI. pose proof (evict_inv ex c HI) as HI'. pose proof (evict_spec ex c) as [Hn Hl].
  rewrite length_stale_ids in Hn by done. destruct (evict_stale_cgroups ex c) as [n c']. cbn [fst snd] in *.
  split; [done|]. split; [exact Hn|]. intros id. destruct (Hl id) as [E1 E2].
  unfold cache_labels_for_cgroup. rewrite E1, E2. pose proof (stale_ids_spec ex c id HI) as Hids.
  case_bool_decide as Hd.
  - destruct (proj1 Hids Hd) as (p & Hp & Hex). by rewrite Hp, Hex.
  - destruct (cgroup_paths (cache_state c) !! id) as [p|]; [|done].
    destruct (ex _) eqn:Hex; [done|]. exfalso. apply Hd, Hids. by exists p.
Qed.

(** The name and the resources a pod gives to the container in a directory: of
    the statuses with its ID the last counts, in the order normal, init,
    ephemeral; of the containers of that name the last. *)
Definition container_in (p : Pod) (dir : string) : option string :=
  if starts_with "crio-conmon-" dir then None
  else
    id ← container_id_from_dir_name dir;
    st ← pod_status p;
    cs ← last (filter (fun cs => status_id cs = Some id) (statuses_of st));
    Some (cs_name cs).

Definition resources_in (p : Pod) (name : string) : Resources :=
  default default_resources
    (sp ← pod_spec p;
     c ← last (filter (fun c => c_name c = name) (containers_of sp));
     Some (resources_from (c_resources c))).

Lemma container_in_spec p dir : container_name_in_pod dir (pod_info p) = container_in p dir.
Proof.
  unfold container_name_in_pod, container_in. destruct (starts_with _ dir); [done|].
  destruct (container_id_from_dir_name dir) as [i|]; [|done]. cbn [mbind option_bind pod_info pi_containers].
  destruct (pod_status p) as [st|]; [|done]. cbn [mbind option_bind]. rewrite statuses_lookup.
  by destruct (last _).
Qed.

Lemma resources_in_spec p name :
  default default_resources (pi_resources (pod_info p) !! name) = resources_in p name.
Proof.
  unfold resources_in. cbn [pod_info pi_resources]. destruct (pod_spec p) as [sp|]; [|done].
  cbn [mbind option_bind]. rewrite resources_lookup. by destruct (last _).
Qed.

(** C26: a pod update labels the pod's cgroups.  After the watcher applied a pod,
    every tracked cgroup in whose path the pod's UID stands has its namespace and
    name; the container is the one whose ID is in the directory's name, with its
    requests and limits; a sandbox, a container without a status and CRI-O's
    monitor have no container name and are charged nothing.  A tracked cgroup
    outside every pod keeps what its path says. *)
Theorem pod_update_labels_its_cgroups c p uid id path :
  meta_uid p = Some uid -> uid <> "" ->
  cgroup_paths (cache_state c) !! id = Some path ->
  let l := cache_labels_for_cgroup id (on_watch_event (Apply p) c) in
  (pod_uid_from_path path = Some uid ->
     let container := dir ← dir_name path; container_in p dir in
     l = {| lb_namespace := Some (default "default" (meta_namespace p));
            lb_pod := Some (default "" (meta_name p)); lb_container := container;
            lb_pod_uid := Some uid; lb_k8s_resolved := true;
            lb_resources := from_option (resources_in p) default_resources container |})
  /\ (pod_uid_from_path path = None -> l = labels_from_cgroup_path (Some path)).
Proof.
  intros Hu Hne Hp l. unfold l. clear l. cbn [on_watch_event]. unfold pod_info_from. rewrite Hu.
  destruct uid as [|a u]; [done|]. set (uid := String a u).
  unfold cache_labels_for_cgroup. destruct (merge_spec (upsert_pod uid (pod_info p) c)) as (_ & _ & _ & _ & Hm).
  rewrite Hm. cbn [upsert_pod on_state cache_state cgroup_paths set_pods pod_by_uid]. rewrite Hp. cbn [default].
  unfold merged_labels. cbn [labels_from_cgroup_path lb_pod_uid]. split; intros E; rewrite E; [|done].
  rewrite lookup_insert_eq. cbn [fst].
  destruct (dir_name path) as [d|]; [|done]. cbn [mbind option_bind]. rewrite container_in_spec.
  destruct (container_in p d) as [name|]; [|done]. cbn [mbind option_bind from_option].
  by rewrite <- resources_in_spec.
Qed.

(** A delete of the pod. *)
Definition deletes (uid : string) (e : watch_event) : Prop :=
  match e with Delete p => meta_uid p = Some uid | _ => False end.

(** Only a delete event forgets a pod.  A pod that disappears while the
    watcher is disconnected stays known: neither the initial list of the next
    stream nor the list fallback removes what they do not mention. *)
Theorem relisting_keeps_missed_deletes uid events configured listed c backoff :
  is_Some (pod_by_uid (cache_state c) !! uid) -> Forall (fun e => ~ deletes uid e) events ->
  is_Some (pod_by_uid (cache_state (watch_round events configured listed (c, backoff)).1) !! uid).
Proof.
  intros Hc He.
  assert (Hm : forall c, is_Some (pod_by_uid (cache_state c) !! uid) ->
    is_Some (pod_by_uid (cache_state (merge_cgroup_labels_from_k8s c).2) !! uid)).
  { intros c0 H. by destruct (merge_spec c0) as (_ & _ & _ & -> & _). }
  assert (Hup : forall c p, is_Some (pod_by_uid (cache_state c) !! uid) ->
    is_Some (pod_by_uid (cache_state match pod_info_from p with
      | Some (u, info) => upsert_pod u info c | None => c end) !! uid)).
  { intros c0 p H. destruct (pod_info_from p) as [[u info]|]; [|done]. cbn.
    destruct (decide (u = uid)) as [->|]; [by rewrite lookup_insert_eq; eexists|by rewrite lookup_insert_ne]. }
  cbn [watch_round fst]. assert (H1 : is_Some (pod_by_uid (cache_state (foldl (fun c e => on_watch_event e c) c events)) !! uid)).
  { revert c Hc. induction He as [|e events Hne _ IH]; intros c Hc; [done|]. apply IH.
    destruct e as [p|p| |p|]; cbn [on_watch_event]; auto.
    - specialize (Hup c p Hc). destruct (pod_info_from p) as [[u info]|]; auto.
    - destruct (meta_uid p) as [u|] eqn:Eu; [|done]. cbn. rewrite lookup_delete_ne; [done|].
      intros ->. by apply Hne. }
  unfold refresh_k8s_pods. destruct configured; [|done]. destruct listed as [pods|]; [|done]. cbn [negb].
  apply Hm. revert H1. generalize (foldl (fun c e => on_watch_event e c) c events). induction pods as [|p pods IH]; intros c1 H1; [done|].
  cbn [foldl]. by apply IH, Hup.
Qed.

(** A cgroup whose path could not be read keeps its label for ever.  An
    identity event whose [/proc] file is already gone stores a label without a
    path; eviction only looks at cgroups with a path, so the entry survives any
    number of evictions, whatever files exist. *)
Theorem pathless_labels_are_never_evicted id c exs :
  cache_inv c -> cgroup_paths (cache_state c) !! id = None ->
  let c' := identity_write id None c in
  cgroup_labels (cache_state c') !! id = Some DEFAULT_LABELS
  /\ cgroup_labels (cache_state (foldl (fun c ex => (evict_stale_cgroups ex c).2) c' exs)) !! id = Some DEFAULT_LABELS.
Proof.
  intros HI Hn c'.
  assert (H0 : cgroup_paths (cache_state c') !! id = None /\ cgroup_labels (cache_state c') !! id = Some DEFAULT_LABELS).
  { unfold c'. cbn. rewrite Hn. rewrite bool_decide_eq_false_2 by (intros [? ?]; done). cbn.
    by rewrite lookup_insert_eq, Hn. }
  assert (HI' : cache_inv c') by by apply identity_write_inv.
  split; [tauto|]. clearbody c'. clear HI Hn. revert c' H0 HI'. induction exs as [|ex exs IH]; intros c' [H1 H2] HI'; [done|].
  cbn [foldl]. apply IH; [|by apply evict_inv]. destruct (evict_spec ex c') as [_ He]. destruct (He id) as [-> ->].
  rewrite bool_decide_eq_false_2; [done|]. intros Hin. apply stale_ids_spec in Hin; [|done].
  destruct Hin as (p & Hp & _). congruence.
Qed.

(** ** Witnesses *)

Definition sample_pod_uid : string := "0f4c1a2b-3c4d-5e6f-7a8b-9c0d1e2f3a4b".

Definition sample_pod : Pod :=
  {| meta_uid := Some sample_pod_uid; meta_namespace := Some "shop"; meta_name := Some "web-0";
     pod_status := Some {| container_statuses := Some [{| cs_name := "nginx";
         cs_container_id := Some ("containerd://" +:+ sample_container_id) |}];
       init_container_statuses := None; ephemeral_container_statuses := None |};
     pod_spec := Some {| containers := [{| c_name := "nginx"; c_resources := Some
         {| rr_requests := Some {["cpu" := "250m"; "memory" := "64Mi"]}; rr_limits := None |} |}];
       init_containers := None |} |}.

Definition sample_cgroup_path : path :=
  Path true ["kubepods.slice"; "kubepods-burstable-pod" +:+ (sample_uid +:+ ".slice");
             "cri-containerd-" +:+ (sample_container_id +:+ ".scope")].

Definition sample_cache : AttributionCache :=
  register_cgroup_directory 7 sample_cgroup_path (new_cache None).

Lemma pod_update_labels_its_cgroups_witness :
  cache_labels_for_cgroup 7 (on_watch_event (Apply sample_pod) sample_cache)
  = {| lb_namespace := Some "shop"; lb_pod := Some "web-0"; lb_container := Some "nginx";
       lb_pod_uid := Some sample_pod_uid; lb_k8s_resolved := true;
       lb_resources := {| res_cpu_request_millicores := 250; res_memory_request_bytes := 67108864;
                          res_cpu_limit_millicores := 0; res_memory_limit_bytes := 0 |} |}.
Proof.
  rewrite (proj1 (pod_update_labels_its_cgroups sample_cache sample_pod sample_pod_uid 7 sample_cgroup_path
    ltac:(reflexivity) ltac:(discriminate) ltac:(vm_compute; reflexivity)));
    vm_compute; reflexivity.
Defined.

Lemma eviction_removes_the_gone_witness :
  cgroup_paths (cache_state (evict_stale_cgroups (fun _ => false) sample_cache).2) !! 7 = None.
Proof.
  pose proof (eviction_removes_the_gone (fun _ => false) sample_cache
    (register_inv _ _ _ (new_cache_inv None))) as H.
  destruct (evict_stale_cgroups (fun _ => false) sample_cache) as [n c'].
  exact (proj1 (proj2 (proj2 H) 7)).
Defined.

Lemma relisting_keeps_missed_deletes_witness :
  is_Some (pod_by_uid (cache_state (watch_round [Init; InitDone] true (Some [])
    (on_watch_event (Apply sample_pod) sample_cache, 5)).1) !! sample_pod_uid).
Proof.
  apply relisting_keeps_missed_deletes.
  - eexists. vm_compute. reflexivity.
  - repeat constructor; simpl; tauto.
Defined.

Lemma pathless_labels_are_never_evicted_witness :
  cgroup_labels (cache_state (foldl (fun c ex => (evict_stale_cgroups ex c).2)
    (identity_write 9 None sample_cache) [(fun _ => false); (fun _ => true)])) !! 9 = Some DEFAULT_LABELS.
Proof.
  apply (pathless_labels_are_never_evicted 9 sample_cache [(fun _ => false); (fun _ => true)]).
  - apply register_inv, new_cache_inv.
  - vm_compute. reflexivity.
Defined.
