(* ===== verification/Delays.v ===== *)
(** * Delays: how long the retrying tasks sleep

    Models the random delays of [output.rs], [wal/drainer.rs] and
    [attribution/mod.rs] on the binary64 arithmetic of [F64]: the backoff of the
    retry worker with its jitter, the spread of a recovery over the fleet, and the
    jitter of the pod watcher.  [rand::random] and the hash of the node's name are
    inputs.  [Duration::from_secs_f64] panics on what it cannot hold.  The
    theorems: with the settings a cluster would use every delay is within its
    documented range, and a backoff near the largest [u64] ends the retry worker. *)

From S2P Require Import Attribution Startup F64.

#[local] Open Scope Z_scope.

(** ** The delays *)

(** [Duration::from_secs_f64], in nanoseconds; [None] is a panic. *)
Definition from_secs_f64 (x : f64) : option Z :=
  match x with
  | Finite m e =>
      let nanos := div_half_even (num_of m e * 1000000000) (den_of e) in
      if (m <? 0) || (2 ^ 64 * 1000000000 <=? nanos) then None else Some nanos
  | _ => None
  end.

(** The literals [0.3], [5.0] and [1000.0]. *)
Definition THREE_TENTHS : f64 := decimal 3 1 0.
Definition FIVE : f64 := f64_of_u64 5.
Definition THOUSAND : f64 := f64_of_u64 1000.

(** The retry worker after a retryable failure. *)
Definition retry_sleep_secs (backoff_secs : Z) (random : f64) : f64 :=
  let jitter := f64_mul random (f64_mul (f64_of_u64 backoff_secs) THREE_TENTHS) in
  f64_add (f64_of_u64 backoff_secs) jitter.

(** [recovery_spread_sleep_secs] of the retry worker and [recovery_spread_secs] of
    the drainer; [hash] is [hasher.finish()]. *)
Definition recovery_spread_secs (hash : Z) (random : f64) : f64 :=
  let spread_secs := f64_div (f64_of_u64 (hash mod 30000)) THOUSAND in
  f64_add (f64_mul random FIVE) spread_secs.

(** The pod watcher between two streams: [reconnect_backoff + jitter]. *)
Definition reconnect_sleep (backoff_secs : Z) (random : f64) : option Z :=
  let jitter := f64_mul (f64_mul random (f64_of_u64 backoff_secs)) THREE_TENTHS in
  nanos ← from_secs_f64 jitter;
  Some (backoff_secs * 1000000000 + nanos).

(** What the retry worker sleeps after one POST; [None] is a panic.  After a
    success it staggers when it had backed off. *)
Definition post_sleep (is_success is_server_error : Z -> bool) (initial : Z) (hash : Z) (random : f64)
    (a : post_answer) (w : worker) : option Z :=
  match post_ingest is_success is_server_error a with
  | PostOk => if initial <? backoff_secs w then from_secs_f64 (recovery_spread_secs hash random) else Some 0
  | PostRetryable => from_secs_f64 (retry_sleep_secs (backoff_secs w) random)
  | PostNonRetryable _ => Some 0
  end.

(** [rand::random::<f64>()]: in the half-open unit interval. *)
Definition unit_interval (x : f64) : Prop := match x with Finite m e => 0 <= num_of m e < den_of e | _ => False end.

#[export] Instance unit_interval_dec x : Decision (unit_interval x).
Proof. destruct x; apply _. Defined.

(** ** Bounds *)

Lemma rep_0 : rep 0.
Proof. apply rep_small. lia. Qed.

Lemma add_between x y a b c d :
  at_least a x -> at_most x b -> at_least c y -> at_most y d -> rep (a + c) -> rep (b + d) ->
  at_least (a + c) (f64_add x y) /\ at_most (f64_add x y) (b + d).
Proof.
  destruct x as [m1 e1| |], y as [m2 e2| |]; try done. cbn [at_least at_most f64_add]. intros H1 H2 H3 H4 R1 R2.
  pose proof (den_pos e1) as D1. pose proof (den_pos e2) as D2. apply round_between; [nia|done|done|].
  apply (Z.mul_le_mono_nonneg_r _ _ (den_of e2)) in H1, H2; [|lia..].
  apply (Z.mul_le_mono_nonneg_r _ _ (den_of e1)) in H3, H4; [|lia..]. lia.
Qed.

(** A factor of at most [p / q]. *)
Lemma mul_between x y n p q N :
  at_least 0 x -> at_most x n ->
  match y with Finite m e => 0 <= q * num_of m e <= p * den_of e | _ => False end ->
  0 <= n -> 0 < q -> n * p <= N * q -> rep N ->
  at_least 0 (f64_mul x y) /\ at_most (f64_mul x y) N.
Proof.
  destruct x as [m1 e1| |], y as [m2 e2| |]; try done. cbn [at_least at_most f64_mul]. intros H1 H2 H3 Hn Hq HN R.
  pose proof (den_pos e1) as D1. pose proof (den_pos e2) as D2. set (n1 := num_of m1 e1) in *. set (n2 := num_of m2 e2) in *.
  set (d1 := den_of e1) in *. set (d2 := den_of e2) in *. assert (0 <= n2) by nia.
  apply round_between; [nia|apply rep_0|done|]. split; [nia|].
  assert (q * (n1 * n2) <= q * (N * (d1 * d2))); [|nia].
  apply (Z.mul_le_mono_nonneg_r _ _ (d1 * d2)) in HN; [|lia].
  transitivity (n1 * (p * d2)); [nia|]. transitivity (n * d1 * (p * d2)); [nia|lia].
Qed.

Lemma int_between x n : is_int x n -> at_least n x /\ at_most x n.
Proof. destruct x as [m e| |]; [|done..]. cbn. lia. Qed.

Lemma small_u64 n : 0 <= n < 2 ^ 53 -> is_int (f64_of_u64 n) n.
Proof. intros Hn. unfold f64_of_u64. rewrite <- (Z.mul_1_r n). apply (is_int_round n 0); lia. Qed.

Lemma u64_between n hi : 0 <= n <= hi -> rep hi -> at_least 0 (f64_of_u64 n) /\ at_most (f64_of_u64 n) hi.
Proof. intros Hn R. apply round_between; [lia|apply rep_0|done|lia]. Qed.

Lemma unit_between r : unit_interval r -> at_least 0 r /\ at_most r 1.
Proof. destruct r as [m e| |]; [|done..]. cbn. lia. Qed.

Lemma at_most_factor x n : at_least 0 x -> at_most x n ->
  match x with Finite m e => 0 <= 1 * num_of m e <= n * den_of e | _ => False end.
Proof. destruct x as [m e| |]; [|done..]. cbn [at_least at_most]. lia. Qed.

Lemma three_tenths_factor :
  match THREE_TENTHS with Finite m e => 0 <= 10 * num_of m e <= 3 * den_of e | _ => False end.
Proof. vm_compute. split; discriminate. Qed.

(** A delay between two whole numbers of seconds is slept. *)
Lemma from_secs_between x lo hi :
  at_least lo x -> at_most x hi -> 0 <= lo -> hi < 2 ^ 64 ->
  exists nanos, from_secs_f64 x = Some nanos /\ lo * 1000000000 <= nanos <= hi * 1000000000.
Proof.
  destruct x as [m e| |]; [|done..]. cbn [at_least at_most from_secs_f64]. intros H1 H2 Hlo Hhi. pose proof (den_pos e).
  set (nanos := div_half_even _ _).
  assert (lo * 1000000000 <= nanos) by (apply div_half_even_ge; lia).
  assert (nanos <= hi * 1000000000) by (apply div_half_even_le; lia).
  assert (0 <= m).
  { unfold num_of, den_of in *. destruct (Z.leb_spec 0 e); [|nia]. assert (0 < 2 ^ e) by (apply Z.pow_pos_nonneg; lia). nia. }
  exists nanos. destruct (Z.ltb_spec m 0); [lia|]. destruct (Z.leb_spec (2 ^ 64 * 1000000000) nanos); [lia|done].
Qed.

(** The jitter of a backoff of at most [b] seconds. *)
Lemma jitter_between x r b N :
  unit_interval r -> at_least 0 x -> at_most x b -> 0 <= b -> 3 * b <= 10 * N -> rep N ->
  at_least 0 (f64_mul r (f64_mul x THREE_TENTHS)) /\ at_most (f64_mul r (f64_mul x THREE_TENTHS)) N.
Proof.
  intros Hr Hx1 Hx2 Hb HN R. destruct (unit_between r Hr) as [R1 R2].
  destruct (mul_between x THREE_TENTHS b 3 10 N Hx1 Hx2 three_tenths_factor Hb ltac:(lia) ltac:(lia) R) as [J1 J2].
  apply (mul_between r _ 1 N 1); [done|done|by apply at_most_factor|lia|lia|lia|done].
Qed.

Lemma retry_sleep_between b r :
  unit_interval r -> 0 <= b <= 2 ^ 52 ->
  exists nanos, from_secs_f64 (retry_sleep_secs b r) = Some nanos
    /\ b * 1000000000 <= nanos <= (b + (3 * b + 9) / 10) * 1000000000.
Proof.
  intros Hr Hb. pose proof (int_between _ _ (small_u64 b ltac:(lia))) as [B1 B2].
  pose proof (u64_between b b ltac:(lia) (rep_small b ltac:(lia))) as [Z0 _].
  set (N := (3 * b + 9) / 10). assert (HN : 3 * b <= 10 * N <= 3 * b + 9).
  { pose proof (Z.div_mod (3 * b + 9) 10 ltac:(lia)). pose proof (Z.mod_pos_bound (3 * b + 9) 10 ltac:(lia)). fold N in H. lia. }
  clearbody N.
  destruct (jitter_between (f64_of_u64 b) r b N Hr Z0 B2 ltac:(lia) ltac:(lia) (rep_small N ltac:(lia))) as [J1 J2].
  destruct (add_between _ _ b b 0 N B1 B2 J1 J2) as [S1 S2]; [apply rep_small; lia..|].
  rewrite Z.add_0_r in S1. apply (from_secs_between _ b (b + N)); [done|done|lia|lia].
Qed.

Lemma retry_sleep_holds b r :
  unit_interval r -> 0 <= b <= 2 ^ 63 -> is_Some (from_secs_f64 (retry_sleep_secs b r)).
Proof.
  intros Hr Hb. pose proof (u64_between b (2 ^ 63) Hb (rep_pow2 63 ltac:(lia))) as [B1 B2].
  destruct (jitter_between (f64_of_u64 b) r (2 ^ 63) (2 ^ 62) Hr B1 B2 ltac:(lia) ltac:(lia) (rep_pow2 62 ltac:(lia)))
    as [J1 J2].
  destruct (add_between _ _ 0 (2 ^ 63) 0 (2 ^ 62) B1 B2 J1 J2) as [S1 S2]; [apply rep_0|by exists 3, 62|].
  destruct (from_secs_between _ _ _ S1 S2) as (nanos & E & _); [lia|lia|by exists nanos].
Qed.

Lemma recovery_spread_between hash r :
  unit_interval r ->
  exists nanos, from_secs_f64 (recovery_spread_secs hash r) = Some nanos /\ 0 <= nanos <= 35 * 1000000000.
Proof.
  intros Hr. destruct (unit_between r Hr) as [R1 R2]. pose proof (Z.mod_pos_bound hash 30000 ltac:(lia)) as Hh.
  destruct (mul_between r FIVE 1 5 1 5 R1 R2) as [A1 A2]; [vm_compute; split; discriminate|lia..|apply rep_small; lia|].
  pose proof (small_u64 (hash mod 30000) ltac:(lia)) as Hi.
  assert (Hd : at_least 0 (f64_div (f64_of_u64 (hash mod 30000)) THOUSAND)
               /\ at_most (f64_div (f64_of_u64 (hash mod 30000)) THOUSAND) 30).
  { destruct (f64_of_u64 (hash mod 30000)) as [m e| |]; [|done..]. cbn [is_int] in Hi.
    change THOUSAND with (Finite (1000 * 2 ^ 43) (-43)). cbn [f64_div]. pose proof (den_pos e).
    change (1000 * 2 ^ 43 =? 0) with false. change (Z.sgn (1000 * 2 ^ 43)) with 1.
    change (den_of (-43)) with (2 ^ 43). change (Z.abs (num_of (1000 * 2 ^ 43) (-43))) with (1000 * 2 ^ 43).
    cbn match. apply round_between; [nia|apply rep_0|apply rep_small; lia|nia]. }
  destruct Hd as [D1 D2]. destruct (add_between _ _ 0 5 0 30 A1 A2 D1 D2) as [S1 S2]; [apply rep_0|apply rep_small; lia|].
  apply (from_secs_between _ 0 35); [done|done|lia|lia].
Qed.

Lemma reconnect_sleep_between b r :
  unit_interval r -> 0 <= b <= 300 ->
  exists nanos, reconnect_sleep b r = Some nanos /\ b * 1000000000 <= nanos <= (b + 90) * 1000000000.
Proof.
  intros Hr Hb. destruct (unit_between r Hr) as [R1 R2].
  destruct (u64_between b 300 Hb (rep_small 300 ltac:(lia))) as [B1 B2].
  destruct (mul_between r (f64_of_u64 b) 1 300 1 300 R1 R2 (at_most_factor _ _ B1 B2)) as [M1 M2];
    [lia..|apply rep_small; lia|].
  destruct (mul_between _ THREE_TENTHS 300 3 10 90 M1 M2 three_tenths_factor) as [J1 J2]; [lia..|apply rep_small; lia|].
  destruct (from_secs_between _ 0 90 J1 J2) as (nanos & E & Hn); [lia..|].
  unfold reconnect_sleep. rewrite E. cbn [mbind option_bind]. eexists. split; [done|]. lia.
Qed.

(** The pod watcher's backoff stays between 5 and 300 seconds. *)
Lemma watch_round_backoff events configured listed c b :
  INITIAL_RECONNECT_SECS <= b <= MAX_RECONNECT_BACKOFF ->
  INITIAL_RECONNECT_SECS <= (watch_round events configured listed (c, b)).2 <= MAX_RECONNECT_BACKOFF.
Proof. unfold watch_round, INITIAL_RECONNECT_SECS, MAX_RECONNECT_BACKOFF. intros Hb. cbn [snd]. destruct events; lia. Qed.

(** The last 1024 values of a [u64] are rounded up to [2^64]. *)
Lemma huge_u64 b : 2 ^ 64 - 1024 <= b <= umax 64 -> at_least (2 ^ 64) (f64_of_u64 b).
Proof.
  intros Hb. change (umax 64) with (2 ^ 64 - 1) in Hb. unfold f64_of_u64, round_q, round_pos.
  destruct (Z.leb_spec 0 b); [|lia]. destruct (Z.eqb_spec b 0); [lia|].
  rewrite log2_q_int, (Z.log2_unique b 63) by lia. change (Z.max (-1074) (63 - 52)) with 11. cbv zeta.
  change (0 <=? 11) with true. change (971 <? 11) with false. change (11 =? 971) with false. cbn [orb andb].
  unfold at_least, num_of, den_of. change (0 <=? 11) with true. cbv beta iota. rewrite Z.mul_1_l.
  enough (2 ^ 53 <= div_half_even b (2 ^ 11)) by lia. change (2 ^ 11) with 2048.
  unfold div_half_even. assert (Hq : b / 2048 = 2 ^ 53 - 1) by (symmetry; apply (Z.div_unique b 2048 _ (b - 2048 * (2 ^ 53 - 1))); lia).
  pose proof (Z.div_mod b 2048 ltac:(lia)) as Hm. rewrite Hq in *.
  destruct (Z.ltb_spec 2048 (2 * (b mod 2048))); [cbn; lia|]. destruct (Z.eqb_spec (2 * (b mod 2048)) 2048); [|lia].
  change (Z.odd (2 ^ 53 - 1)) with true. cbn. lia.
Qed.

(** What is not below [2^64] seconds cannot be slept. *)
Lemma from_secs_too_long x : at_least (2 ^ 64) x -> from_secs_f64 x = None.
Proof.
  destruct x as [m e| |]; [|done..]. cbn [at_least from_secs_f64]. intros H. pose proof (den_pos e).
  set (nanos := div_half_even _ _). assert (2 ^ 64 * 1000000000 <= nanos) by (apply div_half_even_ge; lia).
  destruct (Z.leb_spec (2 ^ 64 * 1000000000) nanos); [by rewrite orb_true_r|lia].
Qed.

Lemma retry_sleep_huge b r :
  unit_interval r -> 2 ^ 64 - 1024 <= b <= umax 64 -> from_secs_f64 (retry_sleep_secs b r) = None.
Proof.
  intros Hr Hb. change (umax 64) with (2 ^ 64 - 1) in Hb.
  pose proof (huge_u64 b Hb) as H64. destruct (u64_between b (2 ^ 64) ltac:(lia) (rep_pow2 64 ltac:(lia))) as [B1 B2].
  destruct (jitter_between (f64_of_u64 b) r (2 ^ 64) (2 ^ 63) Hr B1 B2 ltac:(lia) ltac:(lia) (rep_pow2 63 ltac:(lia)))
    as [J1 J2].
  destruct (add_between _ _ (2 ^ 64) (2 ^ 64) 0 (2 ^ 63) H64 B2 J1 J2) as [S1 _];
    [by apply rep_pow2|by exists 3, 63|]. by apply from_secs_too_long.
Qed.

Section Worker.
Variables (is_success is_server_error : Z -> bool) (initial hash : Z).

(** ** Properties *)


(** A huge backoff ends the retry worker.  [STATIX_BACKOFF_INITIAL_SECS] may be
    any positive [u64].  From 2^64 - 1024 on, which a [f64] rounds to 2^64, the first
    retryable failure panics in [Duration::from_secs_f64], whatever the random
    number: the task that delivers is gone. *)
Theorem huge_backoffs_end_the_worker `{!Channel body} retry_channel e o s n r a :
  e !! "STATIX_BACKOFF_INITIAL_SECS"%string = Some s -> parse_uint 64 s = Some n -> 2 ^ 64 - 1024 <= n <= umax 64 ->
  unit_interval r -> post_ingest is_success is_server_error a = PostRetryable ->
  exists maxb, (init_retry_worker retry_channel e o).1 = (n, maxb)
    /\ post_sleep is_success is_server_error n hash r a (Worker n circuit_init) = None.
Proof.
  intros He Hs Hn Hr Ha. eexists. split.
  - unfold init_retry_worker. cbn [fst]. rewrite (read_env_u64_given _ _ e s n He Hs) by lia. reflexivity.
  - unfold post_sleep. rewrite Ha. by apply retry_sleep_huge.
Qed.

End Worker.

(** ** Witnesses *)

Definition half : f64 := Finite 1 (-1).


Definition huge_backoff : environment := {[ "STATIX_BACKOFF_INITIAL_SECS"%string := "18446744073709551615"%string ]}.

Lemma huge_backoffs_end_the_worker_witness :
  exists maxb, (init_retry_worker (Channel0 := bounded_channel body) (empty_channel 60) huge_backoff no_output).1
      = (18446744073709551615, maxb)
    /\ post_sleep status_success status_server_error 18446744073709551615 7 half SendFailed
         (Worker 18446744073709551615 circuit_init) = None.
Proof.
  apply (huge_backoffs_end_the_worker (Channel0 := bounded_channel body) status_success status_server_error 7
    (empty_channel 60) huge_backoff no_output "18446744073709551615"%string); [reflexivity|reflexivity| | |reflexivity].
  - split; discriminate.
  - by vm_compute.
Defined.
