(* ===== verification/Sampler.v ===== *)
(** * Sampler: periodic readings of every leaf cgroup

    Models [statix/src/memory_sampler.rs]: the CPU baseline, the reading of one
    target, priming, and a tick that feeds the aggregator.  The file system is an
    input ([KernelFiles] and the link count of a directory), as are the clock and
    the random bytes an early flush would use, one pair per ingest call.  The
    lemmas say that a tick is exactly a run of aggregator calls and what CPU time
    these carry; [AgentProps] draws the end-to-end theorem from them. *)

From S2P Require Export Attribution.

(** What [stat] answers for a directory's link count. *)
Class CgroupFs : Type := {
  #[global] fs_files :: KernelFiles;
  nlink : path -> option Z
}.

Record Sampler : Type := { cpu_baseline : gmap Z Z }.

Definition new_sampler : Sampler := {| cpu_baseline := ∅ |}.

(** The delta to ingest, or [None] when this reading only primes. *)
Definition cpu_delta (baseline : gmap Z Z) (id current : Z) : option Z * gmap Z Z :=
  match baseline !! id with
  | Some last => (Some (saturating_sub current last), <[id := current]> baseline)
  | None => (None, <[id := current]> baseline)
  end.

Section Reading.
Context {FS : CgroupFs}.

Definition is_leaf_cgroup (dir : path) : bool :=
  match nlink dir with Some n => n =? 2 | None => false end.

Definition in_leaf (file : path) : bool :=
  match parent file with Some dir => is_leaf_cgroup dir | None => false end.

Abbreviation reading := (Z * option Z * option Z)%type.

Definition read_target (t : Z * path * path * path) : option reading :=
  let '(id, mem_path, cpu_path, stat_path) := t in
  if negb (in_leaf mem_path) then None
  else
    let memory_bytes :=
      match read_memory_current_at mem_path with
      | Ok current => Some (saturating_sub current (default 0 (read_inactive_file_at stat_path)))
      | Err _ => None
      end in
    let usage_usec := match read_cpu_usage_usec_at cpu_path with Ok v => Some v | Err _ => None end in
    Some (id, memory_bytes, usage_usec).

(** The blocking task of [tick]; it counts the CPU files it could not read. *)
Definition read_targets (ts : list (Z * path * path * path)) : list reading := omap read_target ts.

Definition cpu_errors (rs : list reading) : Z :=
  sumZ (fun '((_, u) : reading) => match u with None => 1 | Some _ => 0 end) rs.

Definition prime_reading (t : Z * path * path * path) : option (Z * Z) :=
  let '(id, _, cpu_path, _) := t in
  if negb (in_leaf cpu_path) then None
  else match read_cpu_usage_usec_at cpu_path with Ok u => Some (id, u) | Err _ => None end.

(** [task_ok] is whether the blocking task ran to its end. *)
Definition prime (task_ok : bool) (c : AttributionCache) (s : Sampler) : Sampler :=
  let readings := if task_ok then omap prime_reading (sample_targets c) else [] in
  {| cpu_baseline := foldl (fun m '(id, u) => <[id := u]> m) (cpu_baseline s) readings |}.

Definition retain_live (rs : list reading) (s : Sampler) : Sampler :=
  {| cpu_baseline := filter (fun '(id, _) => id ∈ rs.*1.*1) (cpu_baseline s) |}.

End Reading.

Abbreviation reading := (Z * option Z * option Z)%type.

Section Tick.
Context {FS : CgroupFs} {UUID : UuidText}.

#[local] Existing Instance attribution_cache.

(** [if let Some(memory_bytes)] with its call. *)
Definition ingest_memory (id : Z) (memory_bytes : option Z) (node : string) (amb : ambient)
    (c : AttributionCache) (a : Aggregator) : list BatchPayload * Aggregator :=
  match memory_bytes with
  | Some m => let '(b, a) := ingest_memory_sample id m c node amb a in (option_list b, a)
  | None => ([], a)
  end.

(** [if let Some(current)] with its delta and its call. *)
Definition ingest_cpu (id : Z) (usage_usec : option Z) (node : string) (amb : ambient)
    (c : AttributionCache) (a : Aggregator) (s : Sampler) : list BatchPayload * Aggregator * Sampler :=
  match usage_usec with
  | Some current =>
      match cpu_delta (cpu_baseline s) id current with
      | (Some delta, m) =>
          let '(b, a) := ingest_cpu_sample id delta c node amb a in
          (option_list b, a, {| cpu_baseline := m |})
      | (None, m) => ([], a, {| cpu_baseline := m |})
      end
  | None => ([], a, s)
  end.

(** The loop over the readings; [amb i] is what the calls of the [i]-th see. *)
Fixpoint ingest_readings (rs : list reading) (node : string) (amb : nat -> ambient * ambient)
    (c : AttributionCache) (a : Aggregator) (s : Sampler) : list BatchPayload * Aggregator * Sampler :=
  match rs with
  | [] => ([], a, s)
  | (id, memory_bytes, usage_usec) :: rs =>
      let '(b1, a) := ingest_memory id memory_bytes node (amb 0%nat).1 c a in
      let '(b2, a, s) := ingest_cpu id usage_usec node (amb 0%nat).2 c a s in
      let '(bs, a, s) := ingest_readings rs node (fun i => amb (S i)) c a s in
      (b1 ++ b2 ++ bs, a, s)
  end.

Definition tick (task_ok : bool) (node : string) (amb : nat -> ambient * ambient) (c : AttributionCache)
    (a : Aggregator) (m : metrics) (s : Sampler) : list BatchPayload * Aggregator * metrics * Sampler :=
  if task_ok then
    let readings := read_targets (sample_targets c) in
    let m := counter_add "statix_cpu_sampler_errors_total" (cpu_errors readings) m in
    let '(bs, a, s) := ingest_readings readings node amb c a (retain_live readings s) in
    (bs, a, m, s)
  else ([], a, counter_add "statix_memory_sampler_errors_total" 1 m, s).

(** ** A tick as aggregator calls *)

Definition memory_calls (id : Z) (memory_bytes : option Z) (amb : ambient) : list (agg_call * ambient) :=
  match memory_bytes with Some m => [(CallMemory id m, amb)] | None => [] end.

Definition cpu_calls (base : gmap Z Z) (id : Z) (usage_usec : option Z) (amb : ambient)
    : list (agg_call * ambient) :=
  match usage_usec with
  | Some current =>
      match (cpu_delta base id current).1 with Some delta => [(CallCpu id delta, amb)] | None => [] end
  | None => []
  end.

Definition next_baseline (base : gmap Z Z) (id : Z) (usage_usec : option Z) : gmap Z Z :=
  match usage_usec with Some current => <[id := current]> base | None => base end.

(** The calls the readings make. *)
Fixpoint calls_of (rs : list reading) (amb : nat -> ambient * ambient) (base : gmap Z Z)
    : list (agg_call * ambient) :=
  match rs with
  | [] => []
  | (id, memory_bytes, usage_usec) :: rs =>
      memory_calls id memory_bytes (amb 0%nat).1 ++ cpu_calls base id usage_usec (amb 0%nat).2
      ++ calls_of rs (fun i => amb (S i)) (next_baseline base id usage_usec)
  end.

Fixpoint final_baseline (rs : list reading) (base : gmap Z Z) : gmap Z Z :=
  match rs with
  | [] => base
  | (id, _, usage_usec) :: rs => final_baseline rs (next_baseline base id usage_usec)
  end.

Lemma agg_run_app node xs ys st bs1 st1 bs2 st2 :
  agg_run node xs st = (bs1, st1) -> agg_run node ys st1 = (bs2, st2) ->
  agg_run node (xs ++ ys) st = (bs1 ++ bs2, st2).
Proof.
  revert st bs1. induction xs as [|[call amb] xs IH]; intros st bs1; cbn [app agg_run].
  - by intros [= <- <-].
  - destruct (agg_step node call amb st) as [b st0]. specialize (IH st0).
    destruct (agg_run node xs st0) as [bs0 st3]. intros [= <- <-] H2.
    rewrite (IH bs0 eq_refl H2). by destruct b.
Qed.

Lemma ingest_memory_run id mem node amb c a :
  agg_run node (memory_calls id mem amb) (c, a)
  = ((ingest_memory id mem node amb c a).1, (c, (ingest_memory id mem node amb c a).2)).
Proof.
  destruct mem as [m|]; [|done]. cbn [memory_calls agg_run ingest_memory agg_step].
  destruct (ingest_memory_sample id m c node amb a) as [[b|] a']; done.
Qed.

Lemma ingest_cpu_run id usage node amb c a s :
  agg_run node (cpu_calls (cpu_baseline s) id usage amb) (c, a)
  = ((ingest_cpu id usage node amb c a s).1.1, (c, (ingest_cpu id usage node amb c a s).1.2))
  /\ cpu_baseline (ingest_cpu id usage node amb c a s).2 = next_baseline (cpu_baseline s) id usage.
Proof.
  destruct usage as [u|]; [|done]. unfold cpu_calls, ingest_cpu, cpu_delta, next_baseline.
  destruct (cpu_baseline s !! id) as [last|]; cbn [fst snd]; [|done].
  cbn [agg_run agg_step]. by destruct (ingest_cpu_sample id (saturating_sub u last) c node amb a) as [[b|] a'].
Qed.

Lemma ingest_readings_run rs node amb c a s :
  let '(bs, a', s') := ingest_readings rs node amb c a s in
  agg_run node (calls_of rs amb (cpu_baseline s)) (c, a) = (bs, (c, a'))
  /\ cpu_baseline s' = final_baseline rs (cpu_baseline s).
Proof.
  revert amb a s. induction rs as [|[[id mem] usage] rs IH]; intros amb a s; [done|].
  cbn [ingest_readings calls_of final_baseline].
  pose proof (ingest_memory_run id mem node (amb 0%nat).1 c a) as H1.
  destruct (ingest_memory id mem node (amb 0%nat).1 c a) as [b1 a1]. cbn [fst snd] in H1.
  pose proof (ingest_cpu_run id usage node (amb 0%nat).2 c a1 s) as [H2 H3].
  destruct (ingest_cpu id usage node (amb 0%nat).2 c a1 s) as [[b2 a2] s2]. cbn [fst snd] in *.
  specialize (IH (fun i => amb (S i)) a2 s2). rewrite H3 in IH.
  destruct (ingest_readings rs node (fun i => amb (S i)) c a2 s2) as [[bs a3] s3]. destruct IH as [IH1 IH2].
  split; [|done]. eapply agg_run_app; [exact H1|]. eapply agg_run_app; [exact H2|exact IH1].
Qed.

(** ** The baseline telescopes *)

(** The reading of cgroup [g], when there is one. *)
Definition usage_in (g : Z) (rs : list reading) : option (option Z) :=
  snd <$> head (filter (fun r => r.1.1 = g) rs).

Lemma contribution_memory k g id mem amb :
  sumZ (fun x => contribution k g x.1) (memory_calls id mem amb)
  = match k, mem with SSample, Some _ => if id =? g then 1 else 0 | _, _ => 0 end.
Proof. destruct mem; simpl; [|by destruct k]. destruct (id =? g), k; simpl; lia. Qed.

Lemma contribution_cpu g base id usage amb :
  sumZ (fun x => contribution SCpu g x.1) (cpu_calls base id usage amb)
  = if id =? g then match usage, base !! g with Some u, Some l => saturating_sub u l | _, _ => 0 end else 0.
Proof.
  unfold cpu_calls, cpu_delta. destruct usage as [u|]; [|by destruct (id =? g)].
  destruct (Z.eqb_spec id g) as [->|Hne]; destruct (base !! _) as [l|] eqn:E; cbn [fst]; try done.
  - cbn. rewrite Z.eqb_refl. lia.
  - cbn. destruct (Z.eqb_spec id g); [done|lia].
Qed.

(** What one tick contributes for a cgroup that is read at most once. *)
Lemma calls_of_cpu g rs amb base :
  NoDup rs.*1.*1 ->
  total_contribution SCpu g (calls_of rs amb base)
  = match usage_in g rs, base !! g with Some (Some u), Some l => saturating_sub u l | _, _ => 0 end
  /\ final_baseline rs base !! g
     = match usage_in g rs with Some (Some u) => Some u | _ => base !! g end.
Proof.
  unfold total_contribution, usage_in. revert amb base.
  induction rs as [|[[id mem] usage] rs IH]; intros amb base Hd; [done|].
  cbn [fmap list_fmap] in Hd. apply NoDup_cons in Hd as [Hni Hd].
  cbn [calls_of final_baseline]. rewrite !sumZ_app, contribution_memory, contribution_cpu.
  destruct (IH (fun i => amb (S i)) (next_baseline base id usage) Hd) as [IH1 IH2]. rewrite IH1, IH2.
  rewrite filter_cons. cbn [fst]. destruct (decide (id = g)) as [->|Hne].
  - assert (E : filter (fun r : reading => r.1.1 = g) rs = []).
    { apply filter_none, Forall_forall. intros r Hr Er. apply Hni.
      change (g ∈ rs.*1.*1). rewrite <- Er. by do 2 apply list_elem_of_fmap_2. }
    rewrite E, Z.eqb_refl. cbn [head fmap option_fmap option_map snd next_baseline].
    destruct usage as [u|]; cbn [next_baseline]; [rewrite lookup_insert_eq|]; split; try done; lia.
  - destruct (Z.eqb_spec id g); [done|].
    assert (E : next_baseline base id usage !! g = base !! g).
    { destruct usage; [by apply lookup_insert_ne|done]. }
    rewrite E. split; [lia|done].
Qed.

End Tick.
