(* ===== verification/Agent.v ===== *)
(** * Agent: the event loop

    Models the [select!] loop of [statix/src/main.rs] and the output of a batch in
    [statix/src/output.rs]: draining the ring buffer within its budget, sampling
    and closing a window, evicting, and how each emitted batch is serialized and
    handed over.  The loop is a run over the events that wake it; every event
    carries what its handler reads from outside (files, clock, random bytes).  A
    joined task's handle that is awaited a second time is an input too: it may
    give nothing, and the loop then ends.  [AgentInv], [AgentProps] and [Execs] have
    the theorems. *)

From S2P Require Export Sampler Output Ingest.

#[local] Open Scope string_scope.
#[local] Open Scope Z_scope.

(** ** Output of a batch *)

Definition to_ingest (p : BatchPayload) : IngestBatch :=
  {| schema_version := SCHEMA_VERSION; window_start_ns := bp_window_start_ns p;
     window_end_ns := bp_window_end_ns p; node := bp_node p; batch_id := bp_batch_id p;
     agent_version := bp_agent_version p; workloads := bp_workloads p |}.

Definition string_of_bytes (bs : list Z) : string :=
  String.string_of_list_ascii ((fun b => ascii_of_nat (Z.to_nat b)) <$> bs).

(** The bytes of [comm] before the first zero. *)
Fixpoint until_zero (bs : list Z) : list Z :=
  match bs with
  | [] => []
  | b :: bs => if b =? 0 then [] else b :: until_zero bs
  end.

Definition comm_to_str (bs : list Z) : string :=
  default "<invalid-utf8>" (from_utf8 (string_of_bytes (until_zero bs))).

Definition raw_event_json (e : StatixEvent) : json :=
  JObj [("kind", JNum (kind e)); ("pid", JNum (pid e)); ("tgid", JNum (tgid e));
        ("cpu_id", JNum (cpu_id e)); ("cgroup_id", JNum (event_cgroup_id e));
        ("timestamp_ns", JNum (timestamp e)); ("memory_bytes", JNum (memory_bytes e));
        ("comm", JStr (comm_to_str (Wire.comm e)))].

Definition DRAIN_BUDGET : nat := 256.
Definition EVENT_SIZE : nat := 64.

Section Agent.
Context {UUID : UuidText} `{!Channel body}.

(** [serde_json::to_string]; whether [STATIX_INGEST_URL] and
    [STATIX_RAW_EVENTS=1] are set; the node's name. *)
Variables (to_string : json -> option body) (is_http_ingest raw_events : bool) (node : string).

(** The loop's variables, the watcher's unfinished merge, the output's statics
    and what was printed. *)
Record agent : Type := Agent {
  ag_cache : AttributionCache;
  ag_merge : list (Z * WorkloadLabels);
  ag_agg : Aggregator;
  ag_sampler : Sampler;
  ag_metrics : metrics;
  ag_ring : list (list Z);
  ag_out : output_state;
  ag_printed : list body
}.

Definition set_cache (c : AttributionCache) (s : agent) : agent :=
  Agent c (ag_merge s) (ag_agg s) (ag_sampler s) (ag_metrics s) (ag_ring s) (ag_out s) (ag_printed s).
Definition set_merge (l : list (Z * WorkloadLabels)) (s : agent) : agent :=
  Agent (ag_cache s) l (ag_agg s) (ag_sampler s) (ag_metrics s) (ag_ring s) (ag_out s) (ag_printed s).
Definition set_agg (a : Aggregator) (s : agent) : agent :=
  Agent (ag_cache s) (ag_merge s) a (ag_sampler s) (ag_metrics s) (ag_ring s) (ag_out s) (ag_printed s).
Definition set_sampler (p : Sampler) (m : metrics) (s : agent) : agent :=
  Agent (ag_cache s) (ag_merge s) (ag_agg s) p m (ag_ring s) (ag_out s) (ag_printed s).
Definition set_ring (r : list (list Z)) (s : agent) : agent :=
  Agent (ag_cache s) (ag_merge s) (ag_agg s) (ag_sampler s) (ag_metrics s) r (ag_out s) (ag_printed s).
Definition set_output (o : output_state) (s : agent) : agent :=
  Agent (ag_cache s) (ag_merge s) (ag_agg s) (ag_sampler s) (ag_metrics s) (ag_ring s) o (ag_printed s).
Definition println (line : option body) (s : agent) : agent :=
  Agent (ag_cache s) (ag_merge s) (ag_agg s) (ag_sampler s) (ag_metrics s) (ag_ring s) (ag_out s)
    (ag_printed s ++ option_list line)%list.

Definition emit_batch (payload : BatchPayload) (s : agent) : agent :=
  match to_string (batch_to_json (to_ingest payload)) with
  | None => s
  | Some json =>
      if is_http_ingest then set_output (enqueue_batch_json json (ag_out s)).2 s
      else println (Some json) s
  end.

Definition emit_all (bs : list BatchPayload) (s : agent) : agent := foldl (fun s b => emit_batch b s) s bs.

Definition emit_raw (e : StatixEvent) (s : agent) : agent := println (to_string (raw_event_json e)) s.

(** ** Handlers *)

(** One item of the ring.  Both the readiness and the poll branch of the loop do
    this; the batches emitted are also returned. *)
Fixpoint drain_ring {K : KernelFiles} (drained : nat) (ring : list (list Z)) (amb : nat -> ambient)
    (s : agent) : list BatchPayload * agent :=
  if negb (drained <? DRAIN_BUDGET)%nat then ([], set_ring ring s)
  else
    match ring with
    | [] => ([], set_ring [] s)
    | item :: ring =>
        if (length item <? EVENT_SIZE)%nat then drain_ring drained ring amb s
        else
          let event := decode_event item in
          let s := if raw_events then emit_raw event s else s in
          let '(batch, c, a) := on_statix_event event node (amb 0%nat) (ag_cache s) (ag_agg s) in
          let s := emit_all (option_list batch) (set_agg a (set_cache c s)) in
          let '(bs, s) := drain_ring (S drained) ring (fun i => amb (S i)) s in
          ((option_list batch ++ bs)%list, s)
    end.

Definition sample_and_flush {FS : CgroupFs} (task_ok : bool) (amb : nat -> ambient * ambient) (now : ambient)
    (s : agent) : list BatchPayload * agent :=
  let '(early, a, m, p) := tick task_ok node amb (ag_cache s) (ag_agg s) (ag_metrics s) (ag_sampler s) in
  let s := emit_all early (set_sampler p m (set_agg a s)) in
  let '(batch, a) := flush node now (ag_agg s) in
  let s := emit_all (option_list batch) (set_agg a s) in
  ((early ++ option_list batch)%list, s).

Definition evict_tick (exists_ : path -> bool) (s : agent) : agent :=
  let '(evicted, c) := evict_stale_cgroups exists_ (ag_cache s) in
  let s := set_cache c s in
  if (0 <? evicted)%nat
  then set_sampler (ag_sampler s) (counter_add "statix_cache_evictions_total" (Z.of_nat evicted) (ag_metrics s)) s
  else s.

(** ** The loop *)

(** What wakes the loop, and what the other tasks do between: the kernel fills
    the ring, and the watcher stores a pod, forgets one, or reads and later
    writes the labels of a merge.  [WatcherDown] and [MonitorDown] are the two
    joined tasks' ends: the handler polls the handle a second time, after the
    [select!] took its result.  A future gives no guarantee then; [again] is what
    the second poll gives, [None] when it panics or never returns and otherwise
    whether the task had panicked.  [RingFailed] is an error of the ring's file
    descriptor. *)
Inductive agent_event : Type :=
| RingItems (items : list (list Z))
| RingReady (K : KernelFiles) (amb : nat -> ambient)
| FlushTick (FS : CgroupFs) (task_ok : bool) (amb : nat -> ambient * ambient) (now : ambient)
| EvictTick (exists_ : path -> bool)
| PodSeen (p : Pod)
| PodDeleted (p : Pod)
| MergeRead
| MergeWrite
| WatcherDown (again : option bool)
| MonitorDown (again : option bool)
| RingFailed
| Signal (FS : CgroupFs) (task_ok : bool) (amb : nat -> ambient * ambient) (now : ambient).

Definition agent_step (e : agent_event) (s : agent) : list BatchPayload * agent :=
  match e with
  | RingItems items => ([], set_ring (ag_ring s ++ items)%list s)
  | RingReady K amb => drain_ring (K := K) 0 (ag_ring s) amb s
  | FlushTick fs ok amb now | Signal fs ok amb now => sample_and_flush (FS := fs) ok amb now s
  | EvictTick ex => ([], evict_tick ex s)
  | PodSeen p => ([], set_cache (on_watch_event (InitApply p) (ag_cache s)) s)
  | PodDeleted p => ([], set_cache (on_watch_event (Attribution.Delete p) (ag_cache s)) s)
  | MergeRead => ([], set_merge (merge_snapshot (ag_cache s)).1 s)
  | MergeWrite => ([], set_cache (merge_write (ag_merge s) (ag_cache s)) s)
  | WatcherDown again =>
      ([], if bool_decide (again = Some true)
           then set_sampler (ag_sampler s) (counter_add "statix_k8s_watcher_panics_total" 1 (ag_metrics s)) s
           else s)
  | MonitorDown again =>
      ([], if bool_decide (again = Some true)
           then set_sampler (ag_sampler s) (counter_add "statix_ring_monitor_panics_total" 1 (ag_metrics s)) s
           else s)
  | RingFailed => ([], s)
  end.

(** What ends the loop: a signal, after a last flush; and, without one, a failed
    ring and a second poll that does not return. *)
Definition ends (e : agent_event) : bool :=
  match e with
  | Signal _ _ _ _ | RingFailed | WatcherDown None | MonitorDown None => true
  | _ => false
  end.

Fixpoint agent_loop (es : list agent_event) (s : agent) : list BatchPayload * agent :=
  match es with
  | [] => ([], s)
  | e :: es =>
      let '(bs, s) := agent_step e s in
      if ends e then (bs, s)
      else let '(bs', s) := agent_loop es s in ((bs ++ bs')%list, s)
  end.

(** The state the loop starts in. *)
Definition agent_start {FS : CgroupFs} (cgroup_setting : option string) (now : Z) (walk : list dir_entry)
    (prime_ok : bool) (out : output_state) : agent :=
  let c := bootstrap_existing_cgroups walk (new_cache cgroup_setting) in
  Agent c [] (new_aggregator now) (prime prime_ok c new_sampler) ∅ [] out [].

End Agent.
