(* ===== verification/AgentInv.v ===== *)
(** * AgentInv: what every state of the agent satisfies

    Lemmas for [AgentProps]: the numbers in the attribution cache, the aggregator
    and the sampler are within the widths of their Rust types ([agent_ok]), every
    handler keeps this, and each handler of the loop is a run of aggregator
    calls, which carries the aggregator's conservation law over to the agent. *)

From S2P Require Export Agent.
From S2P Require Import Config.

#[local] Open Scope Z_scope.
#[local] Existing Instance attribution_cache.

(** ** Values read *)

Lemma urange_0 w : 0 <= w -> urange w 0.
Proof. intros. split; [done|by apply Z.pow_pos_nonneg]. Qed.

Lemma urange_umax w x : urange w x <-> 0 <= x <= umax w.
Proof. unfold urange, umax. lia. Qed.

Create HintDb typed.
#[export] Hint Resolve urange_0 : typed.

Lemma saturating_sub_typed x y : urange 64 x -> 0 <= y -> urange 64 (saturating_sub x y).
Proof. unfold urange, saturating_sub. lia. Qed.

Lemma saturating_add_typed w x y : 0 <= w -> urange w x -> 0 <= y -> urange w (saturating_add w x y).
Proof. intros Hw. rewrite !urange_umax. unfold saturating_add. lia. Qed.

Lemma parse_uint_typed w s v : 0 < w -> parse_uint w s = Some v -> urange w v.
Proof. intros Hw H. by apply parse_uint_range in H. Qed.

Lemma from_le_range bs : Forall byte_ok bs -> 0 <= from_le bs < 256 ^ zlen bs.
Proof.
  induction 1 as [|b bs Hb _ IH]; [done|]. unfold byte_ok in Hb.
  change (from_le (b :: bs)) with (b + 256 * from_le bs).
  assert (E : zlen (b :: bs) = Z.succ (zlen bs)) by (rewrite length_cons; lia).
  rewrite E, Z.pow_succ_r by lia. lia.
Qed.

Lemma field_typed off len bs :
  Forall byte_ok bs -> urange (8 * Z.of_nat len) (from_le (field off len bs)).
Proof.
  intros Hb. unfold field. set (l := take len (drop off bs)).
  assert (Hl : (length l <= len)%nat) by (unfold l; rewrite length_take; lia).
  destruct (from_le_range l) as [H0 H1]; [by apply Forall_take, Forall_drop|]. split; [done|].
  eapply Z.lt_le_trans; [exact H1|]. rewrite (Z.pow_mul_r 2 8) by lia.
  apply Z.pow_le_mono_r; lia.
Qed.

Lemma read_memory_typed {K : KernelFiles} p v : read_memory_current_at p = Ok v -> urange 64 v.
Proof.
  unfold read_memory_current_at. repeat case_match; intros [= <-]. eauto using parse_uint_typed with lia.
Qed.

Lemma read_cpu_typed {K : KernelFiles} p v : read_cpu_usage_usec_at p = Ok v -> urange 64 v.
Proof.
  unfold read_cpu_usage_usec_at. repeat case_match; intros [= <-]. eauto using parse_uint_typed with lia.
Qed.

Lemma read_inactive_nonneg {K : KernelFiles} p : 0 <= default 0 (read_inactive_file_at p).
Proof.
  unfold read_inactive_file_at. destruct (read_once p 4096) as [| |bs]; try done.
  destruct (from_utf8 bs) as [s0|]; [|done]. cbn.
  destruct (head _) as [l|]; [|done]. cbn. destruct (parse_uint 64 (trim l)) as [v|] eqn:E; [|done].
  apply parse_uint_typed in E; [|done]. apply E.
Qed.

(** ** Resources *)

Definition resources_typed (r : Resources) : Prop :=
  urange 64 (res_cpu_request_millicores r) /\ urange 64 (res_memory_request_bytes r)
  /\ urange 64 (res_cpu_limit_millicores r) /\ urange 64 (res_memory_limit_bytes r).

Lemma default_resources_typed : resources_typed default_resources.
Proof. by split_and!; apply urange_0. Qed.

Lemma accept_typed x n : accept x = Some n -> urange 64 n.
Proof.
  unfold accept. case_match; [|done]. intros [= <-]. apply urange_umax. unfold round_as_u64.
  assert (0 <= umax 64) by done. destruct x as [m e|[]|]; try lia. by apply clamp_bounds.
Qed.

Lemma cpu_typed q : urange 64 (default 0 (q ≫= cpu_millicores)).
Proof.
  destruct q as [q|]; [|by apply urange_0]. cbn. destruct (cpu_millicores q) eqn:E; [|by apply urange_0].
  unfold cpu_millicores in E. apply bind_Some in E as (x & _ & E). by apply accept_typed in E.
Qed.

Lemma memory_typed q : urange 64 (default 0 (q ≫= memory_bytes_of)).
Proof.
  destruct q as [q|]; [|by apply urange_0]. cbn. destruct (memory_bytes_of q) eqn:E; [|by apply urange_0].
  unfold memory_bytes_of in E. destruct (split_unit (trim q)) as [u c].
  apply bind_Some in E as (x & _ & E). by apply accept_typed in E.
Qed.

Lemma resources_from_typed spec : resources_typed (resources_from spec).
Proof.
  destruct spec as [r|]; [|apply default_resources_typed].
  split_and!; apply cpu_typed || apply memory_typed.
Qed.

Definition pod_typed (pod : PodInfo) : Prop := map_Forall (fun _ r => resources_typed r) (pi_resources pod).

Lemma pod_info_typed p : pod_typed (pod_info p).
Proof.
  unfold pod_typed, pod_info. cbn. destruct (pod_spec p) as [sp|]; [|apply map_Forall_empty].
  induction (containers_of sp) as [|c l IH] using rev_ind; [apply map_Forall_empty|].
  rewrite foldl_snoc. apply map_Forall_insert_2; [apply resources_from_typed|done].
Qed.

(** ** The cache *)

Definition labels_typed (l : WorkloadLabels) : Prop := resources_typed (lb_resources l).

Record cache_typed (c : AttributionCache) : Prop := {
  ct_ids : map_Forall (fun id _ => urange 64 id) (cgroup_paths (cache_state c));
  ct_labels : map_Forall (fun _ l => labels_typed l) (cgroup_labels (cache_state c));
  ct_pods : map_Forall (fun _ pod => pod_typed pod) (pod_by_uid (cache_state c))
}.

Lemma labels_from_path_typed p : labels_typed (labels_from_cgroup_path p).
Proof. destruct p; apply default_resources_typed. Qed.

Lemma labels_for_cgroup_typed id c : cache_typed c -> labels_typed (cache_labels_for_cgroup id c).
Proof.
  intros [_ H _]. unfold cache_labels_for_cgroup. destruct (cgroup_labels _ !! id) as [l|] eqn:E.
  - by apply (H id).
  - apply default_resources_typed.
Qed.

Lemma merged_labels_typed pods p :
  map_Forall (fun _ pod => pod_typed pod) pods -> labels_typed (merged_labels pods p).1.
Proof.
  intros Hp. unfold merged_labels. destruct (lb_pod_uid _) as [uid|]; [|apply labels_from_path_typed].
  destruct (pods !! uid) as [pod|] eqn:E; [|apply labels_from_path_typed].
  unfold labels_typed. cbn. destruct (name ← dir_name p; container_name_in_pod name pod) as [name|]; cbn;
    [|apply default_resources_typed].
  destruct (pi_resources pod !! name) as [r|] eqn:Er; cbn; [|apply default_resources_typed].
  exact (Hp uid pod E name r Er).
Qed.

Lemma merge_snapshot_typed c :
  cache_typed c -> Forall (fun x => labels_typed x.2) (merge_snapshot c).1.
Proof.
  intros [_ _ Hp]. unfold merge_snapshot. cbn [fst]. apply Forall_fmap, Forall_fmap, Forall_forall.
  intros [id p] _. cbn. pose proof (merged_labels_typed _ p Hp) as H.
  by destruct (merged_labels (pod_by_uid (cache_state c)) p).
Qed.

Lemma insert_label_typed root id l s :
  cache_typed {| cgroup_root := root; cache_state := s |} -> labels_typed l ->
  cache_typed {| cgroup_root := root; cache_state := insert_label id l s |}.
Proof. intros [H1 H2 H3] Hl. split; try done. by apply map_Forall_insert_2. Qed.

Lemma register_typed id p c : cache_typed c -> urange 64 id -> cache_typed (register_cgroup_directory id p c).
Proof.
  intros [H1 H2 H3] Hid. split; try done; cbn; apply map_Forall_insert_2; try done.
  apply labels_from_path_typed.
Qed.

Lemma on_identity_event_typed {K : KernelFiles} e c :
  cache_typed c -> urange 64 (event_cgroup_id e) -> cache_typed (cache_on_identity_event e c).
Proof.
  intros HT Hid. unfold cache_on_identity_event. case_bool_decide as Hd; [done|].
  unfold identity_write, on_state. rewrite (bool_decide_eq_false_2 _ Hd).
  destruct c as [root s]. cbn in *. apply insert_label_typed; [|apply labels_from_path_typed].
  destruct HT as [H1 H2 H3]. case_match; [|done]. split; try done. cbn. by apply map_Forall_insert_2.
Qed.

Lemma merge_write_typed l c :
  cache_typed c -> Forall (fun x => labels_typed x.2) l -> cache_typed (merge_write l c).
Proof.
  intros HT Hl. destruct c as [root s]. unfold merge_write, on_state. cbn in *.
  revert s HT. induction Hl as [|x l Hx _ IH]; intros s HT; [done|]. by apply IH, insert_label_typed.
Qed.

Lemma pod_seen_typed p c : cache_typed c -> cache_typed (on_watch_event (InitApply p) c).
Proof.
  intros HT. cbn. unfold pod_info_from. destruct (meta_uid p) as [[|? uid]|]; try done.
  destruct HT as [H1 H2 H3]. split; try done. apply map_Forall_insert_2; [apply pod_info_typed|done].
Qed.

Lemma pod_deleted_typed p c : cache_typed c -> cache_typed (on_watch_event (Attribution.Delete p) c).
Proof.
  intros HT. cbn. destruct (meta_uid p); [|done]. destruct HT as [H1 H2 H3]. split; try done.
  by apply map_Forall_delete.
Qed.

Lemma evict_typed ex c : cache_typed c -> cache_typed (evict_stale_cgroups ex c).2.
Proof.
  intros HT. unfold evict_stale_cgroups. destruct (stale_ids ex (cache_state c)) as [|x l]; [done|].
  cbn [snd]. generalize (x :: l). clear x l. intros ids. revert c HT.
  induction ids as [|i ids IH]; intros c HT; [by destruct c|].
  apply (IH (on_state (fun s => remove_cgroup s i) c)). destruct HT as [H1 H2 H3].
  split; try done; by apply map_Forall_delete.
Qed.

Definition entry_typed (e : dir_entry) : Prop := match de_ino e with Some i => urange 64 i | None => True end.

Lemma discovered_typed e i p : entry_typed e -> discovered e = Some (i, p) -> urange 64 i.
Proof.
  unfold discovered, entry_typed. intros He. destruct (negb (de_is_dir e)), (de_is_root e); try done.
  destruct (de_ino e) as [j|]; [|done]. cbn. by destruct (j =? 0); intros [= <- <-].
Qed.

Lemma bootstrap_keeps (P : AttributionCache -> Prop) walk c :
  (forall e i p c, e ∈ walk -> discovered e = Some (i, p) -> P c -> P (register_cgroup_directory i p c)) ->
  P c -> P (bootstrap_existing_cgroups walk c).
Proof.
  unfold bootstrap_existing_cgroups. intros HP. revert c.
  induction walk as [|e walk IH]; intros c Hc; [done|].
  assert (Hrec : forall c, P c -> P (foldl (fun c '(id, p) => register_cgroup_directory id p c) c (omap discovered walk))).
  { intros c0. apply IH. intros e0 i p c1 He. apply HP. by right. }
  change (omap discovered (e :: walk))
    with (match discovered e with Some y => y :: omap discovered walk | None => omap discovered walk end).
  destruct (discovered e) as [[i p]|] eqn:E; [|by apply Hrec]. apply Hrec.
  apply (HP e i p c); [by left|done|done].
Qed.

Lemma bootstrap_typed walk c :
  cache_typed c -> Forall entry_typed walk -> cache_typed (bootstrap_existing_cgroups walk c).
Proof.
  intros HT Hw. apply bootstrap_keeps; [|done]. intros e i p c0 He E Hc. apply register_typed; [done|].
  rewrite Forall_forall in Hw. by apply (discovered_typed e i p); [apply Hw|].
Qed.

Lemma bootstrap_inv walk c : cache_inv c -> cache_inv (bootstrap_existing_cgroups walk c).
Proof. intros HI. apply bootstrap_keeps; [|done]. intros e i p c0 _ _. apply register_inv. Qed.

Lemma new_cache_typed setting : cache_typed (new_cache setting).
Proof. split; apply map_Forall_empty. Qed.

(** ** The aggregator *)

Definition stats_typed (m : stats_map) : Prop := map_Forall (fun id s => row_ok (row_of (id, s))) m.

Record agg_typed (a : Aggregator) : Prop := {
  at_buffers : forall i, stats_typed (buffer i a);
  at_start : urange 64 (ag_window_start_ns a)
}.

Definition payload_typed (p : BatchPayload) : Prop := batch_ok (to_ingest p).

Definition call_typed (x : agg_call * ambient) : Prop :=
  urange 64 (now_ns x.2)
  /\ match x.1 with
     | CallEvent e => urange 64 (event_cgroup_id e) /\ urange 64 (memory_bytes e)
     | CallMemory id bytes => urange 64 id /\ urange 64 bytes
     | CallCpu id delta => urange 64 id /\ urange 64 delta
     | CallFlush => True
     end.

Lemma set_buffer_typed i m a : agg_typed a -> stats_typed m -> agg_typed (set_buffer i m a).
Proof. intros [H1 H2] Hm. split; [|done]. intros j. specialize (H1 j). by destruct i, j. Qed.

Lemma default_row_ok id : urange 64 id -> row_ok (row_of (id, default_stats)).
Proof. intros Hid. split_and!; cbn; try apply urange_0; done. Qed.

Lemma on_entry_typed id f a :
  agg_typed a -> urange 64 id ->
  (forall s, row_ok (row_of (id, s)) -> row_ok (row_of (id, f s))) -> agg_typed (on_entry id f a).
Proof.
  intros Ha Hid Hf. apply set_buffer_typed; [done|]. pose proof (at_buffers a Ha (ag_active a)) as H.
  apply map_Forall_insert_2; [|done]. apply Hf. destruct (buffer (ag_active a) a !! id) as [s|] eqn:E.
  - exact (H id s E).
  - by apply default_row_ok.
Qed.

Lemma on_exec_typed id l s : labels_typed l -> row_ok (row_of (id, s)) -> row_ok (row_of (id, on_exec l s)).
Proof.
  intros (L1 & L2 & L3 & L4) (H1 & H2 & H3 & H4 & H5 & H6 & _). split_and!; try done.
  by apply saturating_add_typed.
Qed.

Lemma on_memory_typed id bytes l s :
  labels_typed l -> urange 64 bytes -> row_ok (row_of (id, s)) -> row_ok (row_of (id, on_memory bytes l s)).
Proof.
  intros (L1 & L2 & L3 & L4) Hb (H1 & H2 & H3 & H4 & H5 & H6 & _). split_and!; try done.
  - cbn. by destruct (_ <? _).
  - by apply saturating_add_typed.
Qed.

Lemma on_cpu_typed id d l s :
  labels_typed l -> urange 64 d -> row_ok (row_of (id, s)) -> row_ok (row_of (id, on_cpu d l s)).
Proof.
  intros (L1 & L2 & L3 & L4) Hd (H1 & H2 & H3 & H4 & H5 & H6 & _). split_and!; try done.
  apply saturating_add_typed; [done|exact H6|apply Hd].
Qed.

Section Runs.
Context {K : KernelFiles} {UUID : UuidText}.

Lemma flush_typed node amb a :
  agg_typed a -> urange 64 (now_ns amb) ->
  agg_typed (flush node amb a).2 /\ forall p, (flush node amb a).1 = Some p -> payload_typed p.
Proof.
  intros [H1 H2] Hn. unfold flush. case_bool_decide.
  - split; [|done]. split; [|done]. exact H1.
  - cbn [fst snd]. split.
    + apply set_buffer_typed; [|apply map_Forall_empty]. split; [|done]. exact H1.
    + intros p [= <-]. split_and!; try done. apply Forall_fmap, Forall_forall. intros [id s] Hin.
      apply elem_of_map_to_list in Hin. exact (H1 (ag_active a) id s Hin).
Qed.

Lemma early_typed node amb a :
  agg_typed a -> urange 64 (now_ns amb) ->
  agg_typed (try_early_flush node amb a).2 /\ forall p, (try_early_flush node amb a).1 = Some p -> payload_typed p.
Proof. unfold try_early_flush. destruct (_ <=? _)%nat; [apply flush_typed|done]. Qed.

Abbreviation kstep node call amb st := (agg_step (ATT := attribution_cache) node call amb st).
Abbreviation krun node calls st := (agg_run (ATT := attribution_cache) node calls st).


Lemma agg_run_cons node call amb calls (st : AttributionCache * Aggregator) :
  krun node ((call, amb) :: calls) st
  = (option_list (kstep node call amb st).1 ++ (krun node calls (kstep node call amb st).2).1,
     (krun node calls (kstep node call amb st).2).2).
Proof.
  cbn [agg_run]. destruct (kstep node call amb st) as [b st1]. cbn [fst snd].
  destruct (krun node calls st1) as [bs st2]. by destruct b.
Qed.

Lemma agg_run_cons_eq node call amb calls (st st1 st2 : AttributionCache * Aggregator) b bs :
  kstep node call amb st = (b, st1) -> krun node calls st1 = (bs, st2) ->
  krun node ((call, amb) :: calls) st = (option_list b ++ bs, st2).
Proof. intros H1 H2. rewrite agg_run_cons, H1. cbn [fst snd]. by rewrite H2. Qed.

Definition typed_pair (st : AttributionCache * Aggregator) : Prop := cache_typed st.1 /\ agg_typed st.2.

Lemma early_pair_typed node amb (c : AttributionCache) a :
  typed_pair (c, a) -> urange 64 (now_ns amb) ->
  typed_pair (c, (try_early_flush node amb a).2)
  /\ forall p, (try_early_flush node amb a).1 = Some p -> payload_typed p.
Proof. intros [Hc Ha] Hn. by destruct (early_typed node amb a Ha Hn). Qed.

Lemma agg_step_typed node call amb (st : AttributionCache * Aggregator) :
  typed_pair st -> call_typed (call, amb) ->
  typed_pair (kstep node call amb st).2
  /\ forall p, (kstep node call amb st).1 = Some p -> payload_typed p.
Proof.
  destruct st as [c a]. intros [Hc Ha] [Hn Hcall]. cbn [fst snd] in *.
  pose proof (fun id => labels_for_cgroup_typed id c Hc) as Hl.
  destruct call as [e|id bytes|id d|]; cbn [agg_step].
  - destruct Hcall as [Hid Hm]. pose proof (on_identity_event_typed e c Hc Hid) as Hc'.
    unfold on_statix_event. destruct (kind e =? _); [|destruct (kind e =? _)]; cbn [on_identity_event labels_for_cgroup attribution_cache].
    + pose proof (early_pair_typed node amb (cache_on_identity_event e c)
        (on_entry (event_cgroup_id e) (on_exec (cache_labels_for_cgroup (event_cgroup_id e)
           (cache_on_identity_event e c))) a)) as Hgo.
      destruct (try_early_flush _ _ _). apply Hgo; [|done]. split; [done|]. apply on_entry_typed; try done.
      intros s. by apply on_exec_typed, labels_for_cgroup_typed.
    + unfold ingest_memory_sample_inner. pose proof (early_pair_typed node amb c (on_entry (event_cgroup_id e)
        (on_memory (memory_bytes e) (cache_labels_for_cgroup (event_cgroup_id e) c)) a)) as Hgo.
      cbn in *. destruct (try_early_flush _ _ _). apply Hgo; [|done]. split; [done|]. apply on_entry_typed; try done.
      intros s. by apply on_memory_typed.
    + pose proof (early_pair_typed node amb c a) as Hgo. destruct (try_early_flush _ _ _). by apply Hgo.
  - destruct Hcall as [Hid Hm]. unfold ingest_memory_sample, ingest_memory_sample_inner.
    pose proof (early_pair_typed node amb c (on_entry id (on_memory bytes (cache_labels_for_cgroup id c)) a)) as Hgo.
    cbn in *. destruct (try_early_flush _ _ _). apply Hgo; [|done]. split; [done|]. apply on_entry_typed; try done.
    intros s. by apply on_memory_typed.
  - destruct Hcall as [Hid Hm]. unfold ingest_cpu_sample.
    pose proof (early_pair_typed node amb c (on_entry id (on_cpu d (cache_labels_for_cgroup id c)) a)) as Hgo.
    cbn in *. destruct (try_early_flush _ _ _). apply Hgo; [|done]. split; [done|]. apply on_entry_typed; try done.
    intros s. by apply on_cpu_typed.
  - destruct (flush_typed node amb a Ha Hn) as [? ?]. by destruct (flush node amb a).
Qed.

Lemma agg_run_typed node calls (st : AttributionCache * Aggregator) :
  typed_pair st -> Forall call_typed calls ->
  typed_pair (krun node calls st).2 /\ Forall payload_typed (krun node calls st).1.
Proof.
  intros Hst Hc. revert st Hst. induction Hc as [|[call amb] calls Hc1 _ IH]; intros st Hst; [done|].
  rewrite agg_run_cons. cbn [fst snd]. destruct (agg_step_typed node call amb st Hst Hc1) as [H1 H2].
  destruct (IH _ H1) as [H3 H4]. split; [done|]. apply Forall_app. split; [|done].
  destruct (kstep node call amb st).1; constructor; auto.
Qed.

(** The path maps stay consistent. *)
Lemma agg_run_cache node calls (st : AttributionCache * Aggregator) :
  cache_inv st.1 -> cache_inv (krun node calls st).2.1.
Proof.
  revert st. induction calls as [|[call amb] calls IH]; intros st Hc; [done|].
  rewrite agg_run_cons. apply IH. destruct st as [c a], call; cbn [agg_step];
    [|repeat case_match; by simplify_eq/=..].
  unfold on_statix_event. repeat case_match; simplify_eq/=; try done. by apply on_identity_event_inv.
Qed.

Definition active (st : AttributionCache * Aggregator) : stats_map := buffer (ag_active st.2) st.2.

(** The aggregator's conservation law, for a run from any state. *)
Lemma agg_run_conserves k g node calls (st : AttributionCache * Aggregator) :
  agg_inv st.2 -> 0 <= held k g (active st) -> Forall (fun x => 0 <= contribution k g x.1) calls ->
  held k g (active st) + total_contribution k g calls <= umax (stat_width k) ->
  held k g (active st) + total_contribution k g calls
  = shipped k g (krun node calls st).1 + held k g (active (krun node calls st).2)
  /\ 0 <= shipped k g (krun node calls st).1 /\ 0 <= held k g (active (krun node calls st).2)
  /\ agg_inv (krun node calls st).2.2.
Proof.
  destruct st as [c a]. intros HI H0 Hc Hle. pose proof (run_spec node calls c a HI) as HR.
  pose proof (spec_run_conserves k g node calls c (spec_of a) H0 Hc Hle) as HC. unfold active in *. cbn [fst snd] in *.
  destruct (spec_run node calls _) as [bs2 [c2 s2]]. destruct (krun node calls _) as [bs [c1 a1]].
  destruct HR as (-> & -> & <- & HI1). destruct HC as (H1 & H2 & H3). done.
Qed.

Lemma agg_run_inv node calls (st : AttributionCache * Aggregator) :
  agg_inv st.2 -> agg_inv (krun node calls st).2.2.
Proof.
  destruct st as [c a]. intros HI. pose proof (run_spec node calls c a HI) as HR. cbn [snd] in *.
  destruct (spec_run node calls _) as [bs2 [c2 s2]]. destruct (krun node calls _) as [bs [c1 a1]].
  by destruct HR as (_ & _ & _ & ?).
Qed.

Definition agg_bounded (a : Aggregator) : Prop :=
  ag_max_keys a = DEFAULT_MAX_KEYS /\ (size (buffer (ag_active a) a) < DEFAULT_MAX_KEYS)%nat.

Lemma agg_run_bounded node calls (st : AttributionCache * Aggregator) :
  agg_inv st.2 -> agg_bounded st.2 ->
  agg_bounded (krun node calls st).2.2 /\ Forall (batch_bounded DEFAULT_MAX_KEYS) (krun node calls st).1.
Proof.
  destruct st as [c a]. intros HI [Hm Hs]. pose proof (run_spec node calls c a HI) as HR. cbn [snd] in *.
  pose proof (spec_run_ok node calls c (spec_of a)) as HB. cbn [sp_map sp_max spec_of] in HB. rewrite Hm in HB.
  specialize (HB Hs).
  destruct (spec_run node calls _) as [bs2 [c2 s2]]. destruct (agg_run node calls _) as [bs [c1 a1]].
  destruct HR as (-> & _ & <- & _). destruct HB as (H1 & H2 & H3). done.
Qed.

End Runs.

Abbreviation kstep node call amb st := (agg_step (ATT := attribution_cache) node call amb st).
Abbreviation krun node calls st := (agg_run (ATT := attribution_cache) node calls st).


(** ** Readings *)

Definition reading_typed (r : reading) : Prop :=
  let '(id, mem, usage) := r in
  urange 64 id /\ (forall m, mem = Some m -> urange 64 m) /\ (forall u, usage = Some u -> urange 64 u).

Definition baseline_typed (s : Sampler) : Prop := map_Forall (fun _ v => urange 64 v) (cpu_baseline s).

Lemma sample_targets_typed c id mem cpu stat :
  cache_inv c -> cache_typed c -> (id, mem, cpu, stat) ∈ sample_targets c -> urange 64 id.
Proof.
  intros HI HT H. apply (sample_targets_spec c HI) in H as (p & Hp & _). exact (ct_ids c HT id p Hp).
Qed.

Section Readings.
Context {FS : CgroupFs}.

Lemma read_target_spec id mem cpu stat r :
  read_target (id, mem, cpu, stat) = Some r -> r.1.1 = id /\ (urange 64 id -> reading_typed r).
Proof.
  unfold read_target. destruct (negb (in_leaf mem)); [done|]. intros [= <-]. split; [done|].
  intros Hid. split_and!; [done| |].
  - intros m. destruct (read_memory_current_at mem) eqn:E; [|done]. intros [= <-].
    apply saturating_sub_typed; [by apply read_memory_typed in E|apply read_inactive_nonneg].
  - intros u. destruct (read_cpu_usage_usec_at cpu) eqn:E; [|done]. intros [= <-].
    by apply read_cpu_typed in E.
Qed.

Lemma read_targets_ids ts : (read_targets ts).*1.*1 `sublist_of` ts.*1.*1.*1.
Proof.
  induction ts as [|[[[id mem] cpu] stat] ts IH]; [done|]. unfold read_targets. cbn [fmap list_fmap omap list_omap].
  destruct (read_target (id, mem, cpu, stat)) as [r|] eqn:E; [|by constructor].
  apply read_target_spec in E as [<- _]. cbn. by constructor.
Qed.

Lemma read_targets_NoDup c : cache_inv c -> NoDup (read_targets (sample_targets c)).*1.*1.
Proof.
  intros HI. eapply sublist_NoDup; [|apply read_targets_ids]. destruct (sample_targets_spec c HI) as [-> _].
  apply NoDup_fst_map_to_list.
Qed.

Lemma read_targets_typed c :
  cache_inv c -> cache_typed c -> Forall reading_typed (read_targets (sample_targets c)).
Proof.
  intros HI HT. apply Forall_forall. intros r Hr. unfold read_targets in Hr.
  apply list_elem_of_omap in Hr as ([[[id mem] cpu] stat] & Hin & E).
  apply read_target_spec in E as [_ E]. eapply E, sample_targets_typed; done.
Qed.

Lemma prime_typed ok c : baseline_typed (prime ok c new_sampler).
Proof.
  unfold prime, baseline_typed. cbn [cpu_baseline new_sampler]. destruct ok; [|apply map_Forall_empty].
  assert (Hl : Forall (fun x => urange 64 x.2) (omap prime_reading (sample_targets c))).
  { apply Forall_forall. intros [id u] H. apply list_elem_of_omap in H as ([[[id' mem] cpu] stat] & _ & E).
    unfold prime_reading in E. destruct (negb (in_leaf cpu)); [done|].
    destruct (read_cpu_usage_usec_at cpu) eqn:Er; [|done]. injection E as <- <-. by apply read_cpu_typed in Er. }
  revert Hl. induction (omap prime_reading (sample_targets c)) as [|[id u] l IH] using rev_ind; intros Hl; [apply map_Forall_empty|].
  apply Forall_app in Hl as [Hl Hu]. inv Hu. rewrite foldl_snoc. apply map_Forall_insert_2; auto.
Qed.

End Readings.

Lemma retain_live_lookup rs s g :
  cpu_baseline (retain_live rs s) !! g = if bool_decide (g ∈ rs.*1.*1) then cpu_baseline s !! g else None.
Proof.
  unfold retain_live. cbn. rewrite map_lookup_filter. destruct (cpu_baseline s !! g); cbn.
  - case_bool_decide; [by rewrite option_guard_True|by rewrite option_guard_False].
  - by case_bool_decide.
Qed.

Lemma retain_live_typed rs s : baseline_typed s -> baseline_typed (retain_live rs s).
Proof. intros H id v. rewrite retain_live_lookup. case_bool_decide; [apply H|done]. Qed.

Lemma next_baseline_typed base id usage :
  map_Forall (fun _ v => urange 64 v) base -> (forall u, usage = Some u -> urange 64 u) ->
  map_Forall (fun _ v => urange 64 v) (next_baseline base id usage).
Proof. intros Hb Hu. destruct usage; [|done]. apply map_Forall_insert_2; auto. Qed.

Lemma calls_of_typed rs amb base :
  Forall reading_typed rs -> map_Forall (fun _ v => urange 64 v) base ->
  (forall i, urange 64 (now_ns (amb i).1) /\ urange 64 (now_ns (amb i).2)) ->
  Forall call_typed (calls_of rs amb base) /\ map_Forall (fun _ v => urange 64 v) (final_baseline rs base).
Proof.
  intros Hrs. revert amb base. induction Hrs as [|[[id mem] usage] rs (Hid & Hm & Hu) _ IH]; intros amb base Hb Ha; [done|].
  cbn [calls_of final_baseline].
  destruct (IH (fun i => amb (S i)) (next_baseline base id usage)) as [H1 H2];
    [by apply next_baseline_typed|intros i; apply Ha|]. destruct (Ha 0%nat) as [A1 A2].
  split; [|done]. rewrite !Forall_app. split_and!; [| |done].
  - destruct mem as [m|]; constructor; [|done]. split; [done|]. split; [done|]. by apply Hm.
  - unfold cpu_calls, cpu_delta. destruct usage as [u|]; [|done]. destruct (base !! id) as [l|] eqn:E; [|done].
    constructor; [|done]. split; [done|]. split; [done|]. apply saturating_sub_typed; [by apply Hu|apply (Hb id l E)].
Qed.

Lemma calls_of_nonneg k g rs amb base : Forall (fun x => 0 <= contribution k g x.1) (calls_of rs amb base).
Proof.
  revert amb base. induction rs as [|[[id mem] usage] rs IH]; intros amb base; [done|].
  cbn [calls_of]. rewrite !Forall_app. split_and!; [| |done].
  - destruct mem; constructor; [|done]. cbn. destruct_ifs; try done. by destruct k.
  - unfold cpu_calls, cpu_delta. destruct usage as [u|]; [|done]. destruct (base !! id) as [l|]; [|done].
    constructor; [|done]. cbn. destruct_ifs; try done. destruct k; try done. unfold saturating_sub. lia.
Qed.

(** ** The handlers as aggregator runs *)

Section Handlers.
Context {UUID : UuidText} `{!Channel body}.
Variables (to_string : json -> option body) (is_http_ingest raw_events : bool) (node : string).

Abbreviation emits := (emit_all to_string is_http_ingest).
Abbreviation steps := (agent_step to_string is_http_ingest raw_events node).

(** What emitting does not touch. *)
Definition core (s : agent) : AttributionCache * list (Z * WorkloadLabels) * Aggregator * Sampler * list (list Z) :=
  (ag_cache s, ag_merge s, ag_agg s, ag_sampler s, ag_ring s).

Lemma emit_all_core bs s : core (emits bs s) = core s.
Proof.
  revert s. induction bs as [|b bs IH]; intros s; [done|].
  change (core (emits bs (emit_batch to_string is_http_ingest b s)) = core s).
  rewrite IH. unfold emit_batch. by destruct (to_string _), is_http_ingest.
Qed.

Definition st_of (s : agent) : AttributionCache * Aggregator := (ag_cache s, ag_agg s).

Fixpoint ring_calls (drained : nat) (ring : list (list Z)) (amb : nat -> ambient) : list (agg_call * ambient) :=
  if negb (drained <? DRAIN_BUDGET)%nat then []
  else
    match ring with
    | [] => []
    | item :: ring =>
        if (length item <? EVENT_SIZE)%nat then ring_calls drained ring amb
        else (CallEvent (decode_event item), amb 0%nat) :: ring_calls (S drained) ring (fun i => amb (S i))
    end.

Fixpoint ring_left (drained : nat) (ring : list (list Z)) : list (list Z) :=
  if negb (drained <? DRAIN_BUDGET)%nat then ring
  else
    match ring with
    | [] => []
    | item :: ring =>
        if (length item <? EVENT_SIZE)%nat then ring_left drained ring else ring_left (S drained) ring
    end.

Lemma drain_ring_run {K : KernelFiles} drained ring amb s :
  let r := drain_ring to_string is_http_ingest raw_events node drained ring amb s in
  krun node (ring_calls drained ring amb) (st_of s) = (r.1, st_of r.2)
  /\ ag_merge r.2 = ag_merge s /\ ag_sampler r.2 = ag_sampler s /\ ag_ring r.2 = ring_left drained ring.
Proof.
  cbn zeta. revert drained amb s. induction ring as [|item ring IH]; intros drained amb s.
  { cbn [drain_ring ring_calls ring_left]. by destruct (negb _). }
  cbn [drain_ring ring_calls ring_left]. destruct (negb _); [done|].
  destruct (length item <? EVENT_SIZE)%nat; [apply IH|].
  set (s0 := if raw_events then _ else s).
  assert (H0 : core s0 = core s) by (unfold s0; by destruct raw_events).
  injection H0 as Ec Em Ea Es _. rewrite Ec, Ea.
  assert (Hst : kstep node (CallEvent (decode_event item)) (amb 0%nat) (st_of s)
    = let '(b, c, a) := on_statix_event (decode_event item) node (amb 0%nat) (ag_cache s) (ag_agg s) in (b, (c, a)))
    by done.
  destruct (on_statix_event _ _ _ _ _) as [[batch c] a].
  set (s1 := set_agg a (set_cache c s0)). pose proof (emit_all_core (option_list batch) s1) as H1.
  set (s2 := emits (option_list batch) s1) in *. injection H1 as E1 E2 E3 E4 _.
  specialize (IH (S drained) (fun i => amb (S i)) s2).
  destruct (drain_ring _ _ _ _ _ ring _ s2) as [bs s3]. cbn [fst snd] in *.
  unfold st_of at 1 in IH. rewrite E1, E2, E3, E4 in IH. unfold s1 in IH. cbn in IH. destruct IH as (I1 & I2 & I3 & I4).
  rewrite I2, I3. split_and!; try done. eapply agg_run_cons_eq; [exact Hst|exact I1].
Qed.

(** The calls of a tick, and the baseline it leaves. *)
Definition tick_calls (FS : CgroupFs) (task_ok : bool) (amb : nat -> ambient * ambient) (s : agent)
    : list (agg_call * ambient) :=
  if task_ok
  then let rs := read_targets (sample_targets (ag_cache s)) in
       calls_of rs amb (cpu_baseline (retain_live rs (ag_sampler s)))
  else [].

Definition tick_baseline (FS : CgroupFs) (task_ok : bool) (s : agent) : gmap Z Z :=
  if task_ok
  then let rs := read_targets (sample_targets (ag_cache s)) in
       final_baseline rs (cpu_baseline (retain_live rs (ag_sampler s)))
  else cpu_baseline (ag_sampler s).

Lemma sample_and_flush_run {FS : CgroupFs} task_ok amb now s :
  let r := sample_and_flush to_string is_http_ingest node task_ok amb now s in
  krun node (tick_calls FS task_ok amb s ++ [(CallFlush, now)]) (st_of s)
  = (r.1, st_of r.2)
  /\ ag_merge r.2 = ag_merge s /\ ag_cache r.2 = ag_cache s /\ ag_ring r.2 = ag_ring s
  /\ cpu_baseline (ag_sampler r.2) = tick_baseline FS task_ok s.
Proof.
  unfold sample_and_flush.
  assert (Ht : let '(early, a, m, p) := tick task_ok node amb (ag_cache s) (ag_agg s) (ag_metrics s) (ag_sampler s) in
    krun node (tick_calls FS task_ok amb s) (st_of s)
    = (early, (ag_cache s, a))
    /\ cpu_baseline p = tick_baseline FS task_ok s).
  { unfold tick, tick_calls, tick_baseline. destruct task_ok; [|done].
    set (rs := read_targets _). pose proof (ingest_readings_run rs node amb (ag_cache s) (ag_agg s)
      (retain_live rs (ag_sampler s))) as H.
    by destruct (ingest_readings rs node amb (ag_cache s) (ag_agg s) _) as [[bs a] p]. }
  destruct (tick _ _ _ _ _ _ _) as [[[early a] m] p]. destruct Ht as [Ht Hb].
  set (s1 := set_sampler p m (set_agg a s)). pose proof (emit_all_core early s1) as H1.
  set (s2 := emits early s1) in *. injection H1 as E1 E2 E3 E4 E5. cbn in E1, E2, E3, E4, E5.
  rewrite E3. pose proof (agg_run_app (FS := FS) node (tick_calls FS task_ok amb s) [(CallFlush, now)] _ _ _
    (option_list (flush node now a).1) (ag_cache s, (flush node now a).2) Ht) as Hrun.
  assert (Hf : krun node [(CallFlush, now)] (ag_cache s, a)
               = (option_list (flush node now a).1, (ag_cache s, (flush node now a).2)))
    by (cbn; by destruct (flush node now a) as [[b|] ?]).
  specialize (Hrun Hf). clear Hf.
  destruct (flush node now a) as [batch a']. cbn [fst snd] in *.
  set (s3 := set_agg a' s2). pose proof (emit_all_core (option_list batch) s3) as H3.
  set (s4 := emits (option_list batch) s3) in *. injection H3 as F1 F2 F3 F4 F5. cbn in F1, F2, F3, F4, F5.
  assert (Est : st_of s4 = (ag_cache s, a')) by (unfold st_of; by rewrite F1, F3, E1).
  rewrite Est, F1, F2, F4, F5, E1, E2, E4, E5. by split_and!.
Qed.

Definition no_files : KernelFiles := fun _ _ => CannotOpen.

Definition event_files (e : agent_event) : KernelFiles :=
  match e with
  | RingReady K _ => K
  | FlushTick fs _ _ _ | Signal fs _ _ _ => @fs_files fs
  | _ => no_files
  end.

(** What an event makes the aggregator do. *)
Definition event_calls (e : agent_event) (s : agent) : list (agg_call * ambient) :=
  match e with
  | RingReady _ amb => ring_calls 0 (ag_ring s) amb
  | FlushTick fs ok amb now | Signal fs ok amb now => tick_calls fs ok amb s ++ [(CallFlush, now)]
  | _ => []
  end.

(** The baseline after an event. *)
Definition event_baseline (e : agent_event) (s : agent) : gmap Z Z :=
  match e with
  | FlushTick fs ok _ _ | Signal fs ok _ _ => tick_baseline fs ok s
  | _ => cpu_baseline (ag_sampler s)
  end.

Lemma evict_tick_core ex s :
  core (evict_tick ex s) = core (set_cache (evict_stale_cgroups ex (ag_cache s)).2 s).
Proof. unfold evict_tick. destruct (evict_stale_cgroups ex (ag_cache s)) as [n c]. by destruct (0 <? n)%nat. Qed.

Lemma agent_step_run e s :
  let r := agg_run (ATT := attribution_cache (K := event_files e)) node (event_calls e s) (st_of s) in
  (steps e s).1 = r.1 /\ ag_agg (steps e s).2 = r.2.2
  /\ cpu_baseline (ag_sampler (steps e s).2) = event_baseline e s.
Proof.
  assert (Hf : forall (FS : CgroupFs) ok amb now,
    let r := krun node (tick_calls FS ok amb s ++ [(CallFlush, now)]) (st_of s) in
    let o := sample_and_flush to_string is_http_ingest node ok amb now s in
    o.1 = r.1 /\ ag_agg o.2 = r.2.2 /\ cpu_baseline (ag_sampler o.2) = tick_baseline FS ok s).
  { intros FS ok amb now. pose proof (sample_and_flush_run ok amb now s) as (H & _ & _ & _ & Hb).
    cbn zeta. by rewrite H. }
  destruct e as [items|K amb|fs ok amb now|ex|p|p| | |b|b| |fs ok amb now]; cbn [agent_step event_calls event_files event_baseline];
    try done; try apply Hf.
  - pose proof (drain_ring_run (K := K) 0 (ag_ring s) amb s) as (H & _ & Hs & _). cbn zeta. by rewrite H, Hs.
  - pose proof (evict_tick_core ex s) as H. injection H as H1 H2 H3 H4 H5. cbn. by rewrite H3, H4.
  - by destruct (bool_decide _).
  - by destruct (bool_decide _).
Qed.

End Handlers.

Section Invariant.
Context {UUID : UuidText} `{!Channel body}.
Variables (to_string : json -> option body) (is_http_ingest raw_events : bool) (node : string).

Abbreviation steps := (agent_step to_string is_http_ingest raw_events node).

(** ** The invariant *)

Record agent_ok (s : agent) : Prop := {
  ok_cache : cache_inv (ag_cache s);
  ok_labels : cache_typed (ag_cache s);
  ok_merge : Forall (fun x => labels_typed x.2) (ag_merge s);
  ok_agg : agg_inv (ag_agg s);
  ok_size : agg_bounded (ag_agg s);
  ok_stats : agg_typed (ag_agg s);
  ok_baseline : baseline_typed (ag_sampler s);
  ok_ring : Forall (Forall byte_ok) (ag_ring s)
}.

(** What an event brings from outside: bytes and 64-bit clocks. *)
Definition event_typed (e : agent_event) : Prop :=
  match e with
  | RingItems items => Forall (Forall byte_ok) items
  | RingReady _ amb => forall i, urange 64 (now_ns (amb i))
  | FlushTick _ _ amb now | Signal _ _ amb now =>
      (forall i, urange 64 (now_ns (amb i).1) /\ urange 64 (now_ns (amb i).2)) /\ urange 64 (now_ns now)
  | _ => True
  end.

Lemma ring_calls_typed drained ring amb :
  Forall (Forall byte_ok) ring -> (forall i, urange 64 (now_ns (amb i))) ->
  Forall call_typed (ring_calls drained ring amb).
Proof.
  intros Hr. revert drained amb. induction Hr as [|item ring Hi _ IH]; intros drained amb Ha; cbn [ring_calls].
  { by destruct (negb _). }
  destruct (negb _); [done|]. destruct (length item <? EVENT_SIZE)%nat; [by apply IH|].
  constructor; [|by apply IH]. split; [apply Ha|].
  split; [apply (field_typed 24 8)|apply (field_typed 40 8)]; done.
Qed.

Lemma event_calls_typed e s : agent_ok s -> event_typed e -> Forall call_typed (event_calls e s).
Proof.
  intros [H1 H2 _ _ _ _ H6 H7] He.
  assert (Hf : forall FS ok amb now, event_typed (FlushTick FS ok amb now) ->
    Forall call_typed (tick_calls FS ok amb s ++ [(CallFlush, now)])).
  { intros FS ok amb now [Ha Hn]. apply Forall_app. split; [|by constructor; [split|]].
    unfold tick_calls. destruct ok; [|done]. apply calls_of_typed; [by apply read_targets_typed| |done].
    by apply retain_live_typed. }
  destruct e; try done; [by apply ring_calls_typed|by apply Hf..].
Qed.

Lemma event_baseline_typed e s :
  agent_ok s -> map_Forall (fun _ v => urange 64 v) (event_baseline e s).
Proof.
  intros [H1 H2 _ _ _ _ H6 _].
  assert (Hf : forall FS ok, map_Forall (fun _ v => urange 64 v) (tick_baseline FS ok s)).
  { intros FS ok. unfold tick_baseline. destruct ok; [|done].
    eapply (calls_of_typed _ (fun _ => (Ambient 0 [], Ambient 0 []))); [by apply read_targets_typed| |].
    - by apply retain_live_typed.
    - intros i. by split; apply urange_0. }
  destruct e; try done; apply Hf.
Qed.

Lemma ring_left_typed drained ring : Forall (Forall byte_ok) ring -> Forall (Forall byte_ok) (ring_left drained ring).
Proof.
  intros Hr. revert drained. induction Hr as [|item ring Hi Hr IH]; intros drained; cbn [ring_left].
  { by destruct (negb _). }
  destruct (negb _); [by constructor|]. by destruct (_ <? _)%nat.
Qed.

Lemma agent_step_ok e s :
  agent_ok s -> event_typed e ->
  agent_ok (steps e s).2
  /\ Forall (fun p => payload_typed p /\ batch_bounded DEFAULT_MAX_KEYS p) (steps e s).1.
Proof.
  intros Hok He. pose proof (agent_step_run to_string is_http_ingest raw_events node e s) as (R1 & R2 & R3).
  pose proof (agg_run_typed (K := event_files e) node (event_calls e s) (st_of s)
                (conj (ok_labels s Hok) (ok_stats s Hok)) (event_calls_typed e s Hok He)) as [[T1 T2] T3].
  pose proof (agg_run_inv (K := event_files e) node (event_calls e s) (st_of s) (ok_agg s Hok)) as TI.
  pose proof (agg_run_cache (K := event_files e) node (event_calls e s) (st_of s) (ok_cache s Hok)) as TC.
  pose proof (event_baseline_typed e s Hok) as TB. rewrite <- R3 in TB.
  pose proof (agg_run_bounded (K := event_files e) node (event_calls e s) (st_of s) (ok_agg s Hok) (ok_size s Hok)) as [TS TP].
  split; [|by rewrite R1; apply Forall_and].
  assert (TS' : agg_bounded (ag_agg (steps e s).2)) by (rewrite R2; exact TS).
  assert (T2' : agg_typed (ag_agg (steps e s).2)) by (rewrite R2; exact T2).
  assert (TI' : agg_inv (ag_agg (steps e s).2)) by (rewrite R2; exact TI). clear T2 TI.
  destruct Hok as [H1 H2 H3 H4 _ H5 H6 H7].
  assert (Hgo : cache_inv (ag_cache (steps e s).2) -> cache_typed (ag_cache (steps e s).2) ->
    Forall (fun x => labels_typed x.2) (ag_merge (steps e s).2) ->
    Forall (Forall byte_ok) (ag_ring (steps e s).2) -> agent_ok (steps e s).2) by (intros; by split).
  assert (Hf : forall (FS : CgroupFs) ok amb now,
    let o := sample_and_flush to_string is_http_ingest node ok amb now s in
    ag_cache o.2 = ag_cache s /\ ag_merge o.2 = ag_merge s /\ ag_ring o.2 = ag_ring s).
  { intros FS ok amb now. by pose proof (sample_and_flush_run to_string is_http_ingest node ok amb now s) as (_ & ? & ? & ? & _). }
  destruct e as [items|K amb|fs ok amb now|ex|p|p| | |b|b| |fs ok amb now].
  - apply Hgo; try done. by apply Forall_app.
  - pose proof (drain_ring_run to_string is_http_ingest raw_events node (K := K) 0 (ag_ring s) amb s) as (R & M & _ & L).
    cbn [event_calls event_files] in *. rewrite R in T1, TC. apply Hgo; cbn [agent_step]; rewrite ?M, ?L; try done.
    by apply ring_left_typed.
  - destruct (Hf fs ok amb now) as (E1 & E2 & E3). apply Hgo; cbn [agent_step]; by rewrite ?E1, ?E2, ?E3.
  - pose proof (evict_tick_core ex s) as H. injection H as E1 E2 E3 E4 E5. cbn in E1, E2, E3, E4, E5.
    apply Hgo; cbn [agent_step snd]; rewrite ?E1, ?E2, ?E5; try done; [by apply evict_inv|by apply evict_typed].
  - apply Hgo; try done; [|by apply pod_seen_typed]. cbn. destruct (pod_info_from p) as [[? ?]|]; [by apply pods_inv|done].
  - apply Hgo; try done; [|by apply pod_deleted_typed]. cbn. destruct (meta_uid p); [by apply pods_inv|done].
  - apply Hgo; try done. by apply merge_snapshot_typed.
  - apply Hgo; try done; [by apply merge_write_inv|by apply merge_write_typed].
  - apply Hgo; cbn; by destruct (bool_decide _).
  - apply Hgo; cbn; by destruct (bool_decide _).
  - by apply Hgo.
  - destruct (Hf fs ok amb now) as (E1 & E2 & E3). apply Hgo; cbn [agent_step]; by rewrite ?E1, ?E2, ?E3.
Qed.

End Invariant.
