(* ===== verification/AgentProps.v ===== *)
(** * AgentProps: properties of the agent as a whole

    End-to-end theorems over runs of the event loop of [Agent]: CPU time is
    conserved from the kernel's counters to the emitted batches, every batch is
    well typed and bounded, a ready gateway stores exactly the rows the agent
    emitted, and a batch too large for the gateway's channel blocks delivery. *)

From S2P Require Export AgentInv.

#[local] Open Scope Z_scope.

(** ** What the sampler saw of a cgroup *)

(** At one flush: its counter was read, could not be read, or the cgroup was
    not among the readings, which forgets its baseline. *)
Inductive seen : Type := Read (usage : Z) | Unreadable | Lost.

#[export] Instance seen_eq_dec : EqDecision seen.
Proof. solve_decision. Defined.

Section Runs.
Context {UUID : UuidText} `{!Channel body}.
Variables (to_string : json -> option body) (is_http_ingest raw_events : bool) (node : string).

Abbreviation steps := (agent_step to_string is_http_ingest raw_events node).
Abbreviation loop := (agent_loop to_string is_http_ingest raw_events node).

Definition seen_at (FS : CgroupFs) (task_ok : bool) (g : Z) (s : agent) : seen :=
  if task_ok
  then match usage_in g (read_targets (sample_targets (ag_cache s))) with
       | Some (Some u) => Read u
       | Some None => Unreadable
       | None => Lost
       end
  else Unreadable.

(** What the flushes of a run saw of cgroup [g]. *)
Fixpoint observed (g : Z) (es : list agent_event) (s : agent) : list seen :=
  match es with
  | [] => []
  | e :: es =>
      match e with
      | Signal fs ok _ _ => [seen_at fs ok g s]
      | FlushTick fs ok _ _ => seen_at fs ok g s :: observed g es (steps e s).2
      | _ => if ends e then [] else observed g es (steps e s).2
      end
  end.

Definition usages (l : list seen) : list Z := omap (fun x => match x with Read u => Some u | _ => None end) l.

(** What the open window holds of a statistic of cgroup [g]. *)
Definition held_stat (k : stat) (g : Z) (s : agent) : Z := held k g (active (st_of s)).
Abbreviation held_cpu := (held_stat SCpu).

Lemma agent_loop_cons e es s :
  loop (e :: es) s
  = if ends e then steps e s
    else ((steps e s).1 ++ (loop es (steps e s).2).1, (loop es (steps e s).2).2).
Proof.
  cbn [agent_loop]. destruct (steps e s) as [bs s1]. cbn [fst snd]. destruct (ends e); [done|]. by destruct (loop es s1).
Qed.

Lemma agent_loop_ok es s :
  agent_ok s -> Forall event_typed es ->
  agent_ok (loop es s).2 /\ Forall (fun p => payload_typed p /\ batch_bounded DEFAULT_MAX_KEYS p) (loop es s).1.
Proof.
  intros Hok He. revert s Hok. induction He as [|e es He _ IH]; intros s Hok; [done|].
  rewrite agent_loop_cons. destruct (agent_step_ok to_string is_http_ingest raw_events node e s Hok He) as [H1 H2].
  destruct (IH _ H1) as [H3 H4]. destruct (ends e); cbn [fst snd]; [done|]. split; [done|]. by apply Forall_app.
Qed.

Lemma agent_start_ok {FS : CgroupFs} setting now walk ok out :
  urange 64 now -> Forall entry_typed walk -> agent_ok (agent_start setting now walk ok out).
Proof.
  intros Hn Hw. split; cbn; try done.
  - apply bootstrap_inv, new_cache_inv.
  - apply bootstrap_typed; [apply new_cache_typed|done].
  - split; [done|]. cbn. rewrite map_size_empty. unfold DEFAULT_MAX_KEYS. lia.
  - split; [by intros []|done].
  - apply prime_typed.
Qed.

(** *** CPU time *)

Lemma ring_calls_nonneg k g drained ring amb :
  Forall (fun x => 0 <= contribution k g x.1) (ring_calls drained ring amb).
Proof.
  revert drained amb. induction ring as [|item ring IH]; intros drained amb; cbn [ring_calls].
  { by destruct (negb _). }
  destruct (negb _); [done|]. destruct (length item <? EVENT_SIZE)%nat; [apply IH|].
  constructor; [|apply IH]. cbn [contribution fst]. destruct k; destruct_ifs; done.
Qed.

Lemma ring_calls_cpu g drained ring amb :
  Forall (fun x => contribution SCpu g x.1 = 0) (ring_calls drained ring amb).
Proof.
  revert drained amb. induction ring as [|item ring IH]; intros drained amb; cbn [ring_calls].
  { by destruct (negb _). }
  destruct (negb _); [done|]. destruct (length item <? EVENT_SIZE)%nat; [apply IH|].
  constructor; [|apply IH]. cbn [contribution fst]. by destruct_ifs.
Qed.

Lemma total_zero k g calls :
  Forall (fun x => contribution k g x.1 = 0) calls -> total_contribution k g calls = 0.
Proof. unfold total_contribution. induction 1 as [|x l Hx _ IH]; [done|]. rewrite sumZ_cons. lia. Qed.

Lemma usage_in_elem g (rs : list reading) u : usage_in g rs = Some u -> g ∈ rs.*1.*1.
Proof.
  unfold usage_in. destruct (filter _ rs) as [|r l] eqn:E; [done|]. intros _.
  assert (Hr : r ∈ filter (fun r : reading => r.1.1 = g) rs) by (rewrite E; by left).
  apply list_elem_of_filter in Hr as [<- Hr]. by do 2 apply list_elem_of_fmap_2.
Qed.

(** What one flush adds to the CPU time of [g], and the baseline it leaves. *)
Lemma tick_cpu FS ok amb now g s u :
  cache_inv (ag_cache s) -> cpu_baseline (ag_sampler s) !! g = Some u -> seen_at FS ok g s <> Lost ->
  total_contribution SCpu g (tick_calls FS ok amb s ++ [(CallFlush, now)])
    = match seen_at FS ok g s with Read v => saturating_sub v u | _ => 0 end
  /\ tick_baseline FS ok s !! g = Some (match seen_at FS ok g s with Read v => v | _ => u end).
Proof.
  intros HI Hb. unfold seen_at, total_contribution, tick_calls, tick_baseline. rewrite sumZ_app.
  destruct ok; [|by rewrite Hb]. set (rs := read_targets _). intros Hs.
  destruct (calls_of_cpu g rs amb (cpu_baseline (retain_live rs (ag_sampler s)))) as [H1 H2];
    [by apply read_targets_NoDup|]. unfold total_contribution in H1. rewrite H1, H2, retain_live_lookup.
  destruct (usage_in g rs) as [usage|] eqn:E; [|done]. rewrite bool_decide_eq_true_2, Hb by (by eapply usage_in_elem).
  destruct usage; cbn; split; try done; lia.
Qed.

Lemma seen_typed FS ok g s v : agent_ok s -> seen_at FS ok g s = Read v -> urange 64 v.
Proof.
  intros Hok. unfold seen_at. destruct ok; [|done]. set (rs := read_targets _).
  pose proof (read_targets_typed (ag_cache s) (ok_cache s Hok) (ok_labels s Hok)) as Hrs. fold rs in Hrs.
  unfold usage_in. destruct (filter _ rs) as [|r l] eqn:E; [done|]. cbn.
  assert (Hr : r ∈ filter (fun r : reading => r.1.1 = g) rs) by (rewrite E; by left).
  apply list_elem_of_filter in Hr as [_ Hr]. rewrite Forall_forall in Hrs. specialize (Hrs r Hr).
  destruct r as [[id mem] [u|]]; [|done]. cbn. intros [= <-]. by apply Hrs.
Qed.

Lemma agent_step_conserves k e s g :
  agent_ok s -> 0 <= held_stat k g s ->
  held_stat k g s + total_contribution k g (event_calls e s) <= umax (stat_width k) ->
  held_stat k g s + total_contribution k g (event_calls e s)
  = shipped k g (steps e s).1 + held_stat k g (steps e s).2
  /\ 0 <= shipped k g (steps e s).1 /\ 0 <= held_stat k g (steps e s).2.
Proof.
  intros Hok H0 Hle. pose proof (agent_step_run to_string is_http_ingest raw_events node e s) as (R1 & R2 & _).
  assert (Hn : Forall (fun x => 0 <= contribution k g x.1) (event_calls e s)).
  { assert (Hf : forall FS ok amb now, Forall (fun x => 0 <= contribution k g x.1)
      (tick_calls FS ok amb s ++ [(CallFlush, now)])).
    { intros FS ok amb now. apply Forall_app. split; [|by repeat constructor]. unfold tick_calls.
      destruct ok; [apply calls_of_nonneg|done]. }
    destruct e; try done; try apply Hf. apply ring_calls_nonneg. }
  destruct (agg_run_conserves (K := event_files e) k g node (event_calls e s) (st_of s)
              (ok_agg s Hok) H0 Hn Hle) as (H1 & H2 & H3 & _).
  unfold held_stat, active, st_of in *. cbn [snd] in *. rewrite R1, R2. done.
Qed.

Definition last_usage (u : Z) (l : list Z) : Z := default u (last l).

Lemma last_usage_cons u v l : last_usage u (v :: l) = last_usage v l.
Proof. unfold last_usage. destruct l; [done|]. rewrite last_cons_cons. destruct (last (z :: l)) eqn:E; [done|]. by apply last_None in E. Qed.

Lemma last_usage_le u l : Sorted Z.le (u :: l) -> u <= last_usage u l.
Proof.
  revert u. induction l as [|v l IH]; intros u H; [done|]. rewrite last_usage_cons.
  inv H. inv H3. specialize (IH v). etransitivity; [done|]. by apply IH.
Qed.

Lemma observed_typed g es s :
  agent_ok s -> Forall event_typed es -> Forall (urange 64) (usages (observed g es s)).
Proof.
  intros Hok He. revert s Hok. induction He as [|e es He _ IH]; intros s Hok; [done|].
  destruct (agent_step_ok to_string is_http_ingest raw_events node e s Hok He) as [H1 _].
  specialize (IH _ H1). cbn [observed].
  destruct e; try (destruct (ends _); [done|exact IH]); pose proof (seen_typed FS task_ok g s) as Hs; cbn;
    destruct (seen_at FS task_ok g s) as [v| |]; cbn; try done; constructor; auto; by apply Hs.
Qed.

Lemma run_cpu g es s u :
  agent_ok s -> Forall event_typed es -> cpu_baseline (ag_sampler s) !! g = Some u ->
  Lost ∉ observed g es s -> Sorted Z.le (u :: usages (observed g es s)) ->
  0 <= held_cpu g s -> held_cpu g s + (last_usage u (usages (observed g es s)) - u) <= umax 64 ->
  shipped SCpu g (loop es s).1 + held_cpu g (loop es s).2
  = held_cpu g s + (last_usage u (usages (observed g es s)) - u).
Proof.
  intros Hok He. revert s u Hok. induction He as [|e es He Hes IH]; intros s u Hok Hb Hl Hs H0 Hle.
  { cbn. unfold last_usage. cbn. lia. }
  destruct (agent_step_ok to_string is_http_ingest raw_events node e s Hok He) as [Hok1 _].
  pose proof (agent_step_run to_string is_http_ingest raw_events node e s) as (_ & _ & R3).
  pose proof (agent_step_conserves SCpu e s g Hok H0) as Hstep. cbn [stat_width] in Hstep.
  assert (Hskip : ends e = false ->
    (observed g (e :: es) s = observed g es (steps e s).2) -> event_baseline e s = cpu_baseline (ag_sampler s) ->
    total_contribution SCpu g (event_calls e s) = 0 ->
    shipped SCpu g (loop (e :: es) s).1 + held_cpu g (loop (e :: es) s).2
    = held_cpu g s + (last_usage u (usages (observed g (e :: es) s)) - u)).
  { intros Hsig Eo Eb Et. rewrite Eo in Hl, Hs, Hle. rewrite Eo. rewrite Et in Hstep.
    pose proof (last_usage_le u _ Hs) as Hge.
    destruct Hstep as (H1 & H2 & H3); [lia|]. specialize (IH (steps e s).2 u Hok1).
    rewrite R3, Eb in IH. specialize (IH Hb Hl Hs H3 ltac:(lia)).
    rewrite agent_loop_cons, Hsig. cbn [fst snd]. unfold shipped in *. rewrite sumZ_app. lia. }
  assert (Hstop : ends e = true -> observed g (e :: es) s = [] -> steps e s = ([], s) ->
    shipped SCpu g (loop (e :: es) s).1 + held_cpu g (loop (e :: es) s).2
    = held_cpu g s + (last_usage u (usages (observed g (e :: es) s)) - u)).
  { intros E1 E2 E3. rewrite agent_loop_cons, E1, E2, E3. cbn. unfold last_usage. cbn. lia. }
  assert (Hflush : forall FS ok amb now, event_calls e s = tick_calls FS ok amb s ++ [(CallFlush, now)] ->
    event_baseline e s = tick_baseline FS ok s -> forall rest,
    Lost ∉ seen_at FS ok g s :: rest -> Sorted Z.le (u :: usages (seen_at FS ok g s :: rest)) ->
    held_cpu g s + (last_usage u (usages (seen_at FS ok g s :: rest)) - u) <= umax 64 ->
    exists v, (cpu_baseline (ag_sampler (steps e s).2) !! g = Some v) /\ (Lost ∉ rest)
      /\ Sorted Z.le (v :: usages rest) /\ 0 <= held_cpu g (steps e s).2 /\ 0 <= shipped SCpu g (steps e s).1
      /\ held_cpu g s + (v - u) = shipped SCpu g (steps e s).1 + held_cpu g (steps e s).2
      /\ last_usage u (usages (seen_at FS ok g s :: rest)) = last_usage v (usages rest)).
  { intros FS ok amb now Ec Eb rest Hl' Hs' Hle'. apply not_elem_of_cons in Hl' as [Hl1 Hl2].
    destruct (tick_cpu FS ok amb now g s u (ok_cache s Hok) Hb ltac:(done)) as [T1 T2].
    rewrite Ec, T1 in Hstep. rewrite R3, Eb, T2. pose proof (last_usage_le u _ Hs') as Hge.
    revert Hstep Hs' Hge Hle' Hl1. destruct (seen_at FS ok g s) as [v| |]; intros Hstep Hs' Hge Hle' Hl1; [|exists u|done].
    - exists v. change (usages (Read v :: rest)) with (v :: usages rest) in *. rewrite last_usage_cons in *.
      inv Hs'. inv H3. pose proof (last_usage_le v _ H2). unfold saturating_sub in Hstep.
      destruct Hstep as (S1 & S2 & S3); [lia|]. split_and!; try done. lia.
    - change (usages (Unreadable :: rest)) with (usages rest) in *.
      destruct Hstep as (S1 & S2 & S3); [lia|]. split_and!; try done. lia. }
  destruct e as [items|K amb|FS ok amb now|ex|p|p| | |[b|]|[b|]| |FS ok amb now];
    try (by apply Hskip); try (by apply Hstop).
  - apply Hskip; try done. apply total_zero, ring_calls_cpu.
  - cbn [observed] in *. destruct (Hflush FS ok amb now eq_refl eq_refl _ Hl Hs Hle)
      as (v & V1 & V2 & V3 & V4 & V5 & V6 & V7).
    rewrite V7 in Hle. rewrite V7. specialize (IH _ v Hok1 V1 V2 V3 V4 ltac:(lia)).
    rewrite agent_loop_cons. cbn [ends fst snd]. unfold shipped in *. rewrite sumZ_app. lia.
  - cbn [observed] in *. destruct (Hflush FS ok amb now eq_refl eq_refl _ Hl Hs Hle)
      as (v & V1 & V2 & V3 & V4 & V5 & V6 & V7).
    rewrite V7, agent_loop_cons. cbn [ends]. change (last_usage v (usages [])) with v in *. lia.
Qed.

(** ** Properties *)

(** CPU time is conserved from the kernel to the wire.  Take a cgroup that was
    primed at startup with the counter value [u0] and is seen at every flush (its
    counter may be unreadable at some of them), with a counter that does not go
    backwards.  Whatever else happens, exec storms with early flushes, evictions
    and label updates included, the CPU time in all emitted batches plus what the
    open window still holds is exactly the growth of the kernel's counter. *)
Theorem cpu_time_is_conserved {FS : CgroupFs} setting now walk ok out es g u0 :
  let s := agent_start setting now walk ok out in
  let us := usages (observed g es s) in
  urange 64 now -> Forall entry_typed walk -> Forall event_typed es ->
  cpu_baseline (ag_sampler s) !! g = Some u0 ->
  Lost ∉ observed g es s -> Sorted Z.le (u0 :: us) ->
  shipped SCpu g (loop es s).1 + held_stat SCpu g (loop es s).2 = last_usage u0 us - u0.
Proof.
  intros s us Hn Hw He Hb Hl Hs. assert (Hok : agent_ok s) by by apply agent_start_ok.
  pose proof (observed_typed g es s Hok He) as Ht. fold us in Ht.
  assert (Hu0 : urange 64 u0) by exact (ok_baseline s Hok g u0 Hb).
  assert (Hlast : urange 64 (last_usage u0 us)).
  { unfold last_usage. destruct (last us) as [v|] eqn:E; [|done]. apply last_Some_elem_of in E.
    rewrite Forall_forall in Ht. by apply Ht. }
  apply urange_umax in Hlast. destruct Hu0. assert (Hz : held_cpu g s = 0) by done.
  rewrite (run_cpu g es s u0 Hok He Hb Hl Hs); rewrite Hz; [done|done|fold us; lia].
Qed.

(** C31: what the agent emits is well typed and bounded.  With bytes in the ring and
    64-bit clocks, every number of every emitted batch fits its wire field (counts
    saturate, quantities from Kubernetes are cut to 64 bits), and a batch has
    between 1 and [max_keys] rows, one per cgroup. *)
Theorem agent_batches_are_well_typed {FS : CgroupFs} setting now walk ok out es :
  urange 64 now -> Forall entry_typed walk -> Forall event_typed es ->
  Forall (fun p => batch_ok (to_ingest p) /\ batch_bounded DEFAULT_MAX_KEYS p)
    (loop es (agent_start setting now walk ok out)).1.
Proof. intros Hn Hw He. apply agent_loop_ok; [by apply agent_start_ok|done]. Qed.

Section Delivery.
Context {PC : PermitChannel MetricRow}.

(** [serde_json::from_slice]; what was serialized parses to the same value. *)
Variable from_slice : body -> option json.
Hypothesis serde_roundtrip : forall j, exists text, to_string j = Some text /\ from_slice text = Some j.

(** A ready gateway stores exactly the rows the agent emitted.  The text of any
    batch a run of the agent emits is parsed by the gateway to the same batch, and
    when the gateway is ready, the request is authorised and the batch has at most
    a fifth of the channel's capacity, the request is accepted and the rows, all of
    them, in order and unchanged, are queued for ClickHouse. *)
Theorem ready_gateway_stores_the_rows {FS : CgroupFs} setting now walk ok out es p auth gw :
  urange 64 now -> Forall entry_typed walk -> Forall event_typed es ->
  p ∈ (loop es (agent_start setting now walk ok out)).1 ->
  readiness_check gw = 200 -> ingest_authorized auth gw = true ->
  app_channel_capacity gw = Z.of_nat (chan_capacity (ingest_tx gw)) ->
  app_channel_capacity gw * 100 < 2 ^ 64 -> 5 * zlen (bp_workloads p) <= app_channel_capacity gw ->
  exists text b r gw',
    to_string (batch_to_json (to_ingest p)) = Some text
    /\ from_slice text ≫= batch_of_json = Some b
    /\ handler auth b gw = Some (r, gw') /\ status r = 200
    /\ queued (ingest_tx gw') = queued (ingest_tx gw) ++ (from_ingest (to_ingest p) <$> bp_workloads p).
Proof.
  intros Hn Hw He Hp Hr Ha Hc Hb Hlen.
  destruct (agent_loop_ok es _ (agent_start_ok setting now walk ok out Hn Hw) He) as [_ Hps].
  rewrite Forall_forall in Hps. destruct (Hps p Hp) as [Hok _].
  destruct (serde_roundtrip (batch_to_json (to_ingest p))) as (text & E1 & E2).
  destruct (handler_spec auth (to_ingest p) gw) as (r & gw' & E3 & Hst & Hq & _).
  rewrite (ready_status auth (to_ingest p) gw) in Hst; try done. rewrite Hst in Hq.
  exists text, (to_ingest p), r, gw'. rewrite E2. split_and!; try done. by apply batch_roundtrip.
Qed.

End Delivery.

End Runs.

(** What the retry worker is told when it posts a batch to a gateway. *)
Definition gateway_answer {PC : PermitChannel MetricRow} (auth : option string) (b : IngestBatch)
    (gw : AppState) : post_answer :=
  match handler auth b gw with Some (r, _) => Output.Response (status r) | None => SendFailed end.

(** C32: a batch with more rows than the gateway's channel can hold is never
    delivered and never given up.  Every attempt is answered 503, healthy gateway
    and empty channel or not, so the worker posts it again for ever and nothing
    behind it is delivered.  The agent's batches have up to 4096 rows, the channel
    may be configured down to 1024. *)
Theorem oversized_batch_blocks_delivery {PC : PermitChannel MetricRow} is_success is_server_error initial maxb
    auth b gws w text rest :
  is_server_error 503 = true -> is_success 503 = false -> 0 < initial <= maxb -> maxb < 2 ^ 63 ->
  0 < backoff_secs w <= maxb ->
  MIN_SCHEMA_VERSION <= schema_version b <= MAX_SCHEMA_VERSION ->
  Forall (fun gw => ingest_authorized auth gw = true
                    /\ (chan_capacity (ingest_tx gw) < length (workloads b))%nat) gws ->
  exists w', worker_loop is_success is_server_error initial maxb (text :: rest) (gateway_answer auth b <$> gws) w
             = ([], text :: rest, w').
Proof.
  intros H503 Hs Hi Hm Hw Hv Hg.
  assert (Hr : Forall (retryable is_success is_server_error) (gateway_answer auth b <$> gws)).
  { apply Forall_fmap. eapply Forall_impl; [exact Hg|]. intros gw [Ha Hc]. unfold retryable. cbn.
    unfold gateway_answer. destruct (handler_spec auth b gw) as (r & gw' & -> & -> & _).
    rewrite (oversized_status auth b gw) by done. cbn. rewrite Hs. unfold is_retryable_status.
    rewrite H503. by destruct (503 =? 429). }
  destruct (deliver_failures is_success is_server_error initial maxb Hm _ [] w Hr Hw) as (w' & _ & _ & E).
  rewrite app_nil_r in E. cbn [worker_loop]. rewrite E. eexists. done.
Qed.

(** ** Witnesses *)

(** A concrete serializer: a JSON value as a tree, and the tree as one number. *)
Fixpoint tree_of_json (j : json) : gen_tree (Z + string) :=
  match j with
  | JNull => GenNode 0 []
  | JBool b => GenNode (if b then 2 else 1) []
  | JNum n => GenLeaf (inl n)
  | JStr s => GenLeaf (inr s)
  | JArr l => GenNode 3 (tree_of_json <$> l)
  | JObj l => GenNode 4 ((fun '(k, j) => GenNode 0 [GenLeaf (inr k); tree_of_json j]) <$> l)
  end.

Fixpoint json_of_tree (t : gen_tree (Z + string)) : json :=
  match t with
  | GenLeaf (inl n) => JNum n
  | GenLeaf (inr s) => JStr s
  | GenNode 1 _ => JBool false
  | GenNode 2 _ => JBool true
  | GenNode 3 l => JArr (json_of_tree <$> l)
  | GenNode 4 l =>
      JObj ((fun t => match t with
                      | GenNode _ [GenLeaf (inr k); v] => (k, json_of_tree v)
                      | _ => (""%string, JNull)
                      end) <$> l)
  | GenNode _ _ => JNull
  end.

Lemma json_tree_roundtrip j : json_of_tree (tree_of_json j) = j.
Proof.
  revert j. fix IH 1. intros [|[]|n|s|l|l]; [reflexivity..| |]; cbn [tree_of_json json_of_tree]; f_equal.
  - induction l as [|j l IHl]; [done|]. cbn. by rewrite IH, IHl.
  - induction l as [|[k j] l IHl]; [done|]. cbn. by rewrite IH, IHl.
Qed.

Definition sample_to_string (j : json) : option body := Some [Z.pos (encode (tree_of_json j))].

Definition sample_from_slice (b : body) : option json :=
  match b with [Z.pos p] => json_of_tree <$> decode p | _ => None end.

Lemma sample_serde j : exists text, sample_to_string j = Some text /\ sample_from_slice text = Some j.
Proof.
  eexists. split; [done|]. unfold sample_from_slice. rewrite decode_encode. cbn. by rewrite json_tree_roundtrip.
Qed.

(** A node with one leaf cgroup whose CPU counter stands at [usage]. *)
Definition sample_fs (usage : Z) : CgroupFs :=
  {| fs_files := fun p _ => GotBytes (if bool_decide (file_name p = Some "cpu.stat"%string)
                                      then "usage_usec " +:+ (dec usage +:+ String newline "")
                                      else dec 4096 +:+ String newline "");
     nlink := fun _ => Some 2 |}.

Definition sample_walk : list dir_entry := [DirEntry true false (Some 7) (parse_path "pods/web")].

Definition sample_out : output_state := OutputState None false false None.

Definition sample_clock (t : Z) : ambient := Ambient t [].

Definition sample_exec : StatixEvent :=
  {| kind := 1; pid := 42; tgid := 42; cpu_id := 0; event_cgroup_id := 7; timestamp := 5;
     memory_bytes := 0; Wire.comm := replicate 16 97 |}.

(** Two windows with an exec event between, and a shutdown. *)
Definition sample_events : list agent_event :=
  [FlushTick (sample_fs 250) true (fun _ => (sample_clock 10, sample_clock 10)) (sample_clock 10);
   RingItems [encode_event sample_exec];
   RingReady (@fs_files (sample_fs 250)) (fun _ => sample_clock 11);
   Signal (sample_fs 400) true (fun _ => (sample_clock 20, sample_clock 20)) (sample_clock 20)].

Lemma sample_events_typed : Forall event_typed sample_events.
Proof.
  repeat constructor; done.
Qed.

Lemma sample_walk_typed : Forall entry_typed sample_walk.
Proof. repeat constructor; done. Qed.

Abbreviation sample_start := (agent_start (FS := sample_fs 100) None 0 sample_walk true sample_out).
Abbreviation sample_loop := (agent_loop (UUID := sample_uuid) sample_to_string true false "n"%string sample_events sample_start).

Lemma cpu_time_is_conserved_witness :
  shipped SCpu 7 sample_loop.1 + held_stat SCpu 7 sample_loop.2 = 300.
Proof.
  refine (eq_trans (cpu_time_is_conserved (UUID := sample_uuid) sample_to_string true false "n"%string
    (FS := sample_fs 100) None 0 sample_walk true sample_out sample_events 7 100 _ _ _ _ _ _) _).
  - done.
  - exact sample_walk_typed.
  - exact sample_events_typed.
  - by vm_compute.
  - apply (bool_decide_unpack _). by vm_compute.
  - apply (bool_decide_unpack _). by vm_compute.
  - by vm_compute.
Defined.

Lemma agent_batches_are_well_typed_witness :
  Forall (fun p => batch_ok (to_ingest p) /\ batch_bounded DEFAULT_MAX_KEYS p) sample_loop.1.
Proof.
  apply (agent_batches_are_well_typed (UUID := sample_uuid) sample_to_string true false "n"%string
    (FS := sample_fs 100) None 0 sample_walk true sample_out sample_events).
  - done.
  - exact sample_walk_typed.
  - exact sample_events_typed.
Defined.

Definition sample_payload : BatchPayload :=
  default {| bp_window_start_ns := 0; bp_window_end_ns := 0; bp_node := ""; bp_batch_id := "";
             bp_agent_version := ""; bp_workloads := [] |} (head sample_loop.1).

Lemma ready_gateway_stores_the_rows_witness :
  exists text b r gw',
    sample_to_string (batch_to_json (to_ingest sample_payload)) = Some text
    /\ sample_from_slice text ≫= batch_of_json = Some b
    /\ handler (Some "Bearer t"%string) b (sample_app true) = Some (r, gw') /\ status r = 200
    /\ queued (ingest_tx gw') = from_ingest (to_ingest sample_payload) <$> bp_workloads sample_payload.
Proof.
  refine (ready_gateway_stores_the_rows (UUID := sample_uuid) sample_to_string true false "n"%string
    sample_from_slice sample_serde (FS := sample_fs 100) None 0 sample_walk true sample_out sample_events
    sample_payload (Some "Bearer t"%string) (sample_app true) _ _ _ _ _ _ _ _ _).
  - done.
  - exact sample_walk_typed.
  - exact sample_events_typed.
  - apply (list_elem_of_lookup_2 _ 0%nat). vm_compute. reflexivity.
  - by vm_compute.
  - by vm_compute.
  - by vm_compute.
  - by vm_compute.
  - by vm_compute.
Defined.

(** Two rows for a channel with one slot. *)
Definition small_app : AppState (PC := bounded_permits MetricRow) :=
  {| ingest_tx := (Bounded [] 1 false : chan MetricRow); app_channel_capacity := 1;
     app_healthy := true; app_bearer := None; app_metrics := ∅ |}.

Definition two_rows : IngestBatch :=
  {| schema_version := 4; window_start_ns := 0; window_end_ns := 10; Wire.node := "n"; batch_id := "b";
     agent_version := "1.2.0"; workloads := [sample_row; sample_row] |}.

Lemma oversized_batch_blocks_delivery_witness :
  exists w', worker_loop status_success status_server_error 1 30 [[1]; [2]]
    (gateway_answer None two_rows <$> [small_app; small_app; small_app]) (Worker 1 circuit_init)
    = ([], [[1]; [2]], w').
Proof.
  apply (oversized_batch_blocks_delivery status_success status_server_error 1 30 None two_rows
           [small_app; small_app; small_app] (Worker 1 circuit_init) [1] [[2]]);
    first [done|by vm_compute|by repeat constructor].
Defined.
