(* ===== verification/Cache.v ===== *)
(** * Cache: the dashboard's response cache and request cap

    Models [statix-gateway/src/routes/dashboard/cache.rs].  The clock is an input
    of every operation, one reading per call; the order in which a hash map is
    iterated is any enumeration of it.  A lock is never poisoned, since nothing
    panics under it.  The theorems: a hit is the last answer stored under the key
    and at most [ttl] old, a pinned answer that fresh always hits, unpinned
    entries stay within the capacity, and the request cap holds over every
    interval. *)

From S2P Require Export Prelude.

#[local] Open Scope Z_scope.

Section Cache.
Context {B : Type}.

Record Entry : Type := { stored_at : Z; entry_body : B; pinned : bool }.

Record TtlCache : Type := {
  entries : gmap string Entry;
  ttl : Z;
  max_entries : nat;
  hits : Z;
  misses : Z
}.

Definition new_ttl_cache (ttl : Z) (max_entries : nat) : TtlCache :=
  {| entries := ∅; ttl := ttl; max_entries := Nat.max max_entries 4; hits := 0; misses := 0 |}.

(** [stored_at.elapsed() <= ttl]; an [Instant] never runs backwards. *)
Definition entry_fresh (now : Z) (c : TtlCache) (e : Entry) : bool :=
  saturating_sub now (stored_at e) <=? ttl c.

Definition cache_get (key : string) (now : Z) (c : TtlCache) : option B * TtlCache :=
  match entries c !! key with
  | None => (None, c)
  | Some e =>
      if entry_fresh now c e
      then (Some (entry_body e),
            {| entries := entries c; ttl := ttl c; max_entries := max_entries c;
               hits := wrapping_add 64 (hits c) 1; misses := misses c |})
      else (None,
            {| entries := entries c; ttl := ttl c; max_entries := max_entries c;
               hits := hits c; misses := wrapping_add 64 (misses c) 1 |})
  end.

(** [min_by_key]: the first of the smallest. *)
Fixpoint min_by_key (l : list (string * Entry)) : option (string * Entry) :=
  match l with
  | [] => None
  | x :: l =>
      match min_by_key l with
      | Some y => if stored_at y.2 <? stored_at x.2 then Some y else Some x
      | None => Some x
      end
  end.

(** How the map enumerates its entries. *)
Variable iter : gmap string Entry -> list (string * Entry).

Definition set_entries (m : gmap string Entry) (c : TtlCache) : TtlCache :=
  {| entries := m; ttl := ttl c; max_entries := max_entries c; hits := hits c; misses := misses c |}.

Definition cache_put (key : string) (body : B) (pin : bool) (now : Z) (c : TtlCache) : TtlCache :=
  let m := filter (fun x => entry_fresh now c x.2 || pinned x.2 = true) (entries c) in
  let m :=
    if (max_entries c <=? size m)%nat && negb (bool_decide (is_Some (m !! key)))
    then match min_by_key (filter (fun x => pinned x.2 = false) (iter m)) with
         | Some (k, _) => delete k m
         | None => m
         end
    else m in
  set_entries (<[key := {| stored_at := now; entry_body := body; pinned := pin |}]> m) c.

(** ** Runs *)

Inductive cache_op : Type :=
| CGet (key : string)
| CPut (key : string) (body : B) (pin : bool).

Fixpoint cache_run (ops : list (Z * cache_op)) (c : TtlCache) : TtlCache :=
  match ops with
  | [] => c
  | (now, CGet key) :: ops => cache_run ops (cache_get key now c).2
  | (now, CPut key body pin) :: ops => cache_run ops (cache_put key body pin now c)
  end.

(** The last answer stored under a key. *)
Fixpoint last_put (key : string) (ops : list (Z * cache_op)) (acc : option Entry) : option Entry :=
  match ops with
  | [] => acc
  | (now, CPut k body pin) :: ops =>
      last_put key ops
        (if bool_decide (k = key)
         then Some {| stored_at := now; entry_body := body; pinned := pin |} else acc)
  | (_, CGet _) :: ops => last_put key ops acc
  end.

Definition unpinned (m : gmap string Entry) : gmap string Entry := filter (fun x => pinned x.2 = false) m.

(** ** Lemmas *)

Hypothesis iter_perm : forall m, iter m ≡ₚ map_to_list m.

Lemma min_by_key_elem l x : min_by_key l = Some x -> x ∈ l.
Proof.
  revert x. induction l as [|y l IH]; intros x; [done|]. cbn [min_by_key].
  destruct (min_by_key l) as [z|].
  - destruct (_ <? _); intros [= <-]; [right; by apply IH|by left].
  - intros [= <-]. by left.
Qed.

Lemma min_by_key_none l : min_by_key l = None -> l = [].
Proof. destruct l; [done|]. cbn [min_by_key]. destruct (min_by_key l); [by destruct (_ <? _)|done]. Qed.

(** What a put leaves of the other keys. *)
Lemma put_lookup key body pin now c k :
  entries (cache_put key body pin now c) !! k
    = (if bool_decide (key = k) then Some {| stored_at := now; entry_body := body; pinned := pin |}
       else entries (cache_put key body pin now c) !! k)
  /\ (key <> k -> forall e, entries (cache_put key body pin now c) !! k = Some e -> entries c !! k = Some e)
  /\ (key <> k -> forall e, entries c !! k = Some e -> pinned e = true ->
      entries (cache_put key body pin now c) !! k = Some e).
Proof.
  unfold cache_put. cbn [entries set_entries]. set (m := filter _ (entries c)).
  assert (Hm : forall e, m !! k = Some e -> entries c !! k = Some e).
  { intros e He. by apply map_lookup_filter_Some in He as [? _]. }
  assert (Hp : forall e, entries c !! k = Some e -> pinned e = true -> m !! k = Some e).
  { intros e He Hpin. apply map_lookup_filter_Some. split; [done|]. cbn. rewrite Hpin. apply orb_true_r. }
  split; [destruct (decide (key = k)) as [<-|Hne];
    [rewrite (bool_decide_eq_true_2 (key = key)) by done; apply lookup_insert_eq
    |by rewrite (bool_decide_eq_false_2 (key = k))]|].
  destruct (_ && _); [destruct (min_by_key _) as [[v ev]|] eqn:E|].
  - apply min_by_key_elem, list_elem_of_filter in E as [Hv E]. rewrite iter_perm in E.
    apply elem_of_map_to_list in E. simpl in Hv.
    split; intros Hne e; rewrite lookup_insert_ne by done; destruct (decide (v = k)) as [->|Hvk].
    + by rewrite lookup_delete_eq.
    + rewrite lookup_delete_ne by done. apply Hm.
    + intros He Hpin. specialize (Hp e He Hpin). congruence.
    + intros He Hpin. rewrite lookup_delete_ne by done. auto.
  - split; intros Hne e; rewrite lookup_insert_ne by done; auto.
  - split; intros Hne e; rewrite lookup_insert_ne by done; auto.
Qed.

(** The cache agrees with the history. *)
Record agrees (ops : list (Z * cache_op)) (c : TtlCache) : Prop := {
  ag_sound : forall k e, entries c !! k = Some e -> last_put k ops None = Some e;
  ag_pinned : forall k e, last_put k ops None = Some e -> pinned e = true -> entries c !! k = Some e
}.

Lemma last_put_app k ops1 ops2 acc : last_put k (ops1 ++ ops2) acc = last_put k ops2 (last_put k ops1 acc).
Proof. revert acc. induction ops1 as [|[t [|]] ops1 IH]; intros acc; cbn; auto. Qed.

Lemma cache_run_app ops1 ops2 c : cache_run (ops1 ++ ops2) c = cache_run ops2 (cache_run ops1 c).
Proof. revert c. induction ops1 as [|[t [|]] ops1 IH]; intros c; cbn; auto. Qed.

Lemma get_entries key now c :
  entries (cache_get key now c).2 = entries c /\ ttl (cache_get key now c).2 = ttl c
  /\ max_entries (cache_get key now c).2 = max_entries c.
Proof. unfold cache_get. destruct (entries c !! key); [|done]. by destruct (entry_fresh _ _ _). Qed.

Lemma run_agrees ops c : agrees [] c -> agrees ops (cache_run ops c) /\ ttl (cache_run ops c) = ttl c.
Proof.
  intros H0. induction ops as [|[t op] ops [IH Ht]] using rev_ind; [done|].
  rewrite cache_run_app. destruct op as [key|key body pin]; cbn [cache_run].
  - destruct (get_entries key t (cache_run ops c)) as (E & E2 & _). split; [|congruence].
    destruct IH as [I1 I2]. split; intros k e; rewrite last_put_app, E; cbn [last_put]; auto.
  - split; [|exact Ht]. destruct IH as [I1 I2].
    split; intros k e; rewrite last_put_app; cbn [last_put];
      destruct (put_lookup key body pin t (cache_run ops c) k) as (P1 & P2 & P3); rewrite P1;
      case_bool_decide as E; auto.
Qed.

(** *** Size *)

Definition pins (pin_of : string -> bool) (x : Z * cache_op) : Prop :=
  match x.2 with CPut k _ p => p = pin_of k | CGet _ => True end.

Definition pinned_by (pin_of : string -> bool) (m : gmap string Entry) : Prop :=
  map_Forall (fun k e => pinned e = pin_of k) m.

Lemma unpinned_insert m k e :
  pinned e = false -> (forall e0, m !! k = Some e0 -> pinned e0 = false) ->
  (size (unpinned (<[k := e]> m)) <= if bool_decide (is_Some (m !! k)) then size (unpinned m) else S (size (unpinned m)))%nat.
Proof.
  intros Hp Hk. unfold unpinned. rewrite map_filter_insert_True by done.
  destruct (m !! k) as [e0|] eqn:E.
  - rewrite bool_decide_eq_true_2 by done. rewrite map_size_insert_Some; [done|].
    exists e0. apply map_lookup_filter_Some. auto.
  - rewrite bool_decide_eq_false_2 by (intros [? ?]; done). rewrite map_size_insert_None; [done|].
    apply map_lookup_filter_None. by left.
Qed.

Lemma unpinned_le m : (size (unpinned m) <= size m)%nat.
Proof. apply map_subseteq_size, map_filter_subseteq. Qed.

Lemma put_bound pin_of key body now c :
  (4 <= max_entries c)%nat -> pinned_by pin_of (entries c) -> (size (unpinned (entries c)) <= max_entries c)%nat ->
  let c' := cache_put key body (pin_of key) now c in
  pinned_by pin_of (entries c') /\ (size (unpinned (entries c')) <= max_entries c)%nat.
Proof.
  intros H4 Hpin Hle. cbn zeta. unfold cache_put. cbn [entries set_entries]. set (m := filter _ (entries c)).
  assert (Hm : pinned_by pin_of m) by (intros k e [? _]%map_lookup_filter_Some; by apply Hpin).
  assert (Hum : (size (unpinned m) <= max_entries c)%nat).
  { etransitivity; [|exact Hle]. apply map_subseteq_size. unfold unpinned. apply map_filter_subseteq_mono, map_filter_subseteq. }
  set (m' := if _ && _ then _ else m).
  assert (H' : pinned_by pin_of m' /\ (size (unpinned m') <= max_entries c)%nat
    /\ (m' !! key = None -> size (unpinned m') < max_entries c)%nat).
  { unfold m'. destruct (Nat.leb_spec (max_entries c) (size m)) as [Hfull|Hroom]; cbn [andb].
    2:{ split; [done|]. split; [done|]. intros _. pose proof (unpinned_le m). lia. }
    case_bool_decide as Hk; cbn [negb]; [split; [done|]; split; [done|]; intros E; rewrite E in Hk; by destruct Hk|].
    destruct (min_by_key _) as [[v ev]|] eqn:E.
    - apply min_by_key_elem, list_elem_of_filter in E as [Hv E]. rewrite iter_perm in E.
      apply elem_of_map_to_list in E. simpl in Hv.
      assert (Hlt : (size (unpinned (delete v m)) < size (unpinned m))%nat).
      { unfold unpinned. rewrite map_filter_delete.
        assert (Hin : filter (fun x => pinned x.2 = false) m !! v = Some ev) by (by apply map_lookup_filter_Some).
        rewrite map_size_delete_Some by done.
        assert (size (filter (fun x : string * Entry => pinned x.2 = false) m) <> 0%nat)
          by (intros E0%map_size_empty_inv; by rewrite E0 in Hin). lia. }
      split; [by apply map_Forall_delete|]. split; [lia|]. intros _. lia.
    - apply min_by_key_none in E. assert (E0 : unpinned m = ∅).
      { apply map_empty. intros k. apply map_lookup_filter_None. right. intros e Hke Hp. simpl in Hp.
        assert (Hin : (k, e) ∈ filter (fun x : string * Entry => pinned x.2 = false) (iter m)).
        { apply list_elem_of_filter. split; [done|]. rewrite iter_perm. by apply elem_of_map_to_list. }
        rewrite E in Hin. by apply not_elem_of_nil in Hin. }
      rewrite E0, map_size_empty. split; [done|]. split; [lia|]. intros _. lia. }
  clearbody m'. destruct H' as (H1 & H2 & H3). split; [by apply map_Forall_insert_2|].
  destruct (pin_of key) eqn:Ep.
  - unfold unpinned. rewrite map_filter_insert_False by done. etransitivity; [|exact H2].
    apply map_subseteq_size, map_filter_subseteq_mono, delete_subseteq.
  - pose proof (unpinned_insert m' key {| stored_at := now; entry_body := body; pinned := false |} eq_refl) as H.
    specialize (H ltac:(intros e0 He0; rewrite <- Ep; by apply H1)).
    case_bool_decide as Hk; [lia|]. assert (m' !! key = None) by (destruct (m' !! key); [by destruct Hk|done]).
    specialize (H3 ltac:(done)). lia.
Qed.

Lemma run_bound pin_of ops c :
  (4 <= max_entries c)%nat -> pinned_by pin_of (entries c) -> (size (unpinned (entries c)) <= max_entries c)%nat ->
  Forall (pins pin_of) ops -> (size (unpinned (entries (cache_run ops c))) <= max_entries c)%nat.
Proof.
  intros H4 Hp Hle Hops. revert c H4 Hp Hle. induction Hops as [|[t op] ops Hop _ IH]; intros c H4 Hp Hle; [done|].
  destruct op as [key|key body pin]; cbn [cache_run].
  - destruct (get_entries key t c) as (E & _ & E3). rewrite <- E3. apply IH; by rewrite ?E, ?E3.
  - change (pin = pin_of key) in Hop. subst pin. destruct (put_bound pin_of key body t c H4 Hp Hle) as [H1 H2].
    by apply (IH (cache_put key body (pin_of key) t c)).
Qed.

End Cache.

(** ** The request cap *)

Record RateLimiter : Type := { started : Z; count : Z; max_per_window : Z; window : Z }.

Definition new_rate_limiter (max_per_window window now : Z) : RateLimiter :=
  {| started := now; count := 0; max_per_window := Z.max max_per_window 1; window := window |}.

Definition allow (now : Z) (l : RateLimiter) : bool * RateLimiter :=
  let '(st, n) := if window l <=? saturating_sub now (started l) then (now, 0) else (started l, count l) in
  if max_per_window l <=? n
  then (false, {| started := st; count := n; max_per_window := max_per_window l; window := window l |})
  else (true, {| started := st; count := n + 1; max_per_window := max_per_window l; window := window l |}).

(** Requests at the given times, and whether each was allowed. *)
Fixpoint allow_run (times : list Z) (l : RateLimiter) : list (Z * bool) :=
  match times with
  | [] => []
  | t :: times => let '(b, l) := allow t l in (t, b) :: allow_run times l
  end.

(** How many were allowed from [lo] on and before [hi]. *)
Definition allowed_in (lo hi : Z) (log : list (Z * bool)) : Z :=
  sumZ (fun x => if (lo <=? x.1) && (x.1 <? hi) && x.2 then 1 else 0) log.

Definition limiter_ok (l : RateLimiter) : Prop := 0 <= count l <= max_per_window l /\ 0 < window l.

(** The request times go forward from [t]. *)
Fixpoint times_from (t : Z) (times : list Z) : Prop :=
  match times with
  | [] => True
  | x :: times => t <= x /\ times_from x times
  end.

Lemma times_from_weaken t t' times : t <= t' -> times_from t' times -> times_from t times.
Proof. destruct times; simpl; intuition lia. Qed.

Lemma allow_cases now l :
  limiter_ok l -> started l <= now ->
  let '(b, l') := allow now l in
  max_per_window l' = max_per_window l /\ window l' = window l /\ limiter_ok l'
  /\ ((now < started l + window l /\ started l' = started l
       /\ (b = true /\ count l' = count l + 1 \/ b = false /\ count l' = count l /\ count l = max_per_window l))
      \/ (started l + window l <= now /\ started l' = now
          /\ (b = true /\ count l' = 1 \/ b = false /\ count l' = 0 /\ max_per_window l <= 0))).
Proof.
  intros [Hc Hw] Hs. unfold allow, saturating_sub, limiter_ok.
  destruct (Z.leb_spec (window l) (Z.max (now - started l) 0)).
  - destruct (Z.leb_spec (max_per_window l) 0); cbn; split_and!; try lia; right; split_and!; try lia.
  - destruct (Z.leb_spec (max_per_window l) (count l)); cbn; split_and!; try lia; left; split_and!; lia.
Qed.

Lemma allowed_in_cons lo hi t b log :
  allowed_in lo hi ((t, b) :: log)
  = (if (lo <=? t) && (t <? hi) && b then 1 else 0) + allowed_in lo hi log.
Proof. reflexivity. Qed.

Lemma allowed_in_range lo hi times l :
  times_from hi times -> allowed_in lo hi (allow_run times l) = 0.
Proof.
  revert l. induction times as [|t times IH]; intros l Ht; [done|]. cbn [allow_run times_from] in *.
  destruct (allow t l) as [b l']. rewrite allowed_in_cons, IH by (eapply times_from_weaken; [|apply Ht]; lia).
  destruct (Z.ltb_spec t hi); [lia|]. by rewrite andb_false_r.
Qed.

(** An interval that starts no later than the open window. *)
Lemma allowed_now lo times l :
  limiter_ok l -> times_from (started l) times -> lo <= started l ->
  allowed_in lo (lo + window l) (allow_run times l) <= max_per_window l - count l.
Proof.
  revert l. induction times as [|t times IH]; intros l Hl Ht Hlo; [destruct Hl; cbn; lia|].
  cbn [allow_run times_from] in *. destruct Ht as [Ht1 Ht2].
  pose proof (allow_cases t l Hl Ht1) as H. destruct (allow t l) as [b l']. destruct H as (Em & Ew & Hl' & H).
  rewrite allowed_in_cons. destruct H as [(Hin & Es & H)|(Hout & Es & H)].
  - specialize (IH l' Hl'). rewrite Em, Ew, Es in IH.
    specialize (IH (times_from_weaken _ _ _ Ht1 Ht2) Hlo).
    destruct H as [(-> & Ec)|(-> & Ec & _)]; rewrite Ec in IH; [|rewrite andb_false_r; lia].
    rewrite andb_true_r. destruct (_ && _); lia.
  - rewrite allowed_in_range by (eapply times_from_weaken; [|exact Ht2]; lia).
    destruct (Z.ltb_spec t (lo + window l)); [lia|]. rewrite andb_false_r. destruct Hl. simpl. lia.
Qed.

(** An interval that starts inside the open window. *)
Lemma allowed_later lo times l :
  limiter_ok l -> times_from (started l) times -> times_from lo times ->
  allowed_in lo (lo + window l) (allow_run times l) <= 2 * max_per_window l - count l.
Proof.
  revert l. induction times as [|t times IH]; intros l Hl Ht Hlo; [destruct Hl; cbn; lia|].
  cbn [allow_run times_from] in *. destruct Ht as [Ht1 Ht2], Hlo as [Hlo1 _].
  pose proof (allow_cases t l Hl Ht1) as H. destruct (allow t l) as [b l']. destruct H as (Em & Ew & Hl' & H).
  rewrite allowed_in_cons. destruct H as [(Hin & Es & H)|(Hout & Es & H)].
  - specialize (IH l' Hl'). rewrite Em, Ew, Es in IH.
    specialize (IH (times_from_weaken _ _ _ Ht1 Ht2) (times_from_weaken _ _ _ Hlo1 Ht2)).
    destruct H as [(-> & Ec)|(-> & Ec & _)]; rewrite Ec in IH; [|rewrite andb_false_r; lia].
    rewrite andb_true_r. destruct (_ && _); lia.
  - rewrite <- Es in Ht2. pose proof (allowed_now lo times l' Hl' Ht2 ltac:(lia)) as Hn. rewrite Em, Ew in Hn.
    destruct Hl. destruct H as [(-> & Ec)|(-> & Ec & ?)]; rewrite Ec in Hn; [|rewrite andb_false_r; lia].
    destruct (_ && _); lia.
Qed.

Lemma allowed_interval lo times l :
  limiter_ok l -> times_from (started l) times ->
  allowed_in lo (lo + window l) (allow_run times l) <= 2 * max_per_window l.
Proof.
  revert l. induction times as [|t times IH]; intros l Hl Ht; [destruct Hl; cbn; lia|].
  destruct (Z.le_gt_cases lo t) as [Hlo|Hlo].
  { assert (Hlt : times_from lo (t :: times)) by (split; [done|apply Ht]).
    pose proof (allowed_later lo (t :: times) l Hl Ht Hlt). destruct Hl. lia. }
  cbn [allow_run times_from] in *. destruct Ht as [Ht1 Ht2].
  pose proof (allow_cases t l Hl Ht1) as H. destruct (allow t l) as [b l']. destruct H as (Em & Ew & Hl' & H).
  rewrite allowed_in_cons. destruct (Z.leb_spec lo t); [lia|]. cbn [andb].
  specialize (IH l' Hl'). rewrite Em, Ew in IH. apply IH. eapply times_from_weaken; [|exact Ht2].
  destruct H as [(_ & -> & _)|(_ & -> & _)]; lia.
Qed.

(** Requests allowed so far in the open window, when [log] is what came before. *)
Definition counted (l : RateLimiter) (log : list (Z * bool)) : Prop :=
  count l <= sumZ (fun x => if (started l <=? x.1) && x.2 then 1 else 0) log.

Lemma rejected_was_full times l log t :
  limiter_ok l -> 0 < max_per_window l -> times_from (started l) times -> counted l log ->
  (t, false) ∈ allow_run times l ->
  max_per_window l <= sumZ (fun x => if (t - window l <? x.1) && x.2 then 1 else 0) (log ++ allow_run times l).
Proof.
  revert l log. induction times as [|u times IH]; intros l log Hl Hm Ht Hc Hin; [by apply not_elem_of_nil in Hin|].
  cbn [allow_run times_from] in *. destruct Ht as [Ht1 Ht2].
  pose proof (allow_cases u l Hl Ht1) as H. destruct (allow u l) as [b l']. destruct H as (Em & Ew & Hl' & H).
  apply elem_of_cons in Hin as [[= -> <-]|Hin].
  - destruct H as [(Hin & Es & [(? & _)|(_ & Ec & Ef)])|(_ & _ & [(? & _)|(_ & _ & ?)])]; try done; [|lia].
    rewrite sumZ_app. unfold counted in Hc. rewrite Ef in Hc.
    assert (Hle : sumZ (fun x : Z * bool => if (started l <=? x.1) && x.2 then 1 else 0) log
                  <= sumZ (fun x : Z * bool => if (u - window l <? x.1) && x.2 then 1 else 0) log).
    { clear - Hin. unfold sumZ. induction log as [|[v bv] log IH]; [done|]. cbn [foldr fst snd].
      destruct (Z.leb_spec (started l) v), (Z.ltb_spec (u - window l) v), bv; cbn [andb]; lia. }
    assert (0 <= sumZ (fun x : Z * bool => if (u - window l <? x.1) && x.2 then 1 else 0) ((u, false) :: allow_run times l'))
      by (apply sumZ_nonneg, Forall_forall; intros x _; by destruct (_ && _)).
    lia.
  - specialize (IH l' (log ++ [(u, b)]) Hl'). rewrite Em, Ew in IH. rewrite <- app_assoc in IH. apply IH; try done.
    + destruct H as [(_ & -> & _)|(_ & -> & _)]; [|done]. by eapply times_from_weaken.
    + unfold counted in *. rewrite sumZ_app, sumZ_cons. cbn [fst snd sumZ foldr].
      assert (Hn : 0 <= sumZ (fun x : Z * bool => if (started l' <=? x.1) && x.2 then 1 else 0) log)
        by (apply sumZ_nonneg, Forall_forall; intros x _; by destruct (_ && _)).
      destruct H as [(_ & Es & H)|(_ & Es & H)]; rewrite Es in *.
      * destruct (Z.leb_spec (started l) u); [|lia].
        destruct H as [(-> & ->)|(-> & -> & _)]; cbn [andb]; lia.
      * destruct (Z.leb_spec u u); [|lia]. destruct H as [(-> & ->)|(-> & -> & _)]; cbn [andb]; lia.
Qed.

(** ** Properties *)

(** The cache answers with the last answer, or not at all.  After any
    sequence of operations a hit on a key is the answer last stored under it, at
    most [ttl] old; an answer stored pinned always hits while it is that fresh,
    whatever else was stored since; and when a key determines whether its answers
    are pinned, unpinned answers never exceed the capacity. *)
Theorem cache_serves_the_last_answer {B} (iter : gmap string (Entry (B := B)) -> list (string * Entry))
    ops ttl n key now :
  (forall m, iter m ≡ₚ map_to_list m) -> 0 <= ttl ->
  let c := cache_run iter ops (new_ttl_cache ttl n) in
  let answer := (cache_get key now c).1 in
  (forall body, answer = Some body ->
     exists e, last_put key ops None = Some e /\ entry_body e = body /\ now - stored_at e <= ttl)
  /\ (forall e, last_put key ops None = Some e -> pinned e = true -> now - stored_at e <= ttl ->
       answer = Some (entry_body e))
  /\ (forall pin_of, Forall (pins pin_of) ops ->
       (size (unpinned (entries c)) <= Nat.max n 4)%nat).
Proof.
  intros Hiter Httl c answer. subst answer.
  destruct (run_agrees iter Hiter ops (new_ttl_cache ttl n)) as [[A1 A2] At]; [by split|].
  fold c in A1, A2, At. cbn in At. unfold cache_get. split_and!.
  - intros body. destruct (entries c !! key) as [e|] eqn:E; [|done]. unfold entry_fresh. rewrite At.
    destruct (Z.leb_spec (saturating_sub now (stored_at e)) ttl); [|done]. intros [= <-].
    exists e. split; [by apply A1|]. split; [done|]. unfold saturating_sub in *. lia.
  - intros e E Hp Ht. rewrite (A2 key e E Hp). unfold entry_fresh. rewrite At.
    destruct (Z.leb_spec (saturating_sub now (stored_at e)) ttl); [done|]. unfold saturating_sub in *. lia.
  - intros pin_of Hp. apply (run_bound iter Hiter pin_of ops (new_ttl_cache ttl n)); try done; cbn; [lia|].
    unfold unpinned. rewrite map_filter_empty, map_size_empty. lia.
Qed.

(** C36: the request cap holds everywhere.  Over any interval as long as the window
    at most twice the cap is allowed (a fixed window that starts anew with the
    first late request), and a request is only refused when at least the cap was
    allowed less than a window ago. *)
Theorem rate_limit_holds max_per_window window now times lo :
  0 < max_per_window -> 0 < window -> times_from now times ->
  let log := allow_run times (new_rate_limiter max_per_window window now) in
  allowed_in lo (lo + window) log <= 2 * max_per_window
  /\ forall t, (t, false) ∈ log ->
     max_per_window <= sumZ (fun x => if (t - window <? x.1) && x.2 then 1 else 0) log.
Proof.
  intros Hm Hw Ht log. set (l := new_rate_limiter max_per_window window now) in *.
  assert (Hl : limiter_ok l) by (split; cbn; lia).
  assert (Em : Cache.max_per_window l = max_per_window) by (cbn; lia).
  split.
  - pose proof (allowed_interval lo times l Hl Ht) as H. rewrite Em in H. exact H.
  - intros t Hin. pose proof (rejected_was_full times l [] t Hl ltac:(lia) Ht ltac:(done) Hin) as H.
    rewrite Em in H. exact H.
Qed.

(** *** Witnesses *)

Definition sample_ops : list (Z * cache_op (B := Z)) :=
  [(0, CPut "hot" 1 true); (1, CPut "a" 2 false); (2, CPut "b" 3 false); (3, CPut "c" 4 false);
   (4, CPut "d" 5 false); (5, CGet "hot")].

Lemma cache_serves_the_last_answer_witness :
  (cache_get "hot" 6 (cache_run map_to_list sample_ops (new_ttl_cache 10 4))).1 = Some 1.
Proof.
  apply (proj1 (proj2 (cache_serves_the_last_answer map_to_list sample_ops 10 4 "hot" 6
           ltac:(done) ltac:(lia)))  {| stored_at := 0; entry_body := 1; pinned := true |}); [done|done|cbn; lia].
Defined.

Lemma rate_limit_holds_witness :
  allowed_in 5 65 (allow_run [1; 2; 3; 61; 62; 63] (new_rate_limiter 2 60 0)) <= 4.
Proof. apply (rate_limit_holds 2 60 0 [1; 2; 3; 61; 62; 63] 5); [lia|lia|cbn; lia]. Defined.
