(* ===== verification/Sql.v ===== *)
(** * Sql: the queries of the read tier

    Models [statix-gateway/src/routes/dashboard/sql.rs] and the query text of
    [routes/query.rs]: the whitelisted sort orders and the query builders, as
    exact texts.  [placeholders] lists the bound parameters a text mentions. *)

From S2P Require Export Text.

#[local] Open Scope string_scope.

Definition CPU_MILLICORES : string :=
  "if(w_end > w_start, cpu_usec * 1000000.0 / (w_end - w_start), 0.0)".

Inductive Sort : Type := SortCpu | SortMemory | SortMemoryPeak | SortExecs | SortLastSeen.

#[export] Instance sort_eq_dec : EqDecision Sort.
Proof. solve_decision. Defined.

Definition sort_parse (s : option string) : Sort :=
  let s := default "cpu" s in
  if String.eqb s "mem" || String.eqb s "memory" then SortMemory
  else if String.eqb s "mem_peak" || String.eqb s "memory_peak" then SortMemoryPeak
  else if String.eqb s "execs" || String.eqb s "exec_count" then SortExecs
  else if String.eqb s "last_seen" then SortLastSeen
  else SortCpu.

Definition sort_column (s : Sort) : string :=
  match s with
  | SortCpu => "cpu_millicores"
  | SortMemory => "memory_bytes_last"
  | SortMemoryPeak => "memory_bytes_max"
  | SortExecs => "exec_count"
  | SortLastSeen => "window_end_ns"
  end.

Definition sort_as_str (s : Sort) : string :=
  match s with
  | SortCpu => "cpu"
  | SortMemory => "mem"
  | SortMemoryPeak => "mem_peak"
  | SortExecs => "execs"
  | SortLastSeen => "last_seen"
  end.

Inductive Order : Type := Asc | Desc.

#[export] Instance order_eq_dec : EqDecision Order.
Proof. solve_decision. Defined.

Definition order_parse (s : option string) : Order :=
  if String.eqb (default "desc" s) "asc" then Asc else Desc.

Definition order_keyword (o : Order) : string := match o with Asc => "ASC" | Desc => "DESC" end.
Definition order_as_str (o : Order) : string := match o with Asc => "asc" | Desc => "desc" end.

Definition inner (node_filter : bool) : string :=
  let node_clause := if node_filter then " AND node = {node:String}" else "" in
  "SELECT node AS n, cgroup_id AS cg,
            max(window_start_ns)                       AS w_start,
            argMax(window_end_ns,     window_start_ns) AS w_end,
            argMax(namespace,         window_start_ns) AS ns,
            argMax(pod,               window_start_ns) AS pod_name,
            argMax(container,         window_start_ns) AS cont_name,
            argMax(k8s_resolved,      window_start_ns) AS resolved,
            argMax(memory_bytes_last, window_start_ns) AS mem_last,
            argMax(memory_bytes_max,  window_start_ns) AS mem_max,
            argMax(cpu_usage_usec,    window_start_ns) AS cpu_usec,
            argMax(exec_count,        window_start_ns) AS execs,
            argMax(sample_count,      window_start_ns) AS samples
         FROM statix.workload_metrics
         WHERE window_start_ns >= {cutoff_ns:UInt64}" +:+ (node_clause +:+ ("
         GROUP BY node, cgroup_id")).

Fixpoint join (sep : string) (parts : list string) : string :=
  match parts with
  | [] => ""
  | [p] => p
  | p :: parts => p +:+ (sep +:+ join sep parts)
  end.

Definition filters (has_q unattributed_only : bool) : string :=
  let parts :=
    ((if has_q then [
      "positionCaseInsensitive(
                concat(ifNull(ns,''),'/',ifNull(pod_name,''),'/',ifNull(cont_name,'')),
                {q:String}) > 0"] else [])
     ++ (if unattributed_only then ["resolved = 0"] else []))%list in
  match parts with
  | [] => ""
  | _ => " WHERE " +:+ join " AND " parts
  end.

Definition rows (sort : Sort) (order : Order) (has_q unattributed_only node_filter : bool) : string :=
  "SELECT
            CAST(n AS String) AS node,
            cg          AS cgroup_id,
            ns          AS namespace,
            pod_name    AS pod,
            cont_name   AS container,
            resolved    AS k8s_resolved,
            mem_last    AS memory_bytes_last,
            mem_max     AS memory_bytes_max,
            cpu_usec    AS cpu_usage_usec,
            " +:+ (CPU_MILLICORES +:+ (" AS cpu_millicores,
            execs       AS exec_count,
            samples     AS sample_count,
            w_start     AS window_start_ns,
            w_end       AS window_end_ns
         FROM (" +:+ (inner node_filter +:+ (")" +:+ (filters has_q unattributed_only +:+ ("
         ORDER BY " +:+ (sort_column sort +:+ (" " +:+ (order_keyword order +:+ (", node ASC, cgroup_id ASC
         LIMIT {limit:UInt64}")))))))))).

Definition totals (has_q unattributed_only node_filter : bool) : string :=
  "SELECT
            count()                  AS matched_count,
            sum(mem_last)            AS memory_bytes,
            sum(execs)               AS exec_count,
            sum(" +:+ (CPU_MILLICORES +:+ (")    AS cpu_millicores,
            countIf(resolved = 0)    AS unattributed_count,
            max(w_end)               AS newest_window_end_ns
         FROM (" +:+ (inner node_filter +:+ (")" +:+ (filters has_q unattributed_only))))).

Definition nodes : string :=
  "SELECT CAST(node AS String) AS node, max(window_end_ns) AS last_seen_ns
     FROM statix.workload_metrics
     WHERE window_start_ns >= {cutoff_ns:UInt64}
     GROUP BY node
     ORDER BY node".

Definition SUMMARY_SQL : string :=
  "
SELECT cgroup_id, namespace, pod, container,
       argMax(memory_bytes_max, window_start_ns) AS peak_memory,
       sum(exec_count) AS total_execs,
       sum(cpu_usage_usec) AS total_cpu_usec
FROM statix.workload_metrics
WHERE window_start_ns >= {cutoff_ns:UInt64}
GROUP BY cgroup_id, namespace, pod, container
ORDER BY peak_memory DESC
LIMIT 100
".

(** The names between an opening brace and the next colon. *)
Fixpoint placeholders (cur : option string) (s : string) : list string :=
  match s with
  | EmptyString => []
  | String c s =>
      if Ascii.eqb c "{" then placeholders (Some "") s
      else
        match cur with
        | Some w => if Ascii.eqb c ":" then w :: placeholders None s else placeholders (Some (w +:+ String c "")) s
        | None => placeholders None s
        end
  end.

Definition mentions (s : string) : list string := placeholders None s.
