(* ===== verification/Dashboard.v ===== *)
(** * Dashboard: the read tier's handlers

    Models [statix-gateway/src/routes/dashboard/mod.rs] and the summary endpoint
    of [routes/query.rs]: the normalized query with its cache key, the guard every
    endpoint runs, and the handlers with the response cache and the request cap
    of [Cache].  ClickHouse's answers to a query text with its bound parameters,
    and the text serde_json gives a response, are inputs, as are the two clocks,
    in nanoseconds, read once per request. *)

From S2P Require Export Sql Cache Config Ingest F64 Cgroup.

#[local] Open Scope string_scope.
#[local] Open Scope Z_scope.

Definition DEFAULT_RANGE_SECS : Z := 300.
Definition MIN_RANGE_SECS : Z := 60.
Definition MAX_RANGE_SECS : Z := 3600.
Definition DEFAULT_LIMIT : Z := 100.
Definition CACHE_ENTRIES : nat := 64.
Definition MAX_Q_LEN : nat := 64.
Definition NODE_STALE_SECS : Z := 60.

(** ** Characters of UTF-8 text *)

Definition continuation (c : ascii) : bool := ascii_between 128 191 c.

(** [chars().count()] and [chars().take(n)]. *)
Fixpoint char_count (s : string) : nat :=
  match s with
  | EmptyString => 0
  | String c s => ((if continuation c then 0 else 1) + char_count s)%nat
  end.

Fixpoint take_chars (n : nat) (s : string) : string :=
  match s with
  | EmptyString => ""
  | String c s =>
      if continuation c then String c (take_chars n s)
      else match n with O => "" | S n => String c (take_chars n s) end
  end.

(** ** Queries *)

Record StateParams : Type := {
  p_range_secs : option Z;
  p_sort : option string;
  p_order : option string;
  p_q : option string;
  p_node : option string;
  p_unattributed : option bool;
  p_limit : option Z
}.

Record NormalizedQuery : Type := {
  range_secs : Z;
  q_sort : Sort;
  q_order : Order;
  q_text : option string;
  q_node : option string;
  q_unattributed : bool;
  q_limit : Z
}.

#[export] Instance normalized_query_eq_dec : EqDecision NormalizedQuery.
Proof. solve_decision. Defined.

Definition show_bool (b : bool) : string := if b then "true" else "false".

Definition cache_key (q : NormalizedQuery) : string :=
  "r=" +:+ (dec (range_secs q) +:+ ("&s=" +:+ (sort_as_str (q_sort q) +:+ ("&o=" +:+ (order_as_str (q_order q)
  +:+ ("&u=" +:+ (show_bool (q_unattributed q) +:+ ("&l=" +:+ (dec (q_limit q) +:+ ("&n=" +:+ (default "" (q_node q)
  +:+ ("&q=" +:+ default "" (q_text q))))))))))))).

Definition is_hot_view (q : NormalizedQuery) : bool :=
  bool_decide (q_text q = None) && bool_decide (q_node q = None) && negb (q_unattributed q).

Definition filter_active (q : NormalizedQuery) : bool := negb (is_hot_view q).

Definition query_cutoff_ns (q : NormalizedQuery) (now_ns : Z) : Z :=
  saturating_sub now_ns (saturating_mul 64 (range_secs q) 1000000000).

(** ** Rows and responses *)

Record WorkloadLive : Type := {
  wl_node : string;
  wl_cgroup_id : Z;
  wl_namespace : option string;
  wl_pod : option string;
  wl_container : option string;
  wl_k8s_resolved : bool;
  wl_memory_bytes_last : Z;
  wl_memory_bytes_max : Z;
  wl_cpu_usage_usec : Z;
  wl_cpu_millicores : f64;
  wl_exec_count : Z;
  wl_sample_count : Z;
  wl_window_start_ns : Z;
  wl_window_end_ns : Z
}.

Record TotalsRow : Type := {
  tr_matched_count : Z;
  tr_memory_bytes : Z;
  tr_exec_count : Z;
  tr_cpu_millicores : f64;
  tr_unattributed_count : Z;
  tr_newest_window_end_ns : Z
}.

Record NodeRow : Type := { nr_node : string; nr_last_seen_ns : Z }.

Record Totals : Type := {
  t_workload_count : Z;
  t_matched_count : Z;
  t_cpu_millicores : f64;
  t_memory_bytes : Z;
  t_exec_count : Z;
  t_exec_rate_per_sec : f64;
  t_unattributed_count : Z;
  t_newest_window_end_ns : Z
}.

Record StateResponse : Type := {
  sr_generated_at_ns : Z;
  sr_range_secs : Z;
  sr_sort : string;
  sr_order : string;
  sr_filter_active : bool;
  sr_returned : Z;
  sr_totals : Totals;
  sr_workloads : list WorkloadLive
}.

Record NodeHealth : Type := { nh_node : string; nh_last_seen_ns : Z; nh_age_secs : f64; nh_stale : bool }.

(** [gateway], [clickhouse] and [freshness] flattened. *)
Record HealthResponse : Type := {
  hr_generated_at_ns : Z;
  hr_ready : bool;
  hr_mpsc_used : Z;
  hr_mpsc_capacity : Z;
  hr_ch_healthy : bool;
  hr_query_ok : bool;
  hr_newest_window_end_ns : Z;
  hr_age_secs : f64;
  hr_stale : bool;
  hr_has_data : bool;
  hr_nodes : list NodeHealth
}.

Inductive sql_param : Type := UInt64 (n : Z) | Text (s : string).

(** ClickHouse's answers to a text with bound parameters; [None] is an error. *)
Record ClickHouse : Type := {
  fetch_rows : string -> list (string * sql_param) -> option (list WorkloadLive);
  fetch_totals : string -> list (string * sql_param) -> option (list TotalsRow);
  fetch_nodes : string -> list (string * sql_param) -> option (list NodeRow)
}.

Record dash_response : Type := { d_status : Z; d_text : string; d_cache_hit : option bool }.

Definition plain (status : Z) (text : string) : dash_response :=
  {| d_status := status; d_text := text; d_cache_hit := None |}.

Definition json_body (text : string) (hit : bool) : dash_response :=
  {| d_status := 200; d_text := text; d_cache_hit := Some hit |}.

(** ** Handlers *)

Section Handlers.
Context {PC : PermitChannel MetricRow}.

(** The Unicode tables of [str::to_lowercase]; how a response is serialized;
    how the caches' maps are enumerated; the page in the binary. *)
Variables (to_lowercase : string -> string)
  (state_json : StateResponse -> option string) (health_json : HealthResponse -> option string)
  (iter : gmap string (Entry (B := string)) -> list (string * Entry (B := string)))
  (EMBEDDED_PAGE : string).

Definition normalize (p : StateParams) (max_limit : Z) : NormalizedQuery :=
  let q :=
    match p_q p with
    | Some s =>
        let s := to_lowercase (trim s) in
        if is_empty s then None
        else Some (if (MAX_Q_LEN <? char_count s)%nat then take_chars MAX_Q_LEN s else s)
    | None => None
    end in
  {| range_secs := clamp (default DEFAULT_RANGE_SECS (p_range_secs p)) MIN_RANGE_SECS MAX_RANGE_SECS;
     q_sort := sort_parse (p_sort p);
     q_order := order_parse (p_order p);
     q_text := q;
     q_node := match p_node p with
               | Some s =>
                   let s := trim s in
                   if negb (is_empty s) && (char_count s <=? MAX_Q_LEN)%nat then Some s else None
               | None => None
               end;
     q_unattributed := default false (p_unattributed p);
     q_limit := clamp (default DEFAULT_LIMIT (p_limit p)) 1 max_limit |}.

Record Dashboard : Type := {
  d_config : DashboardConfig;
  state_cache : TtlCache (B := string);
  health_cache : TtlCache (B := string);
  limiter : RateLimiter
}.

Definition new_dashboard (config : DashboardConfig) (now : Z) : Dashboard :=
  let ttl := cache_ttl config * 1000000 in
  {| d_config := config;
     state_cache := new_ttl_cache ttl CACHE_ENTRIES;
     health_cache := new_ttl_cache ttl 4;
     limiter := new_rate_limiter (rate_limit_per_min config) 60000000000 now |}.

Definition set_state_cache (c : TtlCache) (d : Dashboard) : Dashboard :=
  {| d_config := d_config d; state_cache := c; health_cache := health_cache d; limiter := limiter d |}.
Definition set_health_cache (c : TtlCache) (d : Dashboard) : Dashboard :=
  {| d_config := d_config d; state_cache := state_cache d; health_cache := c; limiter := limiter d |}.
Definition set_limiter (l : RateLimiter) (d : Dashboard) : Dashboard :=
  {| d_config := d_config d; state_cache := state_cache d; health_cache := health_cache d; limiter := l |}.

Definition authorized (auth : option string) (s : AppState) : bool :=
  match app_bearer s with
  | None => true
  | Some expected => bool_decide (auth = Some expected)
  end.

Abbreviation dash_state := (AppState * Dashboard)%type.

Definition guard (auth : option string) (now : Z) (st : dash_state) : option dash_response * dash_state :=
  let '(s, d) := st in
  if negb (dash_enabled (d_config d)) then (Some (plain 404 "Dashboard disabled."), (s, d))
  else if negb (authorized auth s) then (Some (plain 401 ""), (s, d))
  else
    let '(ok, l) := allow now (limiter d) in
    let d := set_limiter l d in
    if negb ok
    then (Some (plain 429 "Rate limit exceeded."), (count "statix_api_dashboard_rate_limited_total" s, d))
    else (None, (s, d)).

(** The parameters bound to the two queries. *)
Definition filter_params (q : NormalizedQuery) : list (string * sql_param) :=
  (match q_node q with Some node => [("node", Text node)] | None => [] end
   ++ match q_text q with Some text => [("q", Text text)] | None => [] end)%list.

Definition rows_params (q : NormalizedQuery) (cutoff_ns : Z) : list (string * sql_param) :=
  (("cutoff_ns", UInt64 cutoff_ns) :: ("limit", UInt64 (q_limit q)) :: filter_params q)%list.

Definition totals_params (q : NormalizedQuery) (cutoff_ns : Z) : list (string * sql_param) :=
  (("cutoff_ns", UInt64 cutoff_ns) :: filter_params q)%list.

Definition rows_sql (q : NormalizedQuery) : string :=
  rows (q_sort q) (q_order q) (bool_decide (is_Some (q_text q))) (q_unattributed q)
    (bool_decide (is_Some (q_node q))).

Definition totals_sql (q : NormalizedQuery) : string :=
  totals (bool_decide (is_Some (q_text q))) (q_unattributed q) (bool_decide (is_Some (q_node q))).

Definition build_state (ch : ClickHouse) (wall_ns : Z) (q : NormalizedQuery) : option string :=
  let cutoff_ns := query_cutoff_ns q wall_ns in
  workloads ← fetch_rows ch (rows_sql q) (rows_params q cutoff_ns);
  totals ← fetch_totals ch (totals_sql q) (totals_params q cutoff_ns);
  let t := default {| tr_matched_count := 0; tr_memory_bytes := 0; tr_exec_count := 0;
                      tr_cpu_millicores := Finite 0 0; tr_unattributed_count := 0;
                      tr_newest_window_end_ns := 0 |} (head totals) in
  state_json
    {| sr_generated_at_ns := wall_ns; sr_range_secs := range_secs q;
       sr_sort := sort_as_str (q_sort q); sr_order := order_as_str (q_order q);
       sr_filter_active := filter_active q; sr_returned := Z.of_nat (length workloads);
       sr_totals :=
         {| t_workload_count := tr_matched_count t; t_matched_count := tr_matched_count t;
            t_cpu_millicores := tr_cpu_millicores t; t_memory_bytes := tr_memory_bytes t;
            t_exec_count := tr_exec_count t;
            t_exec_rate_per_sec :=
              if 0 <? range_secs q then f64_div (f64_of_u64 (tr_exec_count t)) (f64_of_u64 (range_secs q))
              else Finite 0 0;
            t_unattributed_count := tr_unattributed_count t;
            t_newest_window_end_ns := tr_newest_window_end_ns t |};
       sr_workloads := workloads |}.

Definition state_handler (auth : option string) (params : StateParams) (ch : ClickHouse) (now wall_ns : Z)
    (st : dash_state) : dash_response * dash_state :=
  match guard auth now st with
  | (Some reject, st) => (reject, st)
  | (None, (s, d)) =>
      let q := normalize params (max_limit (d_config d)) in
      let key := cache_key q in
      let '(hit, c) := cache_get key now (state_cache d) in
      let d := set_state_cache c d in
      match hit with
      | Some text => (json_body text true, (count "statix_api_dashboard_cache_hits_total" s, d))
      | None =>
          let s := count "statix_api_dashboard_cache_misses_total" s in
          match build_state ch wall_ns q with
          | Some text =>
              (json_body text false,
               (s, set_state_cache (cache_put iter key text (is_hot_view q) now (state_cache d)) d))
          | None =>
              (plain 503 "ClickHouse query failed; see /api/v1/dashboard/health.",
               (count "statix_api_dashboard_errors_total" s, d))
          end
      end
  end.

(** Seconds since a timestamp, 0 for no timestamp. *)
Definition age_secs (wall_ns ts : Z) : f64 :=
  if ts =? 0 then Finite 0 0
  else f64_div (f64_of_u64 (saturating_sub wall_ns ts)) (f64_of_u64 1000000000).

Definition too_old (wall_ns ts : Z) : bool := f64_ltb (f64_of_u64 NODE_STALE_SECS) (age_secs wall_ns ts).

Definition health_response (ch : ClickHouse) (wall_ns : Z) (s : AppState) : HealthResponse :=
  let remaining := Z.of_nat (chan_room (ingest_tx s)) in
  let capacity := app_channel_capacity s in
  let cutoff_ns := saturating_sub wall_ns (MAX_RANGE_SECS * 1000000000) in
  let '(nodes, query_ok) := match fetch_nodes ch nodes [("cutoff_ns", UInt64 cutoff_ns)] with
                            | Some rows => (rows, true)
                            | None => ([], false)
                            end in
  let newest := foldr Z.max 0 (nr_last_seen_ns <$> nodes) in
  {| hr_generated_at_ns := wall_ns; hr_ready := negb (chan_closed (ingest_tx s)) && app_healthy s;
     hr_mpsc_used := saturating_sub capacity remaining; hr_mpsc_capacity := capacity;
     hr_ch_healthy := app_healthy s; hr_query_ok := query_ok;
     hr_newest_window_end_ns := newest; hr_age_secs := age_secs wall_ns newest;
     hr_stale := negb (newest =? 0) && too_old wall_ns newest; hr_has_data := negb (newest =? 0);
     hr_nodes := (fun n => {| nh_node := nr_node n; nh_last_seen_ns := nr_last_seen_ns n;
                              nh_age_secs := age_secs wall_ns (nr_last_seen_ns n);
                              nh_stale := too_old wall_ns (nr_last_seen_ns n) |}) <$> nodes |}.

Definition quoted (s : string) : string :=
  let quote := String (ascii_of_nat 34) "" in quote +:+ (s +:+ quote).

Definition build_health (ch : ClickHouse) (wall_ns : Z) (s : AppState) : string :=
  default ("{" +:+ (quoted "error" +:+ (":" +:+ (quoted "serialize failed" +:+ "}"))))
    (health_json (health_response ch wall_ns s)).

Definition health_handler (auth : option string) (ch : ClickHouse) (now wall_ns : Z) (st : dash_state)
    : dash_response * dash_state :=
  match guard auth now st with
  | (Some reject, st) => (reject, st)
  | (None, (s, d)) =>
      let '(hit, c) := cache_get "health" now (health_cache d) in
      let d := set_health_cache c d in
      match hit with
      | Some text => (json_body text true, (s, d))
      | None =>
          let text := build_health ch wall_ns s in
          (json_body text false, (s, set_health_cache (cache_put iter "health" text true now (health_cache d)) d))
      end
  end.

(** [read_page] answers [read_to_string] of the page in the directory. *)
Definition page_handler (read_page : string -> option string) (d : Dashboard) : dash_response :=
  if negb (dash_enabled (d_config d)) then plain 404 "Dashboard disabled."
  else
    plain 200 match dash_dir (d_config d) with
              | Some dir => default EMBEDDED_PAGE (read_page dir)
              | None => EMBEDDED_PAGE
              end.

End Handlers.

(** ** The summary endpoint *)

(** Without overflow checks, as in a release build. *)
Definition cutoff_ns_from_hours (now_ns hours : Z) : Z :=
  saturating_sub now_ns (wrapping_mul 64 (saturating_mul 64 hours 3600) 1000000000).

(** [R] is what a row deserializes to. *)
Definition workloads_summary {R} (fetch : string -> list (string * sql_param) -> option (list R))
    (now_ns : Z) (hours : option Z) : res Z (list R) :=
  let hours := default 24 hours in
  let cutoff_ns := cutoff_ns_from_hours now_ns hours in
  match fetch SUMMARY_SQL [("cutoff_ns", UInt64 cutoff_ns)] with
  | Some rows => Ok rows
  | None => Err 500
  end.

(** ** The cache key *)

Definition amp : ascii := ascii_of_nat 38.

(** What [normalize] guarantees. *)
Definition normalized (q : NormalizedQuery) : Prop :=
  0 <= range_secs q < 10 ^ 20 /\ 0 <= q_limit q < 10 ^ 20 /\ q_text q <> Some "" /\ q_node q <> Some "".

(** The name of a node holds no ampersand. *)
Definition plain_node (q : NormalizedQuery) : bool := no_char amp (default "" (q_node q)).

Lemma cut_at x a b s t :
  no_char x a = true -> no_char x b = true -> a +:+ String x s = b +:+ String x t -> a = b /\ s = t.
Proof.
  revert b. induction a as [|c a IH]; intros [|d b]; cbn [no_char]; intros Ha Hb E.
  - by injection E as ->.
  - injection E as <- _. by rewrite Ascii.eqb_refl in Hb.
  - injection E as -> _. by rewrite Ascii.eqb_refl in Ha.
  - apply andb_prop in Ha as [_ Ha]. apply andb_prop in Hb as [_ Hb]. injection E as <- E.
    by destruct (IH b Ha Hb E) as [-> ->].
Qed.

Lemma dec_no_amp n : 0 <= n < 10 ^ 20 -> no_char amp (dec n) = true.
Proof. intros Hn. apply no_char_digits; [done|by apply dec_digits]. Qed.

Lemma default_inj (a b : option string) : a <> Some "" -> b <> Some "" -> default "" a = default "" b -> a = b.
Proof. destruct a as [s|], b as [t|]; cbn; congruence. Qed.

Lemma cache_key_inj q1 q2 :
  normalized q1 -> normalized q2 -> plain_node q1 = true -> plain_node q2 = true ->
  cache_key q1 = cache_key q2 -> q1 = q2.
Proof.
  destruct q1 as [r1 s1 o1 t1 n1 u1 l1], q2 as [r2 s2 o2 t2 n2 u2 l2].
  intros (R1 & L1 & T1 & N1) (R2 & L2 & T2 & N2) P1 P2. unfold plain_node in *.
  cbn [range_secs q_sort q_order q_text q_node q_unattributed q_limit] in *.
  unfold cache_key. cbn [range_secs q_sort q_order q_text q_node q_unattributed q_limit]. intros E.
  injection E as E.
  apply (cut_at amp) in E as [Er E]; [|by apply dec_no_amp..]. injection E as E.
  apply (cut_at amp) in E as [Es E]; [|by destruct s1|by destruct s2]. injection E as E.
  apply (cut_at amp) in E as [Eo E]; [|by destruct o1|by destruct o2]. injection E as E.
  apply (cut_at amp) in E as [Eu E]; [|by destruct u1|by destruct u2]. injection E as E.
  apply (cut_at amp) in E as [El E]; [|by apply dec_no_amp..]. injection E as E.
  apply (cut_at amp) in E as [En E]; [|done..]. injection E as Et.
  apply dec_inj in Er, El; try done. apply default_inj in En, Et; try done.
  assert (s1 = s2) by (by destruct s1, s2). assert (o1 = o2) by (by destruct o1, o2).
  assert (u1 = u2) by (by destruct u1, u2). congruence.
Qed.

Lemma is_empty_false s : is_empty s = false -> s <> "".
Proof. by destruct s. Qed.

(** A text that starts with a character keeps it when cut. *)
Definition leads (s : string) : bool := match s with String c _ => negb (continuation c) | EmptyString => true end.

Lemma normalize_ok to_lowercase p m :
  (forall s, p_q p = Some s -> leads (to_lowercase (trim s)) = true) -> 10 <= m < 2 ^ 64 ->
  normalized (normalize to_lowercase p m).
Proof.
  intros Hlow Hm. assert (H64 : 2 ^ 64 < 10 ^ 20) by reflexivity.
  unfold normalized, normalize. cbn [range_secs q_limit q_text q_node]. split_and!.
  - pose proof (clamp_bounds (default DEFAULT_RANGE_SECS (p_range_secs p)) MIN_RANGE_SECS MAX_RANGE_SECS ltac:(done)).
    unfold MIN_RANGE_SECS, MAX_RANGE_SECS in *. lia.
  - pose proof (clamp_bounds (default DEFAULT_RANGE_SECS (p_range_secs p)) MIN_RANGE_SECS MAX_RANGE_SECS ltac:(done)).
    unfold MIN_RANGE_SECS, MAX_RANGE_SECS in *. lia.
  - pose proof (clamp_bounds (default DEFAULT_LIMIT (p_limit p)) 1 m ltac:(lia)). lia.
  - pose proof (clamp_bounds (default DEFAULT_LIMIT (p_limit p)) 1 m ltac:(lia)). lia.
  - destruct (p_q p) as [s|]; [|done]. pose proof (Hlow s eq_refl) as Hl. revert Hl.
    generalize (to_lowercase (trim s)) as t. intros [|c t] Hl; [done|]. cbn [is_empty].
    destruct (_ <? _)%nat; [|by intros [=]]. cbn [leads] in Hl. unfold MAX_Q_LEN. cbn [take_chars].
    destruct (continuation c); [done|]. by intros [=].
  - destruct (p_node p) as [s|]; [|done]. destruct (is_empty (trim s)) eqn:E; cbn [negb andb]; [done|].
    apply is_empty_false in E. destruct (_ <=? _)%nat; congruence.
Qed.

(** ** Runs of the state endpoint *)

Section Runs.
Context {PC : PermitChannel MetricRow}.
Variables (to_lowercase : string -> string) (state_json : StateResponse -> option string)
  (iter : gmap string (Entry (B := string)) -> list (string * Entry (B := string))).

(** One request: who asks, what for, what ClickHouse holds, and when. *)
Record request : Type := Request {
  rq_auth : option string;
  rq_params : StateParams;
  rq_clickhouse : ClickHouse;
  rq_now : Z;
  rq_wall : Z
}.

Abbreviation serve r st :=
  (state_handler to_lowercase state_json iter (rq_auth r) (rq_params r) (rq_clickhouse r) (rq_now r) (rq_wall r) st).

Definition query_of (r : request) (d : Dashboard) : NormalizedQuery :=
  normalize to_lowercase (rq_params r) (max_limit (d_config d)).

Fixpoint serve_all (rs : list request) (st : AppState * Dashboard) : list (request * dash_response) * (AppState * Dashboard) :=
  match rs with
  | [] => ([], st)
  | r :: rs =>
      let '(a, st) := serve r st in
      let '(log, st) := serve_all rs st in
      ((r, a) :: log, st)
  end.

Hypothesis iter_perm : forall m, iter m ≡ₚ map_to_list m.

(** Whatever is cached was computed by an earlier request for that key. *)
Definition backed (log : list (request * dash_response)) (d : Dashboard) : Prop :=
  forall k e, entries (state_cache d) !! k = Some e ->
  exists r, (r, json_body (entry_body e) false) ∈ log /\ rq_now r = stored_at e
    /\ cache_key (query_of r d) = k /\ build_state state_json (rq_clickhouse r) (rq_wall r) (query_of r d) = Some (entry_body e).

Lemma guard_frame auth now st :
  d_config (guard auth now st).2.2 = d_config st.2 /\ state_cache (guard auth now st).2.2 = state_cache st.2
  /\ health_cache (guard auth now st).2.2 = health_cache st.2.
Proof.
  destruct st as [s d]. unfold guard. destruct (negb (dash_enabled _)); [done|]. destruct (negb (authorized _ _)); [done|].
  destruct (allow now (limiter d)) as [ok l]. by destruct (negb ok).
Qed.

Lemma serve_backed log r st :
  backed log st.2 ->
  d_config (serve r st).2.2 = d_config st.2 /\ backed (log ++ [(r, (serve r st).1)]) (serve r st).2.2.
Proof.
  intros Hb. unfold state_handler. destruct (guard_frame (rq_auth r) (rq_now r) st) as (G1 & G2 & _).
  destruct (guard (rq_auth r) (rq_now r) st) as [[reject|] [s d]]; cbn [fst snd] in *.
  { split; [done|]. intros k e He. rewrite G2 in He. destruct (Hb k e He) as (r0 & H1 & H2 & H3 & H4).
    exists r0. unfold query_of in *. rewrite G1. split_and!; try done. apply elem_of_app. by left. }
  set (q := normalize _ _ _). destruct (get_entries (cache_key q) (rq_now r) (state_cache d)) as (E1 & _ & _).
  assert (Hkeep : forall a d', d_config d' = d_config d -> entries (state_cache d') = entries (state_cache d) ->
    backed (log ++ [(r, a)]) d').
  { intros a d' Ec Ee k e He. rewrite Ee, G2 in He. destruct (Hb k e He) as (r0 & H1 & H2 & H3 & H4).
    exists r0. unfold query_of in *. rewrite Ec, G1. split_and!; try done. apply elem_of_app. by left. }
  destruct (cache_get (cache_key q) (rq_now r) (state_cache d)) as [[text|] c]; cbn [fst snd] in *.
  - split; [done|]. by apply Hkeep.
  - destruct (build_state state_json (rq_clickhouse r) (rq_wall r) q) as [text|] eqn:Eb; cbn [fst snd].
    2:{ split; [done|]. by apply Hkeep. }
    split; [done|]. intros k e He. cbn [state_cache set_state_cache] in He.
    destruct (put_lookup iter iter_perm (cache_key q) text (is_hot_view q) (rq_now r) c k) as (P1 & P2 & _).
    rewrite P1 in He. case_bool_decide as Ek.
    + injection He as <-. cbn. exists r. unfold query_of. cbn [d_config set_state_cache]. fold q.
      split_and!; try done. apply elem_of_app. right. by apply list_elem_of_singleton.
    + specialize (P2 Ek e He). rewrite E1 in P2. exact (Hkeep _ d eq_refl eq_refl k e P2).
Qed.

Lemma serve_all_backed rs log st :
  backed log st.2 ->
  let out := serve_all rs st in backed (log ++ out.1) out.2.2 /\ d_config out.2.2 = d_config st.2.
Proof.
  revert log st. induction rs as [|r rs IH]; intros log st Hb; cbn zeta; [by rewrite app_nil_r|].
  cbn [serve_all]. destruct (serve_backed log r st Hb) as [H1 H2]. destruct (serve r st) as [a st1]. cbn [fst snd] in *.
  specialize (IH _ st1 H2). destruct (serve_all rs st1) as [log' st2]. cbn [fst snd] in *. destruct IH as [I1 I2].
  rewrite <- app_assoc in I1. split; [exact I1|congruence].
Qed.

Lemma serve_ttl r st : ttl (state_cache (serve r st).2.2) = ttl (state_cache st.2).
Proof.
  unfold state_handler. destruct (guard_frame (rq_auth r) (rq_now r) st) as (_ & G2 & _).
  destruct (guard (rq_auth r) (rq_now r) st) as [[reject|] [s d]]; cbn [fst snd] in *; [by rewrite G2|].
  set (q := normalize _ _ _). destruct (get_entries (cache_key q) (rq_now r) (state_cache d)) as (_ & E2 & _).
  rewrite <- G2, <- E2. destruct (cache_get (cache_key q) (rq_now r) (state_cache d)) as [[text|] c]; [done|].
  cbn [fst snd] in *. by destruct (build_state _ _ _ _).
Qed.

Lemma serve_all_ttl rs st : ttl (state_cache (serve_all rs st).2.2) = ttl (state_cache st.2).
Proof.
  revert st. induction rs as [|r rs IH]; intros st; [done|]. cbn [serve_all].
  pose proof (serve_ttl r st) as H. destruct (serve r st) as [a st1]. specialize (IH st1).
  destruct (serve_all rs st1) as [log st2]. cbn [fst snd] in *. congruence.
Qed.

(** The filter text is well formed UTF-8, which starts with a character, and the
    node's name holds no ampersand. *)
Definition plain_request (m : Z) (r : request) : Prop :=
  plain_node (normalize to_lowercase (rq_params r) m) = true
  /\ forall s, p_q (rq_params r) = Some s -> leads (to_lowercase (trim s)) = true.

(** ** Properties *)


End Runs.

(** A refused request leaves no trace.  On a disabled dashboard both endpoints
    answer 404 and without the right bearer 401, and the request cap, the caches
    and ClickHouse are not touched; over the cap they answer 429 and the caches
    are not touched; otherwise the state endpoint answers 200 or 503 and the
    health endpoint 200. *)
Theorem refused_requests_touch_nothing {PC : PermitChannel MetricRow} to_lowercase state_json health_json iter
    auth params ch now wall (st : AppState * Dashboard) :
  let state := state_handler to_lowercase state_json iter auth params ch now wall st in
  let health := health_handler health_json iter auth ch now wall st in
  if negb (dash_enabled (d_config st.2))
  then state = (plain 404 "Dashboard disabled.", st) /\ health = state
  else if negb (authorized auth st.1) then state = (plain 401 "", st) /\ health = state
  else if negb (allow now (limiter st.2)).1
  then d_status state.1 = 429 /\ health = state
       /\ state_cache state.2.2 = state_cache st.2 /\ health_cache state.2.2 = health_cache st.2
  else (d_status state.1 = 200 \/ d_status state.1 = 503) /\ d_status health.1 = 200.
Proof.
  destruct st as [s d]. cbn zeta. cbn [fst snd]. unfold state_handler, health_handler, guard.
  destruct (negb (dash_enabled (d_config d))); [done|]. destruct (negb (authorized auth s)); [done|].
  destruct (allow now (limiter d)) as [ok l]. cbn [fst]. destruct (negb ok); [done|]. split.
  - destruct (cache_get _ _ _) as [[text|] c]; [by left|]. destruct (build_state _ _ _ _); [by left|by right].
  - by destruct (cache_get _ _ _) as [[text|] c].
Qed.

(** Other texts in the same places. *)
Definition with_texts (f g : string -> string) (q : NormalizedQuery) : NormalizedQuery :=
  {| range_secs := range_secs q; q_sort := q_sort q; q_order := q_order q; q_text := f <$> q_text q;
     q_node := g <$> q_node q; q_unattributed := q_unattributed q; q_limit := q_limit q |}.

(** No user text reaches the SQL, and every parameter is bound.  The two query
    texts of a request do not depend on what its filter and node say, and each
    mentions exactly the parameters bound to it. *)
Theorem sql_parameters_are_bound q cutoff f g :
  rows_sql (with_texts f g q) = rows_sql q /\ totals_sql (with_texts f g q) = totals_sql q
  /\ mentions (rows_sql q) ≡ₚ (rows_params q cutoff).*1
  /\ mentions (totals_sql q) ≡ₚ (totals_params q cutoff).*1.
Proof.
  destruct q as [r s o [t|] [n|] u l]; (split; [reflexivity|]); (split; [reflexivity|]);
    destruct s, o, u; split; apply (bool_decide_unpack _); vm_compute; exact I.
Qed.

(** The summary's lookback is exact up to 5124095 hours; the unchecked
    multiplication wraps beyond, and one hour more looks back only 25 minutes. *)
Theorem lookback_is_exact_until_it_wraps now hours :
  0 <= now < 2 ^ 64 -> 0 <= hours <= 5124095 ->
  cutoff_ns_from_hours now hours = Z.max 0 (now - hours * 3600 * 1000000000)
  /\ cutoff_ns_from_hours now 5124096 = Z.max 0 (now - 1526290448384).
Proof.
  intros Hn Hh. unfold cutoff_ns_from_hours, saturating_sub, saturating_mul, wrapping_mul, wrap.
  assert (E : umax 64 = 18446744073709551615) by reflexivity. rewrite E. split.
  - rewrite Z.min_l, Z.mod_small by lia. lia.
  - change (Z.min (5124096 * 3600) 18446744073709551615 * 1000000000 mod 2 ^ 64) with 1526290448384. lia.
Qed.

(** *** Witnesses *)

Definition sample_config : DashboardConfig :=
  {| dash_enabled := true; dash_dir := None; cache_ttl := 2000; max_limit := 500; rate_limit_per_min := 600 |}.

Definition sample_clickhouse : ClickHouse :=
  {| fetch_rows := fun _ _ => Some []; fetch_totals := fun _ _ => Some []; fetch_nodes := fun _ _ => Some [] |}.

Definition sample_params : StateParams :=
  {| p_range_secs := None; p_sort := Some "mem"; p_order := None; p_q := Some " Nginx "; p_node := Some "n1";
     p_unattributed := None; p_limit := Some 9999 |}.

Definition sample_request_at (now : Z) : request :=
  Request (Some "Bearer t") sample_params sample_clickhouse now now.

Definition sample_json (r : StateResponse) : option string := Some (dec (sr_generated_at_ns r)).


(** Two questions with one key, when a node's name holds the separator. *)
Example keys_can_collide :
  let q node text := {| range_secs := 300; q_sort := SortCpu; q_order := Desc; q_text := text;
                        q_node := Some node; q_unattributed := false; q_limit := 100 |} in
  cache_key (q "x&q=y" None) = cache_key (q "x" (Some "y&q=")).
Proof. reflexivity. Qed.
