(* ===== verification/Router.v ===== *)
(** * Router: every request the gateway serves

    Models the router of [statix-gateway/src/main.rs]: its route table, the
    extractors of the handlers and the handlers of [Ingest] and [Dashboard]
    composed the way the router calls them.  The matching of paths and methods,
    the JSON extractor and the query extractor belong to axum; the class [Axum]
    states what the gateway relies on.  The theorems: every request is answered,
    the two halves of the gateway do not touch each other, and who needs a token. *)

From S2P Require Export Dashboard.

#[local] Open Scope Z_scope.

Inductive Method : Type := GET | HEAD | POST | OtherMethod.

#[export] Instance method_eq_dec : EqDecision Method.
Proof. solve_decision. Defined.

(** [get(..)] also serves [HEAD]. *)
Definition serves (route asked : Method) : bool :=
  match route, asked with GET, HEAD => true | _, _ => bool_decide (route = asked) end.

(** How a path and a method meet the table. *)
Inductive route_match (T : Type) : Type := Matched (t : T) | NoRoute | WrongMethod.
Arguments Matched {T} t.
Arguments NoRoute {T}.
Arguments WrongMethod {T}.

(** [axum::Router] on literal paths; [axum::Json] under a body limit, for a
    content type that is JSON or not; [serde_json]'s parser; [axum::Query]. *)
Class Axum : Type := {
  dispatch : forall {T}, list (string * Method * T) -> Method -> string -> route_match T;
  parse_json : list Z -> option json;
  extract_json : Z -> bool -> list Z -> res Z IngestBatch;
  query_state : string -> option StateParams;
  query_hours : string -> option (option Z);
  dispatch_found T (rs : list (string * Method * T)) p m0 t m :
    NoDup (rs.*1.*1) -> (p, m0, t) ∈ rs -> dispatch rs m p = if serves m0 m then Matched t else WrongMethod;
  dispatch_missing T (rs : list (string * Method * T)) p m : p ∉ rs.*1.*1 -> dispatch rs m p = NoRoute;
  extract_json_ok limit ct bs b :
    extract_json limit ct bs = Ok b
    <-> ct = true /\ zlen bs <= limit /\ exists j, parse_json bs = Some j /\ batch_of_json j = Some b;
  extract_json_too_long limit bs : limit < zlen bs -> extract_json limit true bs = Err 413;
  extract_json_err limit ct bs st : extract_json limit ct bs = Err st -> st ∈ [400; 413; 415; 422];
  query_hours_u64 s h : query_hours s = Some (Some h) -> urange 64 h
}.

Lemma rejection_not_ok {AX : Axum} limit ct bs st : extract_json limit ct bs = Err st -> (st =? 200) = false.
Proof. intros E. apply extract_json_err in E. apply Z.eqb_neq. set_solver. Qed.

(** The status a [GatewayError] is answered with. *)
Inductive GatewayError : Type :=
| PrometheusInstall (e : string) | Http (e : string) | TaskJoin (e : string) | DrainTimeout (secs : Z) | QueryFailed (e : string).

Definition status_code (e : GatewayError) : Z := 500.

(** ** The table *)

Inductive endpoint : Type :=
| Health | Ready | MetricsText | IngestBatches (limit : Z) | Summary | Page | DashState | DashHealth.

#[export] Instance endpoint_eq_dec : EqDecision endpoint.
Proof. solve_decision. Defined.

Definition MAX_BODY : Z := 2 * 1024 * 1024.

Definition app_routes : list (string * Method * endpoint) :=
  [("/health"%string, GET, Health); ("/ready"%string, GET, Ready); ("/metrics"%string, GET, MetricsText);
   ("/ingest"%string, POST, IngestBatches MAX_BODY);
   ("/api/v1/workloads/summary"%string, GET, Summary); ("/"%string, GET, Page); ("/dashboard"%string, GET, Page);
   ("/api/v1/dashboard/state"%string, GET, DashState); ("/api/v1/dashboard/health"%string, GET, DashHealth)].

Section Router.
Context {AX : Axum} {PC : PermitChannel MetricRow}.

(** As in [Dashboard]; [summary_json] serializes the rows of the summary. *)
Variables (to_lowercase : string -> string)
  (state_json : StateResponse -> option string) (health_json : HealthResponse -> option string)
  (iter : gmap string (Entry (B := string)) -> list (string * Entry (B := string)))
  (EMBEDDED_PAGE : string).
Context {R : Type}.
Variable summary_json : list R -> option string.

Record http_request : Type := {
  hq_method : Method;
  hq_path : string;
  hq_query : string;
  hq_auth : option string;
  hq_json : bool;
  hq_body : list Z
}.

Record http_response : Type := HttpResponse { h_status : Z; h_text : string }.

(** What the handlers read besides the state: ClickHouse, the page in the
    directory, the exporter's text, and the two clocks. *)
Record backend : Type := {
  be_clickhouse : ClickHouse;
  be_summary : string -> list (string * sql_param) -> option (list R);
  be_page : string -> option string;
  be_metrics : string;
  be_now : Z;
  be_wall : Z
}.

Abbreviation server := (AppState * Dashboard)%type.

Definition of_dash (r : dash_response) : http_response := HttpResponse (d_status r) (d_text r).

(** ** Handlers behind their extractors *)

(** [POST /ingest]: the extractor runs before the handler, which checks the token. *)
Definition ingest_route (limit : Z) (r : http_request) (st : server) : option (http_response * server) :=
  match extract_json limit (hq_json r) (hq_body r) with
  | Err status => Some (HttpResponse status "", st)
  | Ok batch =>
      match handler (hq_auth r) batch st.1 with
      | Some (answer, s) => Some (HttpResponse (status answer) (reply answer), (s, st.2))
      | None => None
      end
  end.

Definition summary_route (r : http_request) (be : backend) : http_response :=
  match query_hours (hq_query r) with
  | None => HttpResponse 400 ""
  | Some hours =>
      match workloads_summary (be_summary be) (be_wall be) hours with
      | Ok rows => match summary_json rows with Some text => HttpResponse 200 text | None => HttpResponse 500 "" end
      | Err _ => HttpResponse (status_code (QueryFailed "")) ""
      end
  end.

Definition metrics_endpoint (be : backend) : http_response := HttpResponse 200 (be_metrics be).

Definition call (t : endpoint) (r : http_request) (be : backend) (st : server) : option (http_response * server) :=
  match t with
  | Health => Some (HttpResponse (health_check st.1) "", st)
  | Ready => Some (HttpResponse (readiness_check st.1) "", st)
  | MetricsText => Some (metrics_endpoint be, st)
  | IngestBatches limit => ingest_route limit r st
  | Summary => Some (summary_route r be, st)
  | Page => Some (of_dash (page_handler EMBEDDED_PAGE (be_page be) st.2), st)
  | DashState =>
      match query_state (hq_query r) with
      | None => Some (HttpResponse 400 "", st)
      | Some params =>
          let '(a, st) := state_handler to_lowercase state_json iter (hq_auth r) params (be_clickhouse be)
                            (be_now be) (be_wall be) st in
          Some (of_dash a, st)
      end
  | DashHealth =>
      let '(a, st) := health_handler health_json iter (hq_auth r) (be_clickhouse be) (be_now be) (be_wall be) st in
      Some (of_dash a, st)
  end.

Definition serve (r : http_request) (be : backend) (st : server) : option (http_response * server) :=
  match dispatch app_routes (hq_method r) (hq_path r) with
  | Matched t => call t r be st
  | NoRoute => Some (HttpResponse 404 "", st)
  | WrongMethod => Some (HttpResponse 405 "", st)
  end.

(** ** Lemmas *)

(** The ingest side: all of the shared state but the counters. *)
Definition same_ingest (s s' : AppState) : Prop :=
  ingest_tx s' = ingest_tx s /\ app_channel_capacity s' = app_channel_capacity s
  /\ app_healthy s' = app_healthy s /\ app_bearer s' = app_bearer s.

Lemma same_ingest_refl s : same_ingest s s.
Proof. by repeat split. Qed.

Lemma app_routes_NoDup : NoDup (app_routes.*1.*1).
Proof. apply (bool_decide_unpack _). vm_compute. exact I. Qed.

(** Where a request goes. *)
Lemma dispatch_app m p :
  (exists m0 t, (p, m0, t) ∈ app_routes /\ dispatch app_routes m p = if serves m0 m then Matched t else WrongMethod)
  \/ (p ∉ app_routes.*1.*1 /\ dispatch app_routes m p = NoRoute).
Proof.
  destruct (decide (p ∈ app_routes.*1.*1)) as [Hp|Hp]; [left|right; split; [done|by apply dispatch_missing]].
  apply list_elem_of_fmap in Hp as ([p0 m0] & -> & Hp). apply list_elem_of_fmap in Hp as ([[p1 m1] t] & E & Hp).
  injection E as <- <-. exists m0, t. split; [done|]. by apply dispatch_found; [apply app_routes_NoDup|].
Qed.

Lemma dispatch_ingest : dispatch app_routes POST "/ingest" = Matched (IngestBatches MAX_BODY).
Proof.
  assert (H : ("/ingest"%string, POST, IngestBatches MAX_BODY) ∈ app_routes) by (unfold app_routes; do 3 right; left).
  exact (dispatch_found _ _ _ _ _ POST app_routes_NoDup H).
Qed.

Definition is_ingest (r : http_request) : Prop := hq_method r = POST /\ hq_path r = "/ingest"%string.

(** Only a [POST] to [/ingest] reaches the ingest handler. *)
Lemma ingest_only r limit :
  dispatch app_routes (hq_method r) (hq_path r) = Matched (IngestBatches limit) -> is_ingest r /\ limit = MAX_BODY.
Proof.
  unfold is_ingest. destruct (dispatch_app (hq_method r) (hq_path r)) as [(m0 & t & Hin & E)|[_ E]]; rewrite E; [|done].
  destruct (serves m0 (hq_method r)) eqn:Es; [|done]. intros [= ->].
  unfold app_routes in Hin. repeat (apply elem_of_cons in Hin as [Hin|Hin]; [first [discriminate Hin|injection Hin as Hp Hm Hl]|]).
  - subst. split; [|done]. split; [|done]. by destruct (hq_method r).
  - by apply elem_of_nil in Hin.
Qed.

Lemma guard_same auth now st : same_ingest st.1 (guard auth now st).2.1.
Proof.
  destruct st as [s d]. unfold guard. destruct (negb (dash_enabled _)); [done|]. destruct (negb (authorized _ _)); [done|].
  destruct (allow now (limiter d)) as [ok l]. by destruct (negb ok).
Qed.

Lemma state_handler_same auth params ch now wall st :
  same_ingest st.1 (state_handler to_lowercase state_json iter auth params ch now wall st).2.1.
Proof.
  unfold state_handler. pose proof (guard_same auth now st) as H.
  destruct (guard auth now st) as [[reject|] [s d]]; cbn [fst snd] in *; [done|].
  destruct (cache_get _ now (state_cache d)) as [[text|] c]; [done|]. by destruct (build_state _ _ _ _).
Qed.

Lemma health_handler_same auth ch now wall st :
  same_ingest st.1 (health_handler health_json iter auth ch now wall st).2.1.
Proof.
  unfold health_handler. pose proof (guard_same auth now st) as H.
  destruct (guard auth now st) as [[reject|] [s d]]; cbn [fst snd] in *; [done|].
  by destruct (cache_get _ now (health_cache d)) as [[text|] c].
Qed.

(** A refusal of the guard. *)
Lemma guard_reject auth now st r st' :
  guard auth now st = (Some r, st') -> d_status r ∈ [401; 404; 429].
Proof.
  destruct st as [s d]. unfold guard. destruct (negb (dash_enabled _)); [intros [= <- _]; set_solver|].
  destruct (negb (authorized _ _)); [intros [= <- _]; set_solver|].
  destruct (allow now (limiter d)) as [ok l]. destruct (negb ok); [intros [= <- _]; set_solver|done].
Qed.

Lemma state_handler_status auth params ch now wall st :
  d_status (state_handler to_lowercase state_json iter auth params ch now wall st).1 ∈ [200; 401; 404; 429; 503].
Proof.
  unfold state_handler. destruct (guard auth now st) as [[reject|] [s d]] eqn:E.
  { apply guard_reject in E. set_solver. }
  destruct (cache_get _ now (state_cache d)) as [[text|] c]; [set_solver|]. destruct (build_state _ _ _ _); set_solver.
Qed.

Lemma health_handler_status auth ch now wall st :
  d_status (health_handler health_json iter auth ch now wall st).1 ∈ [200; 401; 404; 429].
Proof.
  unfold health_handler. destruct (guard auth now st) as [[reject|] [s d]] eqn:E.
  { apply guard_reject in E. set_solver. }
  destruct (cache_get _ now (health_cache d)) as [[text|] c]; set_solver.
Qed.

(** Without the token the guard refuses and leaves everything as it is. *)
Lemma guard_unauthorized auth now st :
  authorized auth st.1 = false -> exists r, guard auth now st = (Some r, st) /\ d_status r <> 200.
Proof.
  destruct st as [s d]. cbn [fst]. intros H. unfold guard. destruct (negb (dash_enabled _)); [by eexists|].
  rewrite H. by eexists.
Qed.

(** The answer to a [POST /ingest], and the rows it may queue. *)
Definition body_batch (bs : list Z) : res Z IngestBatch := extract_json MAX_BODY true bs.

Definition request_rows (r : http_request) : list MetricRow :=
  match extract_json MAX_BODY (hq_json r) (hq_body r) with
  | Ok b => from_ingest b <$> workloads b
  | Err _ => []
  end.

Definition request_status (r : http_request) (s : AppState) : Z :=
  match extract_json MAX_BODY (hq_json r) (hq_body r) with
  | Ok b => ingest_status (hq_auth r) b s
  | Err status => status
  end.

Lemma ingest_route_spec r st :
  exists a s', ingest_route MAX_BODY r st = Some (a, (s', st.2)) /\ h_status a = request_status r st.1
    /\ queued (ingest_tx s') = queued (ingest_tx st.1) ++ (if h_status a =? 200 then request_rows r else [])
    /\ chan_capacity (ingest_tx s') = chan_capacity (ingest_tx st.1)
    /\ chan_closed (ingest_tx s') = chan_closed (ingest_tx st.1)
    /\ app_healthy s' = app_healthy st.1 /\ app_bearer s' = app_bearer st.1
    /\ (queue_fits st.1 -> queue_fits s').
Proof.
  unfold ingest_route, request_status, request_rows. destruct st as [s d]. cbn [fst snd].
  destruct (extract_json MAX_BODY (hq_json r) (hq_body r)) as [b|status] eqn:E.
  - destruct (handler_spec (hq_auth r) b s) as (a & s' & -> & H1 & H2 & H3).
    eexists _, s'. split; [done|]. cbn [h_status]. by rewrite H2.
  - apply rejection_not_ok in E. eexists _, s. split; [done|]. cbn [h_status]. split; [done|].
    by rewrite E, app_nil_r.
Qed.

(** Everything but a [POST /ingest] leaves the ingest side alone. *)
Lemma call_other t r be st :
  (forall limit, t <> IngestBatches limit) ->
  exists a st', call t r be st = Some (a, st') /\ same_ingest st.1 st'.1
    /\ h_status a ∈ [200; 400; 401; 404; 429; 500; 503].
Proof.
  intros Ht. destruct t as [| | |limit| | | |]; cbn [call].
  1,2,3: eexists _, _; split; [done|]; split; [apply same_ingest_refl|]; cbn [h_status metrics_endpoint];
    unfold health_check, readiness_check; destruct_ifs; set_solver.
  - by destruct (Ht limit).
  - eexists _, _. split; [done|]. split; [apply same_ingest_refl|]. unfold summary_route.
    destruct (query_hours _); [|set_solver]. destruct (workloads_summary _ _ _) as [rows|]; [|set_solver].
    destruct (summary_json rows); set_solver.
  - eexists _, _. split; [done|]. split; [apply same_ingest_refl|]. unfold page_handler.
    destruct (negb _); cbn [of_dash h_status plain d_status]; set_solver.
  - destruct (query_state _) as [params|]; [|eexists _, _; split; [done|]; split; [apply same_ingest_refl|set_solver]].
    pose proof (state_handler_same (hq_auth r) params (be_clickhouse be) (be_now be) (be_wall be) st) as H.
    pose proof (state_handler_status (hq_auth r) params (be_clickhouse be) (be_now be) (be_wall be) st) as H2.
    destruct (state_handler _ _ _ _ _ _ _ _ _) as [a st']. eexists _, _. split; [done|]. split; [done|].
    cbn [of_dash h_status]. cbn [fst] in H2. set_solver.
  - pose proof (health_handler_same (hq_auth r) (be_clickhouse be) (be_now be) (be_wall be) st) as H.
    pose proof (health_handler_status (hq_auth r) (be_clickhouse be) (be_now be) (be_wall be) st) as H2.
    destruct (health_handler _ _ _ _ _ _ _) as [a st']. eexists _, _. split; [done|]. split; [done|].
    cbn [of_dash h_status]. cbn [fst] in H2. set_solver.
Qed.

(** The endpoints that never look at the token. *)
Definition open_endpoint (t : endpoint) : bool :=
  match t with Health | Ready | MetricsText | Summary | Page => true | _ => false end.

Definition open_paths : list string :=
  ["/health"%string; "/ready"%string; "/metrics"%string; "/api/v1/workloads/summary"%string; "/"%string; "/dashboard"%string].

Lemma open_endpoint_path p m0 t : (p, m0, t) ∈ app_routes -> open_endpoint t = true -> p ∈ open_paths.
Proof.
  unfold app_routes, open_paths. intros Hin Ht.
  repeat (apply elem_of_cons in Hin as [Hin|Hin];
    [injection Hin as -> _ ->; first [discriminate Ht | repeat constructor]|]). by apply elem_of_nil in Hin.
Qed.

Lemma open_call t r be st : open_endpoint t = true -> exists a, call t r be st = Some (a, st).
Proof. destruct t; try done; by eexists. Qed.

Lemma closed_call t r be st bearer :
  open_endpoint t = false -> app_bearer st.1 = Some bearer -> hq_auth r <> Some bearer ->
  exists a s', call t r be st = Some (a, (s', st.2)) /\ same_ingest st.1 s' /\ h_status a <> 200.
Proof.
  intros Ht Hb Ha. assert (Hu : authorized (hq_auth r) st.1 = false)
    by (unfold authorized; rewrite Hb; by apply bool_decide_eq_false_2).
  destruct st as [s d]. cbn [fst snd] in *. destruct t as [| | |limit| | | |]; try discriminate Ht; cbn [call].
  - unfold ingest_route. destruct (extract_json _ _ _) as [b|status] eqn:E.
    + unfold handler. change (ingest_authorized (hq_auth r) (s, d).1) with (authorized (hq_auth r) s). rewrite Hu.
      eexists _, _. split; [done|]. destruct (record_metrics_frame 401 s) as (F1 & F2 & F3 & F4). by split_and!.
    + apply rejection_not_ok in E. eexists _, _. split; [done|]. split; [apply same_ingest_refl|].
      by apply Z.eqb_neq.
  - destruct (query_state _) as [params|]; [|by eexists _, _; split; [done|]; split; [apply same_ingest_refl|]].
    unfold state_handler. destruct (guard_unauthorized (hq_auth r) (be_now be) (s, d) Hu) as (a & -> & Hn).
    eexists _, _. split; [done|]. by split; [apply same_ingest_refl|].
  - unfold health_handler. destruct (guard_unauthorized (hq_auth r) (be_now be) (s, d) Hu) as (a & -> & Hn).
    eexists _, _. split; [done|]. by split; [apply same_ingest_refl|].
Qed.

(** ** Properties *)

(** C19: every request is answered, and the two halves of the gateway stay
    apart.  No request makes a handler panic.  A [POST /ingest] is answered 413
    when its body is longer than 2 MiB, 400, 413, 415 or 422 when it is not a
    batch, and what the handler decides otherwise; its rows are queued, all of
    them and in order, exactly on 200, and the dashboard is not touched.  Every
    other request leaves the ingest channel, the health flag and the token as they
    were: reading is never on the ingest path. *)
Theorem every_request_is_answered r be st :
  exists a st', serve r be st = Some (a, st')
    /\ (is_ingest r -> h_status a = request_status r st.1 /\ st'.2 = st.2
         /\ queued (ingest_tx st'.1) = queued (ingest_tx st.1) ++ (if h_status a =? 200 then request_rows r else [])
         /\ (hq_json r = true -> MAX_BODY < zlen (hq_body r) -> h_status a = 413))
    /\ (~ is_ingest r -> same_ingest st.1 st'.1 /\ h_status a ∈ [200; 400; 401; 404; 405; 429; 500; 503]).
Proof.
  unfold serve. destruct (dispatch app_routes (hq_method r) (hq_path r)) as [t| |] eqn:E.
  - destruct (decide (t = IngestBatches MAX_BODY)) as [->|Ht].
    + cbn [call]. destruct (ingest_route_spec r st) as (a & s' & -> & H1 & H2 & _). eexists _, _. split; [done|].
      split; [|intros []; by apply (ingest_only r MAX_BODY)]. intros _. split_and!; try done. intros Hj Hl. rewrite H1.
      unfold request_status. by rewrite Hj, extract_json_too_long.
    + destruct (call_other t r be st) as (a & st' & -> & H1 & H2).
      { intros limit ->. by destruct (ingest_only r limit E) as [_ ->]. }
      eexists _, _. split; [done|]. split; [|intros _; split; [done|set_solver]].
      intros [Hm Hp]. rewrite Hm, Hp, dispatch_ingest in E. congruence.
  - eexists _, _. split; [done|]. split; [|intros _; split; [apply same_ingest_refl|set_solver]].
    intros [Hm Hp]. by rewrite Hm, Hp, dispatch_ingest in E.
  - eexists _, _. split; [done|]. split; [|intros _; split; [apply same_ingest_refl|set_solver]].
    intros [Hm Hp]. by rewrite Hm, Hp, dispatch_ingest in E.
Qed.

(** C20: What the token protects.  When a token is set, a request that does not carry
    it changes nothing but counters, and is answered 200 only by the probes, the
    exporter, the page, and the workload summary, which serves its rows to
    anyone. *)
Theorem token_protects r be st bearer :
  app_bearer st.1 = Some bearer -> hq_auth r <> Some bearer ->
  exists a st', serve r be st = Some (a, st') /\ same_ingest st.1 st'.1 /\ st'.2 = st.2
    /\ (h_status a = 200 -> hq_path r ∈ open_paths).
Proof.
  intros Hb Ha. unfold serve. destruct (dispatch_app (hq_method r) (hq_path r)) as [(m0 & t & Hin & ->)|[_ ->]];
    [|by eexists _, _; split; [done|]; split; [apply same_ingest_refl|]].
  destruct (serves m0 (hq_method r)); [|by eexists _, _; split; [done|]; split; [apply same_ingest_refl|]].
  destruct (open_endpoint t) eqn:Et.
  - destruct (open_call t r be st Et) as [a ->]. eexists _, _. split; [done|]. split; [apply same_ingest_refl|].
    split; [done|]. intros _. by eapply open_endpoint_path.
  - destruct (closed_call t r be st bearer Et Hb Ha) as (a & s' & -> & H1 & H2). by eexists _, _.
Qed.

End Router.

(** ** Witnesses *)

Fixpoint dispatch_list {T} (rs : list (string * Method * T)) (m : Method) (p : string) : route_match T :=
  match rs with
  | [] => NoRoute
  | x :: rs => if String.eqb p x.1.1 then (if serves x.1.2 m then Matched x.2 else WrongMethod) else dispatch_list rs m p
  end.

Definition extract_with (parse : list Z -> option json) (limit : Z) (ct : bool) (bs : list Z) : res Z IngestBatch :=
  if negb ct then Err 415
  else if limit <? zlen bs then Err 413
  else match parse bs with
       | None => Err 400
       | Some j => match batch_of_json j with Some b => Ok b | None => Err 422 end
       end.

(** A first-match router and an extractor over a given parser. *)
Definition simple_axum (parse : list Z -> option json) : Axum.
Proof.
  refine {| dispatch := @dispatch_list; parse_json := parse; extract_json := extract_with parse;
            query_state _ := None; query_hours _ := Some None |}.
  - intros T rs p m0 t m. induction rs as [|[[p1 m1] t1] rs IH]; intros Hn Hin; [by apply elem_of_nil in Hin|].
    cbn [fmap list_fmap fst] in Hn. apply NoDup_cons in Hn as [Hp Hn]. cbn [dispatch_list fst snd].
    destruct (String.eqb_spec p p1) as [->|Hne]; apply elem_of_cons in Hin as [Hin|Hin].
    + injection Hin as -> ->. reflexivity.
    + destruct Hp. by do 2 apply (list_elem_of_fmap_2 fst) in Hin.
    + congruence.
    + by apply IH.
  - intros T rs p m. induction rs as [|[[p1 m1] t1] rs IH]; intros Hp; [done|]. cbn [fmap list_fmap fst] in Hp.
    apply not_elem_of_cons in Hp as [Hne Hp]. cbn [dispatch_list fst snd].
    destruct (String.eqb_spec p p1); [done|]. by apply IH.
  - intros limit ct bs b. unfold extract_with. destruct ct; cbn [negb]; [|split; [done|by intros [? _]]].
    destruct (Z.ltb_spec limit (zlen bs)); [split; [done|intros (_ & ? & _); lia]|].
    destruct (parse bs) as [j|]; [|split; [done|by intros (_ & _ & j & ? & _)]].
    destruct (batch_of_json j) as [b'|] eqn:E; split.
    + intros [= ->]. split_and!; try done. by exists j.
    + intros (_ & _ & j' & [= <-] & E'). congruence.
    + done.
    + intros (_ & _ & j' & [= <-] & E'). congruence.
  - intros limit bs Hl. unfold extract_with. cbn [negb]. by destruct (Z.ltb_spec limit (zlen bs)); [|lia].
  - intros limit ct bs st. unfold extract_with. destruct ct; cbn [negb]; [|intros [= <-]; set_solver].
    destruct (limit <? zlen bs); [intros [= <-]; set_solver|]. destruct (parse bs) as [j|]; [|intros [= <-]; set_solver].
    destruct (batch_of_json j); [done|intros [= <-]; set_solver].
  - done.
Defined.

Definition sample_summary : http_request :=
  {| hq_method := GET; hq_path := "/api/v1/workloads/summary"; hq_query := ""; hq_auth := None;
     hq_json := false; hq_body := [] |}.

Definition sample_backend : backend (R := Z) :=
  {| be_clickhouse := sample_clickhouse; be_summary _ _ := Some [4096; 8192]; be_page _ := None;
     be_metrics := ""; be_now := 0; be_wall := 10 ^ 18 |}.

Definition sample_server : AppState (PC := bounded_permits MetricRow) * Dashboard :=
  (sample_app true, new_dashboard sample_config 0).

(** The rows of the summary go to a client without the token. *)
Lemma token_protects_witness :
  exists a st', serve (AX := simple_axum (fun _ => None)) (fun s => s) (fun _ => None) (fun _ => None) map_to_list "page"
    (fun rows => Some (dec (sumZ id rows))) sample_summary sample_backend sample_server = Some (a, st')
    /\ a = HttpResponse 200 "12288" /\ (h_status a = 200 -> hq_path sample_summary ∈ open_paths).
Proof.
  destruct (token_protects (AX := simple_axum (fun _ => None)) (fun s => s) (fun _ => None) (fun _ => None) map_to_list
    "page" (fun rows => Some (dec (sumZ id rows))) sample_summary sample_backend sample_server "Bearer t")
    as (a & st' & E & _ & _ & H); [reflexivity|discriminate|].
  exists a, st'. split; [exact E|]. split; [|exact H]. vm_compute in E. by injection E as <- _.
Defined.
