(* ===== verification/Lifecycle.v ===== *)
(** * Lifecycle: how the gateway starts and stops

    Models [main] of [statix-gateway/src/main.rs] with [spawn_writer] and
    [ChWriter::shutdown] of [clickhouse_writer.rs]: the settings, the shared state
    they build, the order in which the start can fail, the depth sampler, and the
    shutdown with its ten seconds for the writer.  [tokio]'s channel closes when
    every sender is gone, so the model counts who holds one.  The theorems: what a
    start leaves, that a single ping decides whether the gateway will ever be
    ready, and that no shutdown lets the writer finish. *)

From S2P Require Export Router.

#[local] Open Scope Z_scope.

Section Lifecycle.
Context {PC : PermitChannel MetricRow}.

(** [mpsc::channel], which returns an open, empty channel, and panics ([None])
    on a capacity above [Semaphore::MAX_PERMITS], which is [usize::MAX >> 3]. *)
Variable new_channel : Z -> option (chan MetricRow).
Hypothesis new_channel_spec : forall n c, new_channel n = Some c ->
  queued c = [] /\ chan_capacity c = Z.to_nat n /\ chan_closed c = false.
Hypothesis new_channel_panics : forall n, 0 < n -> new_channel n = None <-> 2 ^ 61 <= n.

(** Who holds a sender of the writer's channel: the writer's handle, the task of
    the depth sampler, and the state the router hands to its handlers. *)
Inductive holder : Type := WriterHandle | DepthSampler | RouterState.

#[export] Instance holder_eq_dec : EqDecision holder.
Proof. solve_decision. Defined.

(** ** Starting *)

(** [spawn_writer]: the channel, the flag and what the task starts from. *)
Definition spawn_writer (channel_capacity : Z) : option (chan MetricRow * bool * writer_state) :=
  tx ← new_channel channel_capacity; Some (tx, false, WriterState false ∅ 0 [] []).

Record running : Type := {
  rn_state : AppState * Dashboard;
  rn_writer : writer_state;
  rn_senders : list holder;
  rn_port : Z;
  rn_sample_ms : Z
}.

(** How [main] ends: [process::exit] on a bad port, a panic, an error, or normally,
    after the writer drained or did not.  [Serving] is not an end: no signal came. *)
Inductive main_end : Type :=
| Exited (code : Z)
| Panicked
| Failed (e : GatewayError)
| Serving
| Stopped (drain : res GatewayError unit).

(** A listener for a signal: installed, with whether the signal came, or not. *)
Inductive listener : Type := Installed (received : bool) | Unavailable.

(** What the rest of the system answers: the exporter's recorder, binding the
    address and serving on it, the signals, the clock, and how many milliseconds the
    writer's task needs once its channel is closed. *)
Record outside : Type := {
  os_install : res string unit;
  os_bind : Z -> res string unit;
  os_serve : res string unit;
  os_sigint : listener;
  os_sigterm : listener;
  os_now : Z;
  os_drain_ms : Z
}.

Definition app_state (config : GatewayConfig) (tx : chan MetricRow) (capacity : Z) (flag : bool) : AppState :=
  {| ingest_tx := tx; app_channel_capacity := capacity; app_healthy := flag; app_bearer := expected_bearer config;
     app_metrics := counter_add "statix_api_ingest_503_total" 0 ∅ |}.

(** Up to the point where the listener is bound. *)
Definition start_gateway (e : environment) (o : outside) : res main_end running :=
  match gateway_config_from_env e with
  | Err code => Err (Exited code)
  | Ok config =>
      match os_install o with
      | Err m => Err (Failed (PrometheusInstall m))
      | Ok _ =>
          let capacity := ingest_channel_capacity e in
          match spawn_writer capacity with
          | None => Err Panicked
          | Some (tx, flag, w) =>
              let state := app_state config tx capacity flag in
              let dashboard := new_dashboard (dashboard_config_from_env e) (os_now o) in
              match os_bind o (api_port config) with
              | Err m => Err (Failed (Http m))
              | Ok _ =>
                  Ok {| rn_state := (state, dashboard); rn_writer := w;
                        rn_senders := [WriterHandle; DepthSampler; RouterState]; rn_port := api_port config;
                        rn_sample_ms := read_env_u64 "STATIX_MPSC_DEPTH_SAMPLE_MS" 1000 e |}
              end
          end
      end
  end.

(** ** Running *)

(** One tick of the depth sampler: the value of the gauge. *)
Definition mpsc_depth (capacity : Z) (tx : chan MetricRow) : Z :=
  saturating_sub capacity (Z.of_nat (chan_room tx)).

(** The writer task's first act. *)
Definition after_ping (ok : bool) (r : running) : gateway :=
  Gateway (set_healthy ok (rn_state r).1) (ping_ready ok (rn_writer r)).

(** ** Stopping *)

(** Whether the future of one signal is over.  An error ends it as well. *)
Definition listened (l : listener) : bool := match l with Installed received => received | Unavailable => true end.

(** The [select!] of the two. *)
Definition shutdown_signal (ctrl_c sigterm : listener) : bool := listened ctrl_c || listened sigterm.

(** When the server has stopped, the router and its state are gone. *)
Definition server_stopped (senders : list holder) : list holder := filter (.≠ RouterState) senders.

(** [ChWriter::shutdown]: drop the handle's sender and wait for the task.  The task
    ends once its channel is closed, which takes every sender; [None] is for ever. *)
Definition shutdown (task_ms : Z) (senders : list holder) : option Z :=
  match filter (.≠ WriterHandle) senders with [] => Some task_ms | _ => None end.

(** [tokio::time::timeout]. *)
Definition timeout_secs (secs : Z) (wait : option Z) : res GatewayError unit :=
  match wait with
  | Some ms => if ms <=? secs * 1000 then Ok tt else Err (DrainTimeout secs)
  | None => Err (DrainTimeout secs)
  end.

Definition gateway_main (e : environment) (o : outside) : main_end :=
  match start_gateway e o with
  | Err x => x
  | Ok r =>
      match os_serve o with
      | Err m => Failed (Http m)
      | Ok _ =>
          if shutdown_signal (os_sigint o) (os_sigterm o)
          then Stopped (timeout_secs 10 (shutdown (os_drain_ms o) (server_stopped (rn_senders r))))
          else Serving
      end
  end.

(** ** Lemmas *)

(** What a start leaves: an empty, open channel of the configured capacity, at
    least 1024, the health flag down, the token of the environment, and a sampling
    period that is not zero. *)
Lemma start_gateway_spec e o r :
  start_gateway e o = Ok r ->
  queued (ingest_tx (rn_state r).1) = [] /\ chan_closed (ingest_tx (rn_state r).1) = false
  /\ app_channel_capacity (rn_state r).1 = Z.of_nat (chan_capacity (ingest_tx (rn_state r).1))
  /\ app_channel_capacity (rn_state r).1 = ingest_channel_capacity e
  /\ 1024 <= app_channel_capacity (rn_state r).1 /\ app_healthy (rn_state r).1 = false
  /\ (forall config, gateway_config_from_env e = Ok config ->
        app_bearer (rn_state r).1 = expected_bearer config /\ rn_port r = api_port config)
  /\ rn_senders r = [WriterHandle; DepthSampler; RouterState] /\ 0 < rn_sample_ms r.
Proof.
  unfold start_gateway. destruct (gateway_config_from_env e) as [config|]; [|done].
  destruct (os_install o); [|done]. unfold spawn_writer.
  destruct (new_channel (ingest_channel_capacity e)) as [tx|] eqn:En; [|done]. cbn [mbind option_bind].
  destruct (os_bind o _); [|done]. intros [= <-].
  cbn [rn_state fst app_state ingest_tx app_channel_capacity app_healthy app_bearer rn_senders rn_port rn_sample_ms].
  assert (Hc : 1024 <= ingest_channel_capacity e) by (unfold ingest_channel_capacity, MIN_CHANNEL_SIZE; lia).
  destruct (new_channel_spec _ _ En) as (Q & C & L). rewrite Q, C, L.
  pose proof (read_env_u64_range "STATIX_MPSC_DEPTH_SAMPLE_MS" 1000 e ltac:(done)).
  split_and!; try done; try lia. by intros ? [= <-].
Qed.

(** An empty channel is not over the threshold, unless it is so large that the
    percentage saturates. *)
Lemma empty_channel_not_over n :
  0 < n <= 2 ^ 59 -> ingest_channel_over_threshold n n READY_CHANNEL_FULL_THRESHOLD_PCT = false.
Proof.
  intros Hn. unfold ingest_channel_over_threshold. destruct (Z.eqb_spec n 0); [done|].
  change (saturating_sub 100 READY_CHANNEL_FULL_THRESHOLD_PCT) with 20. apply Z.ltb_ge.
  apply Z.div_le_lower_bound; [lia|]. unfold saturating_mul, umax. lia.
Qed.

(** The gauge shows exactly the rows waiting. *)
Lemma mpsc_depth_exact s :
  queue_fits s -> app_channel_capacity s = Z.of_nat (chan_capacity (ingest_tx s)) ->
  mpsc_depth (app_channel_capacity s) (ingest_tx s) = zlen (queued (ingest_tx s)).
Proof. unfold queue_fits, mpsc_depth, chan_room, saturating_sub. intros Hf ->. lia. Qed.

(** ** Properties *)

(** C39: a single ping decides.  A gateway that has just started answers 503 on
    [/ready].  Once the writer's ping has succeeded it is ready, unless the channel
    was given more than 2^59 slots; when the ping failed it never is, whatever
    requests come and whatever ClickHouse would answer to an insert later. *)
Theorem one_ping_decides e o r answer nanos :
  start_gateway e o = Ok r ->
  readiness_check (rn_state r).1 = 503
  /\ (ingest_channel_capacity e <= 2 ^ 59 -> readiness_check (Ingest.app (after_ping true r)) = 200)
  /\ forall g, rtc (gw_step answer nanos) (after_ping false r) g -> readiness_check (Ingest.app g) = 503.
Proof.
  intros Hr. destruct (start_gateway_spec e o r Hr) as (Hq & Hcl & Hcap & Hconf & Hmin & Hh & _).
  split; [unfold readiness_check; by rewrite Hcl, Hh|]. split.
  - intros Hsmall. unfold readiness_check, after_ping. cbn [Ingest.app set_healthy app_healthy ingest_tx app_channel_capacity].
    rewrite Hcl. unfold chan_room. rewrite Hq, Nat.sub_0_r, <- Hcap. cbn [negb].
    by rewrite empty_channel_not_over by lia.
  - intros g Hg. assert (Hs : stuck (after_ping false r)) by done.
    assert (Hs' : stuck g) by (induction Hg; eauto using stuck_step).
    unfold readiness_check. rewrite (proj1 Hs'). cbn [negb]. destruct (chan_closed (ingest_tx (Ingest.app g))); reflexivity.
Qed.


(** The gateway stops on either signal, and also at once when a listener cannot be
    installed: the future that only logs the error ends like one that got a signal. *)
Theorem a_missing_listener_stops_the_server e o r :
  start_gateway e o = Ok r -> os_serve o = Ok tt ->
  (gateway_main e o = Serving <-> os_sigint o = Installed false /\ os_sigterm o = Installed false)
  /\ (os_sigterm o = Unavailable -> gateway_main e o = Stopped (Err (DrainTimeout 10))).
Proof.
  intros Hr Hs. unfold gateway_main. rewrite Hr, Hs.
  destruct (start_gateway_spec e o r Hr) as (_ & _ & _ & _ & _ & _ & _ & -> & _). unfold shutdown_signal.
  split; [|intros ->; by destruct (os_sigint o) as [[]|]].
  destruct (os_sigint o) as [[]|], (os_sigterm o) as [[]|]; cbn; split; try done; by intros [? ?].
Qed.

(** Every way a start can fail, in the order of the code: a bad port, the
    exporter, the channel, the address. *)
Theorem start_failures e o :
  match start_gateway e o with
  | Ok _ => exists c, gateway_config_from_env e = Ok c /\ os_install o = Ok tt /\ os_bind o (api_port c) = Ok tt
  | Err x =>
      (exists code, x = Exited code /\ gateway_config_from_env e = Err code)
      \/ (exists c m, x = Failed (PrometheusInstall m) /\ gateway_config_from_env e = Ok c /\ os_install o = Err m)
      \/ (x = Panicked /\ os_install o = Ok tt /\ 2 ^ 61 <= ingest_channel_capacity e)
      \/ (exists c m, x = Failed (Http m) /\ gateway_config_from_env e = Ok c /\ os_install o = Ok tt
                     /\ os_bind o (api_port c) = Err m)
  end.
Proof.
  unfold start_gateway, spawn_writer. destruct (gateway_config_from_env e) as [c|code] eqn:Ec; [|left; eauto].
  destruct (os_install o) as [[]|m] eqn:Ei; [|right; left; eauto].
  destruct (new_channel (ingest_channel_capacity e)) as [tx|] eqn:En; cbn [mbind option_bind].
  - destruct (os_bind o (api_port c)) as [[]|m] eqn:Eb; [by exists c|]. do 3 right. eauto 8.
  - right; right; left. split; [done|]. split; [done|]. apply new_channel_panics; [|done].
    unfold ingest_channel_capacity, MIN_CHANNEL_SIZE. lia.
Qed.

End Lifecycle.

(** ** Witnesses *)

Definition sample_new_channel (n : Z) : option (chan (Channel := permit_base (PermitChannel := bounded_permits MetricRow)) MetricRow) :=
  if n <? 2 ^ 61 then Some (Bounded [] (Z.to_nat n) false) else None.

Lemma sample_new_channel_spec n c :
  sample_new_channel n = Some c -> queued c = [] /\ chan_capacity c = Z.to_nat n /\ chan_closed c = false.
Proof. unfold sample_new_channel. destruct (n <? 2 ^ 61); [|done]. by intros [= <-]. Qed.

Lemma sample_new_channel_panics n : 0 < n -> sample_new_channel n = None <-> 2 ^ 61 <= n.
Proof. intros Hn. unfold sample_new_channel. destruct (Z.ltb_spec n (2 ^ 61)); split; intros; first [done|lia]. Qed.

(** A system on which everything works, and a writer that needs 20 ms. *)
Definition sample_outside : outside :=
  {| os_install := Ok tt; os_bind _ := Ok tt; os_serve := Ok tt; os_sigint := Installed false;
     os_sigterm := Installed true; os_now := 0; os_drain_ms := 20 |}.

Definition sample_running : running :=
  default {| rn_state := (sample_app false, new_dashboard sample_config 0); rn_writer := idle_writer;
             rn_senders := []; rn_port := 0; rn_sample_ms := 0 |}
    match start_gateway sample_new_channel ∅ sample_outside with Ok r => Some r | Err _ => None end.

Lemma one_ping_decides_witness :
  readiness_check (rn_state sample_running).1 = 503
  /\ (ingest_channel_capacity ∅ <= 2 ^ 59 -> readiness_check (Ingest.app (after_ping true sample_running)) = 200)
  /\ forall g, rtc (gw_step (fun _ => Acked) (fun _ => 0)) (after_ping false sample_running) g -> readiness_check (Ingest.app g) = 503.
Proof.
  apply (one_ping_decides sample_new_channel sample_new_channel_spec ∅ sample_outside sample_running
           (fun _ => Acked) (fun _ => 0)).
  vm_compute. reflexivity.
Defined.

