(* ===== verification/System.v ===== *)
(** * System: a row from the agent to ClickHouse

    Puts the two programs together: the agent's delivery tasks of [Delivery], the
    request they send through the route of [Router], and the gateway's writer task
    of [Ingest].  The network may lose a request or its answer, and the tasks take
    their turns in any order.  The theorems: every row is accounted for from the
    batch that carries it to the insert, a batch the gateway can take is never
    given up, and one that is too long always is. *)

From S2P Require Export Startup Router.

#[local] Open Scope Z_scope.

(** The statuses a [POST /ingest] can be answered with. *)
Lemma ingest_statuses {PC : PermitChannel MetricRow} a b s : ingest_status a b s ∈ [200; 400; 401; 503].
Proof. unfold ingest_status. destruct_ifs; repeat constructor. Qed.

Lemma request_statuses {AX : Axum} {PC : PermitChannel MetricRow} r s : request_status r s ∈ [200; 400; 401; 413; 415; 422; 503].
Proof.
  unfold request_status. destruct (extract_json _ _ _) as [b|st] eqn:E.
  - pose proof (ingest_statuses (hq_auth r) b s). set_solver.
  - apply extract_json_err in E. set_solver.
Qed.

Section System.
Context {crc : Crc32} `{!Channel body} {PC : PermitChannel MetricRow} {AX : Axum}.
Variables (is_success is_server_error : Z -> bool) (initial maxb : Z).
(** The client's [Authorization] header; ClickHouse's answers; the writer's clock
    and the size of its batches. *)
Variables (auth : option string) (answer : nat -> insert_answer) (nanos : nat -> Z) (batch_max : nat).

(** The status classes of the [http] crate. *)
Hypothesis success_class : forall s, is_success s = true <-> 200 <= s < 300.
Hypothesis server_error_class : forall s, is_server_error s = true <-> 500 <= s < 600.

Record system : Type := System { sy_pipe : pipe; sy_gateway : gateway; sy_dashboard : Dashboard }.

(** What the network does to one request. *)
Inductive fate : Type := RequestLost | Answered | AnswerLost.

(** A turn of the event loop, the log's writer thread or the drainer; the retry
    worker posts; the gateway's writer takes up to [k] rows, and no more than a
    batch, and flushes them. *)
Inductive sys_event : Type :=
| EmitBatch (text : body) (locked : bool)
| WriteBurst (clock : list bool)
| DrainSweep
| PostBatch (f : fate)
| FlushRows (k : nat).

#[export] Instance fate_eq_dec : EqDecision fate.
Proof. solve_decision. Defined.
#[export] Instance sys_event_eq_dec : EqDecision sys_event.
Proof. solve_decision. Defined.

(** The batch the retry worker posts next. *)
Definition next_body (p : pipe) : option body :=
  match p_hand p, retry (p_out p) with
  | Some b, _ => Some b
  | None, Some tx => (try_recv tx).1
  | None, None => None
  end.

(** [post_ingest]'s request. *)
Definition post_request (b : body) : http_request :=
  {| hq_method := POST; hq_path := "/ingest"; hq_query := ""; hq_auth := auth; hq_json := true; hq_body := b |}.

Definition post_turn (f : fate) (y : system) : option system :=
  let lost_request := p ← pipe_step is_success is_server_error initial maxb (Post SendFailed) (sy_pipe y);
                      Some (System p (sy_gateway y) (sy_dashboard y)) in
  match next_body (sy_pipe y), f with
  | None, _ | _, RequestLost => lost_request
  | Some b, _ =>
      '(r, (s, d)) ← ingest_route MAX_BODY (post_request b) (Ingest.app (sy_gateway y), sy_dashboard y);
      let heard := match f with Answered => Output.Response (h_status r) | _ => SendFailed end in
      p ← pipe_step is_success is_server_error initial maxb (Post heard) (sy_pipe y);
      Some (System p (Gateway s (chw (sy_gateway y))) d)
  end.

Definition flush_turn (k : nat) (g : gateway) : gateway :=
  let '(rows, c) := take_rows (Nat.min k batch_max) (ingest_tx (Ingest.app g)) in
  match rows with
  | [] => g
  | _ =>
      let w := (flush_with_retry answer nanos rows (chw g)).2 in
      Gateway (set_healthy (ch_healthy w) (set_tx c (Ingest.app g))) w
  end.

Definition sys_step (e : sys_event) (y : system) : option system :=
  let agent pe := p ← pipe_step is_success is_server_error initial maxb pe (sy_pipe y);
                  Some (System p (sy_gateway y) (sy_dashboard y)) in
  match e with
  | EmitBatch text locked => agent (Emit text locked)
  | WriteBurst clock => agent (Burst clock)
  | DrainSweep => agent Sweep
  | PostBatch f => post_turn f y
  | FlushRows k => Some (System (sy_pipe y) (flush_turn k (sy_gateway y)) (sy_dashboard y))
  end.

Fixpoint sys_run (es : list sys_event) (y : system) : option system :=
  match es with
  | [] => Some y
  | e :: es => y ← sys_step e y; sys_run es y
  end.

(** ** What is counted *)

Definition rows_of (b : body) : list MetricRow := request_rows (post_request b).
Definition rows_in (bs : list body) : list MetricRow := bs ≫= rows_of.

(** The rows the gateway has taken: stored, given up and counted, or waiting. *)
Definition received (g : gateway) : list MetricRow :=
  concat (inserted (chw g)) ++ concat (dropped (chw g)) ++ queued (ingest_tx (Ingest.app g)).

Definition accepted (l : list (body * PostOutcome)) : list body :=
  omap (fun x => match x.2 with PostOk => Some x.1 | _ => None end) l.
Definition refused_for_good (l : list (body * PostOutcome)) : list body :=
  omap (fun x => match x.2 with PostNonRetryable _ => Some x.1 | _ => None end) l.

Definition batches (es : list sys_event) : list body :=
  omap (fun e => match e with EmitBatch text _ => Some text | _ => None end) es.
Definition answers_lost (es : list sys_event) : nat :=
  length (filter (fun e => e = PostBatch AnswerLost) es).

Definition sys_event_ok (e : sys_event) : Prop := match e with EmitBatch text _ => payload_ok text | _ => True end.

(** ** The agent's side *)

(** A turn other than a post settles nothing. *)
Lemma agent_turn_settles e p p' :
  (forall a, e <> Post a) -> pipe_step is_success is_server_error initial maxb e p = Some p' ->
  p_settled p' = p_settled p.
Proof.
  intros He. destruct e as [json locked|clock| |a]; cbn [pipe_step]; [| | |by destruct (He a)].
  - destruct (enqueue_batch_json json _) as [log o]. by intros [= <-].
  - destruct (wal (p_out p)) as [w|]; [|by intros [= <-]]. destruct (recv_all _ _) as [[|first rest] c]; [by intros [= <-]|].
    destruct (group_commit _ _ _) as [r s]. by intros [= <-].
  - destruct (wal (p_out p)) as [w|]; [|by intros [= <-]]. destruct (retry (p_out p)) as [tx|]; [|by intros [= <-]].
    destruct (wal_enabled w); [|by intros [= <-]]. destruct (sweep _) as [d|]; [|done]. by intros [= <-].
Qed.

(** A post settles the batch it posts, unless it is to be retried. *)
Lemma post_settles a p p' :
  pipe_step is_success is_server_error initial maxb (Post a) p = Some p' ->
  p_settled p' = p_settled p ++
    match next_body p, post_ingest is_success is_server_error a with
    | None, _ | _, PostRetryable => []
    | Some b, out => [(b, out)]
    end.
Proof.
  cbn [pipe_step]. unfold next_body. destruct (p_hand p) as [b|].
  2: destruct (retry (p_out p)) as [tx|]; [destruct (try_recv tx) as [[b|] c]|]; cbn [fst];
     [|intros [= <-]; by rewrite app_nil_r..].
  all: unfold worker_post; destruct (post_ingest is_success is_server_error a); intros [= <-];
    cbn [p_settled]; by rewrite ?app_nil_r.
Qed.

Lemma accepted_app l k : accepted (l ++ k) = accepted l ++ accepted k.
Proof. apply omap_app. Qed.

(** ** The gateway's side *)

Lemma take_rows_spec k c rows c' : take_rows k c = (rows, c') -> queued c = rows ++ queued c'.
Proof.
  revert c rows c'. induction k as [|k IH]; intros c rows c'; cbn [take_rows]; [by intros [= <- <-]|].
  destruct (try_recv_eq c) as (E & Q & _). destruct (try_recv c) as [r c1]. cbn [fst snd] in *. subst r.
  destruct (queued c) as [|x l] eqn:Ec; cbn [head] in *; [intros [= <- <-]; by rewrite Q|].
  destruct (take_rows k c1) as [rs c2] eqn:Et. intros [= <- <-]. apply IH in Et. rewrite Q in Et. cbn in *. congruence.
Qed.

(** The counters of the writer agree with what it did. *)
Definition counted_since (w w' : writer_state) : Prop :=
  metric (ch_metrics w') M_ROWS - metric (ch_metrics w) M_ROWS = zlen (concat (inserted w')) - zlen (concat (inserted w))
  /\ metric (ch_metrics w') M_DROPPED - metric (ch_metrics w) M_DROPPED
     = zlen (concat (dropped w')) - zlen (concat (dropped w)).

Lemma counted_since_refl w : counted_since w w.
Proof. unfold counted_since. lia. Qed.

Lemma flush_turn_keeps k g : received (flush_turn k g) ≡ₚ received g /\ counted_since (chw g) (chw (flush_turn k g)).
Proof.
  unfold flush_turn. destruct (take_rows (Nat.min k batch_max) _) as [rows c] eqn:E. apply take_rows_spec in E.
  destruct rows as [|r rows]; [split; [done|apply counted_since_refl]|].
  destruct (flush_with_retry_settles answer nanos (r :: rows) (chw g)) as (ok & _ & Hi & Hd & Hr & Hx).
  unfold received, counted_since. cbn [chw Ingest.app set_healthy set_tx ingest_tx]. rewrite Hr, Hx, Hi, Hd, E, !concat_app.
  destruct ok; cbn [concat]; rewrite ?app_nil_r, ?length_app; split; try solve_Permutation; lia.
Qed.

Lemma counted_since_trans w1 w2 w3 : counted_since w1 w2 -> counted_since w2 w3 -> counted_since w1 w3.
Proof. unfold counted_since. lia. Qed.

(** The worker takes an answer for a success exactly when it is 200. *)
Lemma heard_success r s :
  post_ingest is_success is_server_error (Output.Response (request_status r s)) = PostOk <-> request_status r s = 200.
Proof.
  pose proof (request_statuses r s) as H. cbn [post_ingest]. split.
  - destruct (is_success (request_status r s)) eqn:E; [|destruct (is_retryable_status _ _); done].
    apply success_class in E. intros _.
    repeat (apply elem_of_cons in H as [H|H]; [lia|]). by apply elem_of_nil in H.
  - intros ->. by rewrite (proj2 (success_class 200)) by lia.
Qed.

(** ** Accounting *)

(** A body the extractor takes. *)
Definition parsed (b : body) : Prop := exists batch, extract_json MAX_BODY true b = Ok batch.

(** What a sequence of turns does: [new] is what it settled, [lost] what the agent
    lost and reported, [again] the batches the gateway took without the agent
    hearing of it. *)
Record accounts (es : list sys_event) (y y' : system) (q q' : list DecodedFrame)
    (new : list (body * PostOutcome)) (lost again : list body) : Prop := {
  ac_settled : p_settled (sy_pipe y') = p_settled (sy_pipe y) ++ new;
  ac_batches : batches es ++ waiting (sy_pipe y) q
               ≡ₚ accepted new ++ refused_for_good new ++ waiting (sy_pipe y') q' ++ lost;
  ac_lost : zlen lost <= reported (sy_pipe y') - reported (sy_pipe y);
  ac_rows : received (sy_gateway y') ≡ₚ received (sy_gateway y) ++ rows_in (accepted new) ++ rows_in again;
  ac_again : (length again <= answers_lost es)%nat;
  ac_own : Forall (fun b => b ∈ batches es ++ waiting (sy_pipe y) q) again;
  ac_taken : Forall parsed (accepted new ++ again);
  ac_counted : counted_since (chw (sy_gateway y)) (chw (sy_gateway y'))
}.

Lemma rows_in_app a b : rows_in (a ++ b) = rows_in a ++ rows_in b.
Proof. apply bind_app. Qed.

Lemma accounts_nil y q : accounts [] y y q q [] [] [].
Proof.
  split; cbn; rewrite ?app_nil_r; try done; try lia. apply counted_since_refl.
Qed.

Lemma accounts_app es1 es2 y1 y2 y3 q1 q2 q3 n1 n2 l1 l2 a1 a2 :
  accounts es1 y1 y2 q1 q2 n1 l1 a1 -> accounts es2 y2 y3 q2 q3 n2 l2 a2 ->
  accounts (es1 ++ es2) y1 y3 q1 q3 (n1 ++ n2) (l1 ++ l2) (a1 ++ a2).
Proof.
  intros [S1 B1 L1 R1 A1 O1 T1 C1] [S2 B2 L2 R2 A2 O2 T2 C2]. split.
  - by rewrite S2, S1, app_assoc.
  - unfold batches, accepted, refused_for_good in *. rewrite !omap_app.
    transitivity ((omap (fun e => match e with EmitBatch text _ => Some text | _ => None end) es2)
      ++ (omap (fun e => match e with EmitBatch text _ => Some text | _ => None end) es1 ++ waiting (sy_pipe y1) q1));
      [solve_Permutation|]. rewrite B1.
    set (X := omap _ es2) in *. set (W := waiting (sy_pipe y2) q2) in *.
    match goal with |- _ ++ ?u ++ ?v ++ W ++ l1 ≡ₚ _ =>
      transitivity (u ++ v ++ (X ++ W) ++ l1); [solve_Permutation|] end.
    rewrite B2. solve_Permutation.
  - rewrite length_app. lia.
  - unfold accepted in *. rewrite omap_app, !rows_in_app, R2, R1. solve_Permutation.
  - unfold answers_lost in *. rewrite filter_app, !length_app. lia.
  - assert (Hw : forall b, b ∈ waiting (sy_pipe y2) q2 -> b ∈ batches es1 ++ waiting (sy_pipe y1) q1).
    { intros b Hb. rewrite B1, !elem_of_app. tauto. }
    unfold batches in *. rewrite omap_app. apply Forall_app. split.
    + eapply Forall_impl; [exact O1|]. intros b. cbn. rewrite !elem_of_app. tauto.
    + eapply Forall_impl; [exact O2|]. intros b. cbn. rewrite !elem_of_app. intros [Hb|Hb]; [tauto|].
      specialize (Hw b Hb). rewrite elem_of_app in Hw. tauto.
  - rewrite accepted_app. apply Forall_app in T1 as [? ?], T2 as [? ?]. by rewrite !Forall_app.
  - by eapply counted_since_trans.
Qed.

Lemma settled_split (l : list (body * PostOutcome)) :
  Forall (fun x => x.2 <> PostRetryable) l -> l.*1 ≡ₚ accepted l ++ refused_for_good l.
Proof.
  induction 1 as [|[b o] l Ho _ IH]; [done|]. cbn. destruct o; [cbn; by rewrite IH|done|].
  cbn. rewrite IH. solve_Permutation.
Qed.

(** The agent's part of a turn. *)
Lemma agent_turn_batches e p p' q q' new :
  accounted e p p' q q' -> p_settled p' = p_settled p ++ new -> Forall (fun x => x.2 <> PostRetryable) new ->
  exists lost, emitted [e] ++ waiting p q ≡ₚ accepted new ++ refused_for_good new ++ waiting p' q' ++ lost
    /\ zlen lost <= reported p' - reported p.
Proof.
  intros (lost & Hp & Hl) Hs Hn. exists lost. split; [|lia].
  rewrite Hs, fmap_app, (settled_split new Hn) in Hp. apply (Permutation_app_inv_l (p_settled p).*1).
  transitivity (emitted [e] ++ (p_settled p).*1 ++ waiting p q); [solve_Permutation|]. rewrite Hp. solve_Permutation.
Qed.

(** A turn of the agent alone. *)
Lemma agent_turn_accounts pe e y p' q q' :
  (forall a, pe <> Post a) -> batches [e] = emitted [pe] ->
  pipe_step is_success is_server_error initial maxb pe (sy_pipe y) = Some p' -> accounted pe (sy_pipe y) p' q q' ->
  exists new lost again, accounts [e] y (System p' (sy_gateway y) (sy_dashboard y)) q q' new lost again.
Proof.
  intros Hne He E Ha. pose proof (agent_turn_settles _ _ _ Hne E) as Hs.
  destruct (agent_turn_batches pe (sy_pipe y) p' q q' []) as (lost & Hb & Hl); [done|by rewrite app_nil_r|done|].
  exists [], lost, []. split; cbn [sy_pipe sy_gateway]; rewrite ?He; try done.
  - by rewrite app_nil_r.
  - cbn. by rewrite app_nil_r.
  - cbn. lia.
  - apply counted_since_refl.
Qed.

(** The outcome of one post, from what the worker hears. *)
Definition heard_settles (b : option body) (a : post_answer) : list (body * PostOutcome) :=
  match b, post_ingest is_success is_server_error a with
  | None, _ | _, PostRetryable => []
  | Some b, out => [(b, out)]
  end.

Lemma heard_settles_final b a : Forall (fun x => x.2 <> PostRetryable) (heard_settles b a).
Proof. unfold heard_settles. destruct b; [|done]. destruct (post_ingest _ _ a); by repeat constructor. Qed.

(** A post whose request never arrives. *)
Lemma lost_request_accounts f y q n :
  pipe_inv n (sy_pipe y) q ->
  exists p' new lost again,
    pipe_step is_success is_server_error initial maxb (Post SendFailed) (sy_pipe y) = Some p' /\ pipe_inv n p' q
    /\ accounts [PostBatch f] y (System p' (sy_gateway y) (sy_dashboard y)) q q new lost again.
Proof.
  intros Hi. destruct (post_accounts is_success is_server_error initial maxb SendFailed _ q n Hi) as (p' & E & Hi' & Ha).
  pose proof (post_settles _ _ _ E) as Hs. fold (heard_settles (next_body (sy_pipe y)) SendFailed) in Hs.
  assert (En : heard_settles (next_body (sy_pipe y)) SendFailed = []) by (unfold heard_settles; cbn; by destruct (next_body _)).
  rewrite En in Hs. destruct (agent_turn_batches _ _ _ q q [] Ha Hs) as (lost & Hb & Hl); [done|].
  exists p', [], lost, []. split; [done|]. split; [done|]. split; cbn [sy_pipe sy_gateway]; try done.
  - cbn. by rewrite app_nil_r.
  - cbn. lia.
  - apply counted_since_refl.
Qed.

Lemma rows_in_one b : rows_in [b] = rows_of b.
Proof. unfold rows_in. cbn. by rewrite app_nil_r. Qed.

Lemma next_body_waiting p q b : next_body p = Some b -> b ∈ waiting p q.
Proof.
  unfold next_body, waiting, in_queue. destruct (p_hand p) as [h|]; [intros [= ->]; by left|].
  destruct (retry (p_out p)) as [tx|]; [|done]. destruct (try_recv_eq tx) as (-> & _). cbn.
  destruct (queued tx); cbn; [done|]. intros [= ->]. by left.
Qed.

(** What is answered 200 was parsed. *)
Lemma taken_parses b s : request_status (post_request b) s = 200 -> parsed b.
Proof.
  unfold request_status, parsed. cbn [post_request hq_json hq_body].
  destruct (extract_json MAX_BODY true b) as [batch|st] eqn:E; [by exists batch|].
  apply rejection_not_ok in E. intros ->. done.
Qed.

(** A request that reaches the gateway. *)
Lemma served_request_accounts f b y q n :
  f <> RequestLost -> next_body (sy_pipe y) = Some b -> pipe_inv n (sy_pipe y) q ->
  exists y' new lost again, post_turn f y = Some y' /\ pipe_inv n (sy_pipe y') q
    /\ accounts [PostBatch f] y y' q q new lost again.
Proof.
  intros Hf Hb Hi. destruct y as [p g d]. cbn [sy_pipe] in *.
  destruct (ingest_route_spec (post_request b) (Ingest.app g, d)) as (a & s & Er & Hst & Hq & _). cbn [fst snd] in *.
  set (heard := match f with Answered => Output.Response (h_status a) | _ => SendFailed end).
  destruct (post_accounts is_success is_server_error initial maxb heard p q n Hi) as (p' & E & Hi' & Ha).
  pose proof (taken_parses b (Ingest.app g)) as Hpar. rewrite <- Hst in Hpar.
  pose proof (post_settles _ _ _ E) as Hs. fold (heard_settles (next_body p) heard) in Hs. rewrite Hb in Hs.
  destruct (agent_turn_batches _ _ _ q q _ Ha Hs (heard_settles_final _ _)) as (lost & Hbs & Hl).
  assert (Et : post_turn f (System p g d) = Some (System p' (Gateway s (chw g)) d)).
  { unfold post_turn. cbn [sy_pipe sy_gateway sy_dashboard]. rewrite Hb, Er. cbn [mbind option_bind].
    unfold heard in E. destruct f; [done| |]; by rewrite E. }
  assert (Hrec : received (Gateway s (chw g)) = received g ++ (if h_status a =? 200 then rows_of b else [])).
  { unfold received. cbn [chw Ingest.app]. by rewrite Hq, !app_assoc. }
  assert (Hgo : forall again, (if h_status a =? 200 then rows_of b else []) = rows_in (accepted (heard_settles (Some b) heard)) ++ rows_in again ->
    (length again <= answers_lost [PostBatch f])%nat -> Forall (.= b) again ->
    Forall parsed (accepted (heard_settles (Some b) heard) ++ again) ->
    exists y' new lost again, post_turn f (System p g d) = Some y' /\ pipe_inv n (sy_pipe y') q
      /\ accounts [PostBatch f] (System p g d) y' q q new lost again).
  { intros again Hrows Hlen Hown Hall. exists (System p' (Gateway s (chw g)) d), (heard_settles (Some b) heard), lost, again.
    split; [done|]. split; [done|]. split; cbn [sy_pipe sy_gateway]; try done; [by rewrite Hrec, Hrows| |apply counted_since_refl].
    eapply Forall_impl; [exact Hown|]. intros b' ->. by apply next_body_waiting. }
  destruct f; [done| |].
  - pose proof (heard_success (post_request b) (Ingest.app g)) as Hh. rewrite <- Hst in Hh.
    assert (Hacc : accepted (heard_settles (Some b) heard) = if h_status a =? 200 then [b] else []).
    { unfold heard_settles, heard. destruct (Z.eqb_spec (h_status a) 200) as [E2|E2].
      - by rewrite (proj2 Hh E2).
      - destruct (post_ingest _ _ _); [tauto|done|done]. }
    apply (Hgo []); rewrite ?Hacc, ?app_nil_r; [|cbn; lia|done|].
    + destruct (_ =? 200); [by rewrite rows_in_one|done].
    + destruct (Z.eqb_spec (h_status a) 200); repeat constructor. auto.
  - apply (Hgo (if h_status a =? 200 then [b] else [])); change (accepted (heard_settles (Some b) heard)) with (@nil body);
      change (answers_lost [PostBatch AnswerLost]) with 1%nat;
      destruct (Z.eqb_spec (h_status a) 200); cbn [length Datatypes.app]; try lia; repeat constructor; auto.
    by rewrite rows_in_one.
Qed.

(** A flush moves rows from the channel to ClickHouse. *)
Lemma flush_accounts k y q :
  accounts [FlushRows k] y (System (sy_pipe y) (flush_turn k (sy_gateway y)) (sy_dashboard y)) q q [] [] [].
Proof.
  destruct (flush_turn_keeps k (sy_gateway y)) as [Hk Hc].
  split; cbn [sy_pipe sy_gateway]; rewrite ?app_nil_r; cbn; try done; try lia.
Qed.

Definition sys_cost (e : sys_event) : nat := match e with EmitBatch _ _ => 1 | _ => 0 end.

Lemma sys_step_accounts e y q n :
  sys_event_ok e -> pipe_inv (sys_cost e + n) (sy_pipe y) q ->
  exists y' q' new lost again, sys_step e y = Some y' /\ pipe_inv n (sy_pipe y') q'
    /\ accounts [e] y y' q q' new lost again.
Proof.
  assert (Hagent : forall pe, (forall a, pe <> Post a) -> batches [e] = emitted [pe] -> pipe_event_ok pe ->
    pipe_inv (step_cost pe + n) (sy_pipe y) q ->
    exists y' q' new lost again,
      (p ← pipe_step is_success is_server_error initial maxb pe (sy_pipe y);
       Some (System p (sy_gateway y) (sy_dashboard y))) = Some y'
      /\ pipe_inv n (sy_pipe y') q' /\ accounts [e] y y' q q' new lost again).
  { intros pe Hne He Hok Hi.
    destruct (step_accounts is_success is_server_error initial maxb pe _ q n Hi Hok) as (p' & q' & E & Hi' & Ha).
    destruct (agent_turn_accounts pe e y p' q q' Hne He E Ha) as (new & lost & again & H).
    exists (System p' (sy_gateway y) (sy_dashboard y)), q', new, lost, again. by rewrite E. }
  intros He Hi. destruct e as [text locked|clock| |f|k]; cbn [sys_step].
  - by apply Hagent.
  - by apply Hagent.
  - by apply Hagent.
  - destruct (decide (f = RequestLost)) as [->|Hf].
    + destruct (lost_request_accounts RequestLost y q n Hi) as (p' & new & lost & again & E & Hi' & H).
      exists (System p' (sy_gateway y) (sy_dashboard y)), q, new, lost, again. unfold post_turn. rewrite E.
      by destruct (next_body _).
    + destruct (next_body (sy_pipe y)) as [b|] eqn:Eb.
      * destruct (served_request_accounts f b y q n Hf Eb Hi) as (y' & new & lost & again & E & Hi' & H).
        by exists y', q, new, lost, again.
      * destruct (lost_request_accounts f y q n Hi) as (p' & new & lost & again & E & Hi' & H).
        exists (System p' (sy_gateway y) (sy_dashboard y)), q, new, lost, again. unfold post_turn. rewrite Eb, E. done.
  - eexists _, q, [], [], []. split; [done|]. split; [done|]. apply flush_accounts.
Qed.

Lemma sys_run_accounts es y q :
  Forall sys_event_ok es -> pipe_inv (length (batches es)) (sy_pipe y) q ->
  exists y' q' new lost again, sys_run es y = Some y' /\ pipe_inv 0 (sy_pipe y') q'
    /\ accounts es y y' q q' new lost again.
Proof.
  intros He. revert y q. induction He as [|e es He _ IH]; intros y q Hi.
  { exists y, q, [], [], []. split; [done|]. split; [done|]. apply accounts_nil. }
  assert (Ec : length (batches (e :: es)) = (sys_cost e + length (batches es))%nat) by (by destruct e).
  rewrite Ec in Hi. destruct (sys_step_accounts e y q _ He Hi) as (y1 & q1 & n1 & l1 & a1 & E1 & Hi1 & A1).
  destruct (IH y1 q1 Hi1) as (y2 & q2 & n2 & l2 & a2 & E2 & Hi2 & A2).
  exists y2, q2, (n1 ++ n2), (l1 ++ l2), (a1 ++ a2). cbn [sys_run]. rewrite E1. split; [done|]. split; [done|].
  apply (accounts_app [e] es y y1 y2 q q1 q2); done.
Qed.

Lemma sys_run_app es1 es2 y : sys_run (es1 ++ es2) y = y' ← sys_run es1 y; sys_run es2 y'.
Proof.
  revert y. induction es1 as [|e es1 IH]; intros y; [done|]. cbn [Datatypes.app sys_run].
  destruct (sys_step e y) as [y1|]; [|done]. apply IH.
Qed.

(** ** Refusals *)

(** A batch the gateway can parse, of a schema it supports. *)
Definition deliverable (b : body) : Prop :=
  exists batch, extract_json MAX_BODY true b = Ok batch
    /\ MIN_SCHEMA_VERSION <= schema_version batch <= MAX_SCHEMA_VERSION.

Lemma deliverable_status b s :
  deliverable b -> ingest_authorized auth s = true ->
  request_status (post_request b) s = 200 \/ request_status (post_request b) s = 503.
Proof.
  intros (batch & E & Hv) Ha. unfold request_status, post_request. cbn [hq_json hq_body hq_auth]. rewrite E.
  unfold ingest_status. rewrite Ha, supported_schema by done. cbn [negb]. destruct_ifs; auto.
Qed.

(** Such an answer is never a refusal. *)
Lemma deliverable_heard b s a :
  deliverable b -> ingest_authorized auth s = true ->
  a = SendFailed \/ a = Output.Response (request_status (post_request b) s) ->
  refused_for_good (heard_settles (Some b) a) = [].
Proof.
  intros Hb Ha [->| ->]; [done|]. unfold heard_settles. cbn [post_ingest].
  destruct (deliverable_status b s Hb Ha) as [->| ->].
  - by rewrite (proj2 (success_class 200)) by lia.
  - destruct (is_success 503); [done|]. unfold is_retryable_status. by rewrite (proj2 (server_error_class 503)) by lia.
Qed.

Lemma flush_turn_bearer k g : app_bearer (Ingest.app (flush_turn k g)) = app_bearer (Ingest.app g).
Proof. unfold flush_turn. by destruct (take_rows _ _) as [[|r rows] c]. Qed.

Lemma authorized_bearer s s' : app_bearer s' = app_bearer s -> ingest_authorized auth s' = ingest_authorized auth s.
Proof. unfold ingest_authorized. by intros ->. Qed.

Lemma sys_step_refuses_nothing e y y' q new :
  sys_step e y = Some y' -> p_settled (sy_pipe y') = p_settled (sy_pipe y) ++ new ->
  ingest_authorized auth (Ingest.app (sy_gateway y)) = true -> Forall deliverable (waiting (sy_pipe y) q) ->
  refused_for_good new = [] /\ ingest_authorized auth (Ingest.app (sy_gateway y')) = true.
Proof.
  destruct y as [p g d]. cbn [sy_pipe sy_gateway]. intros E Hs Ha Hw.
  assert (Hagent : forall pe, (forall a, pe <> Post a) ->
    (p ← pipe_step is_success is_server_error initial maxb pe p; Some (System p g d)) = Some y' ->
    refused_for_good new = [] /\ ingest_authorized auth (Ingest.app (sy_gateway y')) = true).
  { intros pe Hne E2. destruct (pipe_step _ _ _ _ pe p) as [p'|] eqn:E3; [|done]. injection E2 as <-.
    apply agent_turn_settles in E3; [|done]. cbn [sy_pipe] in Hs. rewrite E3 in Hs.
    rewrite <- (app_nil_r (p_settled p)) in Hs at 1.
    apply (app_inv_head (p_settled p)) in Hs. by subst new. }
  assert (Hpost : forall a s, pipe_step is_success is_server_error initial maxb (Post a) p = Some (sy_pipe y') ->
    ingest_authorized auth s = true ->
    (forall b, next_body p = Some b -> a = SendFailed \/ a = Output.Response (request_status (post_request b) s)) ->
    refused_for_good new = []).
  { intros a s E2 Has Hh. apply post_settles in E2. fold (heard_settles (next_body p) a) in E2. rewrite E2 in Hs.
    apply app_inv_head in Hs. subst new. destruct (next_body p) as [b|] eqn:Eb; [|done].
    apply (deliverable_heard b s); [|done|by apply Hh]. rewrite Forall_forall in Hw. apply Hw. by apply next_body_waiting. }
  destruct e as [text locked|clock| |f|k]; cbn [sys_step sy_pipe sy_gateway sy_dashboard] in E; try by apply Hagent in E.
  - unfold post_turn in E. cbn [sy_pipe sy_gateway sy_dashboard] in E.
    assert (Hlost : (p ← pipe_step is_success is_server_error initial maxb (Post SendFailed) p; Some (System p g d)) = Some y' ->
      refused_for_good new = [] /\ ingest_authorized auth (Ingest.app (sy_gateway y')) = true).
    { intros E2. destruct (pipe_step _ _ _ _ (Post SendFailed) p) as [p'|] eqn:E3; [|done]. injection E2 as <-.
      split; [|done]. apply (Hpost SendFailed (Ingest.app g)); [done..|by left]. }
    destruct (next_body p) as [b|] eqn:Eb; [|by apply Hlost; destruct f].
    destruct (ingest_route_spec (post_request b) (Ingest.app g, d)) as (a & s & Er & Hst & _ & _ & _ & _ & Hbe & _).
    cbn [fst snd] in *. destruct f; [by apply Hlost| |];
      rewrite Er in E; cbn [mbind option_bind] in E;
      (destruct (pipe_step _ _ _ _ (Post _) p) as [p'|] eqn:E3; [|done]); injection E as <-;
      (split; [|cbn [sy_gateway Ingest.app]; by rewrite (authorized_bearer _ _ Hbe)]);
      apply (Hpost _ (Ingest.app g) E3 Ha); intros b' [= <-]; rewrite ?Hst; auto.
  - injection E as <-. cbn [sy_pipe sy_gateway] in *. rewrite <- (app_nil_r (p_settled p)) in Hs at 1.
    apply app_inv_head in Hs. subst new. by rewrite (authorized_bearer _ _ (flush_turn_bearer k g)).
Qed.

(** What waits after some turns was waiting before them or came in. *)
Lemma accounts_waiting es y y' q q' new lost again b :
  accounts es y y' q q' new lost again -> b ∈ waiting (sy_pipe y') q' -> b ∈ batches es ++ waiting (sy_pipe y) q.
Proof. intros H Hb. rewrite (ac_batches _ _ _ _ _ _ _ _ H), !elem_of_app. tauto. Qed.

Lemma sys_run_refuses_nothing es y q :
  Forall sys_event_ok es -> pipe_inv (length (batches es)) (sy_pipe y) q ->
  ingest_authorized auth (Ingest.app (sy_gateway y)) = true ->
  Forall deliverable (batches es ++ waiting (sy_pipe y) q) ->
  exists y' q' new lost again, sys_run es y = Some y' /\ accounts es y y' q q' new lost again
    /\ refused_for_good new = [].
Proof.
  intros He. revert y q. induction He as [|e es He _ IH]; intros y q Hi Ha Hd.
  { exists y, q, [], [], []. split; [done|]. split; [apply accounts_nil|done]. }
  assert (Ec : length (batches (e :: es)) = (sys_cost e + length (batches es))%nat) by (by destruct e).
  assert (Eb : batches (e :: es) = batches [e] ++ batches es) by (by destruct e).
  rewrite Ec in Hi. rewrite Eb, <- app_assoc in Hd.
  destruct (sys_step_accounts e y q _ He Hi) as (y1 & q1 & n1 & l1 & a1 & E1 & Hi1 & A1).
  destruct (sys_step_refuses_nothing e y y1 q n1 E1 (ac_settled _ _ _ _ _ _ _ _ A1) Ha) as [R1 Ha1].
  { apply Forall_app in Hd as [_ Hd]. by apply Forall_app in Hd as [_ Hd]. }
  destruct (IH y1 q1 Hi1 Ha1) as (y2 & q2 & n2 & l2 & a2 & E2 & A2 & R2).
  { rewrite Forall_forall in *. intros b Hb. apply Hd. apply elem_of_app in Hb as [Hb|Hb]; rewrite !elem_of_app; [tauto|].
    apply (accounts_waiting _ _ _ _ _ _ _ _ _ A1), elem_of_app in Hb. tauto. }
  exists y2, q2, (n1 ++ n2), (l1 ++ l2), (a1 ++ a2). cbn [sys_run]. rewrite E1. split; [done|].
  split; [by apply (accounts_app [e] es y y1 y2 q q1 q2)|]. unfold refused_for_good in *. by rewrite omap_app, R1, R2.
Qed.

(** ** Properties *)

(** C1: every row is accounted for, from the agent to ClickHouse.  In any run of
    the two programs, whatever the order of the turns, whatever the network does to
    the requests and whatever ClickHouse answers: the batches emitted and those
    that were waiting are, each exactly once, accepted, refused for good, waiting,
    or lost and reported; the gateway holds the rows of every accepted batch, in
    its channel, inserted, or dropped and counted, and beyond them only the rows
    of batches of this run whose answer was lost, one batch at most per lost
    answer; and its counters are the rows inserted and the rows dropped. *)
Theorem every_row_is_accounted_for es y q :
  Forall sys_event_ok es -> pipe_inv (length (batches es)) (sy_pipe y) q ->
  exists y' q' new lost again, sys_run es y = Some y' /\ pipe_inv 0 (sy_pipe y') q'
    /\ p_settled (sy_pipe y') = p_settled (sy_pipe y) ++ new
    /\ batches es ++ waiting (sy_pipe y) q
       ≡ₚ accepted new ++ refused_for_good new ++ waiting (sy_pipe y') q' ++ lost
    /\ zlen lost <= reported (sy_pipe y') - reported (sy_pipe y)
    /\ received (sy_gateway y') ≡ₚ received (sy_gateway y) ++ rows_in (accepted new) ++ rows_in again
    /\ (length again <= answers_lost es)%nat /\ Forall (fun b => b ∈ batches es ++ waiting (sy_pipe y) q) again
    /\ counted_since (chw (sy_gateway y)) (chw (sy_gateway y')).
Proof.
  intros He Hi. destruct (sys_run_accounts es y q He Hi) as (y' & q' & new & lost & again & E & Hi' & [A1 A2 A3 A4 A5 A6 _ A7]).
  by exists y', q', new, lost, again.
Qed.

(** A batch the gateway can take is never given up.  When every batch parses to
    a supported schema within 2 MiB and the agent's token is the gateway's, no batch
    is ever refused for good: each is accepted, waiting, or lost and reported, and
    the rows of the accepted ones are at the gateway. *)
Theorem deliverable_batches_are_never_refused es y q :
  Forall sys_event_ok es -> pipe_inv (length (batches es)) (sy_pipe y) q ->
  ingest_authorized auth (Ingest.app (sy_gateway y)) = true ->
  Forall deliverable (batches es ++ waiting (sy_pipe y) q) ->
  exists y' q' new lost again, sys_run es y = Some y'
    /\ p_settled (sy_pipe y') = p_settled (sy_pipe y) ++ new /\ refused_for_good new = []
    /\ batches es ++ waiting (sy_pipe y) q ≡ₚ accepted new ++ waiting (sy_pipe y') q' ++ lost
    /\ zlen lost <= reported (sy_pipe y') - reported (sy_pipe y)
    /\ received (sy_gateway y') ≡ₚ received (sy_gateway y) ++ rows_in (accepted new) ++ rows_in again.
Proof.
  intros He Hi Ha Hd. destruct (sys_run_refuses_nothing es y q He Hi Ha Hd)
    as (y' & q' & new & lost & again & E & [A1 A2 A3 A4 _ _ _ _] & R).
  exists y', q', new, lost, again. rewrite R in A2. by split_and!.
Qed.

(** A body over the limit is discarded at the first answer, and the gateway is left
    as it is. *)
Lemma too_long_is_discarded y b q n :
  next_body (sy_pipe y) = Some b -> MAX_BODY < zlen b -> pipe_inv n (sy_pipe y) q ->
  exists y', post_turn Answered y = Some y'
    /\ p_settled (sy_pipe y') = p_settled (sy_pipe y) ++ [(b, PostNonRetryable 413)]
    /\ sy_gateway y' = sy_gateway y.
Proof.
  intros Hb Hl Hi. destruct y as [p [s w] d]. cbn [sy_pipe sy_gateway sy_dashboard] in *.
  unfold post_turn. cbn [sy_pipe sy_gateway sy_dashboard Ingest.app chw]. rewrite Hb.
  unfold ingest_route, post_request. cbn [hq_json hq_body]. rewrite extract_json_too_long by done.
  cbn [mbind option_bind h_status].
  destruct (post_accounts is_success is_server_error initial maxb (Output.Response 413) p q n Hi) as (p' & E & _).
  rewrite E. eexists. split; [done|]. split; [|done]. cbn [sy_pipe]. rewrite (post_settles _ _ _ E), Hb.
  cbn [post_ingest]. destruct (is_success 413) eqn:Es; [apply success_class in Es; lia|]. unfold is_retryable_status.
  destruct (is_server_error 413) eqn:Ee; [apply server_error_class in Ee; lia|done].
Qed.

End System.

(** ** Long windows *)

Definition strlen (s : string) : Z := Z.of_nat (String.length s).

(** At least so many bytes make up a JSON text without white space: a number has a
    digit, a character of a string takes a byte or more, and there are commas
    between the elements. *)
Fixpoint compact_size (j : json) : Z :=
  match j with
  | JNull => 4
  | JBool b => if b then 4 else 5
  | JNum n => 1
  | JStr s => 2 + strlen s
  | JArr l => 2 + sumZ compact_size l + Z.max 0 (zlen l - 1)
  | JObj l => 2 + sumZ (fun x => 3 + strlen x.1 + compact_size x.2) l + Z.max 0 (zlen l - 1)
  end.

(** The labels of a row are all there, [n] bytes or more together. *)
Definition long_labels (n : Z) (r : WorkloadRow) : Prop :=
  match namespace r, pod r, container r with
  | Some ns, Some pd, Some ct => n <= strlen ns + strlen pd + strlen ct
  | _, _, _ => False
  end.

Lemma row_compact_size r n : long_labels n r -> 268 + n <= compact_size (row_to_json r).
Proof.
  destruct r as [? [ns|] [pd|] [ct|] [] ? ? ? ? ? ? ? ? ?]; cbn [long_labels namespace pod container]; try done;
    cbn; unfold strlen; cbn; lia.
Qed.

Lemma batch_compact_size b n :
  Forall (long_labels n) (workloads b) -> zlen (workloads b) * (268 + n) < compact_size (batch_to_json b).
Proof.
  intros Hr. assert (Hs : zlen (workloads b) * (268 + n) <= sumZ compact_size (row_to_json <$> workloads b)).
  { induction Hr as [|r l Hl _ IH]; [done|]. rewrite fmap_cons, sumZ_cons. apply row_compact_size in Hl. cbn [length]. lia. }
  cbn [batch_to_json compact_size]. rewrite !sumZ_cons. cbn [snd fst compact_size].
  pose proof (Zle_0_nat (String.length (node b))). pose proof (Zle_0_nat (String.length (batch_id b))).
  pose proof (Zle_0_nat (String.length (agent_version b))). unfold strlen. cbn [sumZ foldr]. lia.
Qed.

(** C38: a full window can be too long.  When the 4096 cgroups that the aggregator
    holds have labels of 244 bytes or more each, as long pod names make them, the batch's text is over the gateway's 2 MiB limit: the first time it is
    posted it is answered 413, which the worker takes as final, and the window's
    rows never reach the gateway. *)
Theorem full_windows_can_be_too_long {crc : Crc32} `{!Channel body} {PC : PermitChannel MetricRow} {AX : Axum}
    is_success is_server_error initial maxb auth to_string b text y q n :
  (forall s, is_success s = true <-> 200 <= s < 300) -> (forall s, is_server_error s = true <-> 500 <= s < 600) ->
  (forall j t, to_string j = Some t -> compact_size j <= zlen t) ->
  zlen (workloads b) = 4096 -> Forall (long_labels 244) (workloads b) ->
  to_string (batch_to_json b) = Some text -> next_body (sy_pipe y) = Some text -> pipe_inv n (sy_pipe y) q ->
  exists y', post_turn is_success is_server_error initial maxb auth Answered y = Some y'
    /\ p_settled (sy_pipe y') = p_settled (sy_pipe y) ++ [(text, PostNonRetryable 413)]
    /\ sy_gateway y' = sy_gateway y.
Proof.
  intros Hs He Hsize Hn Hl Et Hb Hi. eapply too_long_is_discarded; [exact Hs|exact He|exact Hb| |exact Hi].
  apply Hsize in Et. pose proof (batch_compact_size b 244 Hl). rewrite Hn in *. unfold MAX_BODY. lia.
Qed.

(** ** Witnesses *)

(** Every body is a batch with one row. *)
Definition one_row_axum : Axum := simple_axum (fun _ => Some (batch_to_json sample_request)).

Definition sample_system : system (Channel0 := bounded_channel body) (PC := bounded_permits MetricRow) :=
  System sample_pipe (Gateway (sample_app true) idle_writer) (new_dashboard sample_config 0).

(** The first answer is lost, so the batch is posted again. *)
Definition sample_schedule : list sys_event :=
  [EmitBatch (sample_payload 3) false; PostBatch AnswerLost; WriteBurst [true]; PostBatch Answered; FlushRows 64;
   PostBatch RequestLost; PostBatch Answered; DrainSweep; PostBatch Answered; FlushRows 64].

Abbreviation sample_sys_run :=
  (sys_run (Channel0 := bounded_channel body) (AX := one_row_axum) status_success status_server_error 1 30 (Some "Bearer t"%string)
     (fun _ => Acked) (fun _ => 0) 64 sample_schedule sample_system).

(** Three batches accepted, one of them stored twice. *)
Example sample_sys_outcome :
  (fun y => (length (p_settled (sy_pipe y)), length (received (sy_gateway y)), length (inserted (chw (sy_gateway y)))))
    <$> sample_sys_run = Some (3, 4, 2)%nat.
Proof. vm_compute. reflexivity. Qed.

(** A printer of JSON without white space, as [serde_json::to_string]. *)
Fixpoint commas (parts : list (list Z)) : list Z :=
  match parts with
  | [] => []
  | [p] => p
  | p :: parts => p ++ [44] ++ commas parts
  end.

Definition escape_char (c : ascii) : list Z :=
  let n := Z.of_nat (nat_of_ascii c) in
  if (n =? 34) || (n =? 92) then [92; n] else if n <? 32 then [92; 117; 48; 48; 48 + n / 16; 48 + n mod 16] else [n].

Definition quote (s : string) : list Z := [34] ++ concat (escape_char <$> String.list_ascii_of_string s) ++ [34].

Fixpoint print_json (j : json) : list Z :=
  match j with
  | JNull => text_bytes "null"
  | JBool b => text_bytes (if b then "true" else "false")
  | JNum n => text_bytes (dec n)
  | JStr s => quote s
  | JArr l => [91] ++ commas (print_json <$> l) ++ [93]
  | JObj l => [123] ++ commas ((fun x => quote x.1 ++ [58] ++ print_json x.2) <$> l) ++ [125]
  end.

Lemma length_text_bytes s : zlen (text_bytes s) = strlen s.
Proof. unfold text_bytes, strlen. rewrite length_fmap. f_equal. induction s; cbn; by f_equal. Qed.

Lemma quote_size s : 2 + strlen s <= zlen (quote s).
Proof.
  unfold quote, strlen. rewrite !length_app. cbn [length].
  enough (String.length s <= length (concat (escape_char <$> String.list_ascii_of_string s)))%nat by lia.
  induction s as [|c s IH]; [cbn; lia|]. cbn [String.length String.list_ascii_of_string]. rewrite fmap_cons. cbn [concat].
  rewrite length_app. assert (1 <= length (escape_char c))%nat by (unfold escape_char; destruct_ifs; cbn; lia). lia.
Qed.

Lemma commas_size {A} (f : A -> list Z) l :
  zlen (commas (f <$> l)) = sumZ (fun x => zlen (f x)) l + Z.max 0 (zlen l - 1).
Proof.
  induction l as [|x l IH]; [done|]. rewrite fmap_cons, sumZ_cons. destruct l as [|y l]; [cbn; lia|].
  rewrite fmap_cons in *. cbn [commas] in *. rewrite !length_app. cbn [length] in *. lia.
Qed.

Lemma sumZ_le {A} (f g : A -> Z) l : Forall (fun x => f x <= g x) l -> sumZ f l <= sumZ g l.
Proof. induction 1 as [|x l Hx _ IH]; [done|]. rewrite !sumZ_cons. lia. Qed.

Lemma print_json_size j : compact_size j <= zlen (print_json j).
Proof.
  revert j. fix IH 1. intros [|[]|n|s|l|l]; cbn [print_json compact_size]; rewrite ?length_text_bytes.
  - done.
  - done.
  - done.
  - pose proof (dec_nonempty n). unfold strlen. destruct (dec n); [done|cbn; lia].
  - apply quote_size.
  - rewrite !length_app. cbn [length]. pose proof (commas_size print_json l) as E. revert E.
    assert (H : sumZ compact_size l <= sumZ (fun x => zlen (print_json x)) l).
    { induction l as [|j l IHl]; [done|]. rewrite !sumZ_cons. specialize (IH j). lia. }
    lia.
  - rewrite !length_app. cbn [length].
    pose proof (commas_size (fun x : string * json => quote x.1 ++ [58] ++ print_json x.2) l) as E. revert E.
    assert (H : sumZ (fun x => 3 + strlen x.1 + compact_size x.2) l
                <= sumZ (fun x : string * json => zlen (quote x.1 ++ [58] ++ print_json x.2)) l).
    { induction l as [|[k j] l IHl]; [done|]. rewrite !sumZ_cons. specialize (IH j). pose proof (quote_size k).
      cbn [fst snd]. rewrite !length_app. cbn [length]. lia. }
    lia.
Qed.

Lemma print_json_law j t : Some (print_json j) = Some t -> compact_size j <= zlen t.
Proof. intros [= <-]. apply print_json_size. Qed.

Lemma sample_pipe_inv n : (n <= 10)%nat -> pipe_inv n sample_pipe [].
Proof.
  intros Hn. split; [split| |].
  - exists [], 0%nat. split; [apply fresh_rep|reflexivity].
  - reflexivity.
  - by apply fresh_tidy.
  - apply fresh_margin. change (length (in_spill (p_out sample_pipe))) with 0%nat. lia.
  - constructor.
  - vm_compute. lia.
Qed.

Lemma success_class_ok s : status_success s = true <-> 200 <= s < 300.
Proof. unfold status_success. rewrite andb_true_iff, Z.leb_le, Z.ltb_lt. done. Qed.

Lemma server_error_class_ok s : status_server_error s = true <-> 500 <= s < 600.
Proof. unfold status_server_error. rewrite andb_true_iff, Z.leb_le, Z.ltb_lt. done. Qed.

Lemma every_row_is_accounted_for_witness :
  exists y' q' new lost (again : list body), sample_sys_run = Some y' /\ pipe_inv 0 (sy_pipe y') q'
    /\ p_settled (sy_pipe y') = [] ++ new
    /\ [sample_payload 3] ++ waiting sample_pipe [] ≡ₚ accepted new ++ refused_for_good new ++ waiting (sy_pipe y') q' ++ lost
    /\ (length again <= 1)%nat.
Proof.
  destruct (every_row_is_accounted_for (Channel0 := bounded_channel body) (AX := one_row_axum) (PC := bounded_permits MetricRow) status_success
    status_server_error 1 30 (Some "Bearer t"%string) (fun _ => Acked) (fun _ => 0) 64 success_class_ok
    sample_schedule sample_system []) as (y' & q' & new & lost & again & H1 & H2 & H3 & H4 & _ & _ & H5 & _).
  - repeat constructor; apply sample_payload_ok.
  - apply (sample_pipe_inv 1). lia.
  - exists y', q', new, lost, again. exact (conj H1 (conj H2 (conj H3 (conj H4 H5)))).
Defined.

Lemma deliverable_batches_are_never_refused_witness :
  exists y' q' new lost again, sample_sys_run = Some y'
    /\ p_settled (sy_pipe y') = [] ++ new /\ refused_for_good new = []
    /\ [sample_payload 3] ++ waiting sample_pipe [] ≡ₚ accepted new ++ waiting (sy_pipe y') q' ++ lost
    /\ received (sy_gateway y') ≡ₚ [] ++ rows_in (AX := one_row_axum) (Some "Bearer t"%string) (accepted new)
                                    ++ rows_in (AX := one_row_axum) (Some "Bearer t"%string) again.
Proof.
  destruct (deliverable_batches_are_never_refused (Channel0 := bounded_channel body) (AX := one_row_axum) (PC := bounded_permits MetricRow) status_success
    status_server_error 1 30 (Some "Bearer t"%string) (fun _ => Acked) (fun _ => 0) 64 success_class_ok server_error_class_ok
    sample_schedule sample_system []) as (y' & q' & new & lost & again & H1 & H2 & H3 & H4 & _ & H5).
  - repeat constructor; apply sample_payload_ok.
  - apply (sample_pipe_inv 1). lia.
  - reflexivity.
  - repeat constructor; exists sample_request; split; vm_compute; by try split.
  - exists y', q', new, lost, again. exact (conj H1 (conj H2 (conj H3 (conj H4 H5)))).
Defined.

Definition filled (n : nat) : string := String.string_of_list_ascii (replicate n (ascii_of_nat 120)).

(** A row of a pod with a long name. *)
Definition long_row : WorkloadRow :=
  {| cgroup_id := 7; namespace := Some (filled 30); pod := Some (filled 190); container := Some (filled 30);
     k8s_resolved := true; memory_bytes_max := 5; memory_bytes_last := 4; exec_count := 1;
     sample_count := 1; cpu_usage_usec := 9; cpu_request_millicores := 0; memory_request_bytes := 0;
     cpu_limit_millicores := 0; memory_limit_bytes := 0 |}.

Definition full_window : IngestBatch :=
  {| schema_version := 4; window_start_ns := 0; window_end_ns := 10; Wire.node := "n"; batch_id := "b";
     agent_version := "1.2.0"; workloads := replicate (Z.to_nat 4096) long_row |}.

Definition full_window_system : system (Channel0 := bounded_channel body) (PC := bounded_permits MetricRow) :=
  System (Pipe full_output (fresh_wal sample_cfg fresh_world) (Worker 1 circuit_init)
            (Some (print_json (batch_to_json full_window))) [] [])
    (Gateway (sample_app true) idle_writer) (new_dashboard sample_config 0).

Lemma full_windows_can_be_too_long_witness :
  exists y', post_turn (Channel0 := bounded_channel body) (AX := one_row_axum) status_success status_server_error 1 30 (Some "Bearer t"%string) Answered
               full_window_system = Some y'
    /\ p_settled (sy_pipe y') = [] ++ [(print_json (batch_to_json full_window), PostNonRetryable 413)]
    /\ sy_gateway y' = sy_gateway full_window_system.
Proof.
  apply (full_windows_can_be_too_long (Channel0 := bounded_channel body) (AX := one_row_axum) status_success status_server_error 1 30
    (Some "Bearer t"%string) (fun j => Some (print_json j)) full_window _ full_window_system [] 0).
  - exact success_class_ok.
  - exact server_error_class_ok.
  - exact print_json_law.
  - unfold full_window. cbn [workloads]. rewrite length_replicate. reflexivity.
  - apply Forall_replicate. vm_compute. discriminate.
  - reflexivity.
  - reflexivity.
  - destruct (sample_pipe_inv 0 ltac:(lia)) as [H1 H2 H3]. split; [exact H1|exact H2|exact H3].
Defined.
