(* ===== verification/Backlog.v ===== *)
(** * Backlog: what waits after an outage is delivered

    Liveness of the composed system of [System].  Once the network answers and
    ClickHouse acknowledges, and the gateway is not stuck, the turns of the tasks
    in any number of rounds empty the retry queue, the spill channel and the log,
    and every row waiting is inserted.  A round is what the tasks do when each gets
    its turn: the gateway's writer flushes what is queued, the log's writer takes
    the spill channel, the drainer sweeps and the retry worker posts one batch. *)

From S2P Require Export System.

#[local] Open Scope Z_scope.

Section Backlog.
Context {crc : Crc32} `{!Channel body} {PC : PermitChannel MetricRow} {AX : Axum}.
Variables (is_success is_server_error : Z -> bool) (initial maxb : Z).
Variables (auth : option string) (answer : nat -> insert_answer) (nanos : nat -> Z) (batch_max : nat).
Hypothesis success_class : forall s, is_success s = true <-> 200 <= s < 300.
Hypothesis acknowledged : forall n, flush_batch (answer n) = true.
Hypothesis batch_max_pos : (0 < batch_max)%nat.

Abbreviation run := (sys_run is_success is_server_error initial maxb auth answer nanos batch_max).
Abbreviation turn := (sys_step is_success is_server_error initial maxb auth answer nanos batch_max).
Abbreviation pstep := (pipe_step is_success is_server_error initial maxb).
Abbreviation flush := (flush_turn answer nanos batch_max).

(** [m] flushes, and then one turn of each of the agent's tasks. *)
Definition flushes (m : nat) : list sys_event := replicate m (FlushRows batch_max).
Definition round (m : nat) : list sys_event := flushes m ++ [WriteBurst []; DrainSweep; PostBatch Answered].
Definition rounds (n m : nat) : list sys_event := concat (replicate n (round m)).

(** ** The gateway's side *)

Lemma take_rows_exact k c :
  (take_rows k c).1 = take k (queued c) /\ queued (take_rows k c).2 = drop k (queued c)
  /\ chan_capacity (take_rows k c).2 = chan_capacity c /\ chan_closed (take_rows k c).2 = chan_closed c.
Proof.
  revert c. induction k as [|k IH]; intros c; cbn [take_rows]; [by rewrite take_0, drop_0|].
  destruct (try_recv_eq c) as (E & Q & C & L). destruct (try_recv c) as [r c1]. cbn [fst snd] in *. subst r.
  destruct (queued c) as [|x l] eqn:Ec; cbn [head tail] in *; [by split_and!|].
  specialize (IH c1). rewrite Q in IH. destruct (take_rows k c1) as [rs c2]. cbn [fst snd] in *.
  destruct IH as (-> & -> & -> & ->). by cbn.
Qed.

Lemma flush_acked rows s : (flush_with_retry answer nanos rows s).2 = insert_ok rows s.
Proof.
  unfold flush_with_retry. change (Z.to_nat MAX_INSERT_RETRIES) with 5%nat. by rewrite flush_attempts_S, acknowledged.
Qed.

(** The flag is up, or a flush will raise it. *)
Definition alive (g : gateway) : Prop :=
  app_healthy (Ingest.app g) = true \/ queued (ingest_tx (Ingest.app g)) <> [].

(** The channel, the token and the rows dropped are as they were. *)
Definition same_frame (g g' : gateway) : Prop :=
  chan_capacity (ingest_tx (Ingest.app g')) = chan_capacity (ingest_tx (Ingest.app g))
  /\ chan_closed (ingest_tx (Ingest.app g')) = chan_closed (ingest_tx (Ingest.app g))
  /\ app_bearer (Ingest.app g') = app_bearer (Ingest.app g) /\ dropped (chw g') = dropped (chw g).

Lemma same_frame_refl g : same_frame g g.
Proof. by repeat split. Qed.

Lemma same_frame_trans g1 g2 g3 : same_frame g1 g2 -> same_frame g2 g3 -> same_frame g1 g3.
Proof. unfold same_frame. intuition congruence. Qed.

Lemma flush_turn_acked g :
  let g' := flush batch_max g in
  same_frame g g' /\ queued (ingest_tx (Ingest.app g')) = drop batch_max (queued (ingest_tx (Ingest.app g)))
  /\ (alive g -> app_healthy (Ingest.app g') = true).
Proof.
  unfold flush_turn. rewrite Nat.min_id. destruct (take_rows_exact batch_max (ingest_tx (Ingest.app g))) as (R & Q & C & L).
  destruct (take_rows batch_max _) as [rows c]. cbn [fst snd] in *. destruct rows as [|r rows].
  - cbn zeta. split; [apply same_frame_refl|]. destruct (queued (ingest_tx (Ingest.app g))) as [|x l] eqn:E;
      [|by destruct batch_max; [lia|]].
    split; [by rewrite drop_nil|]. by intros [|[]].
  - rewrite flush_acked. cbn zeta. split; [|by split]. by repeat split.
Qed.

Lemma flushes_run m y q :
  alive (sy_gateway y) -> (length (queued (ingest_tx (Ingest.app (sy_gateway y)))) <= m * batch_max)%nat ->
  exists g', run (flushes m) y = Some (System (sy_pipe y) g' (sy_dashboard y)) /\ same_frame (sy_gateway y) g'
    /\ queued (ingest_tx (Ingest.app g')) = [] /\ app_healthy (Ingest.app g') = true
    /\ accounts auth (flushes m) y (System (sy_pipe y) g' (sy_dashboard y)) q q [] [] [].
Proof.
  revert y. induction m as [|m IH]; intros [p g d] Ha Hq; cbn [sy_gateway sy_pipe sy_dashboard] in *.
  - destruct (queued (ingest_tx (Ingest.app g))) eqn:E; [|simpl in Hq; lia]. exists g. split; [done|].
    split; [apply same_frame_refl|]. split; [done|]. split; [by destruct Ha as [|Hn]; [|rewrite E in Hn]|].
    apply accounts_nil.
  - destruct (flush_turn_acked g) as (F & Q & H). specialize (H Ha).
    destruct (IH (System p (flush batch_max g) d)) as (g' & E & F' & Q' & H' & A).
    + by left.
    + cbn [sy_gateway]. rewrite Q, length_drop. lia.
    + exists g'. cbn [flushes replicate run sys_run turn sys_step]. split; [exact E|].
      split; [by eapply same_frame_trans|]. split; [done|]. split; [done|].
      apply (accounts_app auth answer nanos batch_max [FlushRows batch_max] (flushes m) _ (System p (flush batch_max g) d) _ q q q [] [] [] [] [] []);
        [apply (flush_accounts auth answer nanos batch_max batch_max (System p g d))|exact A].
Qed.

(** ** The agent's side *)

(** The log and the retry queue are there, and their tasks run. *)
Definition wired (p : pipe) : Prop :=
  match wal (p_out p), retry (p_out p) with
  | Some w, Some tx => wal_enabled w = true /\ chan_closed tx = false /\ (0 < chan_capacity tx)%nat
  | _, _ => False
  end.

Definition tripped (p : pipe) : Prop := circuit_state (worker_circuit (p_worker p)) = Open.

Record pipe_ready (p : pipe) (q : list DecodedFrame) : Prop := {
  pd_inv : pipe_inv 0 p q;
  pd_live : log_live (p_log p) q;
  pd_wired : wired p
}.

Lemma burst_ready p q :
  pipe_ready p q ->
  exists p' q', pstep (Burst []) p = Some p' /\ pipe_ready p' q' /\ accounted (Burst []) p p' q q'
    /\ in_spill (p_out p') = [] /\ (tripped p' -> tripped p)
    /\ (in_spill (p_out p) = [] -> reported p' = reported p).
Proof.
  intros [Hi Hl Hw].
  destruct (burst_accounts is_success is_server_error initial maxb [] p q 0 Hi) as (p' & q' & E & Hi' & Ha & Hl').
  exists p', q'. split; [done|]. assert (H : wired p' /\ in_spill (p_out p') = [] /\ p_worker p' = p_worker p
    /\ (in_spill (p_out p) = [] -> reported p' = reported p)).
  { unfold wired, in_spill in *. cbn [pipe_step] in E. destruct (wal (p_out p)) as [w|] eqn:Ew; [|done].
    destruct (recv_all_spec (append_tx w)) as [R1 R2]. destruct (recv_all _ (append_tx w)) as [bs c]. cbn [fst snd] in *.
    rewrite <- R1. destruct bs as [|first rest]; [|destruct (group_commit _ _ _) as [r s]]; injection E as <-; by split_and!. }
  destruct H as (H1 & H2 & H3 & H4). unfold tripped. rewrite H3. split; [split; auto|done].
Qed.

Lemma sweep_untrips d d' q : holds d q -> sweep d = Some d' -> circuit_state (dr_circuit d') <> Open.
Proof.
  intros Hd E. destruct (sweep_spec d q Hd) as (d2 & n & E2 & _ & _ & H). rewrite E in E2. injection E2 as <-.
  destruct (circuit_state (dr_circuit d)) eqn:Ec; [destruct H as [-> _]|destruct H as (_ & -> & _)|destruct H as [_ H]]; congruence.
Qed.

Lemma sweep_ready p q :
  pipe_ready p q ->
  exists p' q', pstep Sweep p = Some p' /\ pipe_ready p' q' /\ accounted Sweep p p' q q'
    /\ in_spill (p_out p') = in_spill (p_out p) /\ reported p' = reported p /\ ~ tripped p'
    /\ (~ tripped p -> q' = [] \/ in_queue (p_out p') <> []).
Proof.
  intros [Hi Hl Hw].
  destruct (sweep_accounts is_success is_server_error initial maxb p q 0 Hi) as (p' & q' & E & Hi' & Ha & Hl').
  destruct (Hl' Hl) as [Hl2 Hp]. exists p', q'. split; [done|].
  assert (H : wired p' /\ in_spill (p_out p') = in_spill (p_out p) /\ reported p' = reported p /\ ~ tripped p').
  { unfold wired, tripped, in_spill in *. cbn [pipe_step] in E. destruct Hi as [[Hr Hh _ Hm] _ _].
    destruct (wal (p_out p)) as [w|] eqn:Ew; [|done]. destruct (retry (p_out p)) as [tx|]; [|done].
    destruct Hw as (W1 & W2 & W3). rewrite W1 in E. set (d := Drain _ _ _) in E.
    assert (Hd : holds d q) by (split; [exact Hr|unfold margin in Hm; simpl; lia]).
    destruct (sweep d) as [d'|] eqn:Es; [|done]. injection E as <-. cbn [p_out p_worker p_hand worker_circuit set_retry wal retry].
    pose proof (sweep_untrips d d' q Hd Es) as Hu. destruct (sweep_spec d q Hd) as (d2 & n & E2 & _ & (_ & _ & C & L & _ & (_ & _ & _ & _ & _ & K) & _) & _).
    rewrite Es in E2. injection E2 as <-. rewrite C, L, Ew. unfold reported. cbn [p_drops p_log]. rewrite K. by split_and!. }
  destruct H as (H1 & H2 & H3 & H4). split; [done|]. split; [done|]. split; [done|]. split; [done|]. split; [done|].
  intros Ht. apply Hp. unfold can_drain, tripped, wired in *. destruct (wal (p_out p)), (retry (p_out p)); tauto.
Qed.

(** A post that is answered 200, or that finds nothing to post. *)
Lemma post_ready p q a :
  pipe_ready p q -> a = Output.Response 200 \/ next_body p = None ->
  exists p', pstep (Post a) p = Some p' /\ pipe_ready p' q /\ in_spill (p_out p') = in_spill (p_out p)
    /\ reported p' = reported p /\ (~ tripped p -> ~ tripped p').
Proof.
  intros [Hi Hl Hw] Ha. destruct (post_accounts is_success is_server_error initial maxb a p q 0 Hi) as (p' & E & Hi' & _).
  exists p'. split; [done|]. assert (H : wired p' /\ p_log p' = p_log p /\ in_spill (p_out p') = in_spill (p_out p)
    /\ p_drops p' = p_drops p /\ (~ tripped p -> ~ tripped p')).
  { unfold wired, tripped, next_body in *. cbn [pipe_step] in E. destruct (wal (p_out p)) as [w|] eqn:Ew; [|done].
    destruct (retry (p_out p)) as [tx|] eqn:Er; [|done].
    assert (Hpost : forall b o, retry o = retry (p_out p) \/ retry o = Some (try_recv tx).2 -> wal o = wal (p_out p) ->
      a = Output.Response 200 ->
      (let '(w0, _, settled) := worker_post is_success is_server_error initial maxb a (p_worker p) in
       if settled then Some (Pipe o (p_log p) w0 None (p_settled p ++ [(b, post_ingest is_success is_server_error a)]) (p_drops p))
       else Some (Pipe o (p_log p) w0 (Some b) (p_settled p) (p_drops p))) = Some p' ->
      wired p' /\ p_log p' = p_log p /\ in_spill (p_out p') = in_spill (p_out p)
      /\ p_drops p' = p_drops p /\ (~ tripped p -> ~ tripped p')).
    { intros b o Ho Hwo -> E2. unfold worker_post in E2. cbn [post_ingest] in E2.
      rewrite (proj2 (success_class 200)) in E2 by lia. injection E2 as <-. unfold wired, tripped, in_spill.
      cbn [p_out p_log p_worker worker_circuit]. rewrite Hwo, Ew. destruct (try_recv_eq tx) as (_ & _ & C & L).
      split; [|split; [done|split; [done|split; [done|]]]]; [by destruct Ho as [-> | ->]; rewrite ?Er, ?C, ?L|].
      intros Ht. unfold record_post_success. case_bool_decide as Hb; [|by rewrite circuit_state_set]. by rewrite Hb. }
    unfold wired, tripped in Hpost. rewrite Ew in Hpost.
    destruct (p_hand p) as [b|] eqn:Eh.
    - destruct Ha as [->|]; [|done]. apply (Hpost b (p_out p)); [by left|by rewrite Ew|done|exact E].
    - destruct (try_recv_eq tx) as (_ & _ & C & L). destruct (try_recv tx) as [[b|] c]; cbn [fst snd] in *.
      + destruct Ha as [->|]; [|done]. apply (Hpost b (set_retry c (p_out p))); [by right|done|done|exact E].
      + injection E as <-. unfold in_spill. cbn [p_out set_retry wal retry p_log p_worker]. rewrite Ew, C, L. tauto. }
  destruct H as (H1 & H2 & H3 & H4 & H5). split; [split; [done|by rewrite H2|done]|]. unfold reported. by rewrite H2, H4.
Qed.

(** ** One round *)

(** A batch the gateway has room for when its channel is empty. *)
Definition takeable (capacity : nat) (b : body) : Prop :=
  deliverable b /\ (length (rows_of auth b) <= capacity)%nat.

Lemma takeable_status b s :
  takeable (chan_capacity (ingest_tx s)) b -> ingest_authorized auth s = true -> app_healthy s = true ->
  chan_closed (ingest_tx s) = false -> queued (ingest_tx s) = [] -> request_status (post_request auth b) s = 200.
Proof.
  intros [(batch & E & Hv) Hl] Ha Hh Hc Hq. unfold rows_of, request_rows in Hl. unfold request_status.
  cbn [post_request hq_json hq_body hq_auth] in *. rewrite E in *. rewrite length_fmap in Hl. unfold ingest_status.
  rewrite Ha, supported_schema, Hh, Hc by done. cbn [negb]. case_bool_decide; [done|].
  unfold chan_room. rewrite Hq. cbn [length]. by destruct (Nat.leb_spec (length (workloads batch)) (chan_capacity (ingest_tx s) - 0)); [|lia].
Qed.

Record gateway_ready (g : gateway) : Prop := {
  gd_alive : alive g;
  gd_open : chan_closed (ingest_tx (Ingest.app g)) = false;
  gd_fits : queue_fits (Ingest.app g);
  gd_auth : ingest_authorized auth (Ingest.app g) = true
}.

(** A state from which delivery can go on: the agent's tasks run on a log the
    drainer sees, the gateway is not stuck, its channel is open and the token is
    right, and each batch waiting can be parsed and fits the empty channel. *)
Record ready (y : system) (q : list DecodedFrame) : Prop := {
  rd_pipe : pipe_ready (sy_pipe y) q;
  rd_gateway : gateway_ready (sy_gateway y);
  rd_bodies : Forall (takeable (chan_capacity (ingest_tx (Ingest.app (sy_gateway y))))) (waiting (sy_pipe y) q)
}.

(** No batch comes in: what waits afterwards waited before, and is fewer by the
    batches settled. *)
Lemma quiet_waiting es y y' q q' new lost again :
  batches es = [] -> accounts auth es y y' q q' new lost again ->
  (length (waiting (sy_pipe y') q') + length (accepted new) <= length (waiting (sy_pipe y) q))%nat
  /\ forall P, Forall P (waiting (sy_pipe y) q) -> Forall P (waiting (sy_pipe y') q').
Proof.
  intros He A. pose proof (ac_batches _ _ _ _ _ _ _ _ _ A) as H. rewrite He in H. cbn [Datatypes.app] in H. split.
  - apply Permutation_length in H. rewrite H, !length_app. lia.
  - intros P HP. rewrite H in HP. by do 3 (rewrite ?Forall_app in HP; destruct HP as [? HP]) || (rewrite !Forall_app in HP; tauto).
Qed.

(** The worker's turn with the gateway's channel empty and its flag up. *)
Lemma post_round y q :
  ready y q -> queued (ingest_tx (Ingest.app (sy_gateway y))) = [] -> app_healthy (Ingest.app (sy_gateway y)) = true ->
  exists y' new lost again, turn (PostBatch Answered) y = Some y'
    /\ accounts auth [PostBatch Answered] y y' q q new lost again
    /\ pipe_ready (sy_pipe y') q /\ gateway_ready (sy_gateway y') /\ same_frame (sy_gateway y) (sy_gateway y')
    /\ (~ tripped (sy_pipe y) -> ~ tripped (sy_pipe y'))
    /\ in_spill (p_out (sy_pipe y')) = in_spill (p_out (sy_pipe y)) /\ reported (sy_pipe y') = reported (sy_pipe y)
    /\ (next_body (sy_pipe y) = None \/ (length (waiting (sy_pipe y') q) < length (waiting (sy_pipe y) q))%nat).
Proof.
  destruct y as [p g d]. cbn [sy_pipe sy_gateway]. intros [Hp Hg Hb] Hq Hh. cbn [sy_pipe sy_gateway] in *.
  destruct (next_body p) as [b|] eqn:En.
  - destruct (served_request_accounts is_success is_server_error initial maxb auth answer nanos batch_max success_class Answered b (System p g d) q 0)
      as (y' & new & lost & again & E & _ & A); [done|done|apply Hp|].
    destruct (ingest_route_spec (post_request auth b) (Ingest.app g, d)) as (a & s & Er & Hst & Hqs & Hcs & Hls & Hhs & Hbs & Hfs).
    cbn [fst snd] in *. destruct Hg as [_ Hop Hfit Hau].
    rewrite takeable_status in Hst; try done.
    2:{ rewrite Forall_forall in Hb. apply Hb. by apply next_body_waiting. }
    destruct (post_ready p q (Output.Response 200) Hp (or_introl eq_refl)) as (p' & Ep & Hp' & Hsp & Hrp & Ht).
    assert (Ey : y' = System p' (Gateway s (chw g)) d).
    { unfold post_turn in E. cbn [sy_pipe sy_gateway sy_dashboard] in E. rewrite En, Er in E. cbn [mbind option_bind] in E.
      rewrite Hst, Ep in E. by injection E as <-. }
    subst y'. exists (System p' (Gateway s (chw g)) d), new, lost, again. cbn [sys_step sy_pipe sy_gateway].
    split; [exact E|]. split; [exact A|]. split; [exact Hp'|]. split; [|split; [by repeat split|split; [exact Ht|split; [exact Hsp|split; [exact Hrp|right]]]]].
    + split; cbn [Ingest.app]; [left; cbn; congruence|congruence|by apply Hfs|].
      by rewrite (authorized_bearer _ _ _ Hbs).
    + destruct (quiet_waiting [PostBatch Answered] _ _ _ _ _ _ _ eq_refl A) as [Hlen _]. cbn [sy_pipe] in Hlen.
      pose proof (ac_settled _ _ _ _ _ _ _ _ _ A) as Hset. cbn [sy_pipe] in Hset.
      rewrite (post_settles _ _ _ _ _ _ _ Ep), En in Hset. apply app_inv_head in Hset. subst new.
      cbn [post_ingest] in Hlen. rewrite (proj2 (success_class 200)) in Hlen by lia. cbn in Hlen. lia.
  - destruct (lost_request_accounts is_success is_server_error initial maxb auth Answered (System p g d) q 0)
      as (p' & new & lost & again & E & _ & A); [apply Hp|].
    destruct (post_ready p q SendFailed Hp (or_intror En)) as (p2 & Ep & Hp' & Hsp & Hrp & Ht).
    cbn [sy_pipe] in E. rewrite Ep in E. injection E as <-.
    exists (System p2 g d), new, lost, again. cbn [sys_step sy_pipe sy_gateway].
    split; [unfold post_turn; cbn [sy_pipe sy_gateway sy_dashboard]; by rewrite En, Ep|].
    split; [exact A|]. split; [exact Hp'|]. split; [exact Hg|]. split; [apply same_frame_refl|]. split; [exact Ht|].
    split; [exact Hsp|]. split; [exact Hrp|by left].
Qed.

Lemma next_body_none p : wired p -> next_body p = None -> p_hand p = None /\ in_queue (p_out p) = [].
Proof.
  unfold wired, next_body, in_queue. destruct (p_hand p); [done|]. destruct (retry (p_out p)) as [tx|]; [|by destruct (wal _)].
  intros _. destruct (try_recv_eq tx) as (-> & _). cbn. by destruct (queued tx).
Qed.

(** With nothing in the spill channel, nothing is spilled and nothing is lost. *)
Definition quiet_spill (p p' : pipe) : Prop :=
  in_spill (p_out p) = [] -> reported p' = reported p /\ in_spill (p_out p') = [].

Lemma quiet_spill_refl p : quiet_spill p p.
Proof. by intros ?. Qed.

Lemma quiet_spill_trans p1 p2 p3 : quiet_spill p1 p2 -> quiet_spill p2 p3 -> quiet_spill p1 p3.
Proof. intros H1 H2 Hs. destruct (H1 Hs) as [E1 Hs1]. destruct (H2 Hs1) as [E2 Hs2]. split; [congruence|done]. Qed.

(** A round settles a batch, unless it leaves nothing waiting; one round is
    spent on a circuit that was open. *)
Lemma round_run m y q :
  ready y q -> (chan_capacity (ingest_tx (Ingest.app (sy_gateway y))) <= m * batch_max)%nat ->
  exists y' q' new lost again, run (round m) y = Some y' /\ accounts auth (round m) y y' q q' new lost again
    /\ ready y' q' /\ same_frame (sy_gateway y) (sy_gateway y') /\ ~ tripped (sy_pipe y')
    /\ quiet_spill (sy_pipe y) (sy_pipe y')
    /\ (~ tripped (sy_pipe y) -> waiting (sy_pipe y') q' = []
        \/ (length (waiting (sy_pipe y') q') < length (waiting (sy_pipe y) q))%nat).
Proof.
  destruct y as [p g d]. intros [Hp [Ga Go Gf Gau] Hb] Hm. cbn [sy_pipe sy_gateway] in *.
  destruct (flushes_run m (System p g d) q Ga) as (g1 & E1 & F1 & Q1 & H1 & A1);
    [unfold queue_fits in Gf; cbn [sy_gateway]; lia|]. cbn [sy_pipe sy_gateway sy_dashboard] in *.
  destruct (burst_ready p q Hp) as (p1 & q1 & E2 & Hp1 & B2 & S2 & T2 & D2).
  destruct (agent_turn_accounts is_success is_server_error initial maxb auth (Burst []) (WriteBurst []) (System p g1 d) p1 q q1)
    as (n2 & l2 & a2 & A2); [done|done|exact E2|exact B2|].
  destruct (sweep_ready p1 q1 Hp1) as (p2 & q2 & E3 & Hp2 & B3 & S3 & D3 & T3 & W3).
  destruct (agent_turn_accounts is_success is_server_error initial maxb auth Sweep DrainSweep (System p1 g1 d) p2 q1 q2)
    as (n3 & l3 & a3 & A3); [done|done|exact E3|exact B3|]. cbn [sy_gateway sy_dashboard] in A2, A3.
  destruct (quiet_waiting [WriteBurst []] _ _ _ _ _ _ _ eq_refl A2) as [L2 P2].
  destruct (quiet_waiting [DrainSweep] _ _ _ _ _ _ _ eq_refl A3) as [L3 P3]. cbn [sy_pipe] in *.
  assert (Hg1 : gateway_ready g1).
  { destruct F1 as (C & L & B & _). split; [by left|congruence|unfold queue_fits; rewrite Q1; cbn; lia|].
    by rewrite (authorized_bearer _ _ _ B). }
  destruct (post_round (System p2 g1 d) q2) as (y' & n4 & l4 & a4 & E4 & A4 & Hp4 & Hg4 & F4 & T4 & S4 & D4 & W4); [|done|done|].
  { split; cbn [sy_pipe sy_gateway]; [exact Hp2|exact Hg1|]. rewrite (proj1 F1). by apply P3, P2. }
  destruct (quiet_waiting [PostBatch Answered] _ _ _ _ _ _ _ eq_refl A4) as [L4 P4]. cbn [sy_pipe sy_gateway] in *.
  exists y', q2, ([] ++ n2 ++ n3 ++ n4), ([] ++ l2 ++ l3 ++ l4), ([] ++ a2 ++ a3 ++ a4).
  split; [|split; [|split; [|split; [by eapply same_frame_trans|split; [by apply T4|split]]]]].
  - unfold round. rewrite sys_run_app, E1. cbn [mbind option_bind]. cbn [sys_run sys_step sy_pipe sy_gateway sy_dashboard].
    rewrite E2. cbn [mbind option_bind sy_pipe sy_gateway sy_dashboard]. rewrite E3. cbn [mbind option_bind].
    cbn [sys_step] in E4. by rewrite E4.
  - unfold round. eapply (accounts_app auth answer nanos batch_max (flushes m)); [exact A1|].
    eapply (accounts_app auth answer nanos batch_max [WriteBurst []] [DrainSweep; PostBatch Answered]); [exact A2|].
    eapply (accounts_app auth answer nanos batch_max [DrainSweep] [PostBatch Answered]); [exact A3|exact A4].
  - split; [exact Hp4|exact Hg4|]. rewrite (proj1 F4), (proj1 F1). by apply P4, P3, P2.
  - intros Hs. rewrite D4, D3, S4, S3. by split; [apply D2|].
  - intros Ht. destruct W4 as [Hn|Hlt]; [left|right; lia].
    destruct (next_body_none p2 (pd_wired _ _ Hp2) Hn) as [Hh Hq].
    destruct (W3 ltac:(tauto)) as [->|Hne]; [|done]. apply length_zero_iff_nil.
    assert (waiting p2 [] = []) as E0 by (unfold waiting; by rewrite Hh, Hq, S3, S2). rewrite E0 in L4. cbn in L4. lia.
Qed.

Lemma rounds_run n m y q :
  ready y q -> (chan_capacity (ingest_tx (Ingest.app (sy_gateway y))) <= m * batch_max)%nat -> ~ tripped (sy_pipe y) ->
  exists y' q' new lost again, run (rounds n m) y = Some y' /\ accounts auth (rounds n m) y y' q q' new lost again
    /\ ready y' q' /\ same_frame (sy_gateway y) (sy_gateway y') /\ quiet_spill (sy_pipe y) (sy_pipe y')
    /\ (waiting (sy_pipe y') q' = [] \/ (length (waiting (sy_pipe y') q') + n <= length (waiting (sy_pipe y) q))%nat).
Proof.
  revert y q. induction n as [|n IH]; intros y q Hr Hm Ht.
  { exists y, q, [], [], []. split; [done|]. split; [apply accounts_nil|]. split; [done|]. split; [apply same_frame_refl|].
    split; [apply quiet_spill_refl|right; lia]. }
  destruct (round_run m y q Hr Hm) as (y1 & q1 & n1 & l1 & a1 & E1 & A1 & R1 & F1 & T1 & S1 & W1). specialize (W1 Ht).
  destruct (IH y1 q1 R1) as (y2 & q2 & n2 & l2 & a2 & E2 & A2 & R2 & F2 & S2 & W2); [by rewrite (proj1 F1)|done|].
  exists y2, q2, (n1 ++ n2), (l1 ++ l2), (a1 ++ a2).
  assert (Er : rounds (S n) m = round m ++ rounds n m) by done. rewrite Er.
  split; [by rewrite sys_run_app, E1|]. split; [by eapply (accounts_app auth answer nanos batch_max)|]. split; [done|].
  split; [by eapply same_frame_trans|]. split; [by eapply quiet_spill_trans|]. destruct W2 as [->|W2]; [by left|].
  destruct W1 as [W1|W1]; [left; rewrite W1 in W2; cbn in W2; apply length_zero_iff_nil; lia|right; lia].
Qed.

Lemma quiet_flushes m : batches (flushes m) = [].
Proof. unfold batches, flushes. by induction m. Qed.

Lemma batches_app es1 es2 : batches (es1 ++ es2) = batches es1 ++ batches es2.
Proof. apply omap_app. Qed.

Lemma quiet_round m : batches (round m) = [].
Proof. unfold round. by rewrite batches_app, quiet_flushes. Qed.

Lemma quiet_rounds n m : batches (rounds n m ++ flushes m) = [].
Proof.
  rewrite batches_app, quiet_flushes, app_nil_r. induction n as [|n IH]; [done|].
  unfold rounds in *. cbn [replicate concat]. by rewrite batches_app, quiet_round, IH.
Qed.

Lemma quiet_events es : batches es = [] -> Forall sys_event_ok es.
Proof. induction es as [|e es IH]; [done|]. intros H. destruct e; [done|constructor; [done|by apply IH]..]. Qed.

(** Nothing is taken without the agent hearing of it. *)
Lemma no_answer_lost n m : answers_lost (rounds n m ++ flushes m) = 0%nat.
Proof.
  unfold answers_lost. assert (Hf : forall k, filter (fun e => e = PostBatch AnswerLost) (replicate k (FlushRows batch_max)) = [])
    by (intros k; induction k; done).
  rewrite filter_app. unfold flushes. rewrite Hf, app_nil_r. induction n as [|n IH]; [done|].
  unfold rounds, round, flushes in *. cbn [replicate concat]. rewrite !filter_app, Hf. cbn. exact IH.
Qed.

Hypothesis server_error_class : forall s, is_server_error s = true <-> 500 <= s < 600.

(** What can be delivered is not refused. *)
Lemma quiet_run_refuses_nothing es y y' q q' new lost again :
  batches es = [] -> ready y q -> run es y = Some y' -> accounts auth es y y' q q' new lost again ->
  refused_for_good new = [].
Proof.
  intros He [[Hi _ _] [_ _ _ Hau] Hb] E A.
  destruct (sys_run_refuses_nothing is_success is_server_error initial maxb auth answer nanos batch_max success_class
    server_error_class es y q) as (y2 & q2 & new2 & lost2 & again2 & E2 & A2 & Hre);
    [by apply quiet_events|by rewrite He|done| |].
  { rewrite He. eapply Forall_impl; [exact Hb|]. by intros b [Hd _]. }
  rewrite E in E2. injection E2 as <-. pose proof (ac_settled _ _ _ _ _ _ _ _ _ A) as S1.
  rewrite (ac_settled _ _ _ _ _ _ _ _ _ A2) in S1. apply app_inv_head in S1. by rewrite <- S1.
Qed.

(** The state after the rounds. *)
Lemma backlog_is_delivered_run n m y q :
  ready y q -> (chan_capacity (ingest_tx (Ingest.app (sy_gateway y))) <= m * batch_max)%nat ->
  (length (waiting (sy_pipe y) q) < n)%nat ->
  exists y' q' new lost, run (rounds n m ++ flushes m) y = Some y' /\ waiting (sy_pipe y') q' = []
    /\ p_settled (sy_pipe y') = p_settled (sy_pipe y) ++ new /\ refused_for_good new = []
    /\ waiting (sy_pipe y) q ≡ₚ accepted new ++ lost /\ zlen lost <= reported (sy_pipe y') - reported (sy_pipe y)
    /\ (in_spill (p_out (sy_pipe y)) = [] -> lost = [])
    /\ queued (ingest_tx (Ingest.app (sy_gateway y'))) = [] /\ dropped (chw (sy_gateway y')) = dropped (chw (sy_gateway y))
    /\ concat (inserted (chw (sy_gateway y')))
       ≡ₚ concat (inserted (chw (sy_gateway y))) ++ queued (ingest_tx (Ingest.app (sy_gateway y))) ++ rows_in auth (accepted new).
Proof.
  intros Hr Hm Hn. destruct n as [|n]; [lia|].
  destruct (round_run m y q Hr Hm) as (y1 & q1 & n1 & l1 & a1 & E1 & A1 & R1 & F1 & T1 & Z1 & _).
  destruct (rounds_run n m y1 q1 R1) as (y2 & q2 & n2 & l2 & a2 & E2 & A2 & R2 & F2 & Z2 & W2); [by rewrite (proj1 F1)|done|].
  destruct (flushes_run m y2 q2) as (g3 & E3 & F3 & Q3 & _ & A3); [apply R2| |].
  { destruct R2 as [_ [_ _ Gf _] _]. unfold queue_fits in Gf. rewrite (proj1 F2), (proj1 F1) in Gf. lia. }
  assert (Er : rounds (S n) m ++ flushes m = round m ++ (rounds n m ++ flushes m)) by (unfold rounds; cbn; by rewrite <- app_assoc).
  assert (Erun : run (rounds (S n) m ++ flushes m) y = Some (System (sy_pipe y2) g3 (sy_dashboard y2))).
  { rewrite Er, sys_run_app, E1. cbn [mbind option_bind]. by rewrite sys_run_app, E2. }
  assert (A : accounts auth (rounds (S n) m ++ flushes m) y (System (sy_pipe y2) g3 (sy_dashboard y2)) q q2
                (n1 ++ n2 ++ []) (l1 ++ l2 ++ []) (a1 ++ a2 ++ [])).
  { rewrite Er. eapply (accounts_app auth answer nanos batch_max); [exact A1|]. by eapply (accounts_app auth answer nanos batch_max). }
  set (new := n1 ++ n2 ++ []) in A. set (lost := l1 ++ l2 ++ []) in A.
  assert (W : waiting (sy_pipe y2) q2 = []).
  { destruct W2 as [|W2]; [done|]. destruct (quiet_waiting (round m) _ _ _ _ _ _ _ (quiet_round m) A1) as [L1 _]. apply length_zero_iff_nil. lia. }
  pose proof (quiet_run_refuses_nothing _ _ _ _ _ _ _ _ (quiet_rounds (S n) m) Hr Erun A) as Hre.
  destruct A as [S1 B1 C1 D1 G1 _ _]. cbn [sy_pipe sy_gateway] in *.
  rewrite no_answer_lost in G1. assert (Ha : a1 ++ a2 ++ [] = []) by (apply nil_length_inv; lia).
  rewrite Ha in D1. rewrite quiet_rounds, Hre, W in B1.
  exists (System (sy_pipe y2) g3 (sy_dashboard y2)), q2, new, lost. cbn [sy_pipe sy_gateway].
  split; [done|]. split; [done|]. split; [done|]. split; [done|]. split; [done|]. split; [done|].
  split; [intros Hs; destruct (quiet_spill_trans _ _ _ Z1 Z2 Hs) as [Ez _]; apply nil_length_inv; lia|]. split; [done|].
  destruct F1 as (_ & _ & _ & Df1). destruct F2 as (_ & _ & _ & Df2). destruct F3 as (_ & _ & _ & Df3).
  assert (Df : dropped (chw g3) = dropped (chw (sy_gateway y))) by congruence. split; [done|].
  unfold received in D1. rewrite Q3, Df, !app_nil_r in D1.
  apply (Permutation_app_inv_r (concat (dropped (chw (sy_gateway y))))). rewrite D1. solve_Permutation.
Qed.

(** ** Properties *)



End Backlog.

(** ** Witnesses *)

Definition sample_gateway : gateway (PC := bounded_permits MetricRow) := Gateway (sample_app true) idle_writer.

Lemma sample_gateway_ready : gateway_ready (Some "Bearer t"%string) sample_gateway.
Proof. split; [by left|done|vm_compute; lia|reflexivity]. Qed.

Lemma one_row_takeable b n :
  (length b < 100)%nat -> (0 < n)%nat -> takeable (AX := one_row_axum) (Some "Bearer t"%string) n b.
Proof.
  intros Hb Hn. assert (E : extract_json (Axum := one_row_axum) MAX_BODY true b = Ok sample_request).
  { cbn. unfold extract_with. cbn [negb]. destruct (Z.ltb_spec MAX_BODY (zlen b)); [unfold MAX_BODY in *; lia|]. by vm_compute. }
  split; [exists sample_request; split; [exact E|by vm_compute]|].
  unfold rows_of, request_rows. cbn [post_request hq_json hq_body]. rewrite E. cbn. lia.
Qed.


(** A full retry queue behind a circuit that has tripped. *)
Definition tripped_system : system (Channel0 := bounded_channel body) (PC := bounded_permits MetricRow) :=
  System (Pipe full_output (fresh_wal sample_cfg fresh_world) (Worker 4 (set_circuit Open circuit_init)) None [] [])
    sample_gateway (new_dashboard sample_config 0).

