(* ===== verification/Kernel.v ===== *)
(** * Kernel: the eBPF program and its side of the ring buffer

    Models [statix-ebpf/src/main.rs], the program the kernel runs at every
    [sched_process_exec]: it reserves a slot of the ring buffer or counts a drop,
    fills the 64-byte record of [Wire] and submits it, waking the agent once in
    64 records.  The ring buffer itself is the kernel's, the interface [EventRing]:
    slots are consumed in the order they were reserved, and a slot that is not yet
    submitted holds back the ones behind it.  The file also models the agent's
    monitor of the drop counters ([statix/src/loader.rs]) and the choice of the
    program's variant ([statix/src/ebpf_select.rs]).  The theorems: every exec is
    stored or counted as dropped_execs, records arrive in order and decode to the exec
    they describe, and each CPU wakes the agent at every 64th record. *)

From S2P Require Export Wire Config.

#[local] Open Scope string_scope.
#[local] Open Scope Z_scope.

(** ** The ring buffer *)

Class EventRing : Type := {
  ring : Type;
  slot : Type;
  slot_eq_dec :: EqDecision slot;
  slot_countable :: Countable slot;
  (* in the order of reservation; [None] while not submitted *)
  entries : ring -> list (slot * option (list Z));
  reserve : ring -> option (slot * ring);
  submit : slot -> list Z -> ring -> ring;
  next : ring -> option (list Z) * ring;
  reserve_spec r i r' :
    reserve r = Some (i, r') -> (i ∉ (entries r).*1) /\ entries r' = (entries r ++ [(i, None)])%list;
  submit_spec i bs r :
    entries (submit i bs r) = (fun e => if decide (e.1 = i) then (i, Some bs) else e) <$> entries r;
  next_spec r :
    match entries r with
    | (_, Some bs) :: es => (next r).1 = Some bs /\ entries (next r).2 = es
    | _ => next r = (None, r)
    end
}.

(** ** The program *)

(** What the helpers answer at one exec. *)
Record exec_args : Type := {
  pid_tgid : Z;
  smp_processor_id : Z;
  current_cgroup_id : Z;
  ktime_ns : Z;
  current_comm : option (list Z)
}.

Definition exec_args_ok (a : exec_args) : Prop :=
  urange 64 (pid_tgid a) /\ urange 32 (smp_processor_id a) /\ urange 64 (current_cgroup_id a)
  /\ urange 64 (ktime_ns a)
  /\ from_option (fun c => length c = 16%nat /\ Forall byte_ok c) True (current_comm a).

#[export] Instance exec_args_ok_dec a : Decision (exec_args_ok a).
Proof. unfold exec_args_ok, byte_ok. destruct (current_comm a); apply _. Defined.

Definition identity_event (a : exec_args) : StatixEvent :=
  {| kind := EVENT_KIND_WORKLOAD_IDENTITY; pid := wrap 32 (pid_tgid a);
     tgid := wrap 32 (Z.shiftr (pid_tgid a) 32); cpu_id := smp_processor_id a;
     event_cgroup_id := current_cgroup_id a; timestamp := ktime_ns a; memory_bytes := 0;
     Wire.comm := default (replicate 16 0) (current_comm a) |}.

Definition BPF_RB_NO_WAKEUP : Z := 1.

Section Program.
Context {ER : EventRing}.

(** The maps, and the runs of the program between [reserve] and [submit], by
    their slot, with the CPU they run on. *)
Record kernel : Type := Kernel {
  EVENTS : ring;
  RING_DROPS : gmap Z Z;
  WAKEUP_COUNTER : gmap Z Z;
  running : gmap slot (Z * exec_args)
}.

(** The two per-CPU updates.  A program is not preempted, so no other run on the
    CPU comes between the read and the write. *)
Definition record_ring_drop (cpu : Z) (k : kernel) : kernel :=
  Kernel (EVENTS k) (<[cpu := wrapping_add 64 (default 0 (RING_DROPS k !! cpu)) 1]> (RING_DROPS k))
    (WAKEUP_COUNTER k) (running k).

Definition wakeup_flag (cpu : Z) (k : kernel) : Z * kernel :=
  let count := wrapping_add 32 (default 0 (WAKEUP_COUNTER k !! cpu)) 1 in
  (if Z.land count 63 =? 0 then 0 else BPF_RB_NO_WAKEUP,
   Kernel (EVENTS k) (RING_DROPS k) (<[cpu := count]> (WAKEUP_COUNTER k)) (running k)).

(** [capture_identity] up to the reservation, and from there to the end. *)
Definition capture_reserve (cpu : Z) (a : exec_args) (k : kernel) : bool * kernel :=
  match reserve (EVENTS k) with
  | Some (i, r) => (true, Kernel r (RING_DROPS k) (WAKEUP_COUNTER k) (<[i := (cpu, a)]> (running k)))
  | None => (false, record_ring_drop cpu k)
  end.

Definition capture_submit (i : slot) (cpu : Z) (a : exec_args) (k : kernel) : Z * kernel :=
  let '(flag, k) := wakeup_flag cpu k in
  (flag, Kernel (submit i (encode_event (identity_event a)) (EVENTS k)) (RING_DROPS k)
           (WAKEUP_COUNTER k) (delete i (running k))).

(** What can happen: an exec starts the program, a started run ends, the agent
    takes a record.  The runs of different CPUs interleave freely. *)
Inductive kernel_event : Type :=
| Exec (cpu : Z) (a : exec_args)
| Finish (i : slot)
| Take.

(** What it did: the exec was stored or dropped, a record was submitted with
    this flag, a record was handed to the agent. *)
Inductive kernel_did : Type :=
| Stored (a : exec_args)
| Dropped (cpu : Z) (a : exec_args)
| Submitted (cpu flag : Z)
| Taken (item : list Z).

Definition kernel_step (e : kernel_event) (k : kernel) : list kernel_did * kernel :=
  match e with
  | Exec cpu a =>
      let '(stored, k) := capture_reserve cpu a k in
      ([if stored then Stored a else Dropped cpu a], k)
  | Finish i =>
      match running k !! i with
      | Some (cpu, a) => let '(flag, k) := capture_submit i cpu a k in ([Submitted cpu flag], k)
      | None => ([], k)
      end
  | Take =>
      let '(item, r) := next (EVENTS k) in
      (Taken <$> option_list item, Kernel r (RING_DROPS k) (WAKEUP_COUNTER k) (running k))
  end.

Fixpoint kernel_run (es : list kernel_event) (k : kernel) : list kernel_did * kernel :=
  match es with
  | [] => ([], k)
  | e :: es =>
      let '(did, k) := kernel_step e k in
      let '(dids, k) := kernel_run es k in
      ((did ++ dids)%list, k)
  end.

(** The maps as the kernel creates them. *)
Definition kernel_start (r : ring) : kernel := Kernel r ∅ ∅ ∅.

End Program.

(** ** The monitor of the drop counters *)

Definition M_RING_DROPS : string := "statix_ring_drops_total".

(** One tick: the per-CPU values, [None] when the map cannot be read, and the
    total reported so far.  The sum wraps, as it does in a release build. *)
Definition ring_drops_tick (values : option (list Z)) (s : Z * metrics) : Z * metrics :=
  match values with
  | Some values =>
      let total_drops := foldl (wrapping_add 64) 0 values in
      if 0 <? total_drops then
        let delta := saturating_sub total_drops s.1 in
        if 0 <? delta then (total_drops, counter_add M_RING_DROPS delta s.2) else s
      else s
  | None => s
  end.

Definition ring_drops_monitor (ticks : list (option (list Z))) (m : metrics) : Z * metrics :=
  foldl (fun s values => ring_drops_tick values s) (0, m) ticks.

(** ** The variant to load *)

(** [Path::join] with a relative name. *)
Definition join (dir name : string) : string :=
  if is_empty dir then name
  else match strip_suffix "/" dir with
       | Some _ => dir +:+ name
       | None => dir +:+ ("/" +:+ name)
       end.

(** The variant and the size of its ring, in bytes. *)
Definition ebpf_variant (cpus : Z) : string * Z :=
  if cpus <=? 8 then ("statix-ebpf-small", 512 * 1024)
  else if cpus <=? 64 then ("statix-ebpf-large", 4 * 1024 * 1024)
  else ("statix-ebpf-xlarge", 8 * 1024 * 1024).

(** [None] is the error that the file is missing. *)
Definition select_ebpf_by_cpus (cpus : Z) (bundle_dir : string) (is_file : string -> bool)
    (e : environment) : option string :=
  let path := join (default bundle_dir (var "STATIX_BPF_DIR" e)) (ebpf_variant cpus).1 in
  if is_file path then Some path else None.

Definition resolve_ebpf_path (cpus : Z) (bundle_dir : string) (is_file : string -> bool)
    (e : environment) : option string :=
  match var "STATIX_EBF_PATH" e with
  | Some path => Some path
  | None => select_ebpf_by_cpus cpus bundle_dir is_file e
  end.

(** ** Accounting *)

Definition stored (l : list kernel_did) : list exec_args :=
  omap (fun d => match d with Stored a => Some a | _ => None end) l.
Definition taken (l : list kernel_did) : list (list Z) :=
  omap (fun d => match d with Taken item => Some item | _ => None end) l.
Definition dropped_on (cpu : Z) (l : list kernel_did) : list exec_args :=
  omap (fun d => match d with Dropped c a => if c =? cpu then Some a else None | _ => None end) l.
Definition flags_on (cpu : Z) (l : list kernel_did) : list Z :=
  omap (fun d => match d with Submitted c flag => if c =? cpu then Some flag else None | _ => None end) l.

Definition dropped_execs (l : list kernel_did) : list exec_args :=
  omap (fun d => match d with Dropped _ a => Some a | _ => None end) l.
Definition execs {ER : EventRing} (es : list kernel_event) : list exec_args :=
  omap (fun e => match e with Exec _ a => Some a | _ => None end) es.

Definition record_bytes (a : exec_args) : list Z := encode_event (identity_event a).

Section Accounting.
Context {ER : EventRing}.

(** A slot holds its record, or a run of the program will write it. *)
Record kernel_inv (k : kernel) : Prop := {
  inv_slots : NoDup (entries (EVENTS k)).*1;
  inv_running i : is_Some (running k !! i) <-> (i, None) ∈ entries (EVENTS k)
}.

Definition slot_record (k : kernel) (e : slot * option (list Z)) : option (list Z) :=
  match e.2 with
  | Some bs => Some bs
  | None => (fun ca => record_bytes ca.2) <$> running k !! e.1
  end.

(** The records in the ring, those still being written included. *)
Definition contents (k : kernel) : list (option (list Z)) := slot_record k <$> entries (EVENTS k).

Lemma kernel_start_inv r : entries r = [] -> kernel_inv (kernel_start r) /\ contents (kernel_start r) = [].
Proof.
  intros E. unfold contents. cbn. rewrite E. split; [|done]. split; cbn; rewrite E; [constructor|].
  intros i. rewrite lookup_empty, elem_of_nil. split; [by intros []|done].
Qed.

Lemma reserve_inv cpu a k i r :
  kernel_inv k -> reserve (EVENTS k) = Some (i, r) ->
  let k' := Kernel r (RING_DROPS k) (WAKEUP_COUNTER k) (<[i := (cpu, a)]> (running k)) in
  kernel_inv k' /\ contents k' = (contents k ++ [Some (record_bytes a)])%list.
Proof.
  intros [Hn Hr] E k'. apply reserve_spec in E as [Hi E]. unfold k', contents. split.
  - split; cbn; rewrite E.
    + rewrite fmap_app. apply NoDup_app. split; [done|]. split; [|apply NoDup_singleton].
      intros j Hj ->%list_elem_of_singleton. done.
    + intros j. rewrite elem_of_app, <- Hr, list_elem_of_singleton, lookup_insert_is_Some'. split.
      * intros [->|]; [by right|by left].
      * intros [|[= ->]]; [by right|by left].
  - cbn. rewrite E, fmap_app. cbn. unfold slot_record at 2. cbn. rewrite lookup_insert_eq. cbn. f_equal.
    apply list_fmap_ext. intros n [j [bs|]] Hj; [done|]. unfold slot_record. cbn.
    rewrite lookup_insert_ne; [done|]. intros <-. apply Hi.
    apply list_elem_of_lookup_2 in Hj. by apply (list_elem_of_fmap_2 fst) in Hj.
Qed.

Lemma submit_inv cpu a k i drops wakes :
  kernel_inv k -> running k !! i = Some (cpu, a) ->
  let k' := Kernel (submit i (record_bytes a) (EVENTS k)) drops wakes (delete i (running k)) in
  kernel_inv k' /\ contents k' = contents k.
Proof.
  intros [Hn Hr] E k'. assert (Hfst : (entries (EVENTS k')).*1 = (entries (EVENTS k)).*1).
  { cbn. rewrite submit_spec, <- list_fmap_compose. apply list_fmap_ext. intros n e _. cbn. by case_decide. }
  assert (Hu : forall o, (i, o) ∈ entries (EVENTS k) -> o = None).
  { intros o Ho. assert (Hs : (i, None) ∈ entries (EVENTS k)) by (apply Hr; by rewrite E).
    apply list_elem_of_lookup_1 in Ho as [n1 H1]. apply list_elem_of_lookup_1 in Hs as [n2 H2].
    assert (n1 = n2) as ->.
    { eapply NoDup_lookup; [exact Hn| |]; rewrite list_lookup_fmap; [rewrite H1|rewrite H2]; done. }
    congruence. }
  split.
  - split; [by rewrite Hfst|]. intros j. cbn. rewrite submit_spec, list_elem_of_fmap.
    destruct (decide (j = i)) as [->|Hj].
    + rewrite lookup_delete_eq. split; [by intros []|]. intros ([j o] & Hd & _). cbn in Hd.
      case_decide; [done|]. by inversion Hd.
    + rewrite lookup_delete_ne, Hr by done. split.
      * intros H. exists (j, None). cbn. by rewrite decide_False.
      * intros ([j2 o] & Hd & H). cbn in Hd. case_decide; [by inversion Hd; subst|]. by rewrite Hd.
  - unfold contents. cbn. rewrite submit_spec, <- list_fmap_compose. apply list_fmap_ext.
    intros n [j o] Hj. apply list_elem_of_lookup_2 in Hj. cbn. unfold slot_record. case_decide; cbn in *.
    + subst j. apply Hu in Hj as ->. by rewrite E.
    + destruct o; [done|]. by rewrite lookup_delete_ne by done.
Qed.

Lemma take_inv k :
  kernel_inv k ->
  let k' := Kernel (next (EVENTS k)).2 (RING_DROPS k) (WAKEUP_COUNTER k) (running k) in
  kernel_inv k' /\ ((Some <$> option_list (next (EVENTS k)).1) ++ contents k')%list = contents k.
Proof.
  intros Hk k'. pose proof (next_spec (EVENTS k)) as H. unfold contents, k'.
  assert (Hid : next (EVENTS k) = (None, EVENTS k) ->
    kernel_inv k' /\ ((Some <$> option_list (next (EVENTS k)).1) ++ contents k')%list = contents k).
  { intros En. unfold k'. rewrite En. by destruct k. }
  destruct (entries (EVENTS k)) as [|[i [bs|]] es] eqn:E; try by rewrite <- E; apply Hid.
  destruct Hk as [Hn Hr]. rewrite E in Hn, Hr.
  destruct H as [-> H2]. cbn. rewrite H2. split; [|done]. split; cbn; rewrite H2.
  - by inversion Hn.
  - intros j. rewrite Hr, elem_of_cons. split; [by intros [[=]|]|by right].
Qed.

Lemma kernel_step_inv e k :
  kernel_inv k ->
  let r := kernel_step e k in
  kernel_inv r.2
  /\ ((Some <$> taken r.1) ++ contents r.2)%list
     = (contents k ++ ((fun a => Some (record_bytes a)) <$> stored r.1))%list.
Proof.
  intros Hk. destruct e as [cpu a|i|]; cbn [kernel_step].
  - unfold capture_reserve. destruct (reserve (EVENTS k)) as [[i r]|] eqn:E; cbn.
    + by apply (reserve_inv cpu a) in E.
    + rewrite app_nil_r. split; [|done]. destruct Hk. by split.
  - destruct (running k !! i) as [[cpu a]|] eqn:E; cbn; rewrite ?app_nil_r; [|done].
    by apply (submit_inv cpu a k i (RING_DROPS k)
      (<[cpu := wrapping_add 32 (default 0 (WAKEUP_COUNTER k !! cpu)) 1]> (WAKEUP_COUNTER k))) in E.
  - pose proof (take_inv k Hk) as H. destruct (next (EVENTS k)) as [[item|] r]; cbn in *; by rewrite app_nil_r.
Qed.

Lemma kernel_run_cons e es k :
  kernel_run (e :: es) k
  = ((kernel_step e k).1 ++ (kernel_run es (kernel_step e k).2).1, (kernel_run es (kernel_step e k).2).2)%list.
Proof. cbn [kernel_run]. destruct (kernel_step e k) as [did k1]. cbn. by destruct (kernel_run es k1). Qed.

Lemma kernel_run_inv es k :
  kernel_inv k ->
  let r := kernel_run es k in
  kernel_inv r.2
  /\ ((Some <$> taken r.1) ++ contents r.2)%list
     = (contents k ++ ((fun a => Some (record_bytes a)) <$> stored r.1))%list.
Proof.
  revert k. induction es as [|e es IH]; intros k Hk; [cbn; by rewrite app_nil_r|].
  rewrite kernel_run_cons. destruct (kernel_step_inv e k Hk) as [H1 H2]. destruct (IH _ H1) as [H3 H4].
  cbn [fst snd]. split; [done|]. unfold taken, stored in *. rewrite !omap_app, !fmap_app, <- app_assoc, H4.
  by rewrite !app_assoc, H2.
Qed.

Lemma kernel_run_execs es k : execs es ≡ₚ stored (kernel_run es k).1 ++ dropped_execs (kernel_run es k).1.
Proof.
  revert k. induction es as [|e es IH]; intros k; [done|]. rewrite kernel_run_cons. cbn [fst].
  unfold stored, dropped_execs in *. rewrite !omap_app. specialize (IH (kernel_step e k).2).
  destruct e as [cpu a|i|]; cbn [kernel_step execs omap list_omap] in *.
  - destruct (capture_reserve cpu a k) as [[] k1]; cbn; fold (execs es); rewrite IH; [done|].
    by rewrite Permutation_middle.
  - destruct (running k !! i) as [[cpu a]|]; [|by rewrite IH]. destruct (capture_submit i cpu a k). by rewrite IH.
  - destruct (next (EVENTS k)) as [[item|] r]; by rewrite IH.
Qed.

(** *** The per-CPU counters *)

Definition drops_at (cpu : Z) (k : kernel) : Z := default 0 (RING_DROPS k !! cpu).
Definition wakeups_at (cpu : Z) (k : kernel) : Z := default 0 (WAKEUP_COUNTER k !! cpu).

(** The flag of the record after [n] others. *)
Definition flag_after (n : Z) : Z := if (n + 1) mod 64 =? 0 then 0 else BPF_RB_NO_WAKEUP.

Lemma count_insert cpu c w (m : gmap Z Z) n x :
  0 <= w -> default 0 (m !! cpu) = wrap w n ->
  default 0 (<[c := wrapping_add w (default 0 (m !! c)) x]> m !! cpu) = wrap w (n + if c =? cpu then x else 0).
Proof.
  intros Hw H. destruct (Z.eqb_spec c cpu) as [->|Hc].
  - rewrite lookup_insert_eq. cbn. rewrite H. unfold wrapping_add, wrap. by rewrite Zplus_mod_idemp_l.
  - rewrite lookup_insert_ne, H, Z.add_0_r by done. done.
Qed.

Lemma flag_of_count n :
  (if Z.land (wrap 32 (n + 1)) 63 =? 0 then 0 else BPF_RB_NO_WAKEUP) = flag_after n.
Proof.
  unfold flag_after. change 63 with (Z.ones 6). rewrite Z.land_ones by lia. unfold wrap.
  by rewrite (Z.mod_mod_divide _ (2 ^ 32) (2 ^ 6)) by (by exists (2 ^ 26)).
Qed.

Lemma kernel_step_counters e k cpu d n :
  drops_at cpu k = wrap 64 d -> wakeups_at cpu k = wrap 32 n ->
  let r := kernel_step e k in
  drops_at cpu r.2 = wrap 64 (d + zlen (dropped_on cpu r.1))
  /\ wakeups_at cpu r.2 = wrap 32 (n + zlen (flags_on cpu r.1))
  /\ flags_on cpu r.1 = flag_after <$> seqZ n (zlen (flags_on cpu r.1)).
Proof.
  unfold drops_at, wakeups_at. intros Hd Hn.
  destruct e as [c a|i|]; cbn [kernel_step].
  - unfold capture_reserve. destruct (reserve (EVENTS k)) as [[i r]|]; cbn; rewrite ?Z.add_0_r; [done|].
    rewrite (count_insert cpu c 64 _ d) by done. destruct (c =? cpu); cbn; by rewrite ?Z.add_0_r.
  - destruct (running k !! i) as [[c a]|]; cbn; rewrite ?Z.add_0_r; [|done].
    rewrite (count_insert cpu c 32 _ n) by done. destruct (Z.eqb_spec c cpu) as [->|]; cbn; rewrite ?Z.add_0_r; [|done].
    split; [done|]. split; [done|]. rewrite Hn. unfold wrapping_add.
    assert (wrap 32 (wrap 32 n + 1) = wrap 32 (n + 1)) as -> by (unfold wrap; apply Zplus_mod_idemp_l).
    by rewrite flag_of_count.
  - destruct (next (EVENTS k)) as [[item|] r]; cbn; by rewrite !Z.add_0_r.
Qed.

Lemma kernel_run_counters es k cpu d n :
  drops_at cpu k = wrap 64 d -> wakeups_at cpu k = wrap 32 n ->
  let r := kernel_run es k in
  drops_at cpu r.2 = wrap 64 (d + zlen (dropped_on cpu r.1))
  /\ wakeups_at cpu r.2 = wrap 32 (n + zlen (flags_on cpu r.1))
  /\ flags_on cpu r.1 = flag_after <$> seqZ n (zlen (flags_on cpu r.1)).
Proof.
  revert k d n. induction es as [|e es IH]; intros k d n Hd Hn; [cbn; by rewrite !Z.add_0_r|].
  rewrite kernel_run_cons. destruct (kernel_step_counters e k cpu d n Hd Hn) as (H1 & H2 & H3).
  destruct (IH _ _ _ H1 H2) as (H4 & H5 & H6). cbn [fst snd]. unfold dropped_on, flags_on in *.
  rewrite !omap_app, !length_app, !Nat2Z.inj_add. rewrite H4, H5, !Z.add_assoc. split; [done|]. split; [done|].
  rewrite seqZ_app, fmap_app by lia. by rewrite <- H3, <- H6.
Qed.

(** *** What the agent decodes *)

Lemma record_decodes a :
  exec_args_ok a ->
  length (record_bytes a) = 64%nat /\ Forall byte_ok (record_bytes a)
  /\ decode_event (record_bytes a) = identity_event a.
Proof.
  intros (_ & H2 & H3 & H4 & H5). apply event_layout_roundtrip.
  assert (Hc : length (default (replicate 16 0) (current_comm a)) = 16%nat
    /\ Forall byte_ok (default (replicate 16 0) (current_comm a))).
  { destruct (current_comm a); [done|]. split; [done|]. by apply Forall_replicate. }
  unfold event_ok. cbn. split_and!; try done; try apply wrap_range; try tauto; done.
Qed.

(** *** The monitor *)

Lemma wrapping_add_wrap w x y : wrapping_add w (wrap w x) (wrap w y) = wrap w (x + y).
Proof. unfold wrapping_add, wrap. by rewrite <- Zplus_mod. Qed.

Definition reading (cpus : list Z) (k : kernel) : list Z := (fun c => drops_at c k) <$> cpus.

(** The program runs; between its runs the monitor ticks, and reads the map or
    fails to. *)
Fixpoint monitored (cpus : list Z) (segs : list (list kernel_event * bool)) (k : kernel) (s : Z * metrics)
    : list kernel_did * kernel * (Z * metrics) :=
  match segs with
  | [] => ([], k, s)
  | (es, readable) :: segs =>
      let '(did, k) := kernel_run es k in
      let s := ring_drops_tick (if readable then Some (reading cpus k) else None) s in
      let '(dids, k, s) := monitored cpus segs k s in ((did ++ dids)%list, k, s)
  end.

Lemma reading_total cpus k (n : Z -> Z) :
  (forall c, c ∈ cpus -> drops_at c k = wrap 64 (n c)) ->
  foldl (wrapping_add 64) 0 (reading cpus k) = wrap 64 (sumZ n cpus).
Proof.
  enough (H : forall acc, (forall c, c ∈ cpus -> drops_at c k = wrap 64 (n c)) ->
    foldl (wrapping_add 64) (wrap 64 acc) (reading cpus k) = wrap 64 (acc + sumZ n cpus)).
  { intros Hn. by apply (H 0). }
  unfold reading. induction cpus as [|c cpus IH]; intros acc Hn; cbn; [by rewrite Z.add_0_r|].
  rewrite (Hn c) by left. rewrite wrapping_add_wrap, IH by (intros; apply Hn; by right).
  by rewrite Z.add_assoc.
Qed.

Lemma dropped_on_cons x c a l :
  dropped_on x (Dropped c a :: l) = ((if c =? x then [a] else []) ++ dropped_on x l)%list.
Proof. unfold dropped_on. cbn. by destruct (c =? x). Qed.

Lemma sumZ_ext {A} (f g : A -> Z) l : (forall x, x ∈ l -> f x = g x) -> sumZ f l = sumZ g l.
Proof.
  induction l as [|x l IH]; intros H; [done|]. rewrite !sumZ_cons, (H x) by left.
  rewrite IH; [done|]. intros y Hy. apply H. by right.
Qed.

Lemma dropped_total cpus l :
  NoDup cpus -> Forall (fun d => match d with Dropped c _ => c ∈ cpus | _ => True end) l ->
  sumZ (fun c => zlen (dropped_on c l)) cpus = zlen (dropped_execs l).
Proof.
  intros Hc. induction 1 as [|d l Hd _ IH]; [unfold sumZ; induction cpus; cbn in *; [done|]; inversion Hc; auto|].
  destruct d as [|c a| |]; try done. change (zlen (dropped_execs (Dropped c a :: l))) with (Z.of_nat (S (length (dropped_execs l)))).
  rewrite Nat2Z.inj_succ, <- IH. clear IH. induction Hc as [|x cpus Hx Hc IH]; [by apply elem_of_nil in Hd|].
  rewrite !sumZ_cons, dropped_on_cons, length_app. destruct (Z.eqb_spec c x) as [->|Hne].
  - rewrite (sumZ_ext _ (fun c => zlen (dropped_on c l)) cpus); [simpl; lia|].
    intros y Hy. rewrite dropped_on_cons. destruct (Z.eqb_spec x y) as [->|]; done.
  - apply elem_of_cons in Hd as [|Hd]; [done|]. rewrite IH by done. simpl. lia.
Qed.

Lemma tick_total values p m :
  0 <= p <= foldl (wrapping_add 64) 0 values ->
  let t := foldl (wrapping_add 64) 0 values in
  let s := ring_drops_tick (Some values) (p, m) in
  s.1 = t /\ metric s.2 M_RING_DROPS = metric m M_RING_DROPS + (t - p).
Proof.
  cbn [ring_drops_tick fst snd]. set (t := foldl _ 0 values). intros Hp. unfold saturating_sub.
  destruct (Z.ltb_spec 0 t); [destruct (Z.ltb_spec 0 (Z.max (t - p) 0))|]; cbn [fst snd]; [|split; lia|split; lia].
  split; [done|]. rewrite metric_counter_add_eq. lia.
Qed.

(** Every exec runs on one of these CPUs. *)
Definition on_cpus (cpus : list Z) (es : list kernel_event) : Prop :=
  Forall (fun e => match e with Exec c _ => c ∈ cpus | _ => True end) es.

Lemma run_dropped_cpus cpus es k :
  on_cpus cpus es ->
  Forall (fun d => match d with Dropped c _ => c ∈ cpus | _ => True end) (kernel_run es k).1.
Proof.
  intros H. revert k. induction H as [|e es He _ IH]; intros k; [constructor|].
  rewrite kernel_run_cons. cbn [fst]. apply Forall_app. split; [|apply IH].
  destruct e as [c a|i|]; cbn [kernel_step].
  - destruct (capture_reserve c a k) as [[] ?]; by repeat constructor.
  - destruct (running k !! i) as [[c a]|]; [|constructor]. destruct (capture_submit i c a k). by repeat constructor.
  - destruct (next (EVENTS k)) as [[]]; by repeat constructor.
Qed.

Lemma monitored_spec cpus segs k (n w : Z -> Z) p m :
  NoDup cpus -> Forall (fun seg => on_cpus cpus seg.1) segs ->
  (forall c, drops_at c k = wrap 64 (n c)) -> (forall c, wakeups_at c k = wrap 32 (w c)) ->
  0 <= p <= sumZ n cpus ->
  let '(dids, _, (p', m')) := monitored cpus segs k (p, m) in
  sumZ n cpus + zlen (dropped_execs dids) < 2 ^ 64 ->
  metric m' M_RING_DROPS = metric m M_RING_DROPS + (p' - p)
  /\ (from_option snd false (last segs) = true -> p' = sumZ n cpus + zlen (dropped_execs dids)).
Proof.
  intros Hc Hs. revert k n w p m. induction Hs as [|[es readable] segs He _ IH]; intros k n w p m Hn Hw Hp;
    cbn [monitored]; [intros _; by rewrite Z.sub_diag, Z.add_0_r|].
  pose proof (run_dropped_cpus cpus es k He) as Hd. destruct (kernel_run es k) as [did k1] eqn:Er. cbn [fst] in Hd.
  pose proof (dropped_total cpus did Hc Hd) as Ht.
  set (n1 := fun c => n c + zlen (dropped_on c did)). set (w1 := fun c => w c + zlen (flags_on c did)).
  assert (Hcount : forall c, drops_at c k1 = wrap 64 (n1 c) /\ wakeups_at c k1 = wrap 32 (w1 c)).
  { intros c. pose proof (kernel_run_counters es k c (n c) (w c) (Hn c) (Hw c)) as H. rewrite Er in H.
    destruct H as (? & ? & _). by split. }
  assert (Hsum : sumZ n1 cpus = sumZ n cpus + zlen (dropped_execs did)).
  { rewrite <- Ht. unfold n1. clear. induction cpus as [|c cpus IH]; [done|]. rewrite !sumZ_cons, IH. lia. }
  set (s1 := ring_drops_tick (if readable then Some (reading cpus k1) else None) (p, m)).
  assert (Hs1 : sumZ n1 cpus < 2 ^ 64 -> 0 <= s1.1 <= sumZ n1 cpus
    /\ metric s1.2 M_RING_DROPS = metric m M_RING_DROPS + (s1.1 - p) /\ (readable = true -> s1.1 = sumZ n1 cpus)).
  { intros Hlt. unfold s1. destruct readable; [|cbn; lia].
    pose proof (reading_total cpus k1 n1 (fun c _ => proj1 (Hcount c))) as E. rewrite wrap_small in E by (split; lia).
    destruct (tick_total (reading cpus k1) p m ltac:(rewrite E; lia)) as [T1 T2]. rewrite E in T1, T2.
    rewrite T1, T2. split_and!; lia. }
  destruct (Z.ltb_spec (sumZ n1 cpus) (2 ^ 64)) as [Hlt|Hge].
  2:{ destruct (monitored cpus segs k1 s1) as [[dids k2] [p' m']]. unfold dropped_execs.
      rewrite omap_app, length_app. fold (dropped_execs did). lia. }
  destruct (Hs1 Hlt) as (S1 & S2 & S3). specialize (IH k1 n1 w1 s1.1 s1.2 (fun c => proj1 (Hcount c))
    (fun c => proj2 (Hcount c)) S1). rewrite <- surjective_pairing in IH.
  destruct (monitored cpus segs k1 s1) as [[dids k2] [p' m']] eqn:Em. unfold dropped_execs.
  rewrite omap_app, length_app. fold (dropped_execs did) (dropped_execs dids). intros Hb.
  destruct IH as [IH1 IH2]; [lia|]. split; [lia|]. destruct segs as [|seg segs].
  - cbn in Em |- *. injection Em as <- <- Ep. intros Hr. specialize (S3 Hr). rewrite Ep in S3. cbn in S3. simpl. lia.
  - intros Hl. rewrite IH2 by exact Hl. lia.
Qed.

(** ** Properties *)

(** Every exec is accounted for.  Whatever the interleaving of the CPUs and
    of the agent's reads, each exec is stored or dropped; every CPU's drop counter
    is the number of its drops modulo 2^64; and the records the agent has taken,
    followed by those in the ring, are the records of the stored execs in the
    order of their reservation, each exactly once. *)
Theorem every_exec_is_stored_or_counted es r0 :
  entries r0 = [] ->
  let '(did, k) := kernel_run es (kernel_start r0) in
  execs es ≡ₚ stored did ++ dropped_execs did
  /\ (forall cpu, drops_at cpu k = wrap 64 (zlen (dropped_on cpu did)))
  /\ ((Some <$> taken did) ++ contents k)%list = (fun a => Some (record_bytes a)) <$> stored did.
Proof.
  intros E. destruct (kernel_start_inv r0 E) as [Hi Hc]. pose proof (kernel_run_execs es (kernel_start r0)) as H1.
  pose proof (kernel_run_inv es _ Hi) as [_ H2]. rewrite Hc in H2.
  pose proof (fun cpu => kernel_run_counters es (kernel_start r0) cpu 0 0 eq_refl eq_refl) as H3.
  destruct (kernel_run es (kernel_start r0)) as [did k]. split; [done|]. split; [|done].
  intros cpu. by destruct (H3 cpu).
Qed.

(** C33: The counter exported by the agent tells the truth: after any run of
    the program on the CPUs the map covers, with ticks of the monitor anywhere in
    between, some of them failing to read the map, [statix_ring_drops_total] has
    grown by exactly the number of execs dropped up to a last successful tick. *)
Theorem reported_drops_are_the_drops cpus segs r0 m :
  NoDup cpus -> Forall (fun seg => on_cpus cpus seg.1) segs -> from_option snd false (last segs) = true ->
  let '(did, _, (_, m')) := monitored cpus segs (kernel_start r0) (0, m) in
  zlen (dropped_execs did) < 2 ^ 64 ->
  metric m' M_RING_DROPS = metric m M_RING_DROPS + zlen (dropped_execs did).
Proof.
  intros Hc Hs Hl.
  assert (E : sumZ (fun _ => 0) cpus = 0) by (clear; by induction cpus).
  pose proof (monitored_spec cpus segs (kernel_start r0) (fun _ => 0) (fun _ => 0) 0 m Hc Hs
                (fun _ => eq_refl) (fun _ => eq_refl) ltac:(lia)) as H.
  destruct (monitored _ _ _ _) as [[did k] [p' m']]. intros Hb. destruct H as [H1 H2]; [lia|].
  specialize (H2 Hl). lia.
Qed.

(** Each CPU wakes the agent at every 64th record it submits and at no
    other, for ever: the counter's wrap-around at 2^32 does not break the rhythm. *)
Theorem every_64th_record_wakes es r0 cpu :
  let flags := flags_on cpu (kernel_run es (kernel_start r0)).1 in
  flags = (fun n => if (n + 1) mod 64 =? 0 then 0 else BPF_RB_NO_WAKEUP) <$> seqZ 0 (zlen flags).
Proof. by destruct (kernel_run_counters es (kernel_start r0) cpu 0 0 eq_refl eq_refl) as (_ & _ & H). Qed.

End Accounting.

(** ** A ring of a bounded number of slots *)

Record list_ring : Type := ListRing { lr_entries : list (nat * option (list Z)); lr_cap : nat }.

Definition list_reserve (r : list_ring) : option (nat * list_ring) :=
  if (length (lr_entries r) <? lr_cap r)%nat
  then let i := S (max_list (lr_entries r).*1) in
       Some (i, ListRing (lr_entries r ++ [(i, None)])%list (lr_cap r))
  else None.

Definition list_submit (i : nat) (bs : list Z) (r : list_ring) : list_ring :=
  ListRing ((fun e => if decide (e.1 = i) then (i, Some bs) else e) <$> lr_entries r) (lr_cap r).

Definition list_next (r : list_ring) : option (list Z) * list_ring :=
  match lr_entries r with
  | (_, Some bs) :: es => (Some bs, ListRing es (lr_cap r))
  | _ => (None, r)
  end.

#[export] Instance list_event_ring : EventRing | 100.
Proof.
  refine {| ring := list_ring; slot := nat; entries := lr_entries; reserve := list_reserve;
            submit := list_submit; next := list_next |}.
  - intros r i r'. unfold list_reserve. destruct (_ <? _)%nat; [|done]. intros [= <- <-]. split; [|done].
    intros H. apply max_list_elem_of_le in H. lia.
  - done.
  - intros r. unfold list_next. by destruct (lr_entries r) as [|[i [bs|]] es].
Defined.

(** ** Witnesses *)

Definition exec_by (cg : Z) : exec_args :=
  {| pid_tgid := 300 + Z.shiftl 300 32; smp_processor_id := 0; current_cgroup_id := cg; ktime_ns := 12;
     current_comm := Some (replicate 16 65) |}.

(** Two CPUs race on a ring of two slots: the second to reserve submits first,
    the agent has to wait, and a third exec is dropped. *)
Definition sample_race : list kernel_event :=
  [Exec 0 (exec_by 7); Exec 1 (exec_by 8); Finish (2 : nat); Take; Exec 0 (exec_by 9);
   Finish (1 : nat); Take].

Example race_outcome :
  let did := (kernel_run sample_race (kernel_start (ListRing [] 2))).1 in
  taken did = [record_bytes (exec_by 7)] /\ stored did = [exec_by 7; exec_by 8]
  /\ dropped_execs did = [exec_by 9] /\ flags_on 1 did = [BPF_RB_NO_WAKEUP].
Proof. vm_compute. done. Qed.

Lemma every_exec_is_stored_or_counted_witness :
  let '(did, k) := kernel_run sample_race (kernel_start (ListRing [] 2)) in
  execs sample_race ≡ₚ stored did ++ dropped_execs did
  /\ (forall cpu, drops_at cpu k = wrap 64 (zlen (dropped_on cpu did)))
  /\ ((Some <$> taken did) ++ contents k)%list = (fun a => Some (record_bytes a)) <$> stored did.
Proof. exact (every_exec_is_stored_or_counted sample_race (ListRing [] 2) eq_refl). Defined.

Lemma reported_drops_are_the_drops_witness :
  let '(did, _, (_, m')) :=
    monitored [0; 1] [(sample_race, false); ([Exec 1 (exec_by 5)], true)] (kernel_start (ListRing [] 2)) (0, ∅) in
  zlen (dropped_execs did) < 2 ^ 64 -> metric m' M_RING_DROPS = metric ∅ M_RING_DROPS + zlen (dropped_execs did).
Proof.
  apply (reported_drops_are_the_drops [0; 1] [(sample_race, false); ([Exec 1 (exec_by 5)], true)]
           (ListRing [] 2) ∅); [by apply (bool_decide_unpack _)| |done].
  repeat constructor; apply (bool_decide_unpack _); vm_compute; exact I.
Defined.
