(* ===== verification/Execs.v ===== *)
(** * Execs: from the tracepoint to the batches

    Puts [Kernel] and the agent together: every exec of a cgroup is in an emitted
    batch, in the open window, on its way through the ring, or counted as dropped.
    Also how a run of the agent ends, and what happens to the open window then. *)

From S2P Require Import Kernel AgentProps.

Section Execs.
Context {UUID : UuidText} `{!Channel body}.
Variables (to_string : json -> option body) (is_http_ingest raw_events : bool) (node : string).

Abbreviation steps := (agent_step to_string is_http_ingest raw_events node).
Abbreviation loop := (agent_loop to_string is_http_ingest raw_events node).

(** ** The agent's side *)

(** The execs of cgroup [g] among raw items and among the execs themselves. *)
Definition item_execs (g : Z) (item : list Z) : Z :=
  if (length item <? EVENT_SIZE)%nat then 0 else contribution SExec g (CallEvent (decode_event item)).
Definition execs_in (g : Z) (items : list (list Z)) : Z := sumZ (item_execs g) items.
Definition execs_of (g : Z) (l : list exec_args) : Z :=
  sumZ (fun a => if current_cgroup_id a =? g then 1 else 0) l.

(** The items a run reads from the kernel. *)
Fixpoint arrived (es : list agent_event) : list (list Z) :=
  match es with
  | [] => []
  | e :: es =>
      match e with RingItems items => items | _ => [] end ++ (if ends e then [] else arrived es)
  end.

Lemma item_execs_nonneg g item : 0 <= item_execs g item.
Proof. unfold item_execs, contribution. destruct_ifs; done. Qed.

Lemma execs_in_nonneg g items : 0 <= execs_in g items.
Proof. apply sumZ_nonneg, Forall_forall. intros item _. apply item_execs_nonneg. Qed.

Lemma execs_in_app g l1 l2 : execs_in g (l1 ++ l2) = execs_in g l1 + execs_in g l2.
Proof. apply sumZ_app. Qed.

Lemma ring_calls_execs g drained ring amb :
  total_contribution SExec g (ring_calls drained ring amb) + execs_in g (ring_left drained ring)
  = execs_in g ring.
Proof.
  revert drained amb. induction ring as [|item ring IH]; intros drained amb; cbn [ring_calls ring_left].
  { by destruct (negb _). }
  destruct (negb _); [done|]. unfold execs_in at 2. rewrite sumZ_cons. fold (execs_in g ring).
  unfold item_execs. destruct (length item <? EVENT_SIZE)%nat; [by rewrite IH|].
  unfold total_contribution. rewrite sumZ_cons. rewrite <- (IH (S drained) (fun i => amb (S i))).
  unfold total_contribution. cbn [fst]. lia.
Qed.

Lemma calls_of_execs g rs amb base :
  Forall (fun x => contribution SExec g x.1 = 0) (calls_of rs amb base).
Proof.
  revert amb base. induction rs as [|[[id mem] usage] rs IH]; intros amb base; [constructor|].
  cbn [calls_of]. rewrite !Forall_app. split_and!; [| |apply IH].
  - destruct mem; repeat constructor. cbn. by destruct_ifs.
  - unfold cpu_calls, cpu_delta. destruct usage as [u|]; [|constructor].
    destruct (base !! id); repeat constructor. cbn. by destruct_ifs.
Qed.

Lemma event_calls_execs g e s :
  total_contribution SExec g (event_calls e s) + execs_in g (ag_ring (steps e s).2)
  = execs_in g (ag_ring s) + execs_in g (match e with RingItems items => items | _ => [] end).
Proof.
  assert (Hf : forall (FS : CgroupFs) ok amb now,
    total_contribution SExec g (tick_calls FS ok amb s ++ [(CallFlush, now)]) = 0
    /\ ag_ring (sample_and_flush to_string is_http_ingest node ok amb now s).2 = ag_ring s).
  { intros FS ok amb now. split.
    - apply total_zero, Forall_app. split; [|by repeat constructor].
      unfold tick_calls. destruct ok; [apply calls_of_execs|constructor].
    - by pose proof (sample_and_flush_run to_string is_http_ingest node ok amb now s) as (_ & _ & _ & H & _). }
  assert (H0 : execs_in g [] = 0) by done.
  assert (Hid : forall r : list BatchPayload * agent, ag_ring r.2 = ag_ring s ->
    total_contribution SExec g [] + execs_in g (ag_ring r.2) = execs_in g (ag_ring s) + 0).
  { intros r ->. change (total_contribution SExec g []) with 0. lia. }
  destruct e as [items|K amb|FS ok amb now|ex|p|p| | |b|b| |FS ok amb now];
    cbn [event_calls agent_step]; rewrite ?H0; try (destruct (Hf FS ok amb now) as [-> ->]; lia).
  all: try by apply (Hid (_, _)).
  - change (0 + execs_in g (ag_ring s ++ items) = execs_in g (ag_ring s) + execs_in g items).
    rewrite execs_in_app. lia.
  - pose proof (drain_ring_run to_string is_http_ingest raw_events node (K := K) 0 (ag_ring s) amb s) as (_ & _ & _ & L).
    rewrite L, ring_calls_execs. lia.
  - apply (Hid (_, _)). pose proof (evict_tick_core ex s) as H. by injection H.
  - apply (Hid (_, _)). by destruct (bool_decide _).
  - apply (Hid (_, _)). by destruct (bool_decide _).
Qed.

Lemma run_execs g es s :
  agent_ok s -> Forall event_typed es -> 0 <= held_stat SExec g s ->
  held_stat SExec g s + execs_in g (ag_ring s) + execs_in g (arrived es) <= umax 32 ->
  held_stat SExec g s + execs_in g (ag_ring s) + execs_in g (arrived es)
  = shipped SExec g (loop es s).1 + held_stat SExec g (loop es s).2 + execs_in g (ag_ring (loop es s).2).
Proof.
  intros Hok He. revert s Hok. induction He as [|e es He _ IH]; intros s Hok H0; [cbn; lia|].
  cbn [arrived]. rewrite execs_in_app. pose proof (event_calls_execs g e s) as Hc.
  destruct (agent_step_ok to_string is_http_ingest raw_events node e s Hok He) as [Hok1 _].
  pose proof (agent_step_conserves to_string is_http_ingest raw_events node SExec e s g Hok H0) as Hstep.
  cbn [stat_width] in Hstep. specialize (IH _ Hok1). rewrite agent_loop_cons.
  pose proof (execs_in_nonneg g (ag_ring (steps e s).2)). pose proof (execs_in_nonneg g (arrived es)).
  assert (execs_in g [] = 0) by done.
  destruct (ends e); intros Hle; destruct Hstep as (S1 & S2 & S3); try lia. cbn [fst snd].
  specialize (IH S3 ltac:(lia)). unfold shipped in *. rewrite sumZ_app. lia.
Qed.

(** ** The kernel's side *)

Lemma execs_of_app g l1 l2 : execs_of g (l1 ++ l2) = execs_of g l1 + execs_of g l2.
Proof. apply sumZ_app. Qed.

Lemma records_execs g l : Forall exec_args_ok l -> execs_in g (record_bytes <$> l) = execs_of g l.
Proof.
  unfold execs_in, execs_of. induction 1 as [|a l Ha _ IH]; [done|]. cbn [fmap list_fmap]. rewrite !sumZ_cons, IH.
  f_equal. destruct (record_decodes a Ha) as (Hl & _ & Hd). unfold item_execs. rewrite Hl, Hd. cbn.
  by destruct (_ =? g).
Qed.

(** The stored execs are those read, in order, and those waiting in the ring. *)
Lemma stored_split {ER : EventRing} kes r0 :
  entries r0 = [] ->
  let r := kernel_run kes (kernel_start r0) in
  exists waiting, contents r.2 = (fun a => Some (record_bytes a)) <$> waiting
    /\ exists read, stored r.1 = read ++ waiting /\ taken r.1 = record_bytes <$> read.
Proof.
  intros E r. destruct (kernel_start_inv r0 E) as [Hi Hc]. pose proof (kernel_run_inv kes _ Hi) as [_ H].
  rewrite Hc in H. rewrite app_nil_l in H. symmetry in H. apply fmap_app_inv in H as (read & waiting & H1 & H2 & H3).
  exists waiting. split; [done|]. exists read. split; [done|]. apply (inj (fmap Some)). etransitivity; [exact H1|].
  by rewrite <- list_fmap_compose.
Qed.

(** ** The end of a run *)

Lemma agent_loop_app es d es' s :
  forallb (fun e => negb (ends e)) es = true -> ends d = true ->
  loop (es ++ d :: es') s = ((loop es s).1 ++ (steps d (loop es s).2).1, (steps d (loop es s).2).2).
Proof.
  intros H Hd. revert s H. induction es as [|e es IH]; intros s H.
  - rewrite app_nil_l, agent_loop_cons, Hd. apply surjective_pairing.
  - apply andb_prop in H as [He H]. apply negb_true_iff in He.
    rewrite <- app_comm_cons, !agent_loop_cons, He, IH by done. cbn [fst snd]. by rewrite app_assoc.
Qed.

Lemma run_flush_empty {K : KernelFiles} calls now st :
  agg_inv st.2 ->
  active (agg_run (ATT := attribution_cache (K := K)) node (calls ++ [(CallFlush, now)]) st).2 = ∅.
Proof.
  revert st. induction calls as [|[call amb] calls IH]; intros st Hi.
  - destruct st as [c a]. destruct (flush_spec node now a Hi) as (_ & H & _). cbn.
    destruct (flush node now a) as [[b|] a1]; by injection H.
  - pose proof (agg_run_inv (K := K) node [(call, amb)] st Hi) as H1. cbn [Datatypes.app agg_run] in H1 |- *.
    destruct (agg_step node call amb st) as [b st1]. cbn in H1. specialize (IH st1 H1).
    by destruct (agg_run node (calls ++ _) st1).
Qed.

Lemma signal_empties FS ok amb now s k g :
  agent_ok s -> held_stat k g (steps (Signal FS ok amb now) s).2 = 0.
Proof.
  intros Hok. pose proof (sample_and_flush_run to_string is_http_ingest node ok amb now s) as (H & _).
  pose proof (run_flush_empty (K := @fs_files FS) (tick_calls FS ok amb s) now (st_of s) (ok_agg s Hok)) as E.
  rewrite H in E. unfold held_stat. cbn [agent_step]. cbn [snd] in E. by rewrite E.
Qed.

(** ** Properties *)

(** Every exec is counted or its loss is reported.  Take any run of the eBPF
    program on any interleaving of the CPUs, and any run of the agent that reads
    what the ring hands out.  For every cgroup, the execs that happened are the
    execs in the emitted batches, those in the open window, those read but not yet
    handled, those waiting in the ring, and those in the drop counters. *)
Theorem execs_are_counted_or_reported {ER : EventRing} {FS : CgroupFs} kes r0 setting now walk ok out es g :
  let '(did, k) := kernel_run kes (kernel_start r0) in
  let '(batches, s) := loop es (agent_start setting now walk ok out) in
  entries r0 = [] -> Forall exec_args_ok (execs kes) ->
  urange 64 now -> Forall entry_typed walk -> Forall event_typed es ->
  arrived es = taken did -> execs_of g (execs kes) <= umax 32 ->
  exists waiting, contents k = (fun a => Some (record_bytes a)) <$> waiting
    /\ execs_of g (execs kes)
       = shipped SExec g batches + held_stat SExec g s + execs_in g (ag_ring s)
         + execs_of g waiting + execs_of g (dropped_execs did).
Proof.
  pose proof (kernel_run_execs kes (kernel_start r0)) as Hp. pose proof (stored_split kes r0) as Hs.
  set (s0 := agent_start setting now walk ok out). pose proof (run_execs g es s0) as Hrun.
  destruct (kernel_run kes (kernel_start r0)) as [did k]. destruct (loop es s0) as [batches s].
  intros E Ha Hn Hw He Harr Hle. cbn [fst snd] in *. destruct (Hs E) as (waiting & H1 & read & H2 & H3).
  exists waiting. split; [done|]. rewrite Hp, H2, !Forall_app in Ha. destruct Ha as [[Har _] _].
  assert (Hsum : execs_of g (execs kes) = execs_of g read + execs_of g waiting + execs_of g (dropped_execs did)).
  { unfold execs_of at 1. rewrite (sumZ_perm _ _ _ Hp), H2. fold (execs_of g ((read ++ waiting) ++ dropped_execs did)).
    by rewrite !execs_of_app. }
  assert (Hread : execs_in g (arrived es) = execs_of g read) by (rewrite Harr, H3; by apply records_execs).
  assert (Hnn : forall l, 0 <= execs_of g l).
  { intros l. apply sumZ_nonneg, Forall_forall. intros a _. by destruct (_ =? g). }
  pose proof (Hnn waiting). pose proof (Hnn (dropped_execs did)).
  assert (Hz : held_stat SExec g s0 = 0) by done. assert (Hr0 : execs_in g (ag_ring s0) = 0) by done.
  rewrite Hz, Hr0, Hread in Hrun. rewrite Hsum, <- Hrun; [lia|by apply agent_start_ok|done|done|lia].
Qed.


End Execs.

(** ** Witnesses *)

(** Three execs on one CPU with a ring of two slots: one is read and counted, one
    still waits, one is dropped. *)
Definition sample_kernel : list kernel_event :=
  [Exec 0 (exec_by 7); Finish (1 : nat); Exec 0 (exec_by 7); Exec 0 (exec_by 7); Take].

Definition exec_events : list agent_event :=
  [RingItems [record_bytes (exec_by 7)];
   RingReady (@fs_files (sample_fs 250)) (fun _ => sample_clock 11);
   Signal (sample_fs 400) true (fun _ => (sample_clock 20, sample_clock 20)) (sample_clock 20)].

Abbreviation exec_loop :=
  (agent_loop (UUID := sample_uuid) sample_to_string true false "n"%string exec_events sample_start).
Abbreviation kernel_end := (kernel_run sample_kernel (kernel_start (ER := list_event_ring) (ListRing [] 2))).

Lemma exec_events_typed : Forall event_typed exec_events.
Proof. repeat constructor; apply (bool_decide_unpack _); vm_compute; exact I. Qed.

Lemma execs_are_counted_or_reported_witness :
  (exists waiting, contents kernel_end.2 = (fun a => Some (record_bytes a)) <$> waiting
     /\ execs_of 7 (execs sample_kernel)
        = shipped SExec 7 exec_loop.1 + held_stat SExec 7 exec_loop.2 + execs_in 7 (ag_ring exec_loop.2)
          + execs_of 7 waiting + execs_of 7 (dropped_execs kernel_end.1))
  /\ execs_of 7 (execs sample_kernel) = 3 /\ shipped SExec 7 exec_loop.1 = 1.
Proof.
  split; [|by vm_compute].
  pose proof (execs_are_counted_or_reported (UUID := sample_uuid) sample_to_string true false "n"%string
    (ER := list_event_ring) (FS := sample_fs 100) sample_kernel (ListRing [] 2) None 0 sample_walk true sample_out exec_events 7) as H.
  destruct kernel_end as [did k] eqn:Ek. destruct exec_loop as [batches s] eqn:Es.
  apply H; clear H; [reflexivity| |split; reflexivity || discriminate|exact sample_walk_typed|exact exec_events_typed
    | |vm_compute; discriminate].
  - repeat constructor; apply (bool_decide_unpack _); vm_compute; exact I.
  - change did with (did, k).1. rewrite <- Ek. by vm_compute.
Defined.


(** An exec was read and counted; the watcher's end loses it. *)
Example watcher_end_loses_the_window :
  let r := agent_loop (UUID := sample_uuid) sample_to_string true false "n"%string
             (take 2 exec_events ++ [WatcherDown None]) sample_start in
  r.1 = [] /\ held_stat SExec 7 r.2 = 1.
Proof. by vm_compute. Qed.
