(* ===== verification/EndToEnd.v ===== *)
(** * EndToEnd: from the kernel to ClickHouse

    Puts the measuring half of the agent, down to the eBPF program ([Kernel],
    [Agent], [Execs]), and the delivering half with the gateway ([System])
    together: the batches the event loop emits are the ones the delivery tasks are
    given.  The theorems follow an exec, and a microsecond of CPU time, from the
    kernel to the table, and name every place where one can stay or be given up. *)

From S2P Require Import Kernel AgentProps Execs System.

#[local] Open Scope Z_scope.

(** ** Totals of a statistic *)

Definition mr_stat (k : stat) (r : MetricRow) : Z :=
  match k with SExec => mr_exec_count r | SSample => mr_sample_count r | SCpu => mr_cpu_usage_usec r end.

(** In rows of the table. *)
Definition stored_total (k : stat) (g : Z) (rows : list MetricRow) : Z :=
  sumZ (fun r => if mr_cgroup_id r =? g then mr_stat k r else 0) rows.

Lemma stored_total_app k g l1 l2 : stored_total k g (l1 ++ l2) = stored_total k g l1 + stored_total k g l2.
Proof. apply sumZ_app. Qed.

(** A row keeps its numbers on its way into the table. *)
Lemma stored_total_batch k g b ws : stored_total k g (from_ingest b <$> ws) = row_total k g ws.
Proof.
  unfold stored_total, row_total. induction ws as [|w ws IH]; [done|]. rewrite fmap_cons, !sumZ_cons, IH. by destruct k.
Qed.

Section EndToEnd.
Context {crc : Crc32} {UUID : UuidText} `{!Channel body} {PC : PermitChannel MetricRow} {AX : Axum}.

(** The agent: [serde_json::to_string], whether raw events are printed, the name
    of the node.  The delivery: as in [System]. *)
Variables (to_string : json -> option body) (raw_events : bool) (node : string).
Variables (is_success is_server_error : Z -> bool) (initial maxb : Z).
Variables (auth : option string) (answer : nat -> insert_answer) (nanos : nat -> Z) (batch_max : nat).

Hypothesis success_class : forall s, is_success s = true <-> 200 <= s < 300.
(** What [serde_json] writes, axum's extractor reads. *)
Hypothesis serde_roundtrip : forall j, exists text, to_string j = Some text /\ parse_json text = Some j.

Abbreviation loop := (agent_loop to_string true raw_events node).
Abbreviation run := (sys_run is_success is_server_error initial maxb auth answer nanos batch_max).

(** ** The batches of the loop are the batches of the delivery *)

(** The texts [emit_batch] hands over. *)
Definition texts (bs : list BatchPayload) : list body :=
  omap (fun p => to_string (batch_to_json (to_ingest p))) bs.

(** They go to [enqueue_batch_json] one by one. *)
Definition enqueue_all (bs : list body) (o : output_state) : output_state :=
  foldl (fun o b => (enqueue_batch_json b o).2) o bs.

Lemma texts_app l1 l2 : texts (l1 ++ l2) = texts l1 ++ texts l2.
Proof. apply omap_app. Qed.

Lemma enqueue_all_app l1 l2 o : enqueue_all (l1 ++ l2) o = enqueue_all l2 (enqueue_all l1 o).
Proof. apply foldl_app. Qed.

Lemma emit_all_enqueues bs s : ag_out (emit_all to_string true bs s) = enqueue_all (texts bs) (ag_out s).
Proof.
  revert s. induction bs as [|p bs IH]; intros s; [done|].
  change (emit_all to_string true (p :: bs) s) with (emit_all to_string true bs (emit_batch to_string true p s)).
  rewrite IH. unfold emit_batch, texts. cbn [omap list_omap].
  by destruct (to_string (batch_to_json (to_ingest p))).
Qed.

Lemma drain_ring_output {K : KernelFiles} drained ring amb s :
  ag_out (drain_ring to_string true raw_events node drained ring amb s).2
  = enqueue_all (texts (drain_ring to_string true raw_events node drained ring amb s).1) (ag_out s).
Proof.
  revert drained amb s. induction ring as [|item ring IH]; intros drained amb s; cbn [drain_ring]; destruct (negb _); try done.
  destruct (length item <? EVENT_SIZE)%nat; [apply IH|]. set (s1 := if raw_events then _ else s).
  assert (E : ag_out s1 = ag_out s) by (unfold s1; by destruct raw_events).
  destruct (on_statix_event _ _ _ _ _) as [[batch c] a]. set (s2 := emit_all _ _ _ (set_agg a _)).
  specialize (IH (S drained) (fun i => amb (S i)) s2). destruct (drain_ring _ _ _ _ _ _ _ _) as [bs s3].
  cbn [fst snd] in *. rewrite IH, texts_app, enqueue_all_app. unfold s2. by rewrite emit_all_enqueues, <- E.
Qed.

Lemma sample_and_flush_output {FS : CgroupFs} ok amb now s :
  ag_out (sample_and_flush to_string true node ok amb now s).2
  = enqueue_all (texts (sample_and_flush to_string true node ok amb now s).1) (ag_out s).
Proof.
  unfold sample_and_flush. destruct (tick _ _ _ _ _ _ _) as [[[early a] m] p]. destruct (flush _ _ _) as [batch a1].
  cbn [fst snd]. rewrite emit_all_enqueues, texts_app, enqueue_all_app. cbn [set_agg ag_out]. by rewrite emit_all_enqueues.
Qed.

(** In a run of the loop on its own, the output is what the enqueues of these texts
    make of it. *)
Lemma loop_hands_over es s : ag_out (loop es s).2 = enqueue_all (texts (loop es s).1) (ag_out s).
Proof.
  assert (Hstep : forall e s, ag_out (agent_step to_string true raw_events node e s).2
    = enqueue_all (texts (agent_step to_string true raw_events node e s).1) (ag_out s)).
  { intros e s'. destruct e; cbn [agent_step]; try done;
      [apply drain_ring_output|apply sample_and_flush_output| |by destruct (bool_decide _)..|apply sample_and_flush_output].
    unfold evict_tick. destruct (evict_stale_cgroups _ _) as [n c]. by destruct (0 <? n)%nat. }
  revert s. induction es as [|e es IH]; intros s; [done|]. rewrite agent_loop_cons.
  destruct (ends e); [apply Hstep|]. cbn [fst snd]. by rewrite IH, texts_app, enqueue_all_app, Hstep.
Qed.

(** ** Totals of the bodies on the way *)

Definition body_total (k : stat) (g : Z) (b : body) : Z :=
  match parse_json b ≫= batch_of_json with Some batch => row_total k g (workloads batch) | None => 0 end.
Definition bodies_total (k : stat) (g : Z) (bs : list body) : Z := sumZ (body_total k g) bs.

Lemma bodies_total_app k g l1 l2 : bodies_total k g (l1 ++ l2) = bodies_total k g l1 + bodies_total k g l2.
Proof. apply sumZ_app. Qed.

(** The rows the gateway reads out of a body it takes. *)
Lemma rows_total k g bs : Forall parsed bs -> stored_total k g (rows_in auth bs) = bodies_total k g bs.
Proof.
  induction 1 as [|b bs [batch Hb] _ IH]; [done|].
  change (b :: bs) with ([b] ++ bs). rewrite rows_in_app, stored_total_app, IH, bodies_total_app, rows_in_one. f_equal.
  unfold rows_of, request_rows, bodies_total, body_total. cbn [post_request hq_json hq_body]. rewrite sumZ_cons, Hb.
  apply extract_json_ok in Hb as (_ & _ & j & -> & E). cbn [mbind option_bind]. rewrite E, stored_total_batch. cbn. lia.
Qed.

(** The text of a batch that fits its wire types holds the batch's totals. *)
Lemma texts_total k g bs :
  Forall (fun p => batch_ok (to_ingest p)) bs -> bodies_total k g (texts bs) = shipped k g bs.
Proof.
  induction 1 as [|p bs Hp _ IH]; [done|]. unfold texts, shipped in *. cbn [omap list_omap]. rewrite sumZ_cons.
  destruct (serde_roundtrip (batch_to_json (to_ingest p))) as (text & -> & E). unfold bodies_total in *.
  rewrite sumZ_cons, IH. unfold body_total. rewrite E. cbn [mbind option_bind]. by rewrite batch_roundtrip.
Qed.

(** What the gateway has taken, and what the agent still has to deliver. *)
Abbreviation at_gateway k g y := (stored_total k g (received (sy_gateway y))).
Abbreviation undelivered k g y q := (bodies_total k g (waiting (sy_pipe y) q)).

Lemma delivery_total k g es y y' q q' new lost again :
  accounts auth es y y' q q' new lost again ->
  bodies_total k g (batches es) + undelivered k g y q + at_gateway k g y + bodies_total k g again
  = at_gateway k g y' + undelivered k g y' q' + bodies_total k g (refused_for_good new) + bodies_total k g lost.
Proof.
  intros A. pose proof (ac_batches _ _ _ _ _ _ _ _ _ A) as Hb. pose proof (ac_rows _ _ _ _ _ _ _ _ _ A) as Hr.
  pose proof (ac_taken _ _ _ _ _ _ _ _ _ A) as Ht. apply Forall_app in Ht as [Ht1 Ht2].
  apply (sumZ_perm (body_total k g)) in Hb. apply (sumZ_perm (fun r => if mr_cgroup_id r =? g then mr_stat k r else 0)) in Hr.
  fold (stored_total k g) in Hr. fold (bodies_total k g) in Hb.
  change (sumZ (body_total k g)) with (bodies_total k g) in Hb.
  change (sumZ (fun r => if mr_cgroup_id r =? g then mr_stat k r else 0)) with (stored_total k g) in Hr.
  rewrite !bodies_total_app in Hb. rewrite !stored_total_app, !rows_total in Hr by done. lia.
Qed.

(** One run of the delivery on the batches of a run of the loop. *)
Lemma loop_delivered {FS : CgroupFs} setting now walk ok out es ses y q k g :
  let bs := (loop es (agent_start setting now walk ok out)).1 in
  urange 64 now -> Forall entry_typed walk -> Forall event_typed es ->
  batches ses = texts bs -> Forall sys_event_ok ses -> pipe_inv (length (batches ses)) (sy_pipe y) q ->
  exists y' q' new lost again, run ses y = Some y' /\ accounts auth ses y y' q q' new lost again
    /\ shipped k g bs + undelivered k g y q + at_gateway k g y + bodies_total k g again
       = at_gateway k g y' + undelivered k g y' q' + bodies_total k g (refused_for_good new) + bodies_total k g lost.
Proof.
  intros bs Hn Hw He Hb Hs Hi.
  destruct (agent_loop_ok to_string true raw_events node es _ (agent_start_ok setting now walk ok out Hn Hw) He) as [_ Hps].
  assert (Hok : Forall (fun p => batch_ok (to_ingest p)) bs) by (eapply Forall_impl; [exact Hps|by intros p []]).
  destruct (sys_run_accounts is_success is_server_error initial maxb auth answer nanos batch_max success_class ses y q Hs Hi)
    as (y' & q' & new & lost & again & E & _ & A).
  exists y', q', new, lost, again. split; [done|]. split; [done|].
  rewrite <- (texts_total k g bs Hok), <- Hb. by apply delivery_total.
Qed.

(** ** Properties *)

(** C2: every exec ends up in ClickHouse or in a place that is named.  Take any
    interleaving of the CPUs, any run of the agent's loop on what the ring hands
    out, and any schedule of the delivery tasks, the network and the gateway's
    writer on the batches the loop emits.  For every cgroup, the execs that
    happened, with those earlier runs left behind, are the execs in the rows the
    gateway has (inserted, dropped and counted, or queued), in batches that wait,
    in batches refused for good, in batches lost and reported, in the open window,
    and in the ring or its drop counters.  Only a batch whose answer was lost is
    stored more than once. *)
Theorem every_exec_is_stored_or_located {ER : EventRing} {FS : CgroupFs} kes r0 setting now walk ok out es ses y q g :
  let '(did, k) := kernel_run kes (kernel_start r0) in
  let '(bs, s) := loop es (agent_start setting now walk ok out) in
  Kernel.entries r0 = [] -> Forall exec_args_ok (execs kes) -> arrived es = taken did -> execs_of g (execs kes) <= umax 32 ->
  urange 64 now -> Forall entry_typed walk -> Forall event_typed es ->
  batches ses = texts bs -> Forall sys_event_ok ses -> pipe_inv (length (batches ses)) (sy_pipe y) q ->
  exists in_ring y' q' new lost again,
    contents k = (fun a => Some (record_bytes a)) <$> in_ring
    /\ run ses y = Some y' /\ p_settled (sy_pipe y') = p_settled (sy_pipe y) ++ new
    /\ execs_of g (execs kes) + undelivered SExec g y q + at_gateway SExec g y + bodies_total SExec g again
       = at_gateway SExec g y' + undelivered SExec g y' q'
         + bodies_total SExec g (refused_for_good new) + bodies_total SExec g lost
         + held_stat SExec g s + execs_in g (ag_ring s)
         + execs_of g in_ring + execs_of g (dropped_execs did)
    /\ zlen lost <= reported (sy_pipe y') - reported (sy_pipe y)
    /\ (length again <= answers_lost ses)%nat.
Proof.
  pose proof (execs_are_counted_or_reported to_string true raw_events node kes r0 setting now walk ok out es g) as Hex.
  pose proof (loop_delivered setting now walk ok out es ses y q SExec g) as Hdel. cbv zeta in Hdel.
  destruct (kernel_run kes (kernel_start r0)) as [did k]. destruct (loop es _) as [bs s]. cbn [fst] in Hdel.
  intros H1 H2 H3 H4 H5 H6 H7 Hb Hs Hi. destruct Hex as (in_ring & Hring & Hsum); try done.
  destruct Hdel as (y' & q' & new & lost & again & E & A & Ht); try done.
  exists in_ring, y', q', new, lost, again. split; [done|]. split; [done|].
  split; [exact (ac_settled _ _ _ _ _ _ _ _ _ A)|]. split; [lia|].
  split; [exact (ac_lost _ _ _ _ _ _ _ _ _ A)|exact (ac_again _ _ _ _ _ _ _ _ _ A)].
Qed.

(** C3: CPU time reaches the table as the kernel counted it.  For a cgroup primed
    with the counter value [u0] and seen at every flush, the growth of its counter
    is, microsecond for microsecond, in the rows the gateway has, in batches that
    wait, were refused for good, or lost and reported, and in the open window. *)
Theorem cpu_time_reaches_the_gateway {FS : CgroupFs} setting now walk ok out es ses y q g u0 :
  let s0 := agent_start setting now walk ok out in
  let '(bs, s) := loop es s0 in
  let us := usages (observed to_string true raw_events node g es s0) in
  urange 64 now -> Forall entry_typed walk -> Forall event_typed es ->
  cpu_baseline (ag_sampler s0) !! g = Some u0 ->
  Lost ∉ observed to_string true raw_events node g es s0 -> Sorted Z.le (u0 :: us) ->
  batches ses = texts bs -> Forall sys_event_ok ses -> pipe_inv (length (batches ses)) (sy_pipe y) q ->
  exists y' q' new lost again,
    run ses y = Some y' /\ p_settled (sy_pipe y') = p_settled (sy_pipe y) ++ new
    /\ (last_usage u0 us - u0) + undelivered SCpu g y q + at_gateway SCpu g y + bodies_total SCpu g again
       = at_gateway SCpu g y' + undelivered SCpu g y' q'
         + bodies_total SCpu g (refused_for_good new) + bodies_total SCpu g lost + held_stat SCpu g s
    /\ zlen lost <= reported (sy_pipe y') - reported (sy_pipe y)
    /\ (length again <= answers_lost ses)%nat.
Proof.
  intros s0. pose proof (cpu_time_is_conserved to_string true raw_events node setting now walk ok out es g u0) as Hcpu.
  pose proof (loop_delivered setting now walk ok out es ses y q SCpu g) as Hdel. cbv zeta in Hdel, Hcpu.
  fold s0 in Hcpu, Hdel. destruct (loop es s0) as [bs s]. cbn [fst snd] in *.
  intros H1 H2 H3 H4 H5 H6 Hb Hs Hi. specialize (Hcpu H1 H2 H3 H4 H5 H6).
  destruct Hdel as (y' & q' & new & lost & again & E & A & Ht); try done.
  exists y', q', new, lost, again. split; [done|].
  split; [exact (ac_settled _ _ _ _ _ _ _ _ _ A)|]. split; [lia|].
  split; [exact (ac_lost _ _ _ _ _ _ _ _ _ A)|exact (ac_again _ _ _ _ _ _ _ _ _ A)].
Qed.

End EndToEnd.

(** ** Witnesses *)

(** A serializer with a parser: the JSON tree as a string of bits. *)
Fixpoint pos_bits (p : positive) : list Z :=
  match p with xH => [] | xO p => 0 :: pos_bits p | xI p => 1 :: pos_bits p end.

Fixpoint bits_pos (l : list Z) : positive :=
  match l with [] => xH | b :: l => if b =? 0 then xO (bits_pos l) else xI (bits_pos l) end.

Lemma pos_bits_roundtrip p : bits_pos (pos_bits p) = p.
Proof. induction p as [p IH|p IH|]; cbn; by rewrite ?IH. Qed.

Definition bits_to_string (j : json) : option body := Some (123 :: pos_bits (encode (tree_of_json j))).
Definition bits_from_slice (b : body) : option json :=
  match b with 123 :: l => json_of_tree <$> decode (bits_pos l) | _ => None end.

Lemma bits_serde j : exists text, bits_to_string j = Some text /\ bits_from_slice text = Some j.
Proof.
  eexists. split; [done|]. unfold bits_from_slice. rewrite pos_bits_roundtrip, decode_encode. cbn. by rewrite json_tree_roundtrip.
Qed.

Definition serde_axum : Axum := simple_axum bits_from_slice.

(** The run of [Execs]; then the delivery: the queue is full of two bodies that are
    not JSON, so the batch goes to the log and back, and its first answer is lost. *)
Abbreviation posted_loop :=
  (agent_loop (UUID := sample_uuid) bits_to_string true false "n"%string exec_events sample_start).

Definition posted_batches : list BatchPayload := posted_loop.1.

Definition delivery_schedule : list sys_event :=
  ((fun t => EmitBatch t false) <$> texts bits_to_string posted_batches)
  ++ [WriteBurst [true]; PostBatch Answered; PostBatch Answered; DrainSweep; PostBatch AnswerLost; PostBatch Answered;
      FlushRows 64].

Abbreviation delivery_run :=
  (sys_run (Channel0 := bounded_channel body) (AX := serde_axum) status_success status_server_error 1 30 (Some "Bearer t"%string)
     (fun _ => Acked) (fun _ => 0) 64 delivery_schedule sample_system).

(** The exec and its CPU time are stored twice: the first answer was lost. *)
Example delivery_outcome :
  (fun y => let rows := concat (inserted (chw (sy_gateway y))) in
            (stored_total SExec 7 rows, stored_total SCpu 7 rows, length rows)) <$> delivery_run = Some (2, 600, 2%nat).
Proof. vm_compute. reflexivity. Qed.

Lemma delivery_schedule_ok : Forall sys_event_ok delivery_schedule.
Proof.
  apply Forall_app. split; [|by repeat constructor]. apply Forall_fmap.
  change (Forall (fun t : body => 0 < zlen t <= MAX_FRAME_PAYLOAD) (texts bits_to_string posted_batches)).
  apply (bool_decide_unpack _). vm_compute. exact I.
Qed.

Lemma delivery_batches : batches delivery_schedule = texts bits_to_string posted_batches.
Proof. vm_compute. reflexivity. Qed.

Lemma delivery_pipe_inv : pipe_inv (length (batches delivery_schedule)) (sy_pipe sample_system) [].
Proof. apply sample_pipe_inv. rewrite delivery_batches. vm_compute. lia. Qed.

Lemma every_exec_is_stored_or_located_witness :
  exists in_ring y' q' new lost again, delivery_run = Some y'
    /\ contents kernel_end.2 = (fun a => Some (record_bytes a)) <$> in_ring
    /\ p_settled (sy_pipe y') = [] ++ new
    /\ 3 + 0 + 0 + bodies_total (AX := serde_axum) SExec 7 again
       = stored_total SExec 7 (received (sy_gateway y'))
         + bodies_total (AX := serde_axum) SExec 7 (waiting (sy_pipe y') q')
         + bodies_total (AX := serde_axum) SExec 7 (refused_for_good new) + bodies_total (AX := serde_axum) SExec 7 lost
         + held_stat SExec 7 posted_loop.2 + execs_in 7 (ag_ring posted_loop.2)
         + execs_of 7 in_ring + execs_of 7 (dropped_execs kernel_end.1)
    /\ (length again <= 1)%nat.
Proof.
  pose proof (every_exec_is_stored_or_located (UUID := sample_uuid) (AX := serde_axum) bits_to_string false "n"%string
    status_success status_server_error 1 30 (Some "Bearer t"%string) (fun _ => Acked) (fun _ => 0) 64 success_class_ok bits_serde
    (ER := list_event_ring) (FS := sample_fs 100) sample_kernel (ListRing [] 2) None 0 sample_walk true sample_out exec_events
    delivery_schedule sample_system [] 7) as H.
  destruct kernel_end as [did k] eqn:Ek. destruct posted_loop as [bs s] eqn:Es.
  assert (Eb : batches delivery_schedule = texts bits_to_string bs)
    by (change bs with (bs, s).1; rewrite <- Es; exact delivery_batches).
  destruct H as (in_ring & y' & q' & new & lost & again & H1 & H2 & H3 & H4 & _ & H5).
  - reflexivity.
  - repeat constructor; apply (bool_decide_unpack _); vm_compute; exact I.
  - change did with (did, k).1. rewrite <- Ek. by vm_compute.
  - vm_compute. discriminate.
  - split; reflexivity || discriminate.
  - exact sample_walk_typed.
  - exact exec_events_typed.
  - exact Eb.
  - exact delivery_schedule_ok.
  - exact delivery_pipe_inv.
  - exists in_ring, y', q', new, lost, again. exact (conj H2 (conj H1 (conj H3 (conj H4 H5)))).
Defined.

Lemma cpu_time_reaches_the_gateway_witness :
  exists y' q' new lost again, delivery_run = Some y' /\ p_settled (sy_pipe y') = [] ++ new
    /\ 300 + 0 + 0 + bodies_total (AX := serde_axum) SCpu 7 again
       = stored_total SCpu 7 (received (sy_gateway y'))
         + bodies_total (AX := serde_axum) SCpu 7 (waiting (sy_pipe y') q')
         + bodies_total (AX := serde_axum) SCpu 7 (refused_for_good new) + bodies_total (AX := serde_axum) SCpu 7 lost
         + held_stat SCpu 7 posted_loop.2
    /\ (length again <= 1)%nat.
Proof.
  pose proof (cpu_time_reaches_the_gateway (UUID := sample_uuid) (AX := serde_axum) bits_to_string false "n"%string
    status_success status_server_error 1 30 (Some "Bearer t"%string) (fun _ => Acked) (fun _ => 0) 64 success_class_ok bits_serde
    (FS := sample_fs 100) None 0 sample_walk true sample_out exec_events delivery_schedule sample_system [] 7 100) as H.
  cbv zeta in H. destruct posted_loop as [bs s] eqn:Es.
  assert (Eb : batches delivery_schedule = texts bits_to_string bs)
    by (change bs with (bs, s).1; rewrite <- Es; exact delivery_batches).
  destruct H as (y' & q' & new & lost & again & H2 & H3 & H4 & _ & H5).
  - split; reflexivity || discriminate.
  - exact sample_walk_typed.
  - exact exec_events_typed.
  - by vm_compute.
  - apply (bool_decide_unpack _). by vm_compute.
  - apply (bool_decide_unpack _). by vm_compute.
  - exact Eb.
  - exact delivery_schedule_ok.
  - exact delivery_pipe_inv.
  - exists y', q', new, lost, again. exact (conj H2 (conj H3 (conj H4 H5))).
Defined.
