(* ===== verification/Boot.v ===== *)
(** * Boot: how the agent starts

    Models [main] of [statix/src/main.rs] up to its loop, [statix/src/loader.rs],
    [statix/src/bpf_memlock.rs], the Kubernetes set-up of
    [statix/src/attribution/mod.rs] and [statix/src/bin/verify_ebpf.rs]: the steps in
    their order, each of which can end the process.  The eBPF library and the
    Kubernetes client are the interfaces [Aya] and [Kube].  The theorems: what a
    start that fails leaves behind, and that no number of failed starts takes a
    frame out of the log. *)

From S2P Require Export Lives Kernel Agent.

#[local] Open Scope string_scope.
#[local] Open Scope Z_scope.

(** ** Results *)

#[local] Instance res_bind {E} : MBind (res E) := fun A B f r =>
  match r with Ok a => f a | Err e => Err e end.

Definition map_err {E F A} (f : E -> F) (r : res E A) : res F A :=
  match r with Ok a => Ok a | Err e => Err (f e) end.
Definition ok_or {E A} (e : E) (o : option A) : res E A :=
  match o with Some a => Ok a | None => Err e end.

(** ** The eBPF library *)

(** A mutable borrow is the value borrowed with the way to put a new value back.
    An operation on a [&mut] answers with the new value. *)
Class Aya : Type := {
  Ebpf : Type;
  Program : Type;
  TracePoint : Type;
  BpfMap : Type;
  PerCpuArray : Type;
  RingBuf : Type;
  bpf_error : Type;
  ebpf_load : list Z -> res bpf_error Ebpf;
  program_mut : string -> Ebpf -> option (Program * (Program -> Ebpf));
  as_trace_point : Program -> res bpf_error (TracePoint * (TracePoint -> Program));
  program_load : TracePoint -> res bpf_error TracePoint;
  program_attach : string -> string -> TracePoint -> res bpf_error TracePoint;
  take_map : string -> Ebpf -> option (BpfMap * Ebpf);
  map_mut : string -> Ebpf -> option BpfMap;
  per_cpu_array : BpfMap -> res bpf_error PerCpuArray;
  ring_buf : BpfMap -> res bpf_error RingBuf
}.

(** [anyhow::Error]: a message, or the error of a call, passed on. *)
Inductive boot_error {AY : Aya} : Type :=
| Bail (msg : string)
| OsError (e : string)
| BpfError (e : bpf_error).

(** ** The system *)

(** What the agent reads of the system it starts on; an error of the system is the
    text it prints as. *)
Record os {AY : Aya} : Type := {
  os_env : environment;
  os_args : list string;
  geteuid : Z;
  setrlimit_memlock : Z;
  last_os_error : string;
  read_file : string -> res string (list Z);
  is_file : string -> bool;
  num_cpus : Z;
  bundle_dir : string;
  etc_hostname : option string;
  async_fd : RingBuf -> res string unit;
  instant_secs : Z;
  sigterm_installed : bool
}.

Section Loader.
Context {AY : Aya}.
Implicit Types o : os.

Definition bump_memlock_rlimit o : res string unit :=
  if negb (setrlimit_memlock o =? 0) then Err (last_os_error o) else Ok tt.

Definition attach_sched_process_exec (bpf : Ebpf) : res boot_error Ebpf :=
  '(p, put) ← ok_or (Bail "BPF program 'statix_sched_process_exec' not found in ELF")
               (program_mut "statix_sched_process_exec" bpf);
  '(program, put_tp) ← map_err BpfError (as_trace_point p);
  program ← map_err BpfError (program_load program);
  program ← map_err BpfError (program_attach "sched" "sched_process_exec" program);
  Ok (put (put_tp program)).

Definition load_and_attach o (ebpf_path : string) : res boot_error Ebpf :=
  _ ← map_err (fun e => Bail ("failed to raise RLIMIT_MEMLOCK for BPF maps: " +:+ e)) (bump_memlock_rlimit o);
  bytes ← map_err OsError (read_file o ebpf_path);
  bpf ← map_err BpfError (ebpf_load bytes);
  attach_sched_process_exec bpf.

Definition get_events_ring_buf (bpf : Ebpf) : res boot_error RingBuf :=
  m ← ok_or (Bail "Ring buffer map 'EVENTS' not found in BPF object") (map_mut "EVENTS" bpf);
  map_err BpfError (ring_buf m).

Definition take_ring_drops_map (bpf : Ebpf) : res boot_error (PerCpuArray * Ebpf) :=
  '(m, bpf) ← ok_or (Bail "Per-CPU map 'RING_DROPS' not found in BPF object") (take_map "RING_DROPS" bpf);
  a ← map_err BpfError (per_cpu_array m);
  Ok (a, bpf).

(** [statix-ebpf-verify]: the path it prints as accepted. *)
Definition verify_run o : res boot_error string :=
  path ← ok_or (Bail "usage: statix-ebpf-verify <elf-path>") (os_args o !! 1%nat);
  _ ← map_err OsError (bump_memlock_rlimit o);
  bytes ← map_err OsError (read_file o path);
  _ ← map_err BpfError (ebpf_load bytes);
  Ok path.

Definition check_privileges o : res boot_error unit :=
  if negb (geteuid o =? 0)
  then Err (Bail "Must run as root or with CAP_BPF + CAP_PERFMON (+ CAP_SYS_ADMIN for cgroup reads).")
  else Ok tt.

(** The choice of the object file; the error names the path that is missing. *)
Definition ebpf_path o : res boot_error string :=
  let missing := Kernel.join (default (bundle_dir o) (var "STATIX_BPF_DIR" (os_env o))) (ebpf_variant (num_cpus o)).1 in
  ok_or (Bail ("eBPF variant not found: " +:+ missing
               +:+ ". Run `make build-ebpf` (builds small/large/xlarge bundle)."))
    (resolve_ebpf_path (num_cpus o) (bundle_dir o) (is_file o) (os_env o)).

(** What [main] does with the object: the program attached, the maps, the ring. *)
Definition start_bpf o (path : string) : res boot_error (Ebpf * PerCpuArray * RingBuf) :=
  bpf ← load_and_attach o path;
  '(drops, bpf) ← take_ring_drops_map bpf;
  ring ← get_events_ring_buf bpf;
  _ ← map_err OsError (async_fd o ring);
  Ok (bpf, drops, ring).

End Loader.

(** ** The Kubernetes client *)

Class Kube : Type := {
  Client : Type;
  Kubeconfig : Type;
  KubeConfig : Type;
  kube_error : Type;
  try_default : res kube_error Client;
  read_kubeconfig : string -> res kube_error Kubeconfig;
  from_custom_kubeconfig : Kubeconfig -> res kube_error KubeConfig;
  client_try_from : KubeConfig -> res kube_error Client
}.

Definition dev_kubeconfig (e : environment) : option string :=
  match e !! "STATIX_DEV_KUBECONFIG" with
  | Some path => if negb (is_empty path) then Some path else None
  | None => None
  end.

Definition k8s_configured (e : environment) : bool :=
  bool_decide (is_Some (e !! "KUBERNETES_SERVICE_HOST")) || bool_decide (is_Some (dev_kubeconfig e)).

Definition k8s_client {K : Kube} (e : environment) : res kube_error Client :=
  match dev_kubeconfig e with
  | None => try_default
  | Some path =>
      kubeconfig ← read_kubeconfig path;
      config ← from_custom_kubeconfig kubeconfig;
      client_try_from config
  end.

(** The client the watcher watches with; [None] when the task ends at once. *)
Definition spawn_k8s_watcher {K : Kube} (e : environment) : option Client :=
  if negb (k8s_configured e) then None
  else match k8s_client e with Ok client => Some client | Err _ => None end.

(** ** The start *)

(** The line a start that got as far as its event loop prints. *)
Definition READY : json :=
  JObj [("status", JStr "ready"); ("probe", JStr "sched:sched_process_exec"); ("schema_version", JNum SCHEMA_VERSION)].

(** [Instant + Duration], in seconds, on Linux: the sum must fit an [i64]. *)
Definition instant_add (now secs : Z) : option Z := if now + secs <? 2 ^ 63 then Some (now + secs) else None.

Section Boot.
Context {AY : Aya} {K : Kube} {crc : Crc32} `{!Channel body} {FS : CgroupFs}.

(** The fresh channels, and whether a string can be a header value. *)
Variables (retry_channel append_channel : chan body) (header_value : string -> bool).

(** What the loop runs with. *)
Record started : Type := Started {
  sd_bpf : Ebpf;
  sd_drops : PerCpuArray;
  sd_ring : RingBuf;
  sd_http : http_settings;
  sd_first_flush : Z;
  sd_window : Z;
  sd_node : string;
  sd_raw_events : bool;
  sd_in_k8s : bool;
  sd_watcher : option Client;
  sd_agent : agent
}.

Inductive boot_end : Type :=
| Failed (e : boot_error)
| Panicked (msg : string)
| Looping (s : started).

(** Everything before the loop.  [walk] is what the walk of the cgroup tree finds,
    [prime_ok] whether the first readings' task ended well, [now] the wall clock.
    The answer has the lines printed, the end, and the delivery tasks, which are
    idle until the log is opened. *)
Definition boot (o : os) (walk : list dir_entry) (prime_ok : bool) (now : Z) (w : world)
    : list json * boot_end * pipe :=
  let e := os_env o in
  let w := (gauge M_SEGMENTS_CURRENT 0 (gauge M_BYTES_CURRENT 0 w).2).2 in
  let http := init_http_client header_value e in
  let '((initial, _), out) :=
    if is_http_ingest e then init_retry_worker retry_channel e no_output
    else ((DEFAULT_BACKOFF_INITIAL_SECS, DEFAULT_BACKOFF_MAX_SECS), no_output) in
  let delivery out s := Pipe out s (Worker initial circuit_init) None [] [] in
  let idle := delivery out (fresh_wal (wal_config_from_env e) w) in
  match check_privileges o with
  | Err err => ([], Failed err, idle)
  | Ok _ =>
      match ebpf_path o with
      | Err err => ([], Failed err, idle)
      | Ok path =>
          let window_secs := read_env_u64 "STATIX_WINDOW_SECS" 10 e in
          let node := read_node_name e (etc_hostname o) in
          let raw_events := bool_decide (var "STATIX_RAW_EVENTS" e = Some "1") in
          let '(out, s) := if is_http_ingest e then init_wal append_channel e w out
                           else (out, fresh_wal (wal_config_from_env e) w) in
          let p := delivery out s in
          match start_bpf o path with
          | Err err => ([], Failed err, p)
          | Ok (bpf, drops, ring) =>
              match instant_add (instant_secs o) window_secs with
              | None => ([], Panicked "overflow when adding duration to instant", p)
              | Some first =>
                  if negb (sigterm_installed o) then ([READY], Panicked "failed to install SIGTERM handler", p)
                  else ([READY],
                        Looping (Started bpf drops ring http first window_secs node raw_events (k8s_configured e)
                                   (spawn_k8s_watcher e)
                                   (agent_start (var "STATIX_CGROUP_ROOT" e) now walk prime_ok out)),
                        p)
              end
          end
      end
  end.

(** ** Properties *)

Abbreviation start := (start_delivery retry_channel append_channel).

(** [main] sets the log's gauges, and [init_wal] sets them again. *)
Definition gauged (w : world) : world := (gauge M_SEGMENTS_CURRENT 0 (gauge M_BYTES_CURRENT 0 w).2).2.

Lemma gauged_twice w : gauged (gauged w) = gauged w.
Proof.
  assert (Hne : M_SEGMENTS_CURRENT <> M_BYTES_CURRENT) by done. unfold gauged, gauge, modify, gauge_set. cbn [snd].
  generalize dependent M_SEGMENTS_CURRENT. generalize M_BYTES_CURRENT. intros b s Hne. unfold set_w_metrics.
  cbn [w_metrics w_dir w_files w_durable w_faults]. f_equal.
  by rewrite (insert_insert_ne _ b s), !insert_insert_eq by congruence.
Qed.

(** The delivery tasks of a start that opens the log are those of [start_delivery]. *)
Lemma boot_delivery e w :
  let '((initial, _), out) :=
    if is_http_ingest e then init_retry_worker retry_channel e no_output
    else ((DEFAULT_BACKOFF_INITIAL_SECS, DEFAULT_BACKOFF_MAX_SECS), no_output) in
  let '(out, s) := if is_http_ingest e then init_wal append_channel e (gauged w) out
                   else (out, fresh_wal (wal_config_from_env e) (gauged w)) in
  Pipe out s (Worker initial circuit_init) None [] []
  = start e (if is_http_ingest e then w else gauged w).
Proof.
  unfold start_delivery. destruct (is_http_ingest e); [|done].
  assert (E : forall o, init_wal append_channel e (gauged w) o = init_wal append_channel e w o).
  { intros o. unfold init_wal. fold (gauged (gauged w)) (gauged w). by rewrite gauged_twice. }
  destruct (init_retry_worker retry_channel e no_output) as [[initial maxb] o]. rewrite E.
  by destruct (init_wal append_channel e w o).
Qed.

(** What the directory holds: the frames [fs], in segments that [recover] can restore. *)
Definition stores (w : world) (segs : list (list DecodedFrame)) : Prop :=
  healthy w /\ w_dir w = true
  /\ exists l, image (w_files w) l /\ survivors l = segs /\ sumZ meta_bytes (survivor_metas l) < 2 ^ 64.

(** Starting the delivery tasks repairs the directory and keeps every frame. *)
Lemma start_stores e w segs : stores w segs -> stores (disk (p_log (start e w))) segs.
Proof.
  intros (Hh & Hd & l & Him & <- & Hroom). unfold start_delivery, init_wal.
  destruct (is_http_ingest e); [|by split; [|split; [|exists l]]].
  cbn [init_retry_worker no_output retry]. destruct (enabled _); cbn [negb]; [|by split; [|split; [|exists l]]].
  fold (gauged w). assert (Hd' : w_dir (gauged w) = true) by done.
  pose proof (recover_spec (wal_config_from_env e) l (gauged w) Hh Hd' Him Hroom) as H. unfold wp in H.
  pose proof (sets_recover (wal_config_from_env e) (gauged w) Hd') as Hdir.
  unfold wal_open, mbind, M_bind. destruct (recover _ (gauged w)) as [r w1]. cbn [fst snd] in *.
  destruct H as (Hh1 & st & -> & _ & _ & _ & _ & _ & Him1). cbn. split; [done|]. split; [done|].
  destruct (repaired_survivors l) as [E1 E2]. exists (repaired l). by rewrite E1, E2.
Qed.

(** What [boot] leaves of the delivery tasks: idle, over the disk as it was, or
    those of [start_delivery]. *)
Lemma boot_pipe o walk prime_ok now w :
  let p := (boot o walk prime_ok now w).2 in
  (wal (p_out p) = None /\ disk (p_log p) = gauged w)
  \/ p = start (os_env o) (if is_http_ingest (os_env o) then w else gauged w).
Proof.
  cbn zeta. unfold boot. fold (gauged w). pose proof (boot_delivery (os_env o) w) as Hp.
  set (init := if is_http_ingest _ then init_retry_worker _ _ _ else _) in *.
  assert (Hout : wal init.2 = None) by (subst init; by destruct (is_http_ingest _)).
  destruct init as [[initial maxb] out]. cbn [snd] in Hout. cbn zeta.
  destruct (check_privileges o); [|by left]. destruct (ebpf_path o) as [path|]; [|by left].
  cbv beta iota in Hp |- *. destruct (if is_http_ingest _ then init_wal _ _ _ _ else _) as [out' s].
  right. rewrite <- Hp.
  destruct (start_bpf o path) as [[[bpf drops] ring]|]; [|done].
  destruct (instant_add _ _); [|done]. by destruct (negb _).
Qed.

Lemma boot_stores o walk prime_ok now w segs :
  stores w segs -> stores (disk (p_log (boot o walk prime_ok now w).2)) segs.
Proof.
  intros H. assert (Hg : stores (gauged w) segs) by exact H.
  destruct (boot_pipe o walk prime_ok now w) as [[_ E]|E]; rewrite E; [done|].
  apply start_stores. by destruct (is_http_ingest _).
Qed.

(** One attempt to start, and what the next one finds. *)
Record attempt : Type := Attempt { at_os : os; at_walk : list dir_entry; at_prime_ok : bool; at_now : Z }.

Definition attempted (w : world) (a : attempt) : world :=
  restarted (disk (p_log (boot (at_os a) (at_walk a) (at_prime_ok a) (at_now a) w).2)).

Lemma attempts_store attempts w segs : stores w segs -> stores (foldl attempted w attempts) segs.
Proof.
  revert w. induction attempts as [|a attempts IH]; intros w H; [done|]. apply IH.
  exact (boot_stores (at_os a) (at_walk a) (at_prime_ok a) (at_now a) w segs H).
Qed.

Definition NOT_ROOT : boot_error := Bail "Must run as root or with CAP_BPF + CAP_PERFMON (+ CAP_SYS_ADMIN for cgroup reads).".

Lemma watcher_cases e :
  (k8s_configured e = false -> spawn_k8s_watcher e = None)
  /\ (k8s_configured e = true -> spawn_k8s_watcher e = None <-> is_ok (k8s_client e) = false).
Proof.
  unfold spawn_k8s_watcher. destruct (k8s_configured e); cbn [negb]; [|done]. split; [done|]. intros _.
  by destruct (k8s_client e).
Qed.

(** C21: a start ends in one of five ways, and leaves the log to match.  Only uid 0
    gets past the first check.  A start refused there, or for want of an object
    file, has not touched the disk and has no log; every later failure comes after
    the log was recovered and its tasks started, as [start_delivery] does.  Nothing
    is printed before the program is attached, its maps found and the window's end
    computed, which panics when it does not fit the clock.  A start that reaches the
    loop has the first flush one full window ahead, runs on the delivery tasks it
    started, and watches pods exactly when Kubernetes is configured and the client
    could be made; when it could not, the loop still waits for the watcher. *)
Theorem a_start_ends_in_one_of_five_ways o walk prime_ok now w :
  let e := os_env o in
  let delivery := start e (if is_http_ingest e then w else gauged w) in
  let '(printed, fin, p) := boot o walk prime_ok now w in
  match fin with
  | Failed err =>
      printed = []
      /\ ((geteuid o <> 0 /\ err = NOT_ROOT \/ geteuid o = 0 /\ ebpf_path o = Err err)
          /\ wal (p_out p) = None /\ disk (p_log p) = gauged w
          \/ exists path, geteuid o = 0 /\ ebpf_path o = Ok path /\ start_bpf o path = Err err /\ p = delivery)
  | Panicked _ =>
      p = delivery
      /\ (printed = [] /\ 2 ^ 63 <= instant_secs o + read_env_u64 "STATIX_WINDOW_SECS" 10 e
          \/ printed = [READY] /\ sigterm_installed o = false)
  | Looping s =>
      printed = [READY] /\ p = delivery /\ geteuid o = 0
      /\ sd_agent s = agent_start (var "STATIX_CGROUP_ROOT" e) now walk prime_ok (p_out p)
      /\ (exists path, ebpf_path o = Ok path /\ start_bpf o path = Ok (sd_bpf s, sd_drops s, sd_ring s))
      /\ 0 < sd_window s < 2 ^ 64 /\ sd_first_flush s = instant_secs o + sd_window s
      /\ sd_in_k8s s = k8s_configured e
      /\ (sd_in_k8s s = false -> sd_watcher s = None)
      /\ (sd_in_k8s s = true -> sd_watcher s = None <-> is_ok (k8s_client e) = false)
  end.
Proof.
  cbn zeta. unfold boot. fold (gauged w). pose proof (boot_delivery (os_env o) w) as Hp.
  set (init := if is_http_ingest _ then init_retry_worker _ _ _ else _) in *.
  assert (Hout : wal init.2 = None) by (subst init; by destruct (is_http_ingest _)).
  destruct init as [[initial maxb] out]. cbn [snd] in Hout. cbn zeta. cbv beta iota in Hp |- *.
  assert (Hroot : check_privileges o = if negb (geteuid o =? 0) then Err NOT_ROOT else Ok tt) by done.
  rewrite Hroot. destruct (Z.eqb_spec (geteuid o) 0) as [E0|E0]; cbn [negb].
  2:{ split; [done|]. left. split; [by left|done]. }
  destruct (ebpf_path o) as [path|err]; [|split; [done|]; left; split; [by right|done]].
  destruct (if is_http_ingest _ then init_wal _ _ _ _ else _) as [out' s].
  destruct (start_bpf o path) as [[[bpf drops] ring]|err] eqn:Eb; [|split; [done|]; right; by exists path].
  pose proof (read_env_u64_range "STATIX_WINDOW_SECS" 10 (os_env o) ltac:(done)) as Hwin.
  unfold instant_add. destruct (Z.ltb_spec (instant_secs o + read_env_u64 "STATIX_WINDOW_SECS" 10 (os_env o)) (2 ^ 63)) as [Hlt|Hge];
    [|split; [done|by left]].
  destruct (sigterm_installed o); cbn [negb]; [|split; [done|by right]].
  split; [done|]. split; [done|]. split; [done|]. split; [done|]. split; [by exists path|].
  split; [done|]. split; [done|]. split; [done|]. apply watcher_cases.
Qed.

(** C13: a crash loop loses nothing of the log.  However often the agent is started
    and ends again before its delivery tasks take a turn, for whatever reason, with
    whatever settings, and whatever the previous process left in the directory of
    segment files, each complete frame in it is still there, in its segment and its
    order, and all of them wait for delivery as soon as a start opens the log. *)
Theorem failed_starts_keep_the_log attempts e w segs :
  stores w segs -> queued retry_channel = [] -> queued append_channel = [] ->
  is_http_ingest e = true -> enabled (wal_config_from_env e) = true ->
  let w' := foldl attempted w attempts in
  stores w' segs
  /\ (margin 0 (p_log (start e w')) ->
      pipe_inv 0 (start e w') (concat segs) /\ waiting (start e w') (concat segs) = payload <$> concat segs).
Proof.
  intros Hs Hr Ha Hu He. cbn zeta. pose proof (attempts_store attempts w segs Hs) as H. split; [done|]. intros Hm.
  destruct H as (Hh & Hd & l & Him & <- & Hroom).
  by destruct (start_delivery_log retry_channel append_channel e _ l 0 Hu He Hh Hd Him Hroom Hr Ha Hm) as (? & ? & _).
Qed.

End Boot.

(** An object that the CI check accepts is one the agent's loader gets past the
    verifier, and conversely: on the same system, [statix-ebpf-verify] accepts a
    path exactly when raising the limit, reading the file and loading it succeed,
    and the agent then fails only over the program's name, type, load or
    attachment. *)
Theorem verified_objects_load {AY : Aya} (o : os) path :
  os_args o !! 1%nat = Some path ->
  (is_ok (verify_run o) = true <->
   setrlimit_memlock o = 0 /\ exists bytes bpf, read_file o path = Ok bytes /\ ebpf_load bytes = Ok bpf)
  /\ (is_ok (load_and_attach o path) = true -> verify_run o = Ok path)
  /\ (verify_run o = Ok path -> exists bpf, load_and_attach o path = attach_sched_process_exec bpf).
Proof.
  intros Hp. unfold verify_run, load_and_attach, bump_memlock_rlimit. rewrite Hp. cbn [ok_or mbind res_bind].
  destruct (Z.eqb_spec (setrlimit_memlock o) 0) as [E|E]; cbn [negb map_err mbind res_bind is_ok].
  2:{ split; [|done]. split; [done|by intros [? _]]. }
  destruct (read_file o path) as [bytes|err]; cbn [map_err mbind res_bind is_ok].
  2:{ split; [|done]. split; [done|]. by intros (_ & ? & ? & ? & _). }
  destruct (ebpf_load bytes) as [bpf|err] eqn:El; cbn [map_err mbind res_bind is_ok].
  2:{ split; [|done]. split; [done|]. intros (_ & b & bpf & Eb & E2). injection Eb as <-. by rewrite El in E2. }
  split; [split; [intros _; split; [done|by exists bytes, bpf]|done]|]. split; [done|by exists bpf].
Qed.

(** ** Witnesses *)

(** A library that loads every file that is not empty. *)
Definition any_file : Aya := {|
  Ebpf := list Z; Program := unit; TracePoint := unit; BpfMap := unit; PerCpuArray := unit; RingBuf := unit;
  bpf_error := unit;
  ebpf_load := fun bytes => match bytes with [] => Err tt | _ => Ok bytes end;
  program_mut := fun _ bpf => Some (tt, fun _ => bpf);
  as_trace_point := fun p => Ok (p, id);
  program_load := Ok;
  program_attach := fun _ _ => Ok;
  take_map := fun _ bpf => Some (tt, bpf);
  map_mut := fun _ _ => Some tt;
  per_cpu_array := Ok;
  ring_buf := Ok
|}.

(** No cluster. *)
Definition no_cluster : Kube := {|
  Client := Empty_set; Kubeconfig := unit; KubeConfig := unit; kube_error := unit;
  try_default := Err tt; read_kubeconfig := fun _ => Err tt; from_custom_kubeconfig := Ok;
  client_try_from := fun _ => Err tt
|}.

Definition sample_os (uid : Z) (found : bool) (content : list Z) : os (AY := any_file) :=
  {| os_env := restart_env; os_args := ["statix-ebpf-verify"; "/bpf/small"]; geteuid := uid; setrlimit_memlock := 0;
     last_os_error := ""; read_file := fun _ => Ok content; is_file := fun _ => found; num_cpus := 4;
     bundle_dir := "/bpf"; etc_hostname := None; async_fd := fun _ => Ok tt; instant_secs := 100;
     sigterm_installed := true |}.

(** Not root; no object; an object the kernel refuses, after the log was opened. *)
Definition crash_loop : list (attempt (AY := any_file)) :=
  [Attempt (AY := any_file) (sample_os 1000 true []) [] true 0; Attempt (AY := any_file) (sample_os 0 false []) [] true 0;
   Attempt (AY := any_file) (sample_os 0 true []) [] true 0].

Definition no_files : CgroupFs := {| fs_files := fun _ _ => GotBytes ""; nlink := fun _ => None |}.

Lemma crash_world_stores : stores crash_world [[Frame 8 (sample_payload 1); Frame 9 (sample_payload 2)]; [Frame 10 (sample_payload 3)]].
Proof. split; [done|]. split; [done|]. exists crash_entries. split; [exact crash_image|]. by vm_compute. Qed.

Lemma failed_starts_keep_the_log_witness :
  let w' := foldl (attempted (K := no_cluster) (FS := no_files) (empty_channel 60) (empty_channel 256) (fun _ => true))
              crash_world crash_loop in
  let p := start_delivery (empty_channel 60) (empty_channel 256) restart_env w' in
  stores w' [[Frame 8 (sample_payload 1); Frame 9 (sample_payload 2)]; [Frame 10 (sample_payload 3)]]
  /\ waiting p [Frame 8 (sample_payload 1); Frame 9 (sample_payload 2); Frame 10 (sample_payload 3)]
     = [sample_payload 1; sample_payload 2; sample_payload 3].
Proof.
  destruct (failed_starts_keep_the_log (K := no_cluster) (FS := no_files) (empty_channel 60) (empty_channel 256)
    (fun _ => true) crash_loop restart_env crash_world _ crash_world_stores) as [H1 H2];
    [reflexivity|reflexivity|by vm_compute|by vm_compute|].
  split; [exact H1|]. apply H2. split; by vm_compute.
Defined.

Lemma verified_objects_load_witness :
  is_ok (verify_run (sample_os 0 true [1])) = true
  /\ (is_ok (load_and_attach (sample_os 0 true [1]) "/bpf/small") = true -> verify_run (sample_os 0 true [1]) = Ok "/bpf/small").
Proof.
  destruct (verified_objects_load (sample_os 0 true [1]) "/bpf/small" eq_refl) as (H1 & H2 & _).
  split; [apply H1; split; [reflexivity|by exists [1], [1]]|exact H2].
Defined.
