(* ===== verification/WalTests.v ===== *)
(** * WalTests: the unit tests of the log, run on the model

    The tests of [wal/segment.rs], [wal/mod.rs] and [wal/recovery.rs], translated
    statement by statement: an [assert!] is a conjunct, an [unwrap] of an error
    makes the test fail.  They run on the concrete checksum of [Segment], and show
    that the definitions of this library do what the authors expect of the code
    on the inputs they thought of. *)

From S2P Require Import Startup.

#[local] Open Scope Z_scope.

(** ** Test support *)

(** The directory [temp_dir] has made, with these files. *)
Definition temp_dir (files : gmap string bytes) : world := set_w_files files (set_w_dir true fresh_world).

(** Formatted payloads: an object with one field, and a string value that ends in a number. *)
Definition quoted_text (s : string) : bytes := [34] ++ text_bytes s ++ [34].

Definition json_text (key : string) (value : bytes) : bytes :=
  text_bytes "{" ++ quoted_text key ++ text_bytes ":" ++ value ++ text_bytes "}".

Definition decimal (i : nat) : string := dec (Z.of_nat i).
Definition with_number (key : string) (i : nat) : bytes := json_text key (text_bytes (decimal i)).
Definition with_label (key prefix : string) (i : nat) : bytes := json_text key (quoted_text (prefix +:+ decimal i)).

(** The channel to the writer thread, which the tests do not use. *)
Definition test_channel : @chan body (bounded_channel body) := empty_channel APPEND_CHANNEL_CAPACITY.

Definition cfg_for_test (seg max : Z) : WalConfig :=
  {| enabled := true; dir := "/wal"; max_bytes := max; segment_bytes := seg; fsync_frames := 1; fsync_interval := 200 |}.

Definition append_for_test (payload : bytes) : W unit :=
  append payload;;
  sync_active.

Definition total_bytes_for_test : W Z := get total_bytes.
Definition segment_count_for_test : W nat := get (fun st => length (segments st)).

(** [append_for_test(..).unwrap()] on each payload. *)
Fixpoint append_each (payloads : list bytes) : W unit :=
  match payloads with
  | [] => mret tt
  | p :: payloads => append_for_test p;; append_each payloads
  end.

(** [while let Some(f) = peek_next_blocking() { out.push(..); commit_blocking(); }],
    for at most [fuel] rounds. *)
Fixpoint drain_all (fuel : nat) : W (list bytes) :=
  match fuel with
  | O => fail IoFuel
  | S fuel =>
      f ← peek_next;
      match f with
      | None => mret []
      | Some f => commit_pending;; out ← drain_all fuel; mret (payload f :: out)
      end
  end.

(** [Wal::open(..).unwrap()], then the test. *)
Definition on_wal (c : WalConfig) (w : world) (test : W bool) : bool :=
  match wal_open (Channel0 := bounded_channel body) test_channel c w with
  | (Ok (inner, _), w) => match (test (WalState inner w)).1 with Ok b => b | Err _ => false end
  | (Err _, _) => false
  end.

Definition on_disk (test : IO bool) (w : world) : bool := match (test w).1 with Ok b => b | Err _ => false end.

(** The file of a test: a segment header, frames, and garbage. *)
Definition write_seg_with (frames : list (bytes * Z)) (trailing_garbage : bytes) : world :=
  temp_dir {[ segment_path 0 := encode_segment_header
    ++ concat ((fun x => encode_frame_header x.1 x.2 ++ x.1) <$> frames) ++ trailing_garbage ]}.

(** ** [wal/segment.rs] *)

Definition frame_round_trip_preserves_payload_and_seq : bool :=
  let payload := text_bytes "{" ++ quoted_text "node" ++ text_bytes ":" ++ quoted_text "n1" ++ text_bytes ","
                 ++ quoted_text "batch" ++ text_bytes ":42}" in
  on_disk (r ← read_frame_at (segment_path 0) SEGMENT_HEADER_LEN;
           match r with
           | FrameOk frame next =>
               mret (bool_decide (Segment.payload frame = payload) && (batch_seq frame =? 7)
                     && (next =? SEGMENT_HEADER_LEN + frame_len_on_disk (zlen payload)))
           | _ => mret false
           end)
    (write_seg_with [(payload, 7)] []).

Definition corrupt_payload_is_detected_by_crc : bool :=
  let w := write_seg_with [(text_bytes "hello-world-payload", 1)] [] in
  let content := file_bytes (segment_path 0) w in
  let flip := Z.to_nat (SEGMENT_HEADER_LEN + FRAME_HEADER_LEN + 2) in
  let content := alter (fun b => Z.lxor b 255) flip content in
  on_disk (fs_write_all (segment_path 0) 0 content;;
           r ← read_frame_at (segment_path 0) SEGMENT_HEADER_LEN;
           mret (match r with FrameCorrupt => true | _ => false end)) w.

Definition torn_tail_reads_as_end : bool :=
  on_disk (r ← read_frame_at (segment_path 0) SEGMENT_HEADER_LEN;
           match r with
           | FrameOk _ next =>
               r ← read_frame_at (segment_path 0) next;
               mret (match r with FrameEnd => true | _ => false end)
           | _ => mret false
           end)
    (write_seg_with [(text_bytes "good-frame", 1)] [170; 187; 204]).

Definition segment_header_validation : bool :=
  is_ok (validate_segment_header encode_segment_header)
  && negb (is_ok (validate_segment_header (<[0%nat := 88]> encode_segment_header))).

Definition seq_path_parses_round_trip : bool :=
  bool_decide (parse_segment_seq (segment_path 12345) = Some 12345)
  && bool_decide (parse_segment_seq "not-a-seg" = None).

(** ** [wal/mod.rs] *)

Definition append_then_drain_round_trips_all_frames : bool :=
  let n := 50%nat in
  let payloads := with_number "i" <$> seq 0 n in
  on_wal (cfg_for_test 4096 (2 ^ 20)) (temp_dir ∅)
    (append_each payloads;;
     out ← drain_all (S n);
     st ← get id;
     mret ((length out =? n)%nat && bool_decide (out = payloads) && negb (has_backlog st))).

Definition rotation_produces_multiple_segments : bool :=
  on_wal (cfg_for_test 128 (2 ^ 20)) (temp_dir ∅)
    (append_each (with_label "payload" "xxxxxxxxxxxx-" <$> seq 0 40);;
     n ← segment_count_for_test;
     mret (2 <=? n)%nat).

(** With the circuit in its first state, as the test sets it. *)
Definition circuit_trips_open_after_threshold_and_recovers : bool :=
  let stays := fun c => bool_decide (circuit_state c = Closed) in
  let early := (fun n => Nat.iter n record_post_failure circuit_init) <$> seq 0 (Z.to_nat OPEN_THRESHOLD) in
  let tripped := Nat.iter (Z.to_nat OPEN_THRESHOLD) record_post_failure circuit_init in
  let half := try_half_open tripped in
  let closed := record_post_success half in
  forallb stays early && bool_decide (circuit_state tripped = Open)
  && bool_decide (circuit_state half = HalfOpen) && stays closed && stays (record_post_failure closed).

(** The size-limited file system: after twelve calls one fails.  The loop breaks at
    the first error. *)
Definition enospc_is_handled_without_panic : bool :=
  let w := set_w_faults (replicate 12 OkFull ++ [Failed 100]) (temp_dir ∅) in
  let big := replicate (Z.to_nat (32 * 1024)) 120 in
  on_wal (cfg_for_test (64 * 1024) (2 ^ 40)) w
    (r ← attempt (append_each (replicate (Z.to_nat 100000) big));
     f ← attempt peek_next;
     mret (negb (is_ok r) && match f with Err IoPanic => false | _ => true end)).

Definition hard_cap_drops_oldest_segment : bool :=
  on_wal (cfg_for_test 128 300) (temp_dir ∅)
    (append_each (with_label "d" "yyyyyyyyyyyyyyyy-" <$> seq 0 200);;
     total ← total_bytes_for_test;
     f ← peek_next;
     mret ((total <=? 300 + 128) && bool_decide (is_Some f))).

(** ** [wal/recovery.rs] *)

Definition torn_tail_is_truncated_and_valid_frames_survive : bool :=
  let frames := (fun i => (with_number "i" i, Z.of_nat i)) <$> seq 0 5 in
  let w := write_seg_with frames [1; 2; 3; 4; 5] in
  let len_before := zlen (file_bytes (segment_path 0) w) in
  match wal_open (Channel0 := bounded_channel body) test_channel (cfg_for_test 4096 (2 ^ 20)) w with
  | (Ok (inner, _), w) =>
      match drain_all 6 (WalState inner w) with
      | (Ok out, s) => (length out =? 5)%nat && (zlen (file_bytes (segment_path 0) (disk s)) <? len_before)
      | _ => false
      end
  | _ => false
  end.

Definition corrupt_segment_header_is_dropped : bool :=
  let w := temp_dir {[ segment_path 0 := text_bytes "NOT-A-WAL-HEADER-junk-bytes-here" ]} in
  on_wal (cfg_for_test 4096 (2 ^ 20)) w
    (out ← drain_all 1;
     exists_ ← gets (fun s => bool_decide (is_Some (w_files (disk s) !! segment_path 0)));
     mret (bool_decide (out = []) && negb exists_)).

(** The handle is dropped and the directory opened again. *)
Definition crash_then_recover_loses_nothing_synced : bool :=
  let n := 120%nat in
  let c := cfg_for_test 4096 (2 ^ 20) in
  let payloads := with_number "seq" <$> seq 0 n in
  match wal_open (Channel0 := bounded_channel body) test_channel c (temp_dir ∅) with
  | (Ok (inner, _), w) =>
      match append_each payloads (WalState inner w) with
      | (Ok _, s) => on_wal c (disk s) (out ← drain_all (S n); mret ((length out =? n)%nat && bool_decide (out = payloads)))
      | _ => false
      end
  | _ => false
  end.

(** ** They pass *)

Example segment_tests_pass :
  [frame_round_trip_preserves_payload_and_seq; corrupt_payload_is_detected_by_crc; torn_tail_reads_as_end;
   segment_header_validation; seq_path_parses_round_trip] = replicate 5 true.
Proof. vm_compute. reflexivity. Qed.

Example wal_tests_pass :
  [append_then_drain_round_trips_all_frames; rotation_produces_multiple_segments;
   circuit_trips_open_after_threshold_and_recovers; enospc_is_handled_without_panic; hard_cap_drops_oldest_segment]
  = replicate 5 true.
Proof. vm_compute. reflexivity. Qed.

Example recovery_tests_pass :
  [torn_tail_is_truncated_and_valid_frames_survive; corrupt_segment_header_is_dropped;
   crash_then_recover_loses_nothing_synced] = replicate 3 true.
Proof. vm_compute. reflexivity. Qed.
