(* ===== verification/AgentTests.v ===== *)
(** * AgentTests: the unit tests of the agent's measurement, run on the model

    The tests of [attribution/mod.rs], [memory_sampler.rs], [statix-wire] and
    [statix-infra/src/env.rs], as in [WalTests]: an [assert!] is a conjunct.  A
    file that a test writes is the answer of [KernelFiles]; a JSON text is its
    value tree. *)

From S2P Require Import Config Sampler.

#[local] Open Scope string_scope.
#[local] Open Scope Z_scope.

#[local] Instance resources_eq_dec : EqDecision Resources.
Proof. solve_decision. Defined.

(** ** [attribution/mod.rs] *)

Definition ID_A : string := "af223617009e7b29a5359185bbe2a9b79b296314cc8e4eca93ecbd19d7c0daae".
Definition ID_B : string := "b01aa86080a7764f1c493ede232c77d5abea6632756dc61ae95abd7fbd0698f6".

Definition container_status (name id : string) : ContainerStatus :=
  {| cs_name := name; cs_container_id := Some ("containerd://" +:+ id) |}.

Definition pod_info_maps_container_ids_to_names : bool :=
  let pod := {| meta_uid := Some "2b7669e8-6828-4310-9a1f-0eaad6933466"; meta_namespace := Some "default";
                meta_name := Some "reqtest-7694f84d54-84klg";
                pod_status := Some {| container_statuses := Some [container_status "web" ID_A];
                  init_container_statuses := Some [container_status "init-db" ID_B];
                  ephemeral_container_statuses := None |};
                pod_spec := None |} in
  match pod_info_from pod with
  | Some (uid, info) =>
      bool_decide (uid = "2b7669e8-6828-4310-9a1f-0eaad6933466")
      && bool_decide (pi_name info = "reqtest-7694f84d54-84klg")
      && bool_decide (pi_containers info !! ID_A = Some "web")
      && bool_decide (pi_containers info !! ID_B = Some "init-db")
  | None => false
  end.

Definition container_name_in_pod_cases : bool :=
  let pod := {| pi_namespace := ""; pi_name := ""; pi_containers := {[ ID_A := "web" ]}; pi_resources := ∅ |} in
  let web := "cri-containerd-" +:+ (ID_A +:+ ".scope") in
  let pause := "cri-containerd-" +:+ (ID_B +:+ ".scope") in
  let conmon := "crio-conmon-" +:+ (ID_A +:+ ".scope") in
  bool_decide (container_name_in_pod web pod = Some "web")
  && bool_decide (container_name_in_pod pause pod = None)
  && bool_decide (container_name_in_pod conmon pod = None).

(** The files a test has written, by name. *)
Definition test_files (files : gmap string string) : KernelFiles := fun p n =>
  match file_name p ≫= (files !!.) with Some content => GotBytes (take_string n content) | None => CannotOpen end.

Definition lines (l : list string) : string := foldr (fun x acc => x +:+ String newline acc) "" l.

(** [result.unwrap() == want]. *)
Definition gives {E} (r : res E Z) (want : Z) : bool := match r with Ok v => v =? want | Err _ => false end.

Definition phase14_read_cpu_usage_usec_at_parses : bool :=
  let K := test_files {[ "cpu.stat" := lines ["usage_usec 123456"; "nr_periods 10"] ]} in
  gives (read_cpu_usage_usec_at (K := K) (Path true ["cpu.stat"])) 123456.

Definition phase14_soft_miss_memory_still_works : bool :=
  let K := test_files {[ "memory.current" := "4096" ]} in
  negb (is_ok (read_cpu_usage_usec_at (K := K) (Path true ["cpu.stat"])))
  && gives (read_memory_current_at (K := K) (Path true ["memory.current"])) 4096.

Definition working_set_reads_inactive_file : bool :=
  let K := test_files {[ "memory.stat" := lines ["anon 100"; "file 900"; "inactive_anon 0"; "active_anon 100";
                                               "inactive_file 700"; "active_file 200"] ]} in
  bool_decide (read_inactive_file_at (K := K) (Path true ["memory.stat"]) = Some 700).

Definition working_set_missing_memory_stat_is_none : bool :=
  bool_decide (read_inactive_file_at (K := test_files ∅) (Path true ["memory.stat"]) = None).

Definition pod_uid_every_layout : bool :=
  let want := Some "2b7669e8-6828-4310-9a1f-0eaad6933466" in
  let burstable := "/kubepods.slice/kubepods-burstable.slice/kubepods-burstable-pod2b7669e8_6828_4310_9a1f_0eaad6933466.slice/cri-containerd-af22.scope" in
  let guaranteed := "/kubepods.slice/kubepods-pod2b7669e8_6828_4310_9a1f_0eaad6933466.slice/cri-containerd-af22.scope" in
  let cgroupfs := "/kubepods/besteffort/pod2b7669e8-6828-4310-9a1f-0eaad6933466/af22" in
  forallb (fun p => bool_decide (pod_uid_from_path (parse_path p) = want)) [burstable; guaranteed; cgroupfs].

Definition pod_uid_none_outside_kubernetes : bool :=
  bool_decide (pod_uid_from_path (parse_path "/system.slice/ssh.service") = None)
  && bool_decide (pod_uid_from_path (parse_path "/kubepods.slice/kubepods-burstable.slice") = None).

Definition container_id_every_runtime : bool :=
  forallb (fun name => bool_decide (container_id_from_dir_name name = Some ID_A))
    ["cri-containerd-" +:+ (ID_A +:+ ".scope"); "crio-" +:+ (ID_A +:+ ".scope"); "docker-" +:+ (ID_A +:+ ".scope"); ID_A].

Definition container_id_none_for_non_containers : bool :=
  forallb (fun name => bool_decide (container_id_from_dir_name name = None))
    ["kubepods-burstable-pod2b7669e8_6828_4310_9a1f_0eaad6933466.slice"; "ssh.service"; "session-4.scope";
     "cri-containerd-tooshort.scope"].

Definition cpu_quantities : bool :=
  forallb (fun '(q, want) => bool_decide (cpu_millicores q = Some want))
    [("250m", 250); ("100m", 100); ("1", 1000); ("0.5", 500); ("1.5", 1500); ("2", 2000)]
  && forallb (fun bad => bool_decide (cpu_millicores bad = None)) [""; "abc"; "-1"; "inf"].

Definition memory_quantities : bool :=
  forallb (fun '(q, want) => bool_decide (memory_bytes_of q = Some want))
    [("128Mi", Z.shiftl 128 20); ("1Gi", Z.shiftl 1 30); ("64Ki", Z.shiftl 64 10); ("500M", 500000000);
     ("1G", 1000000000); ("1k", 1000); ("134217728", 134217728); ("1e9", 1000000000); ("1.5Gi", Z.shiftl 3 29)]
  && forallb (fun bad => bool_decide (memory_bytes_of bad = None)) [""; "abc"; "-1Gi"; "inf"].

Definition pod_info_reads_requests_and_limits : bool :=
  let pod := {| meta_uid := Some "2b7669e8-6828-4310-9a1f-0eaad6933466"; meta_namespace := Some "default";
                meta_name := Some "reqtest"; pod_status := None;
                pod_spec := Some {| containers :=
                  [{| c_name := "web"; c_resources := Some
                      {| rr_requests := Some {["cpu" := "250m"; "memory" := "128Mi"]};
                         rr_limits := Some {["cpu" := "500m"; "memory" := "256Mi"]} |} |};
                   {| c_name := "sidecar"; c_resources := Some
                      {| rr_requests := Some {["cpu" := "50m"; "memory" := "32Mi"]}; rr_limits := None |} |}];
                  init_containers := None |} |} in
  match pod_info_from pod with
  | Some (_, info) =>
      bool_decide (pi_resources info !! "web" =
        Some {| res_cpu_request_millicores := 250; res_memory_request_bytes := Z.shiftl 128 20;
                res_cpu_limit_millicores := 500; res_memory_limit_bytes := Z.shiftl 256 20 |})
      && bool_decide (res_cpu_request_millicores <$> pi_resources info !! "sidecar" = Some 50)
      && bool_decide (res_memory_limit_bytes <$> pi_resources info !! "sidecar" = Some 0)
  | None => false
  end.

(** ** [memory_sampler.rs] *)

Definition phase14_priming_first_read_emits_no_delta : bool :=
  let lifetime_usec := 5000000000 in
  let '(d, baseline) := cpu_delta ∅ 42 lifetime_usec in
  bool_decide (d = None) && bool_decide (baseline !! 42 = Some lifetime_usec).

Definition phase14_second_read_emits_small_delta : bool :=
  let lifetime_usec := 5000000000 in
  let '(d1, baseline) := cpu_delta ∅ 42 lifetime_usec in
  let '(d2, _) := cpu_delta baseline 42 (lifetime_usec + 80000) in
  bool_decide (d1 = None) && bool_decide (d2 = Some 80000) && (80000 <? 1000000).

Definition phase14_conservation_deltas_sum_to_span : bool :=
  let readings := [1000; 1050; 1120; 1200] in
  let '(total_delta, _) :=
    foldl (fun '(total, baseline) current =>
             let '(d, baseline) := cpu_delta baseline 1 current in (total + default 0 d, baseline)) (0, ∅) readings in
  total_delta =? default 0 (last readings) - default 0 (head readings).

Definition phase14_saturating_sub_guards_regression : bool :=
  let '(d1, baseline) := cpu_delta ∅ 1 100 in
  let '(d2, _) := cpu_delta baseline 1 50 in
  bool_decide (d1 = None) && bool_decide (d2 = Some 0).

(** ** [statix-wire] *)

Definition v2_row_json : list (string * json) :=
  [("cgroup_id", JNum 1); ("k8s_resolved", JBool false); ("memory_bytes_max", JNum 0); ("memory_bytes_last", JNum 0);
   ("exec_count", JNum 0); ("sample_count", JNum 0)].

Definition workload_row_v2_missing_cpu_defaults_to_zero : bool :=
  bool_decide (cpu_usage_usec <$> row_of_json (JObj v2_row_json) = Some 0).

Definition workload_row_v4_round_trip : bool :=
  let row := {| cgroup_id := 42; namespace := None; pod := None; container := None; k8s_resolved := false;
                memory_bytes_max := 100; memory_bytes_last := 50; exec_count := 1; sample_count := 2;
                cpu_usage_usec := 12345; cpu_request_millicores := 250; memory_request_bytes := Z.shiftl 128 20;
                cpu_limit_millicores := 500; memory_limit_bytes := Z.shiftl 256 20 |} in
  match row_of_json (row_to_json row) with
  | Some parsed =>
      (cpu_usage_usec parsed =? 12345) && (cpu_request_millicores parsed =? 250)
      && (memory_limit_bytes parsed =? Z.shiftl 256 20)
  | None => false
  end.

Definition workload_row_v3_missing_resources_default_to_zero : bool :=
  match row_of_json (JObj (v2_row_json ++ [("cpu_usage_usec", JNum 5)])) with
  | Some row => (cpu_request_millicores row =? 0) && (memory_limit_bytes row =? 0)
  | None => false
  end.

(** ** [statix-infra/src/env.rs] *)

Definition read_env_u64_rejects_zero_and_negative_strings : bool :=
  let key := "STATIX_TEST_U64_POSITIVE" in
  (read_env_u64 key 42 {[ key := "0" ]} =? 42) && (read_env_u64 key 42 {[ key := "-1" ]} =? 42)
  && (read_env_u64 key 42 {[ key := "10" ]} =? 10).

Definition read_env_usize_rejects_zero : bool :=
  let key := "STATIX_TEST_USIZE_POSITIVE" in
  (read_env_usize key 99 {[ key := "0" ]} =? 99) && (read_env_usize key 99 {[ key := "5" ]} =? 5).

(** ** They pass *)

Example attribution_tests_pass :
  [pod_info_maps_container_ids_to_names; container_name_in_pod_cases; phase14_read_cpu_usage_usec_at_parses;
   phase14_soft_miss_memory_still_works; working_set_reads_inactive_file; working_set_missing_memory_stat_is_none;
   pod_uid_every_layout; pod_uid_none_outside_kubernetes; container_id_every_runtime;
   container_id_none_for_non_containers; cpu_quantities; memory_quantities; pod_info_reads_requests_and_limits]
  = replicate 13 true.
Proof. vm_compute. reflexivity. Qed.

Example sampler_tests_pass :
  [phase14_priming_first_read_emits_no_delta; phase14_second_read_emits_small_delta;
   phase14_conservation_deltas_sum_to_span; phase14_saturating_sub_guards_regression] = replicate 4 true.
Proof. vm_compute. reflexivity. Qed.

Example wire_and_env_tests_pass :
  [workload_row_v2_missing_cpu_defaults_to_zero; workload_row_v4_round_trip;
   workload_row_v3_missing_resources_default_to_zero; read_env_u64_rejects_zero_and_negative_strings;
   read_env_usize_rejects_zero] = replicate 5 true.
Proof. vm_compute. reflexivity. Qed.
