(* ===== verification/GatewayTests.v ===== *)
(** * GatewayTests: the unit tests of the gateway, run on the model

    The tests of [config.rs], [main.rs] and [routes/dashboard/], as in [WalTests].
    Time is in nanoseconds; a [sleep] is a later reading of the clock. *)

From S2P Require Import Config Dashboard.

#[local] Open Scope string_scope.
#[local] Open Scope Z_scope.

(** ** [config.rs] *)

Definition test_config (api_token : option string) : GatewayConfig :=
  {| api_port := 3000; api_token := api_token; expected_bearer := (fun t => "Bearer " +:+ t) <$> api_token;
     clickhouse_url := ""; clickhouse_user := ""; clickhouse_password := "" |}.

Definition expected_bearer_formats_token : bool :=
  bool_decide (expected_bearer (test_config (Some "secret")) = Some "Bearer secret").

Definition expected_bearer_none_without_token : bool := bool_decide (expected_bearer (test_config None) = None).

(** ** [main.rs] *)

Definition over_threshold_when_more_than_80_percent_full : bool := ingest_channel_over_threshold 1000 8192 80.
Definition under_threshold_when_half_full : bool := negb (ingest_channel_over_threshold 4096 8192 80).

(** ** [dashboard/cache.rs] *)

Definition millis (n : Z) : Z := n * 1000000.
Definition secs (n : Z) : Z := n * 1000000000.

Abbreviation put := (cache_put map_to_list).

Definition returns_fresh_entry_and_expires_stale_one : bool :=
  let c := put "k" "body" false 0 (new_ttl_cache (millis 50) 8) in
  let '(fresh, c) := cache_get "k" 0 c in
  let '(stale, _) := cache_get "k" (millis 70) c in
  bool_decide (fresh = Some "body") && bool_decide (stale = None).

Definition identical_params_share_one_entry : bool :=
  let c := put "range=300&sort=cpu" "payload" true 0 (new_ttl_cache (secs 5) 8) in
  let '(hit, c) := cache_get "range=300&sort=cpu" 0 c in
  bool_decide (hit = Some "payload") && (hits c =? 1).

Definition junk_filters_never_evict_the_default_view : bool :=
  let c := put "default" "hot" true 0 (new_ttl_cache (secs 5) 4) in
  let c := foldl (fun c i => put ("q=junk" +:+ dec (Z.of_nat i)) "x" false 0 c) c (seq 0 50) in
  bool_decide ((cache_get "default" 0 c).1 = Some "hot").

Definition rate_limiter_caps_then_refills_next_window : bool :=
  let '(a1, rl) := allow 0 (new_rate_limiter 3 (millis 50) 0) in
  let '(a2, rl) := allow 0 rl in
  let '(a3, rl) := allow 0 rl in
  let '(a4, rl) := allow 0 rl in
  let '(a5, _) := allow (millis 70) rl in
  a1 && a2 && a3 && negb a4 && a5.

(** ** [dashboard/mod.rs] *)

Definition params (q : option string) (limit : option Z) : StateParams :=
  {| p_range_secs := None; p_sort := None; p_order := None; p_q := q; p_node := None; p_unattributed := None;
     p_limit := limit |}.

(** On ASCII, [to_lowercase] is [to_ascii_lowercase]. *)
Definition new_query (p : StateParams) : NormalizedQuery := normalize to_ascii_lowercase p 500.

Definition same_question_yields_same_key_regardless_of_caller : bool :=
  bool_decide (cache_key (new_query (params None None)) = cache_key (new_query (params None None))).

Definition q_is_bounded_trimmed_and_lowercased : bool :=
  let long := String.string_of_list_ascii (replicate 500 (ascii_of_nat 65)) in
  match q_text (new_query (params (Some long) None)) with
  | Some q => (String.length q =? MAX_Q_LEN)%nat
              && forallb (fun c => bool_decide (c = ascii_of_nat 97)) (String.list_ascii_of_string q)
  | None => false
  end
  && bool_decide (q_text (new_query (params (Some "  NgInX  ") None)) = Some "nginx")
  && bool_decide (q_text (new_query (params (Some "   ") None)) = None).

Definition limit_is_clamped_to_configured_max : bool :=
  (q_limit (new_query (params None (Some 99999))) =? 500) && (q_limit (new_query (params None (Some 0))) =? 1)
  && (q_limit (new_query (params None None)) =? DEFAULT_LIMIT).

Definition range_is_clamped_to_supported_horizons : bool :=
  let mk s := range_secs (new_query {| p_range_secs := Some s; p_sort := None; p_order := None; p_q := None; p_node := None;
                                       p_unattributed := None; p_limit := None |}) in
  (mk 1 =? MIN_RANGE_SECS) && (mk 999999 =? MAX_RANGE_SECS) && (mk 900 =? 900).

Definition only_unfiltered_views_are_pinned : bool :=
  is_hot_view (new_query (params None None)) && negb (is_hot_view (new_query (params (Some "nginx") None)))
  && filter_active (new_query (params (Some "x") None)).

Definition cutoff_is_range_seconds_behind_now : bool :=
  let n := new_query (params None None) in
  let now := 1000 * 1000000000 in
  (query_cutoff_ns n now =? now - DEFAULT_RANGE_SECS * 1000000000) && (query_cutoff_ns n 5 =? 0).

(** ** [dashboard/sql.rs] *)

(** [str::find] and [str::contains]. *)
Definition find (pattern s : string) : option nat := (fun x => String.length x.1) <$> split_once pattern s.
Definition contains (s pattern : string) : bool := bool_decide (is_Some (find pattern s)).

Definition aggregate_aliases_never_shadow_source_columns : bool :=
  let inner_sql := Sql.inner false in
  forallb (fun col => negb (contains inner_sql ("AS " +:+ (col +:+ String newline "")))
                      && negb (contains inner_sql ("AS " +:+ (col +:+ ","))))
    ["window_start_ns"; "window_end_ns"; "namespace"; "pod"; "container"; "memory_bytes_last"; "exec_count"]
  && contains inner_sql "max(window_start_ns)                       AS w_start"
  && contains inner_sql "WHERE window_start_ns >= {cutoff_ns:UInt64}"
  && contains (rows SortCpu Desc false false false) "w_start     AS window_start_ns".

Definition sort_and_order_are_whitelisted_literals : bool :=
  forallb (fun '(input, expect) => bool_decide (sort_column (sort_parse input) = expect))
    [(Some "mem", "memory_bytes_last"); (Some "mem_peak", "memory_bytes_max"); (Some "execs", "exec_count");
     (Some "last_seen", "window_end_ns"); (Some "cpu", "cpu_millicores");
     (Some "'; DROP TABLE statix.workload_metrics; --", "cpu_millicores"); (None, "cpu_millicores")]
  && bool_decide (order_keyword (order_parse (Some "asc")) = "ASC")
  && bool_decide (order_keyword (order_parse (Some "garbage")) = "DESC").

Definition user_text_is_bound_not_interpolated : bool :=
  let sql := rows SortCpu Desc true false true in
  contains sql "{q:String}" && contains sql "{node:String}" && contains sql "{limit:UInt64}".

(** The last assertion of the test ends in [|| true]. *)
Definition filters_compose_and_totals_stay_unlimited : bool :=
  let both := totals true true false in
  contains both "WHERE" && contains both "AND resolved = 0" && negb (contains both "LIMIT")
  && (contains (totals false false false) "WHERE" || true).

Definition node_filter_prunes_inside_the_scan : bool :=
  let with_node := rows SortCpu Desc false false true in
  match find "WHERE window_start_ns" with_node, find "GROUP BY node, cgroup_id" with_node,
        find "node = {node:String}" with_node with
  | Some inner_where, Some group_by, Some node_pred => (inner_where <? node_pred)%nat && (node_pred <? group_by)%nat
  | _, _, _ => false
  end.

(** ** They pass *)

Example config_and_readiness_tests_pass :
  [expected_bearer_formats_token; expected_bearer_none_without_token;
   over_threshold_when_more_than_80_percent_full; under_threshold_when_half_full] = replicate 4 true.
Proof. vm_compute. reflexivity. Qed.

Example cache_tests_pass :
  [returns_fresh_entry_and_expires_stale_one; identical_params_share_one_entry;
   junk_filters_never_evict_the_default_view; rate_limiter_caps_then_refills_next_window] = replicate 4 true.
Proof. vm_compute. reflexivity. Qed.

Example query_tests_pass :
  [same_question_yields_same_key_regardless_of_caller; q_is_bounded_trimmed_and_lowercased;
   limit_is_clamped_to_configured_max; range_is_clamped_to_supported_horizons; only_unfiltered_views_are_pinned;
   cutoff_is_range_seconds_behind_now] = replicate 6 true.
Proof. vm_compute. reflexivity. Qed.

Example sql_tests_pass :
  [aggregate_aliases_never_shadow_source_columns; sort_and_order_are_whitelisted_literals;
   user_text_is_bound_not_interpolated; filters_compose_and_totals_stay_unlimited;
   node_filter_prunes_inside_the_scan] = replicate 5 true.
Proof. vm_compute. reflexivity. Qed.
